(** * The Fifth Forth engine: a shallow embedding of [src/engine]

    The development follows the C sources file by file:
    - [fifth.h]: cells, the byte arena, the two stacks, the VM record;
    - [vm.c]: word handlers, inner interpreter, dictionary search,
      tokenizer, number parser, abort, outer interpreter;
    - [prims.c], [io.c]: the primitives;
    - [tcc.c]: the C code generator.

    Platform conventions fixed here (LP64, as on x86-64 Linux/macOS):
    [cell_t] is a 64-bit two's-complement integer, stored little-endian;
    [char] is signed.  A computation of the C code whose behaviour is
    undefined (stack under/overflow, an access outside [mem], a call
    through a dictionary slot that was never filled) is [None] here.

    What the operating system returns (stdin, files, the environment) is
    not determined by the VM: the VM carries a script of answers, one
    for each call in the order the calls are made, so that every run of
    the C program is the run of the model on some script. *)

From Stdlib Require Import ZArith List String Ascii Bool Lia DecimalString.
From Stdlib Require DecimalPos.
From stdpp Require Import base list.
Import ListNotations.
Local Open Scope Z_scope.

(** ** Cells ([cell_t], [ucell_t]) *)

Module Cell.

Definition CELL : Z := 8.                       (* sizeof(cell_t) *)
Definition modulus : Z := 2 ^ 64.
Definition half : Z := 2 ^ 63.

(** Two's-complement reduction of an integer to the range of [cell_t]. *)
Definition wrap (z : Z) : Z := (z + half) mod modulus - half.

(** The cast [(ucell_t) z]. *)
Definition ucell (z : Z) : Z := z mod modulus.

Definition is_cell (z : Z) : Prop := - half <= z < half.

Definition add (a b : Z) : Z := wrap (a + b).
Definition sub (a b : Z) : Z := wrap (a - b).
Definition mul (a b : Z) : Z := wrap (a * b).
Definition neg (a : Z) : Z := wrap (- a).

(** Forth flags: all-ones for true. *)
Definition flag (b : bool) : Z := if b then -1 else 0.

(** [vm_align]: [(n + sizeof(cell_t) - 1) & ~(sizeof(cell_t) - 1)]. *)
Definition vm_align (n : Z) : Z := wrap (Z.land (n + CELL - 1) (Z.lnot (CELL - 1))).

End Cell.

(** ** The byte arena ([uint8_t mem[MEM_SIZE]]) *)

Module Mem.
Import Cell.

Definition MEM_SIZE : Z := 1024 * 1024.

(** The arena maps every byte offset to a value in [0, 256); [calloc]
    gives the all-zero arena. *)
Definition memory : Type := Z -> Z.

Definition zero : memory := fun _ => 0.

(** Little-endian image of the low [n] bytes of [v]. *)
Fixpoint le_bytes (n : nat) (v : Z) : list Z :=
  match n with
  | O => []
  | S n' => v mod 256 :: le_bytes n' (v / 256)
  end.

Fixpoint le_value (bs : list Z) : Z :=
  match bs with
  | [] => 0
  | b :: r => b + 256 * le_value r
  end.

Fixpoint read_bytes (m : memory) (a : Z) (n : nat) : list Z :=
  match n with
  | O => []
  | S n' => m a :: read_bytes m (a + 1) n'
  end.

(** [memcpy(mem + a, bs, length bs)]. *)
Definition write_bytes (m : memory) (a : Z) (bs : list Z) : memory :=
  fun x =>
    if (a <=? x) && (x <? a + Z.of_nat (length bs))
    then nth (Z.to_nat (x - a)) bs 0
    else m x.

(** [*(cell_t * )(mem + a)] as an rvalue and as an lvalue. *)
Definition load_cell (m : memory) (a : Z) : Z := wrap (le_value (read_bytes m a 8)).
Definition store_cell (m : memory) (a v : Z) : memory := write_bytes m a (le_bytes 8 v).

Definition load_byte (m : memory) (a : Z) : Z := m a.
Definition store_byte (m : memory) (a v : Z) : memory := write_bytes m a [v mod 256].

(** An access of [n] bytes at offset [a] stays inside the array. *)
Definition in_bounds (a n : Z) : bool := (0 <=? a) && (a + n <=? MEM_SIZE).

End Mem.

(** ** The virtual machine ([fifth.h]) *)

Module VM.
Import Cell Mem.

Definition DSTACK_SIZE : Z := 256.
Definition RSTACK_SIZE : Z := 256.
Definition NAME_MAX_LEN : nat := 31.
Definition PAD_SIZE : nat := 4096.
Definition MAX_DICT : Z := 8192.
Definition PNO_SIZE : Z := 128.               (* sizeof(vm->pno_buf) *)
Definition TIB_SIZE : nat := 1024.
Definition MAX_FILES : Z := 16.
Definition PATH_MAX : Z := 4096.              (* <limits.h> on Linux *)

Definition F_IMMEDIATE : Z := 128.            (* 0x80 *)
Definition F_HIDDEN : Z := 64.                (* 0x40 *)
Definition F_LENMASK : Z := 63.               (* 0x3F *)

(** [prim_fn]: the code field of a dictionary entry is a pointer to one
    of the C functions below; the tag names the function pointed to.
    These are the functions [prims_init] and [io_init] register; no
    caller registers the words of [spawn.c] and [tcc.c]. *)
Inductive prim_fn : Type :=
| Docol | Dovar | Docon | Dodoes
| P_dup | P_drop | P_swap | P_over | P_rot | P_nip | P_tuck | P_qdup
| P_2dup | P_2drop | P_2swap | P_2over
| P_to_r | P_r_from | P_r_fetch | P_2to_r | P_2r_from | P_2r_fetch
| P_depth | P_mrot | P_pick
| P_add | P_sub | P_mul | P_div | P_mod | P_divmod | P_negate | P_abs
| P_min | P_max | P_1add | P_1sub | P_star_slash
| P_eq | P_neq | P_lt | P_gt | P_ult | P_0eq | P_0lt | P_0gt
| P_and | P_or | P_xor | P_invert | P_lshift | P_rshift
| P_fetch | P_store | P_cfetch | P_cstore | P_pstore
| P_here | P_allot | P_cells | P_cell_plus | P_comma | P_c_comma
| P_move | P_fill | P_slash_string | P_count
| P_colon | P_semicolon | P_immediate | P_lbracket | P_rbracket | P_state
| P_tick | P_bracket_tick | P_execute | P_to_body | P_create | P_find
| P_literal | P_compile_comma | P_postpone
| P_lit | P_branch | P_0branch | P_exit | P_does_runtime | P_does_compile
| P_slit
| P_if | P_else | P_then | P_begin | P_repeat | P_until | P_again
| P_do_rt | P_qdo_rt | P_loop_rt | P_ploop_rt
| P_do_compile | P_qdo_compile | P_loop_compile | P_ploop_compile
| P_i | P_j | P_unloop | P_case | P_of | P_endof | P_endcase
| P_s_quote | P_s_bs_quote | P_bracket_char | P_char | P_parse_name
| P_dot | P_u_dot | P_dot_s
| P_pno_begin | P_pno_digit | P_pno_digits | P_pno_end | P_hold | P_sign
| P_s_to_number | P_to_number
| P_noop | P_true | P_false | P_bl | P_space | P_spaces
| P_abort | P_abort_quote | P_recurse | P_user_exit | P_dot_quote
| P_dot_paren | P_while_fixed
| P_emit | P_type | P_cr | P_ro | P_wo | P_rw | P_throw | P_stdout | P_bye
| P_backslash | P_paren | P_base | P_decimal | P_hex
| P_key | P_accept
| P_open_file | P_create_file | P_close_file | P_write_file | P_read_line
| P_emit_file | P_flush_file | P_slurp_file
| P_system | P_getenv
| P_include | P_require | P_included.

(** [dict_entry_t]. *)
Record dict_entry : Type := mkEntry {
  link : Z;            (* index of previous entry, -1 = end *)
  flags : Z;           (* uint8_t: F_IMMEDIATE | F_HIDDEN | name length *)
  name : string;
  code : prim_fn;
  param : Z;           (* body offset in mem, or constant value *)
  does : Z             (* DOES> IP, -1 if unused *)
}.

(** An answer of the operating system: a number (a character, a
    [FILE] pointer, a count, a size) and a text (a line, the value of an
    environment variable, a path).  Each libc call below reads the part
    it returns. *)
Record os_answer : Type := mkAnswer { ans_num : Z; ans_text : list ascii }.

(** [struct vm].  Three fields are added for the world outside the
    struct: what has been written to [stderr], which [FILE] handles have
    been passed to [fclose], and the script of the operating system. *)
Record vm : Type := mkVM {
  dict : list dict_entry;   (* dict_entry_t dict[MAX_DICT], filled up to dict_count *)
  latest : Z;   (* index of the most recent entry, -1 when empty *)
  mem : memory;   (* uint8_t mem[MEM_SIZE] *)
  here : Z;   (* next free byte offset *)
  dstack : list Z;   (* data stack, top first; sp = DSTACK_SIZE - depth *)
  rstack : list Z;   (* return stack, top first; rsp = RSTACK_SIZE - depth *)
  ip : Z;   (* instruction pointer (byte offset into mem) *)
  w : Z;   (* current execution token *)
  state : Z;   (* 0 = interpret, -1 = compile *)
  base : Z;   (* number base *)
  tib : list ascii;   (* terminal input buffer, tib_len = length *)
  tib_pos : nat;   (* parse position in tib *)
  input : list Z;   (* open source handles input[input_depth..1], innermost first *)
  out : string;   (* bytes written to vm->out so far *)
  pno : list ascii;   (* pno_buf[pno_pos..127] *)
  running : bool;   (* cleared by bye *)
  xt_lit : Z;
  xt_branch : Z;
  xt_0branch : Z;
  xt_exit : Z;
  xt_slit : Z;
  xt_do : Z;
  xt_qdo : Z;
  xt_loop : Z;
  xt_ploop : Z;
  xt_does : Z;
  err : string;   (* bytes written to stderr so far *)
  closed : list Z;   (* handles passed to fclose so far, latest first *)
  files : list Z;   (* FILE *files[MAX_FILES], 0 for NULL *)
  loaded : list (list ascii);   (* loaded_files[0..loaded_count) *)
  os : list os_answer   (* the answers the operating system will give, in order *)
}.

(** Field updates ([vm->f = v]). *)
Definition set_dict (v : list dict_entry) (s : vm) : vm :=
  mkVM
    v (latest s) (mem s) (here s) (dstack s) (rstack s) (ip s) (w s) (state
    s) (base s) (tib s) (tib_pos s) (input s) (out s) (pno s) (running s)
    (xt_lit s) (xt_branch s) (xt_0branch s) (xt_exit s) (xt_slit s) (xt_do
    s) (xt_qdo s) (xt_loop s) (xt_ploop s) (xt_does s) (err s) (closed s)
    (files s) (loaded s) (os s).
Definition set_latest (v : Z) (s : vm) : vm :=
  mkVM
    (dict s) v (mem s) (here s) (dstack s) (rstack s) (ip s) (w s) (state s)
    (base s) (tib s) (tib_pos s) (input s) (out s) (pno s) (running s)
    (xt_lit s) (xt_branch s) (xt_0branch s) (xt_exit s) (xt_slit s) (xt_do
    s) (xt_qdo s) (xt_loop s) (xt_ploop s) (xt_does s) (err s) (closed s)
    (files s) (loaded s) (os s).
Definition set_mem (v : memory) (s : vm) : vm :=
  mkVM
    (dict s) (latest s) v (here s) (dstack s) (rstack s) (ip s) (w s) (state
    s) (base s) (tib s) (tib_pos s) (input s) (out s) (pno s) (running s)
    (xt_lit s) (xt_branch s) (xt_0branch s) (xt_exit s) (xt_slit s) (xt_do
    s) (xt_qdo s) (xt_loop s) (xt_ploop s) (xt_does s) (err s) (closed s)
    (files s) (loaded s) (os s).
Definition set_here (v : Z) (s : vm) : vm :=
  mkVM
    (dict s) (latest s) (mem s) v (dstack s) (rstack s) (ip s) (w s) (state
    s) (base s) (tib s) (tib_pos s) (input s) (out s) (pno s) (running s)
    (xt_lit s) (xt_branch s) (xt_0branch s) (xt_exit s) (xt_slit s) (xt_do
    s) (xt_qdo s) (xt_loop s) (xt_ploop s) (xt_does s) (err s) (closed s)
    (files s) (loaded s) (os s).
Definition set_dstack (v : list Z) (s : vm) : vm :=
  mkVM
    (dict s) (latest s) (mem s) (here s) v (rstack s) (ip s) (w s) (state s)
    (base s) (tib s) (tib_pos s) (input s) (out s) (pno s) (running s)
    (xt_lit s) (xt_branch s) (xt_0branch s) (xt_exit s) (xt_slit s) (xt_do
    s) (xt_qdo s) (xt_loop s) (xt_ploop s) (xt_does s) (err s) (closed s)
    (files s) (loaded s) (os s).
Definition set_rstack (v : list Z) (s : vm) : vm :=
  mkVM
    (dict s) (latest s) (mem s) (here s) (dstack s) v (ip s) (w s) (state s)
    (base s) (tib s) (tib_pos s) (input s) (out s) (pno s) (running s)
    (xt_lit s) (xt_branch s) (xt_0branch s) (xt_exit s) (xt_slit s) (xt_do
    s) (xt_qdo s) (xt_loop s) (xt_ploop s) (xt_does s) (err s) (closed s)
    (files s) (loaded s) (os s).
Definition set_ip (v : Z) (s : vm) : vm :=
  mkVM
    (dict s) (latest s) (mem s) (here s) (dstack s) (rstack s) v (w s)
    (state s) (base s) (tib s) (tib_pos s) (input s) (out s) (pno s)
    (running s) (xt_lit s) (xt_branch s) (xt_0branch s) (xt_exit s) (xt_slit
    s) (xt_do s) (xt_qdo s) (xt_loop s) (xt_ploop s) (xt_does s) (err s)
    (closed s) (files s) (loaded s) (os s).
Definition set_w (v : Z) (s : vm) : vm :=
  mkVM
    (dict s) (latest s) (mem s) (here s) (dstack s) (rstack s) (ip s) v
    (state s) (base s) (tib s) (tib_pos s) (input s) (out s) (pno s)
    (running s) (xt_lit s) (xt_branch s) (xt_0branch s) (xt_exit s) (xt_slit
    s) (xt_do s) (xt_qdo s) (xt_loop s) (xt_ploop s) (xt_does s) (err s)
    (closed s) (files s) (loaded s) (os s).
Definition set_state (v : Z) (s : vm) : vm :=
  mkVM
    (dict s) (latest s) (mem s) (here s) (dstack s) (rstack s) (ip s) (w s)
    v (base s) (tib s) (tib_pos s) (input s) (out s) (pno s) (running s)
    (xt_lit s) (xt_branch s) (xt_0branch s) (xt_exit s) (xt_slit s) (xt_do
    s) (xt_qdo s) (xt_loop s) (xt_ploop s) (xt_does s) (err s) (closed s)
    (files s) (loaded s) (os s).
Definition set_base (v : Z) (s : vm) : vm :=
  mkVM
    (dict s) (latest s) (mem s) (here s) (dstack s) (rstack s) (ip s) (w s)
    (state s) v (tib s) (tib_pos s) (input s) (out s) (pno s) (running s)
    (xt_lit s) (xt_branch s) (xt_0branch s) (xt_exit s) (xt_slit s) (xt_do
    s) (xt_qdo s) (xt_loop s) (xt_ploop s) (xt_does s) (err s) (closed s)
    (files s) (loaded s) (os s).
Definition set_tib (v : list ascii) (s : vm) : vm :=
  mkVM
    (dict s) (latest s) (mem s) (here s) (dstack s) (rstack s) (ip s) (w s)
    (state s) (base s) v (tib_pos s) (input s) (out s) (pno s) (running s)
    (xt_lit s) (xt_branch s) (xt_0branch s) (xt_exit s) (xt_slit s) (xt_do
    s) (xt_qdo s) (xt_loop s) (xt_ploop s) (xt_does s) (err s) (closed s)
    (files s) (loaded s) (os s).
Definition set_tib_pos (v : nat) (s : vm) : vm :=
  mkVM
    (dict s) (latest s) (mem s) (here s) (dstack s) (rstack s) (ip s) (w s)
    (state s) (base s) (tib s) v (input s) (out s) (pno s) (running s)
    (xt_lit s) (xt_branch s) (xt_0branch s) (xt_exit s) (xt_slit s) (xt_do
    s) (xt_qdo s) (xt_loop s) (xt_ploop s) (xt_does s) (err s) (closed s)
    (files s) (loaded s) (os s).
Definition set_input (v : list Z) (s : vm) : vm :=
  mkVM
    (dict s) (latest s) (mem s) (here s) (dstack s) (rstack s) (ip s) (w s)
    (state s) (base s) (tib s) (tib_pos s) v (out s) (pno s) (running s)
    (xt_lit s) (xt_branch s) (xt_0branch s) (xt_exit s) (xt_slit s) (xt_do
    s) (xt_qdo s) (xt_loop s) (xt_ploop s) (xt_does s) (err s) (closed s)
    (files s) (loaded s) (os s).
Definition set_out (v : string) (s : vm) : vm :=
  mkVM
    (dict s) (latest s) (mem s) (here s) (dstack s) (rstack s) (ip s) (w s)
    (state s) (base s) (tib s) (tib_pos s) (input s) v (pno s) (running s)
    (xt_lit s) (xt_branch s) (xt_0branch s) (xt_exit s) (xt_slit s) (xt_do
    s) (xt_qdo s) (xt_loop s) (xt_ploop s) (xt_does s) (err s) (closed s)
    (files s) (loaded s) (os s).
Definition set_pno (v : list ascii) (s : vm) : vm :=
  mkVM
    (dict s) (latest s) (mem s) (here s) (dstack s) (rstack s) (ip s) (w s)
    (state s) (base s) (tib s) (tib_pos s) (input s) (out s) v (running s)
    (xt_lit s) (xt_branch s) (xt_0branch s) (xt_exit s) (xt_slit s) (xt_do
    s) (xt_qdo s) (xt_loop s) (xt_ploop s) (xt_does s) (err s) (closed s)
    (files s) (loaded s) (os s).
Definition set_running (v : bool) (s : vm) : vm :=
  mkVM
    (dict s) (latest s) (mem s) (here s) (dstack s) (rstack s) (ip s) (w s)
    (state s) (base s) (tib s) (tib_pos s) (input s) (out s) (pno s) v
    (xt_lit s) (xt_branch s) (xt_0branch s) (xt_exit s) (xt_slit s) (xt_do
    s) (xt_qdo s) (xt_loop s) (xt_ploop s) (xt_does s) (err s) (closed s)
    (files s) (loaded s) (os s).
Definition set_xt_lit (v : Z) (s : vm) : vm :=
  mkVM
    (dict s) (latest s) (mem s) (here s) (dstack s) (rstack s) (ip s) (w s)
    (state s) (base s) (tib s) (tib_pos s) (input s) (out s) (pno s)
    (running s) v (xt_branch s) (xt_0branch s) (xt_exit s) (xt_slit s)
    (xt_do s) (xt_qdo s) (xt_loop s) (xt_ploop s) (xt_does s) (err s)
    (closed s) (files s) (loaded s) (os s).
Definition set_xt_branch (v : Z) (s : vm) : vm :=
  mkVM
    (dict s) (latest s) (mem s) (here s) (dstack s) (rstack s) (ip s) (w s)
    (state s) (base s) (tib s) (tib_pos s) (input s) (out s) (pno s)
    (running s) (xt_lit s) v (xt_0branch s) (xt_exit s) (xt_slit s) (xt_do
    s) (xt_qdo s) (xt_loop s) (xt_ploop s) (xt_does s) (err s) (closed s)
    (files s) (loaded s) (os s).
Definition set_xt_0branch (v : Z) (s : vm) : vm :=
  mkVM
    (dict s) (latest s) (mem s) (here s) (dstack s) (rstack s) (ip s) (w s)
    (state s) (base s) (tib s) (tib_pos s) (input s) (out s) (pno s)
    (running s) (xt_lit s) (xt_branch s) v (xt_exit s) (xt_slit s) (xt_do s)
    (xt_qdo s) (xt_loop s) (xt_ploop s) (xt_does s) (err s) (closed s)
    (files s) (loaded s) (os s).
Definition set_xt_exit (v : Z) (s : vm) : vm :=
  mkVM
    (dict s) (latest s) (mem s) (here s) (dstack s) (rstack s) (ip s) (w s)
    (state s) (base s) (tib s) (tib_pos s) (input s) (out s) (pno s)
    (running s) (xt_lit s) (xt_branch s) (xt_0branch s) v (xt_slit s) (xt_do
    s) (xt_qdo s) (xt_loop s) (xt_ploop s) (xt_does s) (err s) (closed s)
    (files s) (loaded s) (os s).
Definition set_xt_slit (v : Z) (s : vm) : vm :=
  mkVM
    (dict s) (latest s) (mem s) (here s) (dstack s) (rstack s) (ip s) (w s)
    (state s) (base s) (tib s) (tib_pos s) (input s) (out s) (pno s)
    (running s) (xt_lit s) (xt_branch s) (xt_0branch s) (xt_exit s) v (xt_do
    s) (xt_qdo s) (xt_loop s) (xt_ploop s) (xt_does s) (err s) (closed s)
    (files s) (loaded s) (os s).
Definition set_xt_do (v : Z) (s : vm) : vm :=
  mkVM
    (dict s) (latest s) (mem s) (here s) (dstack s) (rstack s) (ip s) (w s)
    (state s) (base s) (tib s) (tib_pos s) (input s) (out s) (pno s)
    (running s) (xt_lit s) (xt_branch s) (xt_0branch s) (xt_exit s) (xt_slit
    s) v (xt_qdo s) (xt_loop s) (xt_ploop s) (xt_does s) (err s) (closed s)
    (files s) (loaded s) (os s).
Definition set_xt_qdo (v : Z) (s : vm) : vm :=
  mkVM
    (dict s) (latest s) (mem s) (here s) (dstack s) (rstack s) (ip s) (w s)
    (state s) (base s) (tib s) (tib_pos s) (input s) (out s) (pno s)
    (running s) (xt_lit s) (xt_branch s) (xt_0branch s) (xt_exit s) (xt_slit
    s) (xt_do s) v (xt_loop s) (xt_ploop s) (xt_does s) (err s) (closed s)
    (files s) (loaded s) (os s).
Definition set_xt_loop (v : Z) (s : vm) : vm :=
  mkVM
    (dict s) (latest s) (mem s) (here s) (dstack s) (rstack s) (ip s) (w s)
    (state s) (base s) (tib s) (tib_pos s) (input s) (out s) (pno s)
    (running s) (xt_lit s) (xt_branch s) (xt_0branch s) (xt_exit s) (xt_slit
    s) (xt_do s) (xt_qdo s) v (xt_ploop s) (xt_does s) (err s) (closed s)
    (files s) (loaded s) (os s).
Definition set_xt_ploop (v : Z) (s : vm) : vm :=
  mkVM
    (dict s) (latest s) (mem s) (here s) (dstack s) (rstack s) (ip s) (w s)
    (state s) (base s) (tib s) (tib_pos s) (input s) (out s) (pno s)
    (running s) (xt_lit s) (xt_branch s) (xt_0branch s) (xt_exit s) (xt_slit
    s) (xt_do s) (xt_qdo s) (xt_loop s) v (xt_does s) (err s) (closed s)
    (files s) (loaded s) (os s).
Definition set_xt_does (v : Z) (s : vm) : vm :=
  mkVM
    (dict s) (latest s) (mem s) (here s) (dstack s) (rstack s) (ip s) (w s)
    (state s) (base s) (tib s) (tib_pos s) (input s) (out s) (pno s)
    (running s) (xt_lit s) (xt_branch s) (xt_0branch s) (xt_exit s) (xt_slit
    s) (xt_do s) (xt_qdo s) (xt_loop s) (xt_ploop s) v (err s) (closed s)
    (files s) (loaded s) (os s).
Definition set_err (v : string) (s : vm) : vm :=
  mkVM
    (dict s) (latest s) (mem s) (here s) (dstack s) (rstack s) (ip s) (w s)
    (state s) (base s) (tib s) (tib_pos s) (input s) (out s) (pno s)
    (running s) (xt_lit s) (xt_branch s) (xt_0branch s) (xt_exit s) (xt_slit
    s) (xt_do s) (xt_qdo s) (xt_loop s) (xt_ploop s) (xt_does s) v (closed
    s) (files s) (loaded s) (os s).
Definition set_closed (v : list Z) (s : vm) : vm :=
  mkVM
    (dict s) (latest s) (mem s) (here s) (dstack s) (rstack s) (ip s) (w s)
    (state s) (base s) (tib s) (tib_pos s) (input s) (out s) (pno s)
    (running s) (xt_lit s) (xt_branch s) (xt_0branch s) (xt_exit s) (xt_slit
    s) (xt_do s) (xt_qdo s) (xt_loop s) (xt_ploop s) (xt_does s) (err s) v
    (files s) (loaded s) (os s).
Definition set_files (v : list Z) (s : vm) : vm :=
  mkVM
    (dict s) (latest s) (mem s) (here s) (dstack s) (rstack s) (ip s) (w s)
    (state s) (base s) (tib s) (tib_pos s) (input s) (out s) (pno s)
    (running s) (xt_lit s) (xt_branch s) (xt_0branch s) (xt_exit s) (xt_slit
    s) (xt_do s) (xt_qdo s) (xt_loop s) (xt_ploop s) (xt_does s) (err s)
    (closed s) v (loaded s) (os s).
Definition set_loaded (v : list (list ascii)) (s : vm) : vm :=
  mkVM
    (dict s) (latest s) (mem s) (here s) (dstack s) (rstack s) (ip s) (w s)
    (state s) (base s) (tib s) (tib_pos s) (input s) (out s) (pno s)
    (running s) (xt_lit s) (xt_branch s) (xt_0branch s) (xt_exit s) (xt_slit
    s) (xt_do s) (xt_qdo s) (xt_loop s) (xt_ploop s) (xt_does s) (err s)
    (closed s) (files s) v (os s).
Definition set_os (v : list os_answer) (s : vm) : vm :=
  mkVM
    (dict s) (latest s) (mem s) (here s) (dstack s) (rstack s) (ip s) (w s)
    (state s) (base s) (tib s) (tib_pos s) (input s) (out s) (pno s)
    (running s) (xt_lit s) (xt_branch s) (xt_0branch s) (xt_exit s) (xt_slit
    s) (xt_do s) (xt_qdo s) (xt_loop s) (xt_ploop s) (xt_does s) (err s)
    (closed s) (files s) (loaded s) v.

(** *** The computation type of a primitive

    A C function [void f(vm_t * vm)] is a state transformer that may hit
    undefined behaviour; one that returns a value returns it alongside
    the new state. *)
Definition M (A : Type) : Type := vm -> option (A * vm).

Definition ret {A} (a : A) : M A := fun s => Some (a, s).
Definition bind {A B} (m : M A) (k : A -> M B) : M B :=
  fun s => match m s with
           | Some (a, s') => k a s'
           | None => None
           end.
Definition undefined {A} : M A := fun _ => None.
Definition gets {A} (f : vm -> A) : M A := fun s => Some (f s, s).
Definition modify (f : vm -> vm) : M unit := fun s => Some (tt, f s).
Definition when (b : bool) (m : M unit) : M unit := if b then m else ret tt.

(** Run a procedure for its effect on the state. *)
Definition exec (m : M unit) (s : vm) : option vm :=
  match m s with Some (_, s') => Some s' | None => None end.

Declare Scope vm_scope.
Delimit Scope vm_scope with vm.
Notation "x <- c1 ;; c2" := (bind c1 (fun x => c2))
  (at level 100, c1 at next level, right associativity) : vm_scope.
Notation "c1 ;; c2" := (bind c1 (fun _ => c2))
  (at level 100, right associativity) : vm_scope.
Local Open Scope vm_scope.

(** *** Stacks *)

Definition depth (s : vm) : Z := Z.of_nat (length (dstack s)).
Definition rdepth (s : vm) : Z := Z.of_nat (length (rstack s)).

(** The return stack pointer as an index into [rstack[]]. *)
Definition rsp (s : vm) : Z := RSTACK_SIZE - rdepth s.

Definition push (v : Z) : M unit := fun s =>
  if depth s <? DSTACK_SIZE then Some (tt, set_dstack (v :: dstack s) s) else None.
Definition pop : M Z := fun s =>
  match dstack s with
  | v :: r => Some (v, set_dstack r s)
  | [] => None
  end.
Definition tos : M Z := fun s =>
  match dstack s with v :: _ => Some (v, s) | [] => None end.
Definition rpush (v : Z) : M unit := fun s =>
  if rdepth s <? RSTACK_SIZE then Some (tt, set_rstack (v :: rstack s) s) else None.
Definition rpop : M Z := fun s =>
  match rstack s with
  | v :: r => Some (v, set_rstack r s)
  | [] => None
  end.
Definition rtos : M Z := fun s =>
  match rstack s with v :: _ => Some (v, s) | [] => None end.

(** The next answer of the script.  When the script has run out, the
    answer is the one of a call that fails. *)
Definition no_answer : os_answer := mkAnswer 0 [].
Definition os_next : M os_answer := fun s =>
  match os s with
  | a :: r => Some (a, set_os r s)
  | [] => Some (no_answer, s)
  end.

(** [vm->sp[n]] and [vm->rsp[n]] as rvalues.  For a negative [n] that
    stays inside [dstack[]], the cell read is one that an earlier push
    left below the stack pointer; the model does not keep these cells,
    and takes the value from the script as it takes any other input. *)
Definition sp_at (n : Z) : M Z := fun s =>
  if n <? 0 then
    if - n <=? DSTACK_SIZE - depth s
    then match os_next s with
         | Some (a, s') => Some (wrap (ans_num a), s')
         | None => None
         end
    else None
  else match nth_error (dstack s) (Z.to_nat n) with
       | Some v => Some (v, s)
       | None => None
       end.
Definition rsp_at (n : Z) : M Z := fun s =>
  if n <? 0 then None
  else match nth_error (rstack s) (Z.to_nat n) with
       | Some v => Some (v, s)
       | None => None
       end.

(** [*vm->sp = f( *vm->sp)]: update the top of stack in place. *)
Definition set_tos (f : Z -> Z) : M unit := fun s =>
  match dstack s with
  | a :: r => Some (tt, set_dstack (f a :: r) s)
  | [] => None
  end.

(** *** Memory access *)

Definition mem_fetch (addr : Z) : M Z := fun s =>
  if in_bounds addr CELL then Some (load_cell (mem s) addr, s) else None.
Definition mem_store (addr val : Z) : M unit := fun s =>
  if in_bounds addr CELL then Some (tt, set_mem (store_cell (mem s) addr val) s) else None.
Definition mem_c_fetch (addr : Z) : M Z := fun s =>
  if in_bounds addr 1 then Some (load_byte (mem s) addr, s) else None.
Definition mem_c_store (addr val : Z) : M unit := fun s =>
  if in_bounds addr 1 then Some (tt, set_mem (store_byte (mem s) addr val) s) else None.

(** [memcpy(vm->mem + addr, bs, n)] and reading [n] bytes at [addr]. *)
Definition mem_write (addr : Z) (bs : list Z) : M unit := fun s =>
  if in_bounds addr (Z.of_nat (length bs))
  then Some (tt, set_mem (write_bytes (mem s) addr bs) s) else None.
Definition mem_read (addr n : Z) : M (list Z) := fun s =>
  if (0 <=? n) && in_bounds addr n
  then Some (read_bytes (mem s) addr (Z.to_nat n), s) else None.

Definition vm_compile_cell (val : Z) : M unit :=
  h <- gets here ;;
  mem_store h val ;;
  modify (set_here (add h CELL)).

Definition vm_fetch_ip : M Z :=
  i <- gets ip ;;
  val <- mem_fetch i ;;
  modify (set_ip (add i CELL)) ;;
  ret val.

(** *** Characters *)

Definition byte_of_char (c : ascii) : Z := Z.of_nat (nat_of_ascii c).
Definition char_of_byte (b : Z) : ascii := ascii_of_nat (Z.to_nat (b mod 256)).
(** The value of a (signed) [char]. *)
Definition schar (c : ascii) : Z :=
  let b := byte_of_char c in if b <? 128 then b else b - 256.

Definition bytes_of (cs : list ascii) : list Z := map byte_of_char cs.
Definition chars_of (bs : list Z) : list ascii := map char_of_byte bs.

(** [fprintf("%ld")] and [fprintf("%lu")]. *)
Definition fmt_ld (z : Z) : string := NilZero.string_of_int (Z.to_int z).
Definition fmt_lu (z : Z) : string := NilZero.string_of_uint (N.to_uint (Z.to_N (ucell z))).

Definition newline : string := String (ascii_of_nat 10) EmptyString.
Definition dquote : ascii := ascii_of_nat 34.
Definition dq : string := String dquote EmptyString.

Definition print_out (t : string) : M unit := modify (fun s => set_out (out s ++ t)%string s).
Definition print_err (t : string) : M unit := modify (fun s => set_err (err s ++ t)%string s).

(** *** C strings and lines *)

(** The characters of a buffer before its first NUL ([strlen]). *)
Fixpoint cstring (cs : list ascii) : list ascii :=
  match cs with
  | [] => []
  | c :: r => if Ascii.eqb c Ascii.zero then [] else c :: cstring r
  end.

(** [while (len > 0 && (line[len-1] == LF || line[len-1] == CR)) line[--len] = 0]. *)
Fixpoint drop_eol (l : list ascii) : list ascii :=
  match l with
  | c :: r =>
      if Ascii.eqb c (ascii_of_nat 10) || Ascii.eqb c (ascii_of_nat 13) then drop_eol r else l
  | [] => []
  end.
Definition chomp (line : list ascii) : list ascii := rev (drop_eol (rev line)).

(** What [fgets] takes from the characters a stream holds: at most
    [room] characters, up to and including the first newline.  The
    result is the line read and the characters left unread. *)
Fixpoint fgets_line (room : nat) (cs : list ascii) : list ascii * list ascii :=
  match room, cs with
  | S room', c :: r =>
      if Ascii.eqb c (ascii_of_nat 10) then ([c], r)
      else let '(l, rest) := fgets_line room' r in (c :: l, rest)
  | _, _ => ([], cs)
  end.

(** *** libc calls answered by the operating system

    The arguments that only the operating system interprets (a path, a
    mode, a stream) do not enter the result: the script says what the
    call returns. *)

(** [fgetc(stdin)]: a byte, or [EOF]. *)
Definition c_fgetc : M Z :=
  a <- os_next ;;
  let c := ans_num a in
  ret (if (0 <=? c) && (c <? 256) then c else -1).

(** [fgets(buf, size, stream)]: [None] is a NULL return (end of file, an
    error, or no room); otherwise the characters stored in front of the
    terminating NUL. *)
Definition c_fgets (size : Z) : M (option (list ascii)) :=
  if size <=? 0 then ret None
  else if size =? 1 then ret (Some [])
  else
    a <- os_next ;;
    match ans_text a with
    | [] => ret None
    | cs => ret (Some (fst (fgets_line (Z.to_nat (size - 1)) cs)))
    end.

(** [fopen(path, mode)]: the [FILE] pointer, 0 for NULL. *)
Definition c_fopen (path : list ascii) (mode : string) : M Z :=
  a <- os_next ;; ret (ans_num a).

(** [fclose(f)]. *)
Definition c_fclose (f : Z) : M unit :=
  modify (fun s => set_closed (f :: closed s) s).

(** [fwrite(p, 1, n, f)]: the number of bytes written, at most [n]. *)
Definition c_fwrite (n : Z) : M Z :=
  a <- os_next ;; ret (Z.max 0 (Z.min n (ans_num a))).

(** [fseek(f, 0, SEEK_END); ftell(f)]: a [long]. *)
Definition c_ftell : M Z :=
  a <- os_next ;; ret (wrap (ans_num a)).

(** [fread(p, 1, n, f)]: the bytes read, at most [n]. *)
Definition c_fread (n : Z) : M (list Z) :=
  a <- os_next ;; ret (firstn (Z.to_nat n) (map byte_of_char (ans_text a))).

(** [getenv(name)]: [None] is NULL. *)
Definition c_getenv (name : list ascii) : M (option (list ascii)) :=
  a <- os_next ;;
  ret (if ans_num a =? 0 then None else Some (cstring (ans_text a))).

(** [realpath(path, resolved)]: [None] is NULL, otherwise the resolved
    path, which fits a buffer of [PATH_MAX] characters. *)
Definition c_realpath (path : list ascii) : M (option (list ascii)) :=
  a <- os_next ;;
  ret (if ans_num a =? 0 then None
       else Some (firstn (Z.to_nat (PATH_MAX - 1)) (cstring (ans_text a)))).

(** ** [vm.c]: word handlers, dictionary, parsing, abort *)

(** [vm->dict[i]] as an rvalue; a slot at or above [dict_count] was never
    filled (its code pointer is null). *)
Definition dict_at (i : Z) : M dict_entry := fun s =>
  if i <? 0 then None
  else match dict s !! Z.to_nat i with
       | Some e => Some (e, s)
       | None => None
       end.

(** [vm->dict[i].field = ...]. *)
Definition dict_update (i : Z) (f : dict_entry -> dict_entry) : M unit := fun s =>
  if i <? 0 then None
  else match dict s !! Z.to_nat i with
       | Some e => Some (tt, set_dict (<[Z.to_nat i := f e]> (dict s)) s)
       | None => None
       end.

Definition set_flags (v : Z) (e : dict_entry) : dict_entry :=
  mkEntry (link e) v (name e) (code e) (param e) (does e).
Definition set_code (v : prim_fn) (e : dict_entry) : dict_entry :=
  mkEntry (link e) (flags e) (name e) v (param e) (does e).
Definition set_param (v : Z) (e : dict_entry) : dict_entry :=
  mkEntry (link e) (flags e) (name e) (code e) v (does e).
Definition set_does (v : Z) (e : dict_entry) : dict_entry :=
  mkEntry (link e) (flags e) (name e) (code e) (param e) v.

(** [idx = vm->dict_count++] followed by the stores that fill the slot. *)
Definition dict_append (e : dict_entry) : M Z := fun s =>
  let idx := Z.of_nat (length (dict s)) in
  if idx <? MAX_DICT then Some (idx, set_dict (dict s ++ [e]) s) else None.

Definition docol : M unit :=
  i <- gets ip ;;
  rpush i ;;
  x <- gets w ;;
  e <- dict_at x ;;
  modify (set_ip (param e)).

Definition dovar : M unit :=
  x <- gets w ;;
  e <- dict_at x ;;
  push (param e).

Definition docon : M unit :=
  x <- gets w ;;
  e <- dict_at x ;;
  push (param e).

Definition dodoes : M unit :=
  x <- gets w ;;
  e <- dict_at x ;;
  push (param e) ;;
  i <- gets ip ;;
  rpush i ;;
  modify (set_ip (does e)).

(** *** Dictionary search *)

(** [tolower] in the C locale. *)
Definition tolower (c : ascii) : ascii :=
  let n := nat_of_ascii c in
  if (65 <=? n)%nat && (n <=? 90)%nat then ascii_of_nat (n + 32) else c.

(** [strncasecmp(a, b, n) == 0]. *)
Fixpoint strncasecmp_eq (a b : string) (n : nat) : bool :=
  match n with
  | O => true
  | S n' =>
      match a, b with
      | EmptyString, EmptyString => true
      | String x a', String y b' =>
          Ascii.eqb (tolower x) (tolower y) && strncasecmp_eq a' b' n'
      | _, _ => false
      end
  end.

Definition is_hidden (e : dict_entry) : bool := negb (Z.land (flags e) F_HIDDEN =? 0).
Definition is_immediate (e : dict_entry) : bool := negb (Z.land (flags e) F_IMMEDIATE =? 0).
Definition entry_len (e : dict_entry) : Z := Z.land (flags e) F_LENMASK.

(** One test of the loop body of [vm_find]. *)
Definition entry_matches (e : dict_entry) (nm : string) : bool :=
  negb (is_hidden e)
  && (entry_len e =? Z.of_nat (String.length nm))
  && strncasecmp_eq (name e) nm (String.length nm).

(** The loop [for (i = ...; i >= 0; i = dict[i].link)]; the result is the
    index found or [-1].  The recursion is bounded by [fuel], one unit
    per entry visited. *)
Fixpoint vm_find_from (fuel : nat) (d : list dict_entry) (nm : string) (i : Z)
  : option Z :=
  if i <? 0 then Some (-1)
  else match fuel with
       | O => None
       | S fuel' =>
           match d !! Z.to_nat i with
           | None => None
           | Some e =>
               if entry_matches e nm then Some i
               else vm_find_from fuel' d nm (link e)
           end
       end.

Definition vm_find (nm : string) : M Z := fun s =>
  match vm_find_from (S (length (dict s))) (dict s) nm (latest s) with
  | Some i => Some (i, s)
  | None => None
  end.

(** [vm_add_prim], [vm_add_constant]. *)
Definition vm_add_prim (nm : string) (fn : prim_fn) (immediate : bool) : M Z :=
  l <- gets latest ;;
  let len := Z.of_nat (Nat.min (String.length nm) NAME_MAX_LEN) in
  idx <- dict_append
           (mkEntry l (Z.lor len (if immediate then F_IMMEDIATE else 0))
                    (substring 0 NAME_MAX_LEN nm) fn 0 (-1)) ;;
  modify (set_latest idx) ;;
  ret idx.

Definition vm_add_constant (nm : string) (value : Z) : M unit :=
  idx <- vm_add_prim nm Docon false ;;
  dict_update idx (set_param value).

(** *** Input parsing *)

Fixpoint skip_blanks (cs : list ascii) : nat :=
  match cs with
  | c :: r => if schar c <=? 32 then S (skip_blanks r) else O
  | [] => O
  end.

Fixpoint scan_word (cs : list ascii) (room : nat) : list ascii :=
  match room, cs with
  | S room', c :: r => if 32 <? schar c then c :: scan_word r room' else []
  | _, _ => []
  end.

(** [vm_word]: skip whitespace, copy the next word (at most
    [NAME_MAX_LEN] characters) and return it. *)
Definition vm_word : M string := fun s =>
  let rest := skipn (tib_pos s) (tib s) in
  let k := skip_blanks rest in
  let wd := scan_word (skipn k rest) NAME_MAX_LEN in
  Some (string_of_list_ascii wd, set_tib_pos (tib_pos s + k + length wd)%nat s).

Fixpoint scan_until (delim : ascii) (cs : list ascii) (room : nat) : list ascii :=
  match room, cs with
  | S room', c :: r => if Ascii.eqb c delim then [] else c :: scan_until delim r room'
  | _, _ => []
  end.

(** [vm_parse]: skip one leading space, copy up to the delimiter, step
    over the character the scan stopped at. *)
Definition vm_parse (delim : ascii) : M (list ascii) := fun s =>
  let k0 := match skipn (tib_pos s) (tib s) with
            | c :: _ => if Ascii.eqb c " " then 1%nat else 0%nat
            | [] => 0%nat
            end in
  let buf := scan_until delim (skipn (tib_pos s + k0) (tib s)) (PAD_SIZE - 1) in
  let pos := (tib_pos s + k0 + length buf)%nat in
  let pos' := if (pos <? length (tib s))%nat then S pos else pos in
  Some (buf, set_tib_pos pos' s).


(** *** Number parsing *)

(** The digit test of [vm_try_number] and [>number]. *)
Definition digit_of (c : ascii) : option Z :=
  let v := schar c in
  if (48 <=? v) && (v <=? 57) then Some (v - 48)                 (* '0'..'9' *)
  else if (97 <=? v) && (v <=? 122) then Some (v - 97 + 10)      (* 'a'..'z' *)
  else if (65 <=? v) && (v <=? 90) then Some (v - 65 + 10)       (* 'A'..'Z' *)
  else None.

(** The digit loop: [val = val * base + digit]. *)
Fixpoint accumulate (b : Z) (cs : list ascii) (val : Z) : option Z :=
  match cs with
  | [] => Some val
  | c :: r =>
      match digit_of c with
      | None => None
      | Some d => if b <=? d then None else accumulate b r (add (mul val b) d)
      end
  end.

Definition char_at (s : list ascii) (i : nat) : ascii := nth i s Ascii.zero.

(** [vm_try_number(vm, s, len, &result)]: [Some v] is a [true] return
    with [*result = v].  The VM is read for its base and not changed. *)
Definition vm_try_number (v : vm) (s : list ascii) : option Z :=
  let len := length s in
  if (len =? 0)%nat then None
  else
    let '(negative, i) :=
      if Ascii.eqb (char_at s 0) "-" && (1 <? len)%nat then (true, 1%nat)
      else if Ascii.eqb (char_at s 0) "+" && (1 <? len)%nat then (false, 1%nat)
      else (false, 0%nat) in
    let vbase := base v in
    let '(b, i) :=
      if (i <? len)%nat && Ascii.eqb (char_at s i) "$" then (16, S i)
      else if (i <? len)%nat && Ascii.eqb (char_at s i) "#" then (10, S i)
      else if (i <? len)%nat && Ascii.eqb (char_at s i) "%" then (2, S i)
      else if (i + 2 <? len)%nat && Ascii.eqb (char_at s i) "0"
              && (Ascii.eqb (char_at s (i + 1)) "x" || Ascii.eqb (char_at s (i + 1)) "X")
           then (16, (i + 2)%nat)
      else (vbase, i) in
    if (len <=? i)%nat then None
    else match accumulate b (skipn i s) 0 with
         | Some val => Some (if negative : bool then neg val else val)
         | None => None
         end.

(** *** Abort *)

(** [while (input_depth > 0) { fclose(input[input_depth]); input_depth--; }] *)
Fixpoint close_inputs (hs : list Z) (log : list Z) : list Z :=
  match hs with
  | [] => log
  | h :: r => close_inputs r (h :: log)
  end.

Definition vm_abort (msg : string) : M unit :=
  print_err ("ABORT: " ++ msg ++ newline)%string ;;
  modify (set_dstack []) ;;
  modify (set_rstack []) ;;
  modify (set_state 0) ;;
  modify (fun s => set_input [] (set_closed (close_inputs (input s) (closed s)) s)).

End VM.

(** ** [prims.c]: the primitives *)

Module Prims.
Import Cell Mem VM.
Local Open Scope vm_scope.

(** *** Stack operations *)

Definition p_dup : M unit := a <- tos ;; push a.
Definition p_drop : M unit := _ <- pop ;; ret tt.
Definition p_swap : M unit := a <- pop ;; b <- pop ;; push a ;; push b.
Definition p_over : M unit := x <- sp_at 1 ;; push x.
Definition p_rot : M unit :=
  c <- pop ;; b <- pop ;; a <- pop ;; push b ;; push c ;; push a.
Definition p_nip : M unit := a <- pop ;; _ <- pop ;; push a.
Definition p_tuck : M unit := a <- pop ;; b <- pop ;; push a ;; push b ;; push a.
Definition p_qdup : M unit := a <- tos ;; when (negb (a =? 0)) (b <- tos ;; push b).
Definition p_2dup : M unit := x <- sp_at 1 ;; push x ;; y <- sp_at 1 ;; push y.
Definition p_2drop : M unit := _ <- pop ;; _ <- pop ;; ret tt.
Definition p_2swap : M unit :=
  d <- pop ;; c <- pop ;; b <- pop ;; a <- pop ;;
  push c ;; push d ;; push a ;; push b.
Definition p_2over : M unit := x <- sp_at 3 ;; push x ;; y <- sp_at 3 ;; push y.

Definition p_to_r : M unit := x <- pop ;; rpush x.
Definition p_r_from : M unit := x <- rpop ;; push x.
Definition p_r_fetch : M unit := x <- rtos ;; push x.
Definition p_2to_r : M unit := b <- pop ;; a <- pop ;; rpush a ;; rpush b.
Definition p_2r_from : M unit := b <- rpop ;; a <- rpop ;; push a ;; push b.
Definition p_2r_fetch : M unit := x <- rsp_at 1 ;; push x ;; y <- rsp_at 0 ;; push y.

Definition p_depth : M unit := d <- gets depth ;; push d.
Definition p_mrot : M unit :=
  c <- pop ;; b <- pop ;; a <- pop ;; push c ;; push a ;; push b.
Definition p_pick : M unit := n <- pop ;; x <- sp_at n ;; push x.

(** *** Arithmetic *)

(** C division truncates toward zero; the quotient [INT_MIN / -1] does
    not fit a cell and is undefined, as is its remainder. *)
Definition c_div (a b : Z) : option Z :=
  if (b =? 0) || ((a =? - half) && (b =? -1)) then None else Some (Z.quot a b).
Definition c_rem (a b : Z) : option Z :=
  if (b =? 0) || ((a =? - half) && (b =? -1)) then None else Some (Z.rem a b).

Definition lift {A} (o : option A) : M A :=
  match o with Some a => ret a | None => undefined end.

Definition p_add : M unit := b <- pop ;; set_tos (fun a => add a b).
Definition p_sub : M unit := b <- pop ;; set_tos (fun a => sub a b).
Definition p_mul : M unit := b <- pop ;; set_tos (fun a => mul a b).
Definition p_div : M unit :=
  b <- pop ;;
  if negb (b =? 0)
  then a <- tos ;; q <- lift (c_div a b) ;; set_tos (fun _ => q)
  else vm_abort "division by zero".
Definition p_mod : M unit :=
  b <- pop ;;
  if negb (b =? 0)
  then a <- tos ;; r <- lift (c_rem a b) ;; set_tos (fun _ => r)
  else vm_abort "division by zero".
Definition p_divmod : M unit :=
  b <- pop ;; a <- pop ;;
  if negb (b =? 0)
  then r <- lift (c_rem a b) ;; push r ;; q <- lift (c_div a b) ;; push q
  else vm_abort "division by zero".
Definition p_negate : M unit := set_tos neg.
Definition p_abs : M unit := a <- tos ;; when (a <? 0) (set_tos neg).
Definition p_min : M unit := b <- pop ;; a <- tos ;; when (b <? a) (set_tos (fun _ => b)).
Definition p_max : M unit := b <- pop ;; a <- tos ;; when (a <? b) (set_tos (fun _ => b)).
Definition p_1add : M unit := set_tos (fun a => add a 1).
Definition p_1sub : M unit := set_tos (fun a => sub a 1).
Definition p_star_slash : M unit :=
  c <- pop ;; b <- pop ;; a <- pop ;;
  q <- lift (c_div (mul a b) c) ;; push q.

(** *** Comparison *)

Definition p_eq : M unit := b <- pop ;; set_tos (fun a => flag (a =? b)).
Definition p_neq : M unit := b <- pop ;; set_tos (fun a => flag (negb (a =? b))).
Definition p_lt : M unit := b <- pop ;; set_tos (fun a => flag (a <? b)).
Definition p_gt : M unit := b <- pop ;; set_tos (fun a => flag (b <? a)).
Definition p_ult : M unit := b <- pop ;; set_tos (fun a => flag (ucell a <? ucell b)).
Definition p_0eq : M unit := set_tos (fun a => flag (a =? 0)).
Definition p_0lt : M unit := set_tos (fun a => flag (a <? 0)).
Definition p_0gt : M unit := set_tos (fun a => flag (0 <? a)).

(** *** Logic / bitwise *)

Definition p_and : M unit := b <- pop ;; set_tos (fun a => Z.land a b).
Definition p_or : M unit := b <- pop ;; set_tos (fun a => Z.lor a b).
Definition p_xor : M unit := b <- pop ;; set_tos (fun a => Z.lxor a b).
Definition p_invert : M unit := set_tos Z.lnot.
(** A shift count outside [0, 64) is undefined in C. *)
Definition p_lshift : M unit :=
  n <- pop ;;
  if (0 <=? n) && (n <? 64) then set_tos (fun a => wrap (Z.shiftl (ucell a) n))
  else undefined.
Definition p_rshift : M unit :=
  n <- pop ;;
  if (0 <=? n) && (n <? 64) then set_tos (fun a => wrap (Z.shiftr (ucell a) n))
  else undefined.

(** *** Memory *)

Definition p_fetch : M unit := a <- tos ;; v <- mem_fetch a ;; set_tos (fun _ => v).
Definition p_store : M unit := addr <- pop ;; val <- pop ;; mem_store addr val.
Definition p_cfetch : M unit := a <- tos ;; v <- mem_c_fetch a ;; set_tos (fun _ => v).
Definition p_cstore : M unit := addr <- pop ;; val <- pop ;; mem_c_store addr val.
Definition p_pstore : M unit :=
  addr <- pop ;; val <- pop ;;
  old <- mem_fetch addr ;; mem_store addr (add old val).

Definition p_here : M unit := h <- gets here ;; push h.
Definition p_allot : M unit := n <- pop ;; modify (fun s => set_here (add (here s) n) s).
Definition p_cells : M unit := set_tos (fun a => mul a CELL).
Definition p_cell_plus : M unit := set_tos (fun a => add a CELL).

Definition p_comma : M unit :=
  modify (fun s => set_here (vm_align (here s)) s) ;;
  x <- pop ;; vm_compile_cell x.
Definition p_c_comma : M unit :=
  x <- pop ;; h <- gets here ;;
  mem_c_store h x ;;
  modify (fun s => set_here (add (here s) 1) s).

Definition p_move : M unit :=
  n <- pop ;; dst <- pop ;; src <- pop ;;
  bs <- mem_read src n ;; mem_write dst bs.
Definition p_fill : M unit :=
  c <- pop ;; n <- pop ;; addr <- pop ;;
  if n <? 0 then undefined else mem_write addr (repeat (c mod 256) (Z.to_nat n)).
Definition p_slash_string : M unit :=
  n <- pop ;; u <- pop ;; addr <- pop ;;
  let n := if u <? n then u else n in
  push (add addr n) ;; push (sub u n).
Definition p_count : M unit :=
  addr <- pop ;; len <- mem_c_fetch addr ;;
  push (add addr 1) ;; push len.


(** *** Compiler words *)

Definition strlen (nm : string) : Z := Z.of_nat (String.length nm).

(** [: ( "name" -- )] Start a new colon definition. *)
Definition p_colon : M unit :=
  nm <- vm_word ;;
  if strlen nm =? 0 then vm_abort ": requires a name"
  else
    l <- gets latest ;;
    h <- gets here ;;
    idx <- dict_append (mkEntry l (Z.lor (strlen nm) F_HIDDEN) nm Docol (vm_align h) (-1)) ;;
    modify (set_here (vm_align h)) ;;
    modify (set_latest idx) ;;
    modify (set_state (-1)).

(** [; ( -- )] End colon definition (IMMEDIATE). *)
Definition p_semicolon : M unit :=
  x <- gets xt_exit ;;
  vm_compile_cell x ;;
  l <- gets latest ;;
  dict_update l (fun e => set_flags (Z.land (flags e) (Z.lnot F_HIDDEN)) e) ;;
  modify (set_state 0).

Definition p_immediate : M unit :=
  l <- gets latest ;;
  dict_update l (fun e => set_flags (Z.lor (flags e) F_IMMEDIATE) e).

Definition p_lbracket : M unit := modify (set_state 0).
Definition p_rbracket : M unit := modify (set_state (-1)).

Definition p_state : M unit :=
  st <- gets state ;; mem_store 0 st ;; push 0.

Definition p_tick : M unit :=
  nm <- vm_word ;;
  xt <- vm_find nm ;;
  if xt <? 0
  then print_err (nm ++ " ?" ++ newline)%string ;; vm_abort "' cannot find word"
  else push xt.

Definition p_bracket_tick : M unit :=
  nm <- vm_word ;;
  xt <- vm_find nm ;;
  if xt <? 0
  then print_err (nm ++ " ?" ++ newline)%string ;; vm_abort "['] cannot find word"
  else l <- gets xt_lit ;; vm_compile_cell l ;; vm_compile_cell xt.

(** The cast [(int) xt]. *)
Definition to_int (z : Z) : Z := (z + 2 ^ 31) mod 2 ^ 32 - 2 ^ 31.

(** [EXECUTE ( xt -- )]; [vm_execute] is defined after the dispatch
    table, so it is a parameter here. *)
Definition p_execute (vm_execute : Z -> M unit) : M unit :=
  xt <- pop ;; vm_execute (to_int xt).

Definition p_to_body : M unit := xt <- pop ;; e <- dict_at xt ;; push (param e).

(** [CREATE ( "name" -- )] Create a new dictionary entry. *)
Definition p_create : M unit :=
  nm <- vm_word ;;
  if strlen nm =? 0 then vm_abort "CREATE requires a name"
  else
    l <- gets latest ;;
    h <- gets here ;;
    idx <- dict_append (mkEntry l (strlen nm) nm Dovar (vm_align h) (-1)) ;;
    modify (set_here (vm_align h)) ;;
    modify (set_latest idx).

(** [FIND ( addr u -- xt 1 | xt -1 | addr u 0 )]. *)
Definition p_find : M unit :=
  len <- pop ;; addr <- pop ;;
  let n := if Z.of_nat NAME_MAX_LEN <? len then Z.of_nat NAME_MAX_LEN else to_int len in
  bs <- mem_read addr n ;;
  xt <- vm_find (string_of_list_ascii (chars_of bs)) ;;
  if 0 <=? xt
  then e <- dict_at xt ;; push xt ;; push (if is_immediate e then 1 else -1)
  else push addr ;; push len ;; push 0.

Definition p_literal : M unit :=
  l <- gets xt_lit ;; vm_compile_cell l ;; x <- pop ;; vm_compile_cell x.

Definition p_compile_comma : M unit := x <- pop ;; vm_compile_cell x.

Definition p_postpone : M unit :=
  nm <- vm_word ;;
  xt <- vm_find nm ;;
  if xt <? 0 then vm_abort "POSTPONE: word not found"
  else
    e <- dict_at xt ;;
    if is_immediate e then vm_compile_cell xt
    else
      l <- gets xt_lit ;; vm_compile_cell l ;;
      vm_compile_cell xt ;;
      cc <- vm_find "compile," ;;
      vm_compile_cell cc.

(** *** Runtime support *)

Definition p_lit : M unit := v <- vm_fetch_ip ;; push v.
Definition p_branch : M unit := dest <- vm_fetch_ip ;; modify (set_ip dest).
Definition p_0branch : M unit :=
  dest <- vm_fetch_ip ;;
  x <- pop ;;
  when (x =? 0) (modify (set_ip dest)).
Definition p_exit : M unit := r <- rpop ;; modify (set_ip r).

(** [(does>)]: runtime for DOES>. *)
Definition p_does_runtime : M unit :=
  l <- gets latest ;;
  dict_update l (set_code Dodoes) ;;
  i <- gets ip ;;
  dict_update l (set_does i) ;;
  r <- rpop ;;
  modify (set_ip r).

Definition p_does_compile : M unit := x <- gets xt_does ;; vm_compile_cell x.

Definition p_slit : M unit :=
  len <- vm_fetch_ip ;;
  addr <- gets ip ;;
  push addr ;;
  push len ;;
  modify (fun s => set_ip (add (ip s) (vm_align len)) s).

(** *** Control flow (IMMEDIATE compile-time words) *)

Definition p_if : M unit :=
  x <- gets xt_0branch ;; vm_compile_cell x ;;
  h <- gets here ;; push h ;;
  vm_compile_cell 0.

Definition p_else : M unit :=
  x <- gets xt_branch ;; vm_compile_cell x ;;
  fwd2 <- gets here ;;
  vm_compile_cell 0 ;;
  fwd1 <- pop ;;
  h <- gets here ;; mem_store fwd1 h ;;
  push fwd2.

Definition p_then : M unit := fwd <- pop ;; h <- gets here ;; mem_store fwd h.

Definition p_begin : M unit := h <- gets here ;; push h.

Definition p_repeat : M unit :=
  back <- pop ;; orig <- pop ;;
  x <- gets xt_branch ;; vm_compile_cell x ;;
  vm_compile_cell back ;;
  h <- gets here ;; mem_store orig h.

Definition p_until : M unit :=
  back <- pop ;;
  x <- gets xt_0branch ;; vm_compile_cell x ;;
  vm_compile_cell back.

Definition p_again : M unit :=
  back <- pop ;;
  x <- gets xt_branch ;; vm_compile_cell x ;;
  vm_compile_cell back.

(** [(do)] runtime: [( limit index -- ) R: ( -- limit index )]. *)
Definition p_do_rt : M unit :=
  idx <- pop ;; lim <- pop ;;
  rpush lim ;; rpush idx.

(** [(?do)] runtime: skip loop if equal. *)
Definition p_qdo_rt : M unit :=
  dest <- vm_fetch_ip ;;
  idx <- pop ;; lim <- pop ;;
  if idx =? lim then modify (set_ip dest)
  else rpush lim ;; rpush idx.

(** [(loop)] runtime: increment index, check, branch. *)
Definition p_loop_rt : M unit :=
  dest <- vm_fetch_ip ;;
  i <- rpop ;;
  let idx := add i 1 in
  lim <- rtos ;;
  if idx =? lim then _ <- rpop ;; ret tt
  else rpush idx ;; modify (set_ip dest).

(** [(+loop)] runtime: add step, check boundary crossing. *)
Definition p_ploop_rt : M unit :=
  dest <- vm_fetch_ip ;;
  step <- pop ;;
  old_idx <- rpop ;;
  let new_idx := add old_idx step in
  lim <- rtos ;;
  let old_diff := sub old_idx lim in
  let new_diff := sub new_idx lim in
  let crossed := (Z.lxor old_diff new_diff <? 0) && (Z.lxor old_diff step <? 0) in
  let done := crossed || (new_diff =? 0) in
  if done then _ <- rpop ;; ret tt
  else rpush new_idx ;; modify (set_ip dest).


(** *** DO / LOOP compile-time (IMMEDIATE) *)

Definition p_do_compile : M unit :=
  x <- gets xt_do ;; vm_compile_cell x ;;
  push 0 ;;
  h <- gets here ;; push h.

Definition p_qdo_compile : M unit :=
  x <- gets xt_qdo ;; vm_compile_cell x ;;
  orig <- gets here ;;
  vm_compile_cell 0 ;;
  push orig ;;
  h <- gets here ;; push h.

Definition p_loop_compile : M unit :=
  back <- pop ;; orig <- pop ;;
  x <- gets xt_loop ;; vm_compile_cell x ;;
  vm_compile_cell back ;;
  when (negb (orig =? 0)) (h <- gets here ;; mem_store orig h).

Definition p_ploop_compile : M unit :=
  back <- pop ;; orig <- pop ;;
  x <- gets xt_ploop ;; vm_compile_cell x ;;
  vm_compile_cell back ;;
  when (negb (orig =? 0)) (h <- gets here ;; mem_store orig h).

Definition p_i : M unit := x <- rsp_at 0 ;; push x.
Definition p_j : M unit := x <- rsp_at 2 ;; push x.
Definition p_unloop : M unit := _ <- rpop ;; _ <- rpop ;; ret tt.

(** *** CASE / OF / ENDOF / ENDCASE (IMMEDIATE) *)

Definition p_case : M unit := push 0.

Definition p_of : M unit :=
  xt_over <- vm_find "over" ;;
  xt_eq <- vm_find "=" ;;
  xt_drop <- vm_find "drop" ;;
  vm_compile_cell xt_over ;;
  vm_compile_cell xt_eq ;;
  x <- gets xt_0branch ;; vm_compile_cell x ;;
  orig <- gets here ;;
  vm_compile_cell 0 ;;
  vm_compile_cell xt_drop ;;
  push orig.

Definition p_endof : M unit :=
  x <- gets xt_branch ;; vm_compile_cell x ;;
  fwd <- gets here ;;
  vm_compile_cell 0 ;;
  orig <- pop ;;
  h <- gets here ;; mem_store orig h ;;
  push fwd.

(** [while (tos(vm) != 0) { fwd = pop(vm); mem_store(vm, fwd, vm->here); }]:
    the loop consumes the stack it started with, which bounds it. *)
Fixpoint resolve_endofs (ds : list Z) : M unit :=
  match ds with
  | [] => undefined
  | _ :: r =>
      t <- tos ;;
      if negb (t =? 0)
      then fwd <- pop ;; h <- gets here ;; mem_store fwd h ;; resolve_endofs r
      else ret tt
  end.

Definition p_endcase : M unit :=
  xt_drop <- vm_find "drop" ;;
  vm_compile_cell xt_drop ;;
  ds <- gets dstack ;;
  resolve_endofs ds ;;
  _ <- pop ;; ret tt.

(** *** String words *)

(** The tail shared by the string words (s-quote, s-backslash-quote,
    dot-quote, abort-quote): compile the string-literal runtime, the
    length and the bytes, padded to a cell boundary. *)
Definition compile_string (buf : list ascii) : M unit :=
  let len := Z.of_nat (length buf) in
  x <- gets xt_slit ;; vm_compile_cell x ;;
  vm_compile_cell len ;;
  h <- gets here ;; mem_write h (bytes_of buf) ;;
  modify (fun s => set_here (add (here s) (vm_align len)) s).

Definition p_s_quote : M unit :=
  buf <- vm_parse dquote ;;
  st <- gets state ;;
  if negb (st =? 0) then compile_string buf
  else
    addr <- gets here ;;
    mem_write addr (bytes_of buf) ;;
    push addr ;;
    push (Z.of_nat (length buf)).

(** The escape table of s-backslash-quote. *)
Definition unescape (esc : ascii) : ascii :=
  if Ascii.eqb esc "n" then ascii_of_nat 10
  else if Ascii.eqb esc "r" then ascii_of_nat 13
  else if Ascii.eqb esc "t" then ascii_of_nat 9
  else if Ascii.eqb esc dquote then dquote
  else if Ascii.eqb esc "\" then "\"
  else if Ascii.eqb esc "0" then ascii_of_nat 0
  else if Ascii.eqb esc "a" then ascii_of_nat 7
  else if Ascii.eqb esc "b" then ascii_of_nat 8
  else if Ascii.eqb esc "e" then ascii_of_nat 27
  else esc.

(** The scanning loop of s-backslash-quote: the characters stored and
    the number of input characters consumed. *)
Fixpoint scan_escaped (cs : list ascii) (room : nat) : list ascii * nat :=
  match room, cs with
  | S room', c :: r =>
      if Ascii.eqb c dquote then ([], 1%nat)
      else if Ascii.eqb c "\" then
        match r with
        | esc :: r' =>
            let '(buf, k) := scan_escaped r' room' in (unescape esc :: buf, S (S k))
        | [] => ([c], 1%nat)
        end
      else let '(buf, k) := scan_escaped r room' in (c :: buf, S k)
  | _, _ => ([], 0%nat)
  end.

Definition p_s_bs_quote : M unit :=
  modify (fun s =>
    match skipn (tib_pos s) (tib s) with
    | c :: _ => if Ascii.eqb c " " then set_tib_pos (S (tib_pos s)) s else s
    | [] => s
    end) ;;
  rest <- gets (fun s => skipn (tib_pos s) (tib s)) ;;
  let '(buf, k) := scan_escaped rest (PAD_SIZE - 1) in
  modify (fun s => set_tib_pos (tib_pos s + k)%nat s) ;;
  st <- gets state ;;
  if negb (st =? 0) then compile_string buf
  else
    addr <- gets here ;;
    mem_write addr (bytes_of buf) ;;
    push addr ;;
    push (Z.of_nat (length buf)).

(** [buf[0]] of a word buffer as a cell. *)
Definition first_char (nm : string) : Z :=
  match nm with String c _ => schar c | EmptyString => 0 end.

Definition p_bracket_char : M unit :=
  nm <- vm_word ;;
  if strlen nm =? 0 then vm_abort "[CHAR] needs a character"
  else
    st <- gets state ;;
    if negb (st =? 0)
    then l <- gets xt_lit ;; vm_compile_cell l ;; vm_compile_cell (first_char nm)
    else push (first_char nm).

Definition p_char : M unit :=
  nm <- vm_word ;;
  if strlen nm =? 0 then vm_abort "CHAR needs a character"
  else push (first_char nm).

Definition p_parse_name : M unit :=
  nm <- vm_word ;;
  dest <- gets here ;;
  mem_write dest (bytes_of (list_ascii_of_string nm)) ;;
  modify (fun s => set_here (add (here s) (strlen nm)) s) ;;
  push dest ;;
  push (strlen nm).


(** *** Numeric output *)

Definition p_dot : M unit := n <- pop ;; print_out (fmt_ld n ++ " ")%string.
Definition p_u_dot : M unit := n <- pop ;; print_out (fmt_lu n ++ " ")%string.

(** [.S]: the depth, then the cells from the bottom of the stack up. *)
Definition p_dot_s : M unit :=
  d <- gets depth ;;
  print_out ("<" ++ fmt_ld d ++ "> ")%string ;;
  ds <- gets dstack ;;
  print_out (fold_right (fun v acc => (fmt_ld v ++ " " ++ acc)%string) EmptyString (rev ds)).

Definition p_pno_begin : M unit := modify (set_pno []).

(** [vm->pno_buf[--vm->pno_pos] = c]. *)
Definition pno_put (c : ascii) : M unit := fun s =>
  if Z.of_nat (length (pno s)) <? PNO_SIZE then Some (tt, set_pno (c :: pno s) s) else None.

(** [# ( ud -- ud' )] Add one digit. *)
Definition p_pno_digit : M unit :=
  x <- pop ;;
  b <- gets base ;;
  let d := ucell x in
  if ucell b =? 0 then undefined
  else
    let rem := d mod ucell b in
    push (wrap (d / ucell b)) ;;
    pno_put (char_of_byte (if rem <? 10 then 48 + rem else 97 + rem - 10)).

(** [do { p_pno_digit(vm); } while (tos(vm) != 0)].  The buffer holds
    [PNO_SIZE] characters and every round stores one, so no defined
    execution makes more than [PNO_SIZE] rounds. *)
Fixpoint pno_digits_loop (rounds : nat) : M unit :=
  match rounds with
  | O => undefined
  | S n =>
      p_pno_digit ;;
      t <- tos ;;
      if negb (t =? 0) then pno_digits_loop n else ret tt
  end.

Definition p_pno_digits : M unit := pno_digits_loop (S (Z.to_nat PNO_SIZE)).

Definition p_pno_end : M unit :=
  _ <- pop ;;
  buf <- gets pno ;;
  addr <- gets here ;;
  mem_write addr (bytes_of buf) ;;
  push addr ;;
  push (Z.of_nat (length buf)).

Definition p_hold : M unit := c <- pop ;; pno_put (char_of_byte c).
Definition p_sign : M unit := n <- pop ;; when (n <? 0) (pno_put "-"%char).

(** *** Number parsing *)

(** [strlen] of a buffer: the bytes before the first NUL. *)
Fixpoint until_nul (bs : list Z) : list Z :=
  match bs with
  | [] => []
  | b :: r => if b =? 0 then [] else b :: until_nul r
  end.

(** Strip trailing space, LF and CR: [buf[--n] = 0]. *)
Fixpoint drop_ws (l : list Z) : list Z :=
  match l with
  | b :: r => if (b =? 32) || (b =? 10) || (b =? 13) then drop_ws r else l
  | [] => []
  end.
Definition strip_trailing (bs : list Z) : list Z := rev (drop_ws (rev bs)).

Definition p_s_to_number : M unit :=
  len <- pop ;; addr <- pop ;;
  let n := if 63 <=? len then 63 else to_int len in
  bs <- mem_read addr n ;;
  r <- gets (fun v => vm_try_number v (chars_of (until_nul (strip_trailing bs)))) ;;
  match r with
  | Some result => push result ;; push 0 ;; push (-1)
  | None => push 0 ;; push 0 ;; push 0
  end.

(** The conversion loop of [>NUMBER]: the recursion is on the count [u]. *)
Fixpoint to_number_loop (u : nat) (b dlo addr : Z) : M (Z * Z * Z) :=
  match u with
  | O => ret (dlo, addr, 0)
  | S u' =>
      c <- mem_c_fetch addr ;;
      match digit_of (char_of_byte c) with
      | None => ret (dlo, addr, Z.of_nat u)
      | Some digit =>
          if b <=? digit then ret (dlo, addr, Z.of_nat u)
          else to_number_loop u' b (add (mul dlo b) digit) (add addr 1)
      end
  end.

Definition p_to_number : M unit :=
  u <- pop ;; addr <- pop ;; _ <- pop ;; dlo <- pop ;;
  b <- gets base ;;
  r <- to_number_loop (Z.to_nat u) b dlo addr ;;
  let '(dlo', addr', u') := r in
  push dlo' ;; push 0 ;; push addr' ;; push (if u <=? 0 then u else u').

(** *** Miscellaneous *)

Definition p_noop : M unit := ret tt.
Definition p_true : M unit := push (-1).
Definition p_false : M unit := push 0.
Definition p_bl : M unit := push 32.
Definition p_space : M unit := print_out " ".
Definition p_spaces : M unit :=
  n <- pop ;;
  print_out (string_of_list_ascii (repeat " "%char (Z.to_nat n))).

Definition p_abort : M unit := vm_abort "ABORT called".

Definition p_abort_quote : M unit :=
  buf <- vm_parse dquote ;;
  x <- gets xt_0branch ;; vm_compile_cell x ;;
  fwd <- gets here ;;
  vm_compile_cell 0 ;;
  compile_string buf ;;
  xt_type <- vm_find "type" ;;
  xt_abort <- vm_find "abort" ;;
  when (0 <=? xt_type) (vm_compile_cell xt_type) ;;
  when (0 <=? xt_abort) (vm_compile_cell xt_abort) ;;
  h <- gets here ;; mem_store fwd h.

Definition p_recurse : M unit := l <- gets latest ;; vm_compile_cell l.

Definition p_user_exit : M unit :=
  st <- gets state ;;
  when (negb (st =? 0)) (x <- gets xt_exit ;; vm_compile_cell x).

Definition p_dot_quote : M unit :=
  buf <- vm_parse dquote ;;
  st <- gets state ;;
  if negb (st =? 0)
  then
    compile_string buf ;;
    xt_type <- vm_find "type" ;;
    when (0 <=? xt_type) (vm_compile_cell xt_type)
  else print_out (string_of_list_ascii buf).

Definition p_dot_paren : M unit :=
  buf <- vm_parse ")" ;; print_out (string_of_list_ascii buf).

Definition p_while_fixed : M unit :=
  x <- gets xt_0branch ;; vm_compile_cell x ;;
  orig <- gets here ;;
  vm_compile_cell 0 ;;
  dest <- pop ;;
  push orig ;;
  push dest.


(** ** [io.c]: console output, throw, bye, comments, base *)

Definition p_emit : M unit :=
  c <- pop ;; print_out (String (char_of_byte c) EmptyString).
Definition p_type : M unit :=
  len <- pop ;; addr <- pop ;;
  bs <- mem_read addr len ;;
  print_out (string_of_list_ascii (chars_of bs)).
Definition p_cr : M unit := print_out newline.

Definition p_ro : M unit := push 0.
Definition p_wo : M unit := push 1.
Definition p_rw : M unit := push 2.

Definition p_throw : M unit :=
  ior <- pop ;;
  when (negb (ior =? 0)) (vm_abort ("THROW " ++ fmt_ld ior)%string).

Definition p_stdout : M unit := push (-2).

Definition p_bye : M unit := modify (set_running false).

Definition p_backslash : M unit := modify (fun s => set_tib_pos (length (tib s)) s).
Definition p_paren : M unit := _ <- vm_parse ")" ;; ret tt.

Definition p_base : M unit :=
  b <- gets base ;; mem_store 8 b ;; push 8.
Definition p_decimal : M unit := modify (set_base 10).
Definition p_hex : M unit := modify (set_base 16).

(** ** [io.c]: stdin, files, the environment, source files *)

Definition p_key : M unit := c <- c_fgetc ;; push c.

(** The lines that [accept] and [read-line] share: [fgets] into the
    arena at [addr], then the trailing LF and CR replaced by NUL.  The
    result is the length left, or [None] when [fgets] returned NULL. *)
Definition fgets_into (addr maxlen : Z) : M (option Z) :=
  r <- c_fgets (to_int maxlen) ;;
  match r with
  | Some line =>
      mem_write addr (bytes_of line ++ [0]) ;;
      let str := cstring line in
      let kept := chomp str in
      mem_write (addr + Z.of_nat (length kept)) (repeat 0 (length str - length kept)%nat) ;;
      ret (Some (Z.of_nat (length kept)))
  | None => ret None
  end.

Definition p_accept : M unit :=
  maxlen <- pop ;; addr <- pop ;;
  r <- fgets_into addr maxlen ;;
  match r with
  | Some len => push len
  | None => push 0
  end.

(** [file_alloc]: the first slot of [files[]] that holds NULL. *)
Fixpoint find_free (n i : nat) (fs : list Z) : option nat :=
  match n with
  | O => None
  | S n' => if nth i fs 0 =? 0 then Some i else find_free n' (S i) fs
  end.
Definition file_alloc (fs : list Z) : option nat := find_free (Z.to_nat MAX_FILES) 0 fs.

(** [fid >= 0 && fid < MAX_FILES && vm->files[fid]]. *)
Definition file_open (fs : list Z) (fid : Z) : bool :=
  (0 <=? fid) && (fid <? MAX_FILES) && negb (nth (Z.to_nat fid) fs 0 =? 0).

(** [forth_to_cstr]: the C string made of at most [max - 1] bytes at
    [addr]. *)
Definition forth_to_cstr (addr len max : Z) : M (list ascii) :=
  let n := if max <=? len then max - 1 else to_int len in
  bs <- mem_read addr n ;;
  ret (cstring (chars_of bs)).

(** [expand_path]: a leading tilde becomes the value of HOME. *)
Definition expand_path (inp : list ascii) (max : Z) : M (list ascii) :=
  let plain := firstn (Z.to_nat (max - 1)) inp in
  match inp with
  | c :: r =>
      if Ascii.eqb c "~"
         && match r with [] => true | d :: _ => Ascii.eqb d "/" end
      then
        home <- c_getenv (list_ascii_of_string "HOME") ;;
        match home with
        | Some h => ret (firstn (Z.to_nat (max - 1)) (h ++ r))
        | None => ret plain
        end
      else ret plain
  | [] => ret plain
  end.

(** The tail of [open-file] and [create-file]: take a slot, open the
    file, push the slot and 0, or 0 and -1. *)
Definition open_in_slot (path : list ascii) (fmode : string) : M unit :=
  fs <- gets files ;;
  match file_alloc fs with
  | None => push 0 ;; push (-1)
  | Some slot =>
      f <- c_fopen path fmode ;;
      if f =? 0 then push 0 ;; push (-1)
      else
        modify (set_files (<[slot := f]> fs)) ;;
        push (Z.of_nat slot) ;; push 0
  end.

Definition p_open_file : M unit :=
  mode <- pop ;; len <- pop ;; addr <- pop ;;
  raw <- forth_to_cstr addr len PATH_MAX ;;
  path <- expand_path raw PATH_MAX ;;
  open_in_slot path
    (if mode =? 1 then "w"%string else if mode =? 2 then "r+"%string else "r"%string).

Definition p_create_file : M unit :=
  _ <- pop ;; len <- pop ;; addr <- pop ;;
  raw <- forth_to_cstr addr len PATH_MAX ;;
  path <- expand_path raw PATH_MAX ;;
  open_in_slot path "w"%string.

Definition p_close_file : M unit :=
  fid <- pop ;;
  fs <- gets files ;;
  if file_open fs fid then
    c_fclose (nth (Z.to_nat fid) fs 0) ;;
    modify (set_files (<[Z.to_nat fid := 0]> fs)) ;;
    push 0
  else push (-1).

Definition p_write_file : M unit :=
  fid <- pop ;; len <- pop ;; addr <- pop ;;
  fs <- gets files ;;
  if file_open fs fid then
    _ <- mem_read addr len ;;
    written <- c_fwrite len ;;
    push (if written =? len then 0 else -1)
  else push (-1).

Definition p_read_line : M unit :=
  fid <- pop ;; maxlen <- pop ;; addr <- pop ;;
  fs <- gets files ;;
  if file_open fs fid then
    r <- fgets_into addr maxlen ;;
    match r with
    | Some len => push len ;; push (-1) ;; push 0
    | None => push 0 ;; push 0 ;; push 0
    end
  else push 0 ;; push 0 ;; push (-1).

Definition p_emit_file : M unit :=
  fid <- pop ;; _ <- pop ;;
  fs <- gets files ;;
  if file_open fs fid then push 0 else push (-1).

Definition p_flush_file : M unit :=
  fid <- pop ;;
  fs <- gets files ;;
  if file_open fs fid then push 0 else push (-1).

(** [system]: the command is copied out of the arena; what the command
    does is the operating system's business. *)
Definition p_system : M unit :=
  len <- pop ;; addr <- pop ;;
  let n := if 8192 <=? len then 8191 else to_int len in
  _ <- mem_read addr n ;; ret tt.

Definition p_getenv : M unit :=
  len <- pop ;; addr <- pop ;;
  name <- forth_to_cstr addr len 256 ;;
  val <- c_getenv name ;;
  match val with
  | Some v =>
      dest <- gets here ;;
      mem_write dest (bytes_of v) ;;
      modify (fun s => set_here (add (here s) (Z.of_nat (length v))) s) ;;
      push dest ;;
      push (Z.of_nat (length v))
  | None => push 0 ;; push 0
  end.

Definition p_slurp_file : M unit :=
  len <- pop ;; addr <- pop ;;
  raw <- forth_to_cstr addr len PATH_MAX ;;
  path <- expand_path raw PATH_MAX ;;
  f <- c_fopen path "r" ;;
  if f =? 0 then push 0 ;; push 0
  else
    size <- c_ftell ;;
    dest <- gets here ;;
    (if (0 <? size) && (add dest size <? MEM_SIZE)
     then
       bs <- c_fread size ;;
       mem_write dest bs ;;
       push dest ;;
       push (Z.of_nat (length bs))
     else push 0 ;; push 0) ;;
    c_fclose f.

(** [include], [require], [included]; [vm_load_file] is defined after the
    dispatch table, so it is a parameter here. *)
Definition p_include (vm_load_file : list ascii -> M Z) : M unit :=
  nm <- vm_word ;;
  if strlen nm =? 0 then vm_abort "INCLUDE requires a filename"
  else
    path <- expand_path (list_ascii_of_string nm) PATH_MAX ;;
    _ <- vm_load_file path ;; ret tt.

(** [strcmp(a, b) == 0]. *)
Definition same_text (a b : list ascii) : bool :=
  String.eqb (string_of_list_ascii a) (string_of_list_ascii b).

Definition p_require (vm_load_file : list ascii -> M Z) : M unit :=
  nm <- vm_word ;;
  if strlen nm =? 0 then vm_abort "REQUIRE requires a filename"
  else
    path <- expand_path (list_ascii_of_string nm) PATH_MAX ;;
    r <- c_realpath path ;;
    let resolved :=
      match r with
      | Some p => p
      | None => firstn (Z.to_nat (PATH_MAX - 1)) path
      end in
    fs <- gets loaded ;;
    if existsb (same_text resolved) fs then ret tt
    else
      when (Z.of_nat (length fs) <? 256) (modify (set_loaded (fs ++ [resolved]))) ;;
      _ <- vm_load_file path ;; ret tt.

Definition p_included (vm_load_file : list ascii -> M Z) : M unit :=
  len <- pop ;; addr <- pop ;;
  raw <- forth_to_cstr addr len PATH_MAX ;;
  path <- expand_path raw PATH_MAX ;;
  _ <- vm_load_file path ;; ret tt.

End Prims.

(** ** [vm.c]: the inner and the outer interpreter *)

Module Interp.
Import Cell Mem VM Prims.
Local Open Scope vm_scope.

(** What a primitive can re-enter: [vm_execute] (from [execute]) and
    [vm_load_file] (from [include], [require] and [included]), which runs
    [vm_interpret_tib] on every line of the file.  The three C functions
    are defined after the dispatch table, which gets them as a
    parameter.  Applied to an XT, a [reentry] is its [re_execute]. *)
Record reentry : Type := mkReentry {
  re_execute :> Z -> M unit;
  re_interpret_tib : M unit;
  re_load_file : list ascii -> M Z
}.

(** The indirect call [vm->dict[xt].code(vm)]: the function a code
    pointer points to. *)
Definition call (vm_execute : reentry) (fn : prim_fn) : M unit :=
  match fn with
  | Docol => docol | Dovar => dovar | Docon => docon | Dodoes => dodoes
  | P_dup => p_dup | P_drop => p_drop | P_swap => p_swap | P_over => p_over
  | P_rot => p_rot | P_nip => p_nip | P_tuck => p_tuck | P_qdup => p_qdup
  | P_2dup => p_2dup | P_2drop => p_2drop | P_2swap => p_2swap | P_2over => p_2over
  | P_to_r => p_to_r | P_r_from => p_r_from | P_r_fetch => p_r_fetch
  | P_2to_r => p_2to_r | P_2r_from => p_2r_from | P_2r_fetch => p_2r_fetch
  | P_depth => p_depth | P_mrot => p_mrot | P_pick => p_pick
  | P_add => p_add | P_sub => p_sub | P_mul => p_mul | P_div => p_div
  | P_mod => p_mod | P_divmod => p_divmod | P_negate => p_negate | P_abs => p_abs
  | P_min => p_min | P_max => p_max | P_1add => p_1add | P_1sub => p_1sub
  | P_star_slash => p_star_slash
  | P_eq => p_eq | P_neq => p_neq | P_lt => p_lt | P_gt => p_gt | P_ult => p_ult
  | P_0eq => p_0eq | P_0lt => p_0lt | P_0gt => p_0gt
  | P_and => p_and | P_or => p_or | P_xor => p_xor | P_invert => p_invert
  | P_lshift => p_lshift | P_rshift => p_rshift
  | P_fetch => p_fetch | P_store => p_store | P_cfetch => p_cfetch
  | P_cstore => p_cstore | P_pstore => p_pstore
  | P_here => p_here | P_allot => p_allot | P_cells => p_cells
  | P_cell_plus => p_cell_plus | P_comma => p_comma | P_c_comma => p_c_comma
  | P_move => p_move | P_fill => p_fill | P_slash_string => p_slash_string
  | P_count => p_count
  | P_colon => p_colon | P_semicolon => p_semicolon | P_immediate => p_immediate
  | P_lbracket => p_lbracket | P_rbracket => p_rbracket | P_state => p_state
  | P_tick => p_tick | P_bracket_tick => p_bracket_tick
  | P_execute => p_execute vm_execute
  | P_to_body => p_to_body | P_create => p_create | P_find => p_find
  | P_literal => p_literal | P_compile_comma => p_compile_comma
  | P_postpone => p_postpone
  | P_lit => p_lit | P_branch => p_branch | P_0branch => p_0branch
  | P_exit => p_exit | P_does_runtime => p_does_runtime
  | P_does_compile => p_does_compile | P_slit => p_slit
  | P_if => p_if | P_else => p_else | P_then => p_then | P_begin => p_begin
  | P_repeat => p_repeat | P_until => p_until | P_again => p_again
  | P_do_rt => p_do_rt | P_qdo_rt => p_qdo_rt | P_loop_rt => p_loop_rt
  | P_ploop_rt => p_ploop_rt
  | P_do_compile => p_do_compile | P_qdo_compile => p_qdo_compile
  | P_loop_compile => p_loop_compile | P_ploop_compile => p_ploop_compile
  | P_i => p_i | P_j => p_j | P_unloop => p_unloop
  | P_case => p_case | P_of => p_of | P_endof => p_endof | P_endcase => p_endcase
  | P_s_quote => p_s_quote | P_s_bs_quote => p_s_bs_quote
  | P_bracket_char => p_bracket_char | P_char => p_char
  | P_parse_name => p_parse_name
  | P_dot => p_dot | P_u_dot => p_u_dot | P_dot_s => p_dot_s
  | P_pno_begin => p_pno_begin | P_pno_digit => p_pno_digit
  | P_pno_digits => p_pno_digits | P_pno_end => p_pno_end
  | P_hold => p_hold | P_sign => p_sign
  | P_s_to_number => p_s_to_number | P_to_number => p_to_number
  | P_noop => p_noop | P_true => p_true | P_false => p_false | P_bl => p_bl
  | P_space => p_space | P_spaces => p_spaces
  | P_abort => p_abort | P_abort_quote => p_abort_quote
  | P_recurse => p_recurse | P_user_exit => p_user_exit
  | P_dot_quote => p_dot_quote | P_dot_paren => p_dot_paren
  | P_while_fixed => p_while_fixed
  | P_emit => p_emit | P_type => p_type | P_cr => p_cr
  | P_ro => p_ro | P_wo => p_wo | P_rw => p_rw
  | P_throw => p_throw | P_stdout => p_stdout | P_bye => p_bye
  | P_backslash => p_backslash | P_paren => p_paren
  | P_base => p_base | P_decimal => p_decimal | P_hex => p_hex
  | P_key => p_key | P_accept => p_accept
  | P_open_file => p_open_file | P_create_file => p_create_file
  | P_close_file => p_close_file | P_write_file => p_write_file
  | P_read_line => p_read_line | P_emit_file => p_emit_file
  | P_flush_file => p_flush_file | P_slurp_file => p_slurp_file
  | P_system => p_system | P_getenv => p_getenv
  | P_include => p_include (re_load_file vm_execute)
  | P_require => p_require (re_load_file vm_execute)
  | P_included => p_included (re_load_file vm_execute)
  end.

(** [code == docol || code == dodoes]. *)
Definition is_threaded (fn : prim_fn) : bool :=
  match fn with Docol | Dodoes => true | _ => false end.

(** One round of the loop of [vm_run]: fetch, set [w], dispatch. *)
Definition vm_step (vm_execute : reentry) : M unit :=
  xt <- vm_fetch_ip ;;
  modify (set_w xt) ;;
  e <- dict_at xt ;;
  call vm_execute (code e).

(** The loop test of [vm_run]. *)
Definition run_continues (rsp_base : Z) (s : vm) : bool :=
  running s && (rsp s <=? rsp_base).

(** [while (vm->running && vm->rsp <= rsp_base) { ... }], at most [fuel]
    rounds. *)
Fixpoint run_loop (vm_execute : reentry) (fuel : nat) (rsp_base : Z) : M unit :=
  fun s =>
    if run_continues rsp_base s then
      match fuel with
      | O => None
      | S fuel' =>
          match vm_step vm_execute s with
          | Some (_, s') => run_loop vm_execute fuel' rsp_base s'
          | None => None
          end
      end
    else Some (tt, s).

(** *** Outer interpreter *)

(** How one round of [vm_interpret_tib] ends: [continue] or [return]. *)
Inductive flow : Type := Continue | Return.

(** The body of the loop of [vm_interpret_tib] after [vm_word] has
    returned the non-empty word [nm]. *)
Definition interpret_word (vm_execute : Z -> M unit) (nm : string) : M flow :=
  xt <- vm_find nm ;;
  if 0 <=? xt then
    e <- dict_at xt ;;
    st <- gets state ;;
    (if negb (st =? 0) && negb (is_immediate e)
     then vm_compile_cell xt
     else vm_execute xt) ;;
    ret Continue
  else
    r <- gets (fun v => vm_try_number v (list_ascii_of_string nm)) ;;
    match r with
    | Some num =>
        st <- gets state ;;
        (if negb (st =? 0)
         then l <- gets xt_lit ;; vm_compile_cell l ;; vm_compile_cell num
         else push num) ;;
        ret Continue
    | None =>
        print_err (nm ++ " ?" ++ newline)%string ;;
        vm_abort "undefined word" ;;
        ret Return
    end.

(** *** File loading *)

Definition same_handles (a b : list Z) : bool :=
  (length a =? length b)%nat && forallb (fun p => fst p =? snd p) (combine a b).

(** The loop [while (vm->running && fgets(line, sizeof(line), f))] of
    [vm_load_file], at most [rounds] lines; [interpret] is
    [vm_interpret_tib].  [f] is the stream opened and [rest] the input
    stack below it.  After an abort, which closes every open source, the
    stream is no longer on the input stack and reading it is undefined. *)
Fixpoint load_lines (interpret : M unit) (rounds : nat) (f : Z) (rest : list Z)
  : M unit :=
  fun s =>
    if running s then
      if same_handles (input s) (f :: rest) then
        match rounds with
        | O => None
        | S rounds' =>
            (l <- c_fgets (Z.of_nat TIB_SIZE) ;;
             match l with
             | None => ret tt
             | Some line =>
                 modify (set_tib (chomp (cstring line))) ;;
                 modify (set_tib_pos 0%nat) ;;
                 interpret ;;
                 load_lines interpret rounds' f rest
             end) s
        end
      else None
    else Some (tt, s).

(** The body of [vm_load_file]: the result is what the function
    returns.  The input stack has [MAX_FILES] slots, the first unused. *)
Definition load_file (interpret : M unit) (rounds : nat) (path : list ascii) : M Z :=
  f <- c_fopen path "r" ;;
  if f =? 0 then
    print_err ("Cannot open: " ++ string_of_list_ascii path ++ newline)%string ;;
    ret (-1)
  else
    rest <- gets input ;;
    if Z.of_nat (length rest) + 1 <? MAX_FILES then
      modify (set_input (f :: rest)) ;;
      load_lines interpret rounds f rest ;;
      now <- gets input ;;
      if same_handles now (f :: rest) then
        c_fclose f ;;
        modify (set_input rest) ;;
        ret 0
      else undefined
    else undefined.

(** *** The three re-entrant functions

    [vm_execute fuel] holds [vm_execute], [vm_interpret_tib] and
    [vm_load_file] as they run with [fuel]: the fuel bounds the rounds of
    every loop ([vm_run], the words of a line, the lines of a file) and
    the nesting of [execute] and of [include]. *)
Fixpoint vm_execute (fuel : nat) : reentry :=
  match fuel with
  | O =>
      mkReentry
        (fun _ => undefined)
        (fun s => if running s then None else Some (tt, s))
        (fun _ => undefined)
  | S fuel' =>
      let re := vm_execute fuel' in
      mkReentry
        (* vm_execute: execute a single execution token *)
        (fun xt =>
           modify (set_w xt) ;;
           e <- dict_at xt ;;
           if is_threaded (code e)
           then
             call re (code e) ;;
             base_rsp <- gets rsp ;;
             run_loop re fuel' base_rsp
           else call re (code e))
        (* vm_interpret_tib: interpret the line in the TIB *)
        (fun s =>
           if running s then
             (nm <- vm_word ;;
              if strlen nm =? 0 then ret tt
              else
                fl <- interpret_word re nm ;;
                match fl with
                | Continue => re_interpret_tib re
                | Return => ret tt
                end) s
           else Some (tt, s))
        (* vm_load_file *)
        (load_file (re_interpret_tib re) fuel')
  end.

(** [vm_run]: [rsp_base = vm->rsp], then the loop. *)
Definition vm_run (fuel : nat) : M unit :=
  base_rsp <- gets rsp ;;
  run_loop (vm_execute fuel) fuel base_rsp.

(** The body of the loop of [vm_interpret_tib] with [fuel] for the inner
    interpreter. *)
Definition interpret_token (fuel : nat) (nm : string) : M flow :=
  interpret_word (vm_execute fuel) nm.

(** [vm_interpret_tib]: interpret the line in the TIB, at most [fuel]
    words, each with [fuel] for the inner interpreter. *)
Definition vm_interpret_tib (fuel : nat) : M unit :=
  re_interpret_tib (vm_execute fuel).

(** [vm_load_file]. *)
Definition vm_load_file (fuel : nat) (path : list ascii) : M Z :=
  re_load_file (vm_execute fuel) path.

(** [vm_interpret_line]: copy the line (up to NUL, at most [TIB_SIZE - 1]
    characters) into the TIB and interpret it. *)
Definition vm_interpret_line (fuel : nat) (line : string) : M unit :=
  modify (set_tib (firstn (TIB_SIZE - 1) (list_ascii_of_string line))) ;;
  modify (set_tib_pos 0%nat) ;;
  vm_interpret_tib fuel.

End Interp.

(** ** Registration and VM lifecycle *)

Module Boot.
Import Cell Mem VM Prims Interp.
Local Open Scope string_scope.
Local Open Scope vm_scope.

(** A run of [vm_add_prim(vm, name, fn, immediate);] statements. *)
Fixpoint add_prims (rows : list (string * prim_fn * bool)) : M unit :=
  match rows with
  | [] => ret tt
  | (nm, fn, imm) :: r => _ <- vm_add_prim nm fn imm ;; add_prims r
  end.

(** The user-visible words registered by [prims_init], in order. *)
Definition prims_table : list (string * prim_fn * bool) :=
  [ ("dup", P_dup, false);
    ("drop", P_drop, false);
    ("swap", P_swap, false);
    ("over", P_over, false);
    ("rot", P_rot, false);
    ("-rot", P_mrot, false);
    ("nip", P_nip, false);
    ("tuck", P_tuck, false);
    ("?dup", P_qdup, false);
    ("2dup", P_2dup, false);
    ("2drop", P_2drop, false);
    ("2swap", P_2swap, false);
    ("2over", P_2over, false);
    (">r", P_to_r, false);
    ("r>", P_r_from, false);
    ("r@", P_r_fetch, false);
    ("2>r", P_2to_r, false);
    ("2r>", P_2r_from, false);
    ("2r@", P_2r_fetch, false);
    ("depth", P_depth, false);
    ("pick", P_pick, false);
    ("+", P_add, false);
    ("-", P_sub, false);
    ("*", P_mul, false);
    ("/", P_div, false);
    ("mod", P_mod, false);
    ("/mod", P_divmod, false);
    ("negate", P_negate, false);
    ("abs", P_abs, false);
    ("min", P_min, false);
    ("max", P_max, false);
    ("1+", P_1add, false);
    ("1-", P_1sub, false);
    ("*/", P_star_slash, false);
    ("=", P_eq, false);
    ("<>", P_neq, false);
    ("<", P_lt, false);
    (">", P_gt, false);
    ("u<", P_ult, false);
    ("0=", P_0eq, false);
    ("0<", P_0lt, false);
    ("0>", P_0gt, false);
    ("and", P_and, false);
    ("or", P_or, false);
    ("xor", P_xor, false);
    ("invert", P_invert, false);
    ("lshift", P_lshift, false);
    ("rshift", P_rshift, false);
    ("@", P_fetch, false);
    ("!", P_store, false);
    ("c@", P_cfetch, false);
    ("c!", P_cstore, false);
    ("+!", P_pstore, false);
    ("here", P_here, false);
    ("allot", P_allot, false);
    ("cells", P_cells, false);
    ("cell+", P_cell_plus, false);
    (",", P_comma, false);
    ("c,", P_c_comma, false);
    ("move", P_move, false);
    ("fill", P_fill, false);
    ("/string", P_slash_string, false);
    ("count", P_count, false);
    (":", P_colon, false);
    (";", P_semicolon, true);
    ("immediate", P_immediate, false);
    ("[", P_lbracket, true);
    ("]", P_rbracket, false);
    ("state", P_state, false);
    ("'", P_tick, false);
    ("[']", P_bracket_tick, true);
    ("execute", P_execute, false);
    (">body", P_to_body, false);
    ("create", P_create, false);
    ("find", P_find, false);
    ("literal", P_literal, true);
    ("compile,", P_compile_comma, false);
    ("postpone", P_postpone, true);
    ("does>", P_does_compile, true);
    ("recurse", P_recurse, true);
    ("if", P_if, true);
    ("else", P_else, true);
    ("then", P_then, true);
    ("begin", P_begin, true);
    ("while", P_while_fixed, true);
    ("repeat", P_repeat, true);
    ("until", P_until, true);
    ("again", P_again, true);
    ("do", P_do_compile, true);
    ("?do", P_qdo_compile, true);
    ("loop", P_loop_compile, true);
    ("+loop", P_ploop_compile, true);
    ("i", P_i, false);
    ("j", P_j, false);
    ("unloop", P_unloop, false);
    ("case", P_case, true);
    ("of", P_of, true);
    ("endof", P_endof, true);
    ("endcase", P_endcase, true);
    ("exit", P_user_exit, true);
    (("s" ++ dq)%string, P_s_quote, true);
    (("s\" ++ dq)%string, P_s_bs_quote, true);
    ("[char]", P_bracket_char, true);
    ("char", P_char, false);
    ("parse-name", P_parse_name, false);
    (("." ++ dq)%string, P_dot_quote, true);
    (".(", P_dot_paren, true);
    (("abort" ++ dq)%string, P_abort_quote, true);
    (".", P_dot, false);
    ("u.", P_u_dot, false);
    (".s", P_dot_s, false);
    ("<#", P_pno_begin, false);
    ("#", P_pno_digit, false);
    ("#s", P_pno_digits, false);
    ("#>", P_pno_end, false);
    ("hold", P_hold, false);
    ("sign", P_sign, false);
    ("noop", P_noop, false);
    ("true", P_true, false);
    ("false", P_false, false);
    ("bl", P_bl, false);
    ("space", P_space, false);
    ("spaces", P_spaces, false);
    ("abort", P_abort, false) ].

Definition prims_table_tail : list (string * prim_fn * bool) :=
  [ ("s>number?", P_s_to_number, false);
    (">number", P_to_number, false) ].

Definition prims_init : M unit :=
  modify (set_here 64) ;;
  x <- vm_add_prim "(lit)" P_lit false ;; modify (set_xt_lit x) ;;
  x <- vm_add_prim "(branch)" P_branch false ;; modify (set_xt_branch x) ;;
  x <- vm_add_prim "(0branch)" P_0branch false ;; modify (set_xt_0branch x) ;;
  x <- vm_add_prim "(exit)" P_exit false ;; modify (set_xt_exit x) ;;
  x <- vm_add_prim ("(s" ++ dq ++ ")")%string P_slit false ;; modify (set_xt_slit x) ;;
  x <- vm_add_prim "(do)" P_do_rt false ;; modify (set_xt_do x) ;;
  x <- vm_add_prim "(?do)" P_qdo_rt false ;; modify (set_xt_qdo x) ;;
  x <- vm_add_prim "(loop)" P_loop_rt false ;; modify (set_xt_loop x) ;;
  x <- vm_add_prim "(+loop)" P_ploop_rt false ;; modify (set_xt_ploop x) ;;
  x <- vm_add_prim "(does>)" P_does_runtime false ;; modify (set_xt_does x) ;;
  add_prims prims_table ;;
  vm_add_constant "cell" CELL ;;
  add_prims prims_table_tail.

Definition io_table : list (string * prim_fn * bool) :=
  [ ("emit", P_emit, false);
    ("type", P_type, false);
    ("cr", P_cr, false);
    ("key", P_key, false);
    ("accept", P_accept, false);
    ("open-file", P_open_file, false);
    ("create-file", P_create_file, false);
    ("close-file", P_close_file, false);
    ("write-file", P_write_file, false);
    ("read-line", P_read_line, false);
    ("emit-file", P_emit_file, false);
    ("flush-file", P_flush_file, false);
    ("r/o", P_ro, false);
    ("w/o", P_wo, false);
    ("r/w", P_rw, false);
    ("throw", P_throw, false);
    ("stdout", P_stdout, false);
    ("slurp-file", P_slurp_file, false);
    ("system", P_system, false);
    ("bye", P_bye, false);
    ("getenv", P_getenv, false);
    ("include", P_include, false);
    ("require", P_require, false);
    ("included", P_included, false);
    ("\", P_backslash, true);
    ("(", P_paren, true);
    ("base", P_base, false);
    ("decimal", P_decimal, false);
    ("hex", P_hex, false) ].

Definition io_init : M unit := add_prims io_table.

(** The VM as [calloc] and the first assignments of [vm_create] leave
    it.  [pno_pos] is 0, so the pictured-output buffer counts as full,
    of 128 NUL characters, until [<#] opens it. *)
Definition blank : vm :=
  mkVM [] (-1) Mem.zero 0 [] [] 0 0 0 10 [] 0%nat [] EmptyString
       (repeat Ascii.zero (Z.to_nat PNO_SIZE)) true
       0 0 0 0 0 0 0 0 0 0 EmptyString [] (repeat 0 (Z.to_nat MAX_FILES)) [] [].

Definition vm_create : option vm :=
  exec (prims_init ;; io_init ;; modify (fun s => set_here (vm_align (here s)) s)) blank.

End Boot.

(** ** [tcc.c]: the C code generator *)

Module Codegen.
Import Cell Mem VM.
Local Open Scope string_scope.
Local Open Scope Z_scope.

(** Join lines, each followed by a newline. *)
Fixpoint unlines (ls : list string) : string :=
  match ls with
  | [] => ""
  | l :: r => l ++ newline ++ unlines r
  end.

(** [c_runtime_header]. *)
Definition c_runtime_header : string :=
  unlines
  [ "#include <stdint.h>";
    "#include <stdio.h>";
    "";
    "typedef int64_t cell_t;";
    "#define STACK_SIZE 256";
    "static cell_t stack[STACK_SIZE];";
    "static cell_t *sp = stack + STACK_SIZE;";
    "static cell_t rstack[STACK_SIZE];";
    "static cell_t *rsp = rstack + STACK_SIZE;";
    "";
    "#define TOS (sp[0])";
    "#define NOS (sp[1])";
    "#define PUSH(x) (*--sp = (x))";
    "#define POP() (*sp++)";
    "#define DROP() (sp++)";
    "";
    "/* Primitives */";
    "static void f_dup(void) { cell_t x = TOS; PUSH(x); }";
    "static void f_drop(void) { DROP(); }";
    "static void f_swap(void) { cell_t t = TOS; TOS = NOS; NOS = t; }";
    "static void f_over(void) { PUSH(NOS); }";
    "static void f_rot(void) { cell_t x = sp[2]; sp[2] = sp[1]; sp[1] = TOS; TOS = x; }";
    "static void f_nip(void) { NOS = TOS; DROP(); }";
    "static void f_tuck(void) { cell_t t = TOS; TOS = NOS; NOS = t; PUSH(t); }";
    "";
    "static void f_add(void) { NOS += TOS; DROP(); }";
    "static void f_sub(void) { NOS -= TOS; DROP(); }";
    "static void f_mul(void) { NOS *= TOS; DROP(); }";
    "static void f_div(void) { NOS /= TOS; DROP(); }";
    "static void f_mod(void) { NOS %= TOS; DROP(); }";
    "static void f_neg(void) { TOS = -TOS; }";
    "static void f_abs(void) { if (TOS < 0) TOS = -TOS; }";
    "";
    "static void f_and(void) { NOS &= TOS; DROP(); }";
    "static void f_or(void) { NOS |= TOS; DROP(); }";
    "static void f_xor(void) { NOS ^= TOS; DROP(); }";
    "static void f_invert(void) { TOS = ~TOS; }";
    "static void f_lshift(void) { NOS <<= TOS; DROP(); }";
    "static void f_rshift(void) { NOS >>= TOS; DROP(); }";
    "";
    "static void f_eq(void) { NOS = (NOS == TOS) ? -1 : 0; DROP(); }";
    "static void f_ne(void) { NOS = (NOS != TOS) ? -1 : 0; DROP(); }";
    "static void f_lt(void) { NOS = (NOS < TOS) ? -1 : 0; DROP(); }";
    "static void f_gt(void) { NOS = (NOS > TOS) ? -1 : 0; DROP(); }";
    "static void f_le(void) { NOS = (NOS <= TOS) ? -1 : 0; DROP(); }";
    "static void f_ge(void) { NOS = (NOS >= TOS) ? -1 : 0; DROP(); }";
    "static void f_0eq(void) { TOS = (TOS == 0) ? -1 : 0; }";
    "static void f_0lt(void) { TOS = (TOS < 0) ? -1 : 0; }";
    "static void f_0gt(void) { TOS = (TOS > 0) ? -1 : 0; }";
    "";
    "static void f_fetch(void) { TOS = *(cell_t*)TOS; }";
    "static void f_store(void) { *(cell_t*)TOS = NOS; sp += 2; }";
    "static void f_cfetch(void) { TOS = *(unsigned char*)TOS; }";
    "static void f_cstore(void) { *(unsigned char*)TOS = (unsigned char)NOS; sp += 2; }";
    "";
    "static void f_tor(void) { *--rsp = POP(); }";
    "static void f_fromr(void) { PUSH(*rsp++); }";
    "static void f_rfetch(void) { PUSH(*rsp); }";
    "";
    "static void f_dot(void) { printf(" ++ dq ++ "%ld " ++ dq ++ ", (long)POP()); }";
    "static void f_cr(void) { printf(" ++ dq ++ "\n" ++ dq ++ "); }";
    "static void f_emit(void) { putchar((int)POP()); }";
    "" ].

(** Sanitize a name for a C identifier: the loop that fills [c_name]. *)
Definition sanitize_char (c : ascii) : ascii :=
  let v := schar c in
  if ((97 <=? v) && (v <=? 122)) || ((65 <=? v) && (v <=? 90))
     || ((48 <=? v) && (v <=? 57)) || (v =? 95)
  then c else "_"%char.

Definition sanitize (nm : string) : string :=
  string_of_list_ascii (map sanitize_char (firstn 60 (list_ascii_of_string nm))).

(** The chain of [strcmp(sub->name, ...)] tests, in source order: the
    Forth name and the helper called for it. *)
Definition helper_table : list (string * string) :=
  [ ("+", "f_add"); ("-", "f_sub"); ("*", "f_mul"); ("/", "f_div"); ("mod", "f_mod"); ("dup", "f_dup"); ("drop", "f_drop"); ("swap", "f_swap"); ("over", "f_over"); ("rot", "f_rot"); (".", "f_dot"); ("cr", "f_cr"); ("emit", "f_emit"); ("=", "f_eq"); ("<>", "f_ne"); ("<", "f_lt"); (">", "f_gt"); ("<=", "f_le"); (">=", "f_ge"); ("0=", "f_0eq"); ("0<", "f_0lt"); ("0>", "f_0gt"); ("and", "f_and"); ("or", "f_or"); ("xor", "f_xor"); ("invert", "f_invert"); ("negate", "f_neg"); ("abs", "f_abs"); ("@", "f_fetch"); ("!", "f_store"); ("c@", "f_cfetch"); ("c!", "f_cstore"); (">r", "f_tor"); ("r>", "f_fromr"); ("r@", "f_rfetch") ].

Fixpoint helper_for (tbl : list (string * string)) (nm : string) : option string :=
  match tbl with
  | [] => None
  | (n, f) :: r => if String.eqb nm n then Some f else helper_for r nm
  end.

(** [&vm->dict[sub_xt]]: the name and whether [code == docol].  A slot
    of the array that was never filled is all zero; an index outside the
    array is undefined. *)
Definition sub_entry (s : vm) (i : Z) : option (string * bool) :=
  if (i <? 0) || (MAX_DICT <=? i) then None
  else match dict s !! Z.to_nat i with
       | Some e => Some (name e, match code e with Docol => true | _ => false end)
       | None => Some ("", false)
       end.

Definition cell_at (s : vm) (a : Z) : option Z :=
  if in_bounds a CELL then Some (load_cell (mem s) a) else None.

(** The [while (1)] loop of [codegen_word]: the text emitted for the
    body that starts at [ip], at most [fuel] tokens. *)
Fixpoint codegen_body (fuel : nat) (s : vm) (ip : Z) : option string :=
  match fuel with
  | O => None
  | S fuel' =>
      match cell_at s ip with
      | None => None
      | Some sub_xt =>
          let ip := add ip CELL in
          if sub_xt =? xt_exit s then Some ""
          else if sub_xt =? xt_lit s then
            match cell_at s ip with
            | None => None
            | Some val =>
                option_map (append ("    PUSH(" ++ fmt_ld val ++ ");" ++ newline))
                           (codegen_body fuel' s (add ip CELL))
            end
          else if sub_xt =? xt_branch s then
            match cell_at s ip with
            | None => None
            | Some offset =>
                let ip := add ip CELL in
                option_map (append ("    goto L" ++ fmt_ld (add ip offset) ++ ";" ++ newline))
                           (codegen_body fuel' s ip)
            end
          else if sub_xt =? xt_0branch s then
            match cell_at s ip with
            | None => None
            | Some offset =>
                let ip := add ip CELL in
                option_map (append ("    if (POP() == 0) goto L"
                                    ++ fmt_ld (add ip offset) ++ ";" ++ newline))
                           (codegen_body fuel' s ip)
            end
          else
            match sub_entry s sub_xt with
            | None => None
            | Some (nm, is_colon) =>
                let line :=
                  match helper_for helper_table nm with
                  | Some f => "    " ++ f ++ "();" ++ newline
                  | None =>
                      if is_colon then "    word_" ++ sanitize nm ++ "();" ++ newline
                      else "    /* TODO: " ++ nm ++ " */" ++ newline
                  end in
                option_map (append line) (codegen_body fuel' s ip)
            end
      end
  end.

(** [codegen_word]: the text emitted for dictionary entry [xt]. *)
Definition codegen_word (fuel : nat) (s : vm) (xt : Z) : option string :=
  match sub_entry s xt, dict s !! Z.to_nat xt with
  | Some (nm, is_colon), Some e =>
      let head := "static void word_" ++ sanitize nm ++ "(void) {" ++ newline in
      let tail := "}" ++ newline ++ newline in
      if is_colon
      then option_map (fun body => head ++ body ++ tail) (codegen_body fuel s (param e))
      else Some (head ++ tail)
  | _, _ => None
  end.

(** The indices [0 .. latest] whose code is [docol]. *)
Definition colon_xts (s : vm) : list Z :=
  List.filter (fun i => match sub_entry s i with Some (_, true) => true | _ => false end)
         (map Z.of_nat (seq 0 (Z.to_nat (latest s + 1)))).

Fixpoint concat_opt (l : list (option string)) : option string :=
  match l with
  | [] => Some ""
  | Some x :: r => option_map (append x) (concat_opt r)
  | None :: _ => None
  end.

Definition entry_name (s : vm) (i : Z) : string :=
  match sub_entry s i with Some (nm, _) => nm | None => "" end.

(** [codegen_all]: header, forward declarations, one function per colon
    definition, and [forth_main] calling the latest word. *)
Definition codegen_all (fuel : nat) (s : vm) : option string :=
  let decls :=
    String.concat "" (map (fun i => "static void word_" ++ sanitize (entry_name s i)
                          ++ "(void);" ++ newline) (colon_xts s)) in
  let main_call :=
    if (0 <=? latest s)
       && match sub_entry s (latest s) with Some (_, true) => true | _ => false end
    then "    word_" ++ sanitize (entry_name s (latest s)) ++ "();" ++ newline
    else "" in
  option_map
    (fun words =>
       c_runtime_header ++ decls ++ newline ++ words
       ++ "void forth_main(void) {" ++ newline ++ main_call ++ "}" ++ newline)
    (concat_opt (map (codegen_word fuel s) (colon_xts s))).

End Codegen.

(** ** Statements used by the properties below *)

Module Spec.
Import Cell Mem VM Prims Interp Boot.
Local Open Scope string_scope.
Local Open Scope Z_scope.

(** What [vm_abort msg] leaves behind, started in [s]. *)
Definition abort_effect (msg : string) (s s' : vm) : Prop :=
  err s' = err s ++ "ABORT: " ++ msg ++ newline
  /\ dstack s' = [] /\ rstack s' = [] /\ state s' = 0
  /\ input s' = []
  /\ (forall h, In h (input s) -> In h (closed s'))
  /\ dict s' = dict s /\ mem s' = mem s /\ here s' = here s
  /\ out s' = out s /\ running s' = running s.

(** The sign comparison of the [(+loop)] rule: the sign of a cell is
    its sign bit, so zero counts as non-negative. *)
Definition sign_differs (a b : Z) : bool := xorb (a <? 0) (b <? 0).

(** The termination rule of [(+loop)] in the words of the specification:
    the new index equals the limit, or the addition crossed the limit. *)
Definition ploop_terminates (i step lim : Z) : bool :=
  (add i step =? lim)
  || (sign_differs (sub i lim) (sub (add i step) lim)
      && sign_differs (sub i lim) step).

(** The handler the next round of [vm_run] will dispatch: the code field
    of the entry whose XT is the cell at IP. *)
Definition next_handler (s : vm) : option prim_fn :=
  if in_bounds (ip s) CELL then
    let xt := load_cell (mem s) (ip s) in
    if xt <? 0 then None else option_map code (dict s !! Z.to_nat xt)
  else None.

(** [n] rounds of the loop body of [vm_run], without the loop test. *)
Fixpoint steps (ve : reentry) (n : nat) (s : vm) : option vm :=
  match n with
  | O => Some s
  | S n' =>
      match exec (vm_step ve) s with
      | Some s' => steps ve n' s'
      | None => None
      end
  end.

(** The loop of [vm_run] stops in [s'] after exactly [n] rounds: the
    loop test holds before each of the [n] rounds and fails in [s']. *)
Definition stops_after (ve : reentry) (rsp_base : Z) (n : nat) (s s' : vm) : Prop :=
  steps ve n s = Some s'
  /\ run_continues rsp_base s' = false
  /\ forall m sm, (m < n)%nat -> steps ve m s = Some sm -> run_continues rsp_base sm = true.

(** How many of the first [n] rounds started in [s] begin with IP at
    offset [a], that is, dispatch the cell compiled at [a]. *)
Fixpoint rounds_at (ve : reentry) (a : Z) (n : nat) (s : vm) : option nat :=
  match n with
  | O => Some O
  | S n' =>
      match exec (vm_step ve) s with
      | Some s' =>
          option_map (Nat.add (if ip s =? a then 1%nat else 0%nat)) (rounds_at ve a n' s')
      | None => None
      end
  end.

(** The two cells [(loop) back] that [loop] compiles sit at offset [la]. *)
Definition loop_cell_ok (s : vm) (la back : Z) : Prop :=
  0 <= la /\ la + 2 * CELL <= MEM_SIZE
  /\ next_handler (set_ip la s) = Some P_loop_rt
  /\ load_cell (mem s) (la + CELL) = back.

(** A well-behaved loop body between offset [back] (where [do] left the
    back-reference) and the [(loop)] cell at [la]: in every state that
    satisfies the invariant [I], entered at [back] with an index and the
    limit [lim] on top of the return stack, the body reaches [la] without
    dispatching the cell at [la], and restores the return stack and [I].
    [I] guarantees the [(loop)] cells and does not depend on [w], IP or
    the return stack. *)
Definition loop_body (ve : reentry) (I : vm -> Prop)
           (back la lim : Z) (rs : list Z) : Prop :=
  (forall s, I s -> running s = true /\ loop_cell_ok s la back)
  /\ (forall s x p r, I s -> I (set_w x (set_ip p (set_rstack r s))))
  /\ (forall s i,
         I s -> ip s = back -> rstack s = i :: lim :: rs ->
         exists m s',
           steps ve m s = Some s'
           /\ rounds_at ve la m s = Some O
           /\ ip s' = la
           /\ rstack s' = i :: lim :: rs
           /\ I s').

(** No dictionary entry has [decimal] or [hex] as its handler. *)
Definition no_base_setter (d : list dict_entry) : Prop :=
  Forall (fun e => code e <> P_decimal /\ code e <> P_hex) d.

(** *** Names, the search and number syntax *)

(** ASCII case folding of a name. *)
Fixpoint lower (nm : string) : string :=
  match nm with
  | EmptyString => EmptyString
  | String c r => String (tolower c) (lower r)
  end.

(** The search from index [i] passes over entries that do not match
    (hidden, or another name) and arrives at [j]. *)
Inductive skipped (d : list dict_entry) (nm : string) : Z -> Z -> Prop :=
| skipped_here i : skipped d nm i i
| skipped_next i j e :
    0 <= i -> d !! Z.to_nat i = Some e -> entry_matches e nm = false ->
    skipped d nm (link e) j ->
    skipped d nm i j.

(** The dictionary is a chain: every link points to an earlier entry (or
    is the end marker), and the length bits of the flags are the length
    of the name. *)
Definition dict_wf (s : vm) : Prop :=
  -1 <= latest s < Z.of_nat (length (dict s))
  /\ forall i e, dict s !! i = Some e ->
                 -1 <= link e < Z.of_nat i /\ entry_len e = strlen (name e).

(** The base prefixes and the base each selects. *)
Definition prefix_base (vbase : Z) (pfx : list ascii) (b : Z) : Prop :=
  (pfx = [] /\ b = vbase)
  \/ (pfx = ["$"%char] /\ b = 16)
  \/ (pfx = ["#"%char] /\ b = 10)
  \/ (pfx = ["%"%char] /\ b = 2)
  \/ (pfx = ["0"%char; "x"%char] /\ b = 16)
  \/ (pfx = ["0"%char; "X"%char] /\ b = 16).

(** A number: an optional sign, an optional prefix, then one or more
    digits of the selected base; its value is accumulated left to right
    in cell arithmetic and negated after a minus sign. *)
Inductive number_syntax (vbase : Z) : list ascii -> Z -> Prop :=
| number_intro (negative : bool) sign pfx digits b v :
    (negative = true /\ sign = ["-"%char])
    \/ (negative = false /\ (sign = [] \/ sign = ["+"%char])) ->
    prefix_base vbase pfx b ->
    digits <> [] ->
    accumulate b digits 0 = Some v ->
    number_syntax vbase (sign ++ pfx ++ digits) (if negative then neg v else v).

(** [vm_try_number] read off the shape of the token instead of by
    index: the sign it strips, the prefix it strips, the digits left. *)
Definition split_sign (s : list ascii) : bool * list ascii :=
  match s with
  | c :: r =>
      match r with
      | _ :: _ =>
          if Ascii.eqb c "-" then (true, r)
          else if Ascii.eqb c "+" then (false, r)
          else (false, s)
      | [] => (false, s)
      end
  | [] => (false, s)
  end.

Definition split_prefix (vbase : Z) (r : list ascii) : Z * list ascii :=
  match r with
  | c :: d =>
      if Ascii.eqb c "$" then (16, d)
      else if Ascii.eqb c "#" then (10, d)
      else if Ascii.eqb c "%" then (2, d)
      else match d with
           | x :: d' =>
               match d' with
               | _ :: _ =>
                   if Ascii.eqb c "0" && (Ascii.eqb x "x" || Ascii.eqb x "X")
                   then (16, d') else (vbase, r)
               | [] => (vbase, r)
               end
           | [] => (vbase, r)
           end
  | [] => (vbase, r)
  end.

Definition try_number_lists (vbase : Z) (s : list ascii) : option Z :=
  match s with
  | [] => None
  | _ :: _ =>
      let '(negative, r) := split_sign s in
      let '(b, d) := split_prefix vbase r in
      match d with
      | [] => None
      | _ :: _ =>
          match accumulate b d 0 with
          | Some val => Some (if negative : bool then neg val else val)
          | None => None
          end
      end
  end.

(** A decision procedure for the chain condition of [dict_wf], entry
    by entry from index [i]. *)
Fixpoint check_entries (i : nat) (l : list dict_entry) : bool :=
  match l with
  | [] => true
  | e :: r =>
      (-1 <=? link e) && (link e <? Z.of_nat i)
      && (entry_len e =? strlen (name e))
      && check_entries (S i) r
  end.

(** The termination rule of the inner interpreter as the specification
    words it: whenever [vm_run] returns, the return-stack pointer is
    above the value it had when the run began. *)
Definition run_ends_only_above_base : Prop :=
  forall fuel s s', exec (vm_run fuel) s = Some s' -> rsp s < rsp s'.

(** The return-stack invariant as the specification words it: executing
    any XT returns with the return-stack depth of the call site. *)
Definition execute_preserves_rdepth : Prop :=
  forall fuel xt s s', exec (vm_execute fuel xt) s = Some s' -> rdepth s' = rdepth s.

(** The VM after [vm_create]. *)
Definition boot : vm := Eval vm_compute in (match vm_create with Some s => s | None => blank end).

(** The VM after the outer interpreter has processed one line. *)
Definition after_line (src : string) (s : vm) : vm :=
  match exec (vm_interpret_line 4096 src) s with Some s' => s' | None => s end.

(** A state in the middle of a definition, about to divide by zero
    while two source files are being included. *)
Definition c7_state : vm := Eval vm_compute in (set_input [4; 3] (set_state (-1) (set_rstack [88] (set_dstack [0; 7] boot)))).

(** [: t 10 0 do 3 +loop ;] compiled; the state in which the [(+loop)]
    runtime is entered (IP at its inline operand, offset 128) with step
    3, index 9 and limit 10. *)
Definition c4_state : vm := Eval vm_compute in (
  let s := after_line ": t 10 0 do 3 +loop ;" boot in
  set_ip 128 (set_rstack [9; 10; 0] (set_dstack [3] s))).

(** The defining word [: const create , does> @ ;] and its uses:
    [c6_var_state] has a plain created word [buf]; [c6_does_state] is
    the state in which [(does>)] runs (IP just past its cell in the body
    of [const], the caller's IP on the return stack); [c6_life_state] is
    the state after [42 const life]. *)
Definition c6_source : string := ": const create , does> @ ;".
Definition c6_var_state : vm := Eval vm_compute in (after_line "create buf" boot).
Definition c6_does_state : vm := Eval vm_compute in (set_rstack [0] (set_ip 88 (after_line "create life 42 ," (after_line c6_source boot)))).
Definition c6_life_state : vm := Eval vm_compute in (after_line "42 const life" (after_line c6_source boot)).

(** [: q bye ;] compiled; [c1_state] is the state in which [vm_run]
    is entered for [q]: the colon handler has pushed the caller's IP and
    set IP to the body (offset 64). *)
Definition c1_state : vm := Eval vm_compute in
  (set_ip 64 (set_rstack [0] (set_w 166 (after_line ": q bye ;" boot)))).

(** [: sq dup * ;] compiled, 7 on the data stack, [vm_run] entered for
    [sq]. *)
Definition c1_sq_state : vm := Eval vm_compute in
  (set_ip 64 (set_rstack [0] (set_w 166 (set_dstack [7] (after_line ": sq dup * ;" boot))))).

(** 5 on the data stack, about to execute the XT of [>r] (entry 23). *)
Definition c8_state : vm := Eval vm_compute in (set_dstack [5] boot).

(** [: sq dup * ;] compiled and 7 on the data stack, about to execute
    the XT of [sq] (entry 166). *)
Definition c8_sq_state : vm := Eval vm_compute in
  (set_dstack [7] (after_line ": sq dup * ;" boot)).

(** [: t do i drop loop ;] compiled at offset 64: [(do)] at 64, the
    body [i drop] at 72 and 80, [(loop)] at 88 with back-reference 72.
    [c5_do_state] is about to dispatch [(do)] with limit 10 and index 3;
    [c5_inv] is the invariant of the body: code and dictionary as
    compiled, empty data stack, VM running. *)
Definition c5_do_state : vm := Eval vm_compute in
  (set_ip 64 (set_rstack [0] (set_dstack [3; 10] (after_line ": t do i drop loop ;" boot)))).
Definition c5_inv (s : vm) : Prop :=
  mem s = mem c5_do_state /\ dict s = dict c5_do_state
  /\ dstack s = [] /\ running s = true.

(** [: u ?do i drop loop ;]: [c5_qdo_state] is about to dispatch
    [(?do)] (at 64, placeholder at 72) with operands 5 and 5;
    [c5_compile_state] is the state in which [loop] is compiled. *)
Definition c5_qdo_state : vm := Eval vm_compute in
  (set_ip 64 (set_dstack [5; 5] (after_line ": u ?do i drop loop ;" boot))).
Definition c5_compile_state : vm := Eval vm_compute in
  (after_line ": u ?do i drop" boot).

(** [2 base !] typed at the keyboard after [<#]: [c10_state] is the
    state in which [base] runs (2 already pushed); [c10_add_state] is
    about to execute the XT of [+] (entry 31). *)
Definition c10_state : vm := Eval vm_compute in (set_dstack [2] (after_line "<#" boot)).
Definition c10_add_state : vm := Eval vm_compute in (set_dstack [1; 2] boot).
Definition c10_add_final : vm := Eval vm_compute in
  (match exec (vm_execute 8 31) c10_add_state with Some s => s | None => c10_add_state end).

(** [: t if 1 then ;] compiled at offset 64: [(0branch)] at 64, its
    target cell at 72 holding the absolute offset 96, [(lit)] 1 at 80 and
    88, [(exit)] at 96.  [t] is entry 166. *)
Definition c9_state : vm := Eval vm_compute in (after_line ": t if 1 then ;" boot).

(** The states in which the two runs above return. *)
Definition c1_final : vm := Eval vm_compute in
  (match exec (vm_run 8) c1_state with Some s => s | None => c1_state end).
Definition c1_sq_final : vm := Eval vm_compute in
  (match exec (vm_run 8) c1_sq_state with Some s => s | None => c1_sq_state end).
Definition c8_final : vm := Eval vm_compute in
  (match exec (vm_execute 8 23) c8_state with Some s => s | None => c8_state end).
Definition c8_sq_final : vm := Eval vm_compute in
  (match exec (vm_execute 8 166) c8_sq_state with Some s => s | None => c8_sq_state end).

(** The effect of [;] as the specification words it: once [:] has made
    an entry, whatever is interpreted before [;] runs, [;] clears the
    HIDDEN flag of that entry. *)
Definition semicolon_unhides_colon_entry : Prop :=
  forall fuel s0 s1 s2 s3 e,
    exec p_colon s0 = Some s1 ->
    latest s1 = Z.of_nat (length (dict s0)) ->
    exec (vm_interpret_tib fuel) s1 = Some s2 ->
    exec p_semicolon s2 = Some s3 ->
    dict s3 !! length (dict s0) = Some e ->
    is_hidden e = false.

(** [1 allot] leaves HERE at 65; [c3_odd_state] is the state in which
    [:] then runs for [: sq dup *], [c3_odd_colon] the state it returns
    in and [c3_odd_semi] the state in which [;] runs. *)
Definition c3_odd_state : vm := Eval vm_compute in
  (set_tib_pos 1%nat (set_tib (list_ascii_of_string ": sq dup *") (after_line "1 allot" boot))).
Definition c3_odd_colon : vm := Eval vm_compute in
  (match exec p_colon c3_odd_state with Some s => s | None => c3_odd_state end).
Definition c3_odd_semi : vm := Eval vm_compute in
  (match exec (vm_interpret_tib 64) c3_odd_colon with Some s => s | None => c3_odd_colon end).

(** [: foo [ create bar ] 1 ;]: [c3_nested_state] is the state in which
    [:] runs, [c3_nested_colon] the state it returns in and
    [c3_nested_semi] the state in which [;] runs, [bar] being the latest
    entry. *)
Definition c3_nested_state : vm := Eval vm_compute in
  (set_tib_pos 1%nat (set_tib (list_ascii_of_string ": foo [ create bar ] 1") boot)).
Definition c3_nested_colon : vm := Eval vm_compute in
  (match exec p_colon c3_nested_state with Some s => s | None => c3_nested_state end).
Definition c3_nested_semi : vm := Eval vm_compute in
  (match exec (vm_interpret_tib 64) c3_nested_colon with
   | Some s => s | None => c3_nested_colon end).

(** [create buf] typed after [1 allot]: the state in which [create]
    runs, HERE being 65. *)
Definition c6_odd_state : vm := Eval vm_compute in
  (set_tib_pos 6%nat (set_tib (list_ascii_of_string "create buf") (after_line "1 allot" boot))).

(** *** The outer interpreter's policy, from the words of the specification *)

(** The position of a character in a list of characters. *)
Fixpoint index_of (c : ascii) (l : list ascii) : option nat :=
  match l with
  | [] => None
  | x :: r => if Ascii.eqb c x then Some O else option_map S (index_of c r)
  end.

Definition upper_letters : list ascii := list_ascii_of_string "ABCDEFGHIJKLMNOPQRSTUVWXYZ".
Definition lower_letters : list ascii := list_ascii_of_string "abcdefghijklmnopqrstuvwxyz".
Definition digit_chars : list ascii :=
  list_ascii_of_string "0123456789abcdefghijklmnopqrstuvwxyz".

(** Case-insensitive: an upper-case letter counts as its lower-case one. *)
Definition fold_case (c : ascii) : ascii :=
  match index_of c upper_letters with
  | Some i => nth i lower_letters c
  | None => c
  end.

Definition same_name (a b : string) : Prop :=
  map fold_case (list_ascii_of_string a) = map fold_case (list_ascii_of_string b).

(** HIDDEN is bit 6 of the flags, IMMEDIATE is bit 7. *)
Definition visible (e : dict_entry) : Prop := Z.testbit (flags e) 6 = false.
Definition immediate (e : dict_entry) : Prop := Z.testbit (flags e) 7 = true.

(** Latest-first lookup: [first_match d nm i xt] says that the search
    from entry [i] along the links ends at [xt], the first visible entry
    with the name [nm], or at -1 when the chain ends first. *)
Inductive first_match (d : list dict_entry) (nm : string) : Z -> Z -> Prop :=
| first_match_none i : i < 0 -> first_match d nm i (-1)
| first_match_here i e :
    0 <= i -> d !! Z.to_nat i = Some e ->
    visible e -> same_name (name e) nm ->
    first_match d nm i i
| first_match_next i e xt :
    0 <= i -> d !! Z.to_nat i = Some e ->
    ~ (visible e /\ same_name (name e) nm) ->
    first_match d nm (link e) xt ->
    first_match d nm i xt.

(** The value of a digit, letters counting from ten in either case. *)
Definition digit_value (c : ascii) : option Z :=
  option_map Z.of_nat (index_of (fold_case c) digit_chars).

(** The value of a digit string in base [b], most significant digit
    first, as an integer. *)
Fixpoint numeral_value (b : Z) (ds : list ascii) (acc : Z) : option Z :=
  match ds with
  | [] => Some acc
  | c :: r =>
      match digit_value c with
      | Some d => if d <? b then numeral_value b r (acc * b + d) else None
      | None => None
      end
  end.

(** Text that begins with the hex marker [0x] or [0X] and goes on. *)
Definition hex_marked (ds : list ascii) : Prop :=
  exists x r, ds = "0"%char :: x :: r /\ (x = "x"%char \/ x = "X"%char) /\ r <> [].

(** The prefixes and the base each selects; without a prefix the base is
    the current one, and text with the hex marker is not read without
    its prefix. *)
Definition prefix_selects (vbase : Z) (pfx digits : list ascii) (b : Z) : Prop :=
  (pfx = [] /\ b = vbase /\ ~ hex_marked digits)
  \/ (pfx = ["$"%char] /\ b = 16)
  \/ (pfx = ["#"%char] /\ b = 10)
  \/ (pfx = ["%"%char] /\ b = 2)
  \/ (pfx = ["0"%char; "x"%char] /\ b = 16)
  \/ (pfx = ["0"%char; "X"%char] /\ b = 16).

(** A number in the current base [vbase]: an optional sign, an optional
    prefix, one or more digits of the selected base; the cell it stands
    for is its value, negated after a minus sign, in 64-bit two's
    complement. *)
Inductive numeral (vbase : Z) : list ascii -> Z -> Prop :=
| numeral_intro (negative : bool) sign pfx digits b v :
    (negative = true /\ sign = ["-"%char])
    \/ (negative = false /\ (sign = [] \/ sign = ["+"%char])) ->
    prefix_selects vbase pfx digits b ->
    digits <> [] ->
    numeral_value b digits 0 = Some v ->
    numeral vbase (sign ++ pfx ++ digits)%list (wrap (if negative then - v else v)).

(** White space, and the characters a token is made of. *)
Definition space_char (c : ascii) : Prop := (nat_of_ascii c <= 32)%nat.
Definition graphic (c : ascii) : Prop := (32 < nat_of_ascii c < 128)%nat.

(** The input from the parse position on is some white space, the token
    [tok], and then the end of the line or more white space. *)
Definition next_token (s : vm) (blanks tok tail : list ascii) : Prop :=
  skipn (tib_pos s) (tib s) = (blanks ++ tok ++ tail)%list
  /\ Forall space_char blanks
  /\ tok <> [] /\ Forall (fun c => ~ space_char c) tok
  /\ (tail = [] \/ exists c r, tail = c :: r /\ space_char c).

(** The last rule of the policy as the specification words it: a
    whitespace-delimited token that is neither the name of a visible
    entry nor a number is reported and the VM aborts, stacks empty. *)
Definition unknown_tokens_abort : Prop :=
  forall fuel s s' blanks tok tail,
    running s = true ->
    next_token s blanks tok tail ->
    first_match (dict s) (string_of_list_ascii tok) (latest s) (-1) ->
    (forall num, ~ numeral (base s) tok num) ->
    exec (vm_interpret_tib fuel) s = Some s' ->
    dstack s' = []
    /\ err s' = (err s ++ string_of_list_ascii tok ++ " ?" ++ newline
                 ++ "ABORT: undefined word" ++ newline)%string.

(** A line holding one token of 34 characters: 31 zeros and [dup]. *)
Definition c2_long_token : list ascii :=
  list_ascii_of_string "0000000000000000000000000000000dup".
Definition c2_long_state : vm := Eval vm_compute in (set_tib c2_long_token boot).
Definition c2_long_final : vm := Eval vm_compute in
  (match exec (vm_interpret_tib 8) c2_long_state with
   | Some s => s | None => c2_long_state end).

(** The line [  DUP 1] with 7 on the stack. *)
Definition c2_dup_state : vm := Eval vm_compute in
  (set_dstack [7] (set_tib (list_ascii_of_string "  DUP 1") boot)).

End Spec.

(** ** [vm.c]: variables and the read-eval-print loop *)

Module Lifecycle.
Import Cell Mem VM Prims Interp.
Local Open Scope string_scope.
Local Open Scope vm_scope.

(** [vm_add_variable]: a [dovar] entry whose body is a fresh aligned cell
    holding [initial]. *)
Definition vm_add_variable (nm : string) (initial : Z) : M unit :=
  idx <- vm_add_prim nm Dovar false ;;
  modify (fun s => set_here (vm_align (here s)) s) ;;
  h <- gets here ;;
  dict_update idx (set_param h) ;;
  mem_store h initial ;;
  modify (fun s => set_here (add (here s) CELL) s).

(** [fgets(line, size, stdin)] on the characters still to come on
    stdin: [None] at end of input, otherwise the line read and the input
    left unread. *)
Definition fgets (size : nat) (stdin : list ascii) : option (list ascii * list ascii) :=
  match stdin with
  | [] => None
  | _ :: _ => Some (fgets_line (size - 1) stdin)
  end.

(** [vm_repl]: prompt on stderr, read a line, interpret it, until the VM
    stops running or the input ends.  The input is a parameter; the
    result is the input left unread.  [fuel] bounds the lines read and
    the work on each line. *)
Fixpoint vm_repl (fuel : nat) (stdin : list ascii) : M (list ascii) :=
  fun s =>
    if running s then
      match fuel with
      | O => None
      | S fuel' =>
          (st <- gets state ;;
           print_err (if negb (st =? 0)%Z then "  compiled " else "  ok" ++ newline) ;;
           match fgets TIB_SIZE stdin with
           | None => ret stdin
           | Some (line, rest) =>
               modify (set_tib (chomp (cstring line))) ;;
               modify (set_tib_pos 0%nat) ;;
               vm_interpret_tib fuel' ;;
               vm_repl fuel' rest
           end) s
      end
    else Some (stdin, s).

End Lifecycle.

(** ** Notions used by the further properties *)

Module Notions.
Import Cell Mem VM Prims Interp Boot Spec.
Local Open Scope string_scope.
Local Open Scope Z_scope.

(** A computation relates every state it is started in to the state it
    returns in by [R]. *)
Definition respects (R : vm -> vm -> Prop) {A} (m : M A) : Prop :=
  forall s a s', m s = Some (a, s') -> R s s'.

(** What the three re-entrant functions do is related by [R]. *)
Definition re_respects (R : vm -> vm -> Prop) (re : reentry) : Prop :=
  (forall xt, respects R (re xt))
  /\ respects R (re_interpret_tib re)
  /\ (forall path, respects R (re_load_file re path)).

(** The base field is left as it was. *)
Definition base_kept (s s' : vm) : Prop := base s' = base s.

(** One change to the dictionary: none at all; a new entry appended
    behind the others, with the colon or the variable handler, linked to
    the previous latest entry and made the latest; or an existing entry
    rewritten in its flag bits, its DOES> field or its handler (to
    [dodoes] only). *)
Definition dict_step (s s' : vm) : Prop :=
  (dict s' = dict s /\ latest s' = latest s)
  \/ (exists e, dict s' = (dict s ++ [e])%list
                /\ latest s' = Z.of_nat (length (dict s))
                /\ link e = latest s /\ entry_len e = strlen (name e)
                /\ (code e = Docol \/ code e = Dovar))
  \/ (exists i e e', dict s !! i = Some e
                     /\ dict s' = <[i := e']> (dict s)
                     /\ latest s' = latest s
                     /\ name e' = name e /\ link e' = link e
                     /\ entry_len e' = entry_len e /\ param e' = param e
                     /\ (code e' = code e \/ code e' = Dodoes)).

(** A finite sequence of such changes. *)
Inductive evolves : vm -> vm -> Prop :=
| evolves_refl s : evolves s s
| evolves_step s1 s2 s3 : dict_step s1 s2 -> evolves s2 s3 -> evolves s1 s3.

(** What an execution may do to the dictionary and to the number base:
    the dictionary changes by such steps; the base is left as it was or
    becomes 10 or 16, and it is left as it was when no entry of the
    dictionary has [decimal] or [hex] as its handler. *)
Definition engine_step (s s' : vm) : Prop :=
  evolves s s'
  /\ (base s' = base s \/ base s' = 10 \/ base s' = 16)
  /\ (no_base_setter (dict s) -> base s' = base s).

(** What stays true of the entries present before the changes. *)
Definition entries_kept (s s' : vm) : Prop :=
  (length (dict s) <= length (dict s'))%nat
  /\ forall i e, dict s !! i = Some e ->
       exists e', dict s' !! i = Some e'
                  /\ name e' = name e /\ link e' = link e
                  /\ entry_len e' = entry_len e /\ param e' = param e
                  /\ (code e' = code e \/ code e' = Dodoes).

(** The value of a decimal numeral read from the most significant digit,
    starting from [acc]. *)
Fixpoint horner (acc : Z) (d : Decimal.uint) : Z :=
  match d with
  | Decimal.Nil => acc
  | Decimal.D0 d => horner (10 * acc) d
  | Decimal.D1 d => horner (10 * acc + 1) d
  | Decimal.D2 d => horner (10 * acc + 2) d
  | Decimal.D3 d => horner (10 * acc + 3) d
  | Decimal.D4 d => horner (10 * acc + 4) d
  | Decimal.D5 d => horner (10 * acc + 5) d
  | Decimal.D6 d => horner (10 * acc + 6) d
  | Decimal.D7 d => horner (10 * acc + 7) d
  | Decimal.D8 d => horner (10 * acc + 8) d
  | Decimal.D9 d => horner (10 * acc + 9) d
  end.

(** The characters of a C identifier: letters, digits and underscore. *)
Definition is_ident_char (c : ascii) : bool :=
  let n := nat_of_ascii c in
  ((97 <=? n) && (n <=? 122) || (65 <=? n) && (n <=? 90)
   || (48 <=? n) && (n <=? 57) || (n =? 95))%nat.

(** *** Example states *)

(** 1 2 3 typed at the keyboard. *)
Definition x_stack_state : vm := Eval vm_compute in (set_dstack [3; 2; 1] boot).

(** -7 3 on the stack, about to divide; 5 3 about to shift. *)
Definition x_div_state : vm := Eval vm_compute in (set_dstack [3; -7] boot).
Definition x_shift_state : vm := Eval vm_compute in (set_dstack [3; 5] boot).

(** 42 64 on the stack, about to store at offset 64 (the first free
    cell); 64 4 65 about to fill; 64 72 4 about to move. *)
Definition x_store_state : vm := Eval vm_compute in (set_dstack [64; 42] boot).
Definition x_fill_state : vm := Eval vm_compute in (set_dstack [65; 4; 64] boot).
Definition x_move_state : vm := Eval vm_compute in (set_dstack [4; 72; 64] boot).

(** A line of three blanks in the input buffer. *)
Definition x_blank_state : vm := Eval vm_compute in
  (set_tib (list_ascii_of_string "   ") boot).

(** 255 on the stack in hex, the pictured-output buffer just opened. *)
Definition x_pno_state : vm := Eval vm_compute in
  (set_pno [] (set_base 16 (set_dstack [255] boot))).

(** 7 on the stack, about to compile a literal. *)
Definition x_lit_state : vm := Eval vm_compute in (set_dstack [7] boot).

(** The text 12x placed at HERE and [0 0 addr 3] on the stack, about to
    run the number converter. *)
Definition x_num_state : vm := Eval vm_compute in
  (after_line ("0 0 s" ++ dq ++ " 12x" ++ dq) boot).

(** [include sq.fs] typed at the keyboard when the operating system
    opens the file (handle 3) and delivers its two lines [: sq dup * ;]
    and [3 sq], then the end of the file. *)
Definition x_include_line : string := "include sq.fs".
Definition x_include_boot : vm := Eval vm_compute in
  (set_os [mkAnswer 3 [];
           mkAnswer 0 (list_ascii_of_string ": sq dup * ;" ++ [ascii_of_nat 10]);
           mkAnswer 0 (list_ascii_of_string "3 sq");
           mkAnswer 0 []] boot).
Definition x_include_state : vm := Eval vm_compute in
  (after_line x_include_line x_include_boot).

End Notions.

(** * Properties *)

(** ** Cells and the arena *)

Module CellFacts.
Import Cell.

Lemma wrap_is_cell z : is_cell (wrap z).
Proof.
  unfold is_cell, wrap, modulus, half.
  pose proof (Z.mod_pos_bound (z + 2 ^ 63) (2 ^ 64) ltac:(lia)). lia.
Qed.

Lemma wrap_id z : is_cell z -> wrap z = z.
Proof.
  unfold is_cell, wrap, modulus, half. intros H.
  rewrite Z.mod_small by lia. lia.
Qed.

Lemma wrap_mod z : wrap z mod modulus = z mod modulus.
Proof.
  unfold wrap, modulus, half.
  rewrite Zminus_mod, Z.mod_mod by lia.
  rewrite <- Zminus_mod. f_equal. lia.
Qed.

Lemma wrap_eq_mod a b : a mod modulus = b mod modulus -> wrap a = wrap b.
Proof.
  unfold wrap, modulus, half. intros H.
  rewrite (Zplus_mod a), (Zplus_mod b), H. reflexivity.
Qed.

Lemma wrap_wrap z : wrap (wrap z) = wrap z.
Proof. apply wrap_id, wrap_is_cell. Qed.

Lemma wrap_ucell z : wrap (ucell z) = wrap z.
Proof.
  apply wrap_eq_mod. unfold ucell, modulus. apply Z.mod_mod. lia.
Qed.

(** Alignment rounds up to the next multiple of the cell size. *)
Lemma land_lnot7 x : Z.land x (Z.lnot 7) = 8 * (x / 8).
Proof.
  rewrite <- Z.ldiff_land.
  change 7 with (Z.ones 3).
  rewrite Z.ldiff_ones_r by lia.
  rewrite Z.shiftr_div_pow2, Z.shiftl_mul_pow2 by lia.
  change (2 ^ 3) with 8. lia.
Qed.

Lemma vm_align_spec n :
  0 <= n < half - 8 ->
  n <= vm_align n < n + 8 /\ vm_align n mod 8 = 0.
Proof.
  unfold vm_align, CELL, half. intros H.
  replace (8 - 1) with 7 by lia.
  rewrite land_lnot7.
  pose proof (Z.div_mod (n + 8 - 1) 8 ltac:(lia)) as D.
  pose proof (Z.mod_pos_bound (n + 8 - 1) 8 ltac:(lia)) as B.
  rewrite wrap_id by (unfold is_cell, half; lia).
  split; [lia|].
  rewrite Z.mul_comm. apply Z.mod_mul. lia.
Qed.

Lemma vm_align_aligned n : 0 <= n < half - 8 -> n mod 8 = 0 -> vm_align n = n.
Proof.
  unfold vm_align, CELL, half. intros H A.
  replace (8 - 1) with 7 by lia. rewrite land_lnot7.
  rewrite wrap_id.
  - pose proof (Z.div_mod n 8 ltac:(lia)) as D. rewrite A in D.
    replace (n + 8 - 1) with (7 + (n / 8) * 8) by lia.
    rewrite Z.div_add by lia. change (7 / 8) with 0. lia.
  - pose proof (Z.div_mod (n + 8 - 1) 8 ltac:(lia)) as D.
    pose proof (Z.mod_pos_bound (n + 8 - 1) 8 ltac:(lia)) as B.
    unfold is_cell, half. lia.
Qed.

Lemma add_is_cell a b : is_cell (add a b).
Proof. apply wrap_is_cell. Qed.

Lemma sub_is_cell a b : is_cell (sub a b).
Proof. apply wrap_is_cell. Qed.

End CellFacts.

Module MemFacts.
Import Cell Mem CellFacts.

Lemma le_bytes_length n v : length (le_bytes n v) = n.
Proof. revert v; induction n; simpl; intros; auto. Qed.

Lemma le_value_bytes n v : le_value (le_bytes n v) = v mod 256 ^ Z.of_nat n.
Proof.
  revert v; induction n as [|n IH]; intros v.
  - simpl. symmetry. apply Z.mod_1_r.
  - cbn [le_bytes le_value]. rewrite IH.
    rewrite Nat2Z.inj_succ, Z.pow_succ_r by lia.
    rewrite Z.rem_mul_r by lia. lia.
Qed.

Lemma read_write_same m a bs :
  read_bytes (write_bytes m a bs) a (length bs) = bs.
Proof.
  assert (G : forall k pre, (length pre = k)%nat ->
            forall post, read_bytes (write_bytes m a (pre ++ post)) (a + Z.of_nat k)
                           (length post) = post).
  { intros k pre Hk post. revert k pre Hk.
    induction post as [|b post IH]; intros k pre Hk; [reflexivity|].
    cbn [read_bytes length]. f_equal.
    - unfold write_bytes. rewrite length_app. cbn [length]. subst k.
      destruct (Z.leb_spec a (a + Z.of_nat (length pre))); [|lia].
      destruct (Z.ltb_spec (a + Z.of_nat (length pre))
                  (a + Z.of_nat (length pre + S (length post)))); [|lia].
      cbn [andb]. set (k := length pre).
      replace (a + Z.of_nat k - a) with (Z.of_nat k) by lia.
      rewrite Nat2Z.id, app_nth2 by lia.
      subst k. replace (length pre - length pre)%nat with 0%nat by lia. reflexivity.
    - specialize (IH (S k) (pre ++ [b])).
      rewrite <- app_assoc in IH. cbn [app] in IH.
      replace (a + Z.of_nat k + 1) with (a + Z.of_nat (S k)) by lia.
      apply IH. rewrite length_app. simpl. lia. }
  specialize (G 0%nat [] eq_refl bs). cbn [app] in G.
  replace (a + Z.of_nat 0) with a in G by lia. exact G.
Qed.

Lemma read_write_other m a bs b n :
  b + Z.of_nat n <= a \/ a + Z.of_nat (length bs) <= b ->
  read_bytes (write_bytes m a bs) b n = read_bytes m b n.
Proof.
  revert b; induction n as [|n IH]; intros b H; [reflexivity|].
  cbn [read_bytes]. f_equal.
  - unfold write_bytes.
    destruct (Z.leb_spec a b), (Z.ltb_spec b (a + Z.of_nat (length bs)));
      cbn [andb]; try reflexivity; lia.
  - apply IH. lia.
Qed.

Lemma load_store_same m a v : is_cell v -> load_cell (store_cell m a v) a = v.
Proof.
  intros Hv. unfold load_cell, store_cell.
  pose proof (read_write_same m a (le_bytes 8 v)) as R.
  rewrite le_bytes_length in R. rewrite R, le_value_bytes.
  change (256 ^ Z.of_nat 8) with modulus.
  rewrite <- (wrap_id v Hv) at 2. apply wrap_ucell.
Qed.

Lemma load_store_other m a v b :
  b + 8 <= a \/ a + 8 <= b -> load_cell (store_cell m a v) b = load_cell m b.
Proof.
  intros H. unfold load_cell, store_cell.
  rewrite read_write_other; [reflexivity|].
  rewrite le_bytes_length. lia.
Qed.

End MemFacts.

(** ** The state monad *)

Module MonadFacts.
Import Cell Mem VM.
Local Open Scope vm_scope.

Lemma bind_Some {A B} (m : M A) (k : A -> M B) s r :
  bind m k s = Some r <-> exists a s', m s = Some (a, s') /\ k a s' = Some r.
Proof.
  unfold bind. destruct (m s) as [[a s']|]; split.
  - intros H. exists a, s'. auto.
  - intros (a0 & s0 & E & H). inversion E; subst. exact H.
  - discriminate.
  - intros (a0 & s0 & E & _). discriminate.
Qed.

Lemma exec_Some (m : M unit) s s' : exec m s = Some s' <-> m s = Some (tt, s').
Proof.
  unfold exec. destruct (m s) as [[[] s0]|]; split; intros H;
    inversion H; subst; reflexivity.
Qed.

Lemma close_inputs_spec hs log h :
  In h (close_inputs hs log) <-> In h hs \/ In h log.
Proof.
  revert log. induction hs as [|x hs IH]; intros log; simpl.
  - tauto.
  - rewrite IH. simpl. tauto.
Qed.

(** Reduce field projections of updated states. *)
Ltac vm_fields :=
  cbn [dict latest mem here dstack rstack ip w state base tib tib_pos input
       out pno running xt_lit xt_branch xt_0branch xt_exit xt_slit xt_do
       xt_qdo xt_loop xt_ploop xt_does err closed set_dict set_latest
       set_mem set_here set_dstack set_rstack set_ip set_w set_state
       set_base set_tib set_tib_pos set_input set_out set_pno set_running
       set_xt_lit set_xt_branch set_xt_0branch set_xt_exit set_xt_slit
       set_xt_do set_xt_qdo set_xt_loop set_xt_ploop set_xt_does set_err
       set_closed files loaded os set_files set_loaded set_os] in *.
Ltac destruct_vm s := destruct s; vm_fields.

(** Case analysis on every test a successful computation went through. *)
Ltac break_in H :=
  repeat (match type of H with
          | context [match ?x with _ => _ end] =>
              lazymatch x with
              | context [match _ with _ => _ end] => fail
              | _ => destruct x eqn:?
              end
          end; try discriminate H; vm_fields).

Ltac break_goal :=
  vm_fields;
  repeat (match goal with
          | |- context [match ?x with _ => _ end] =>
              lazymatch x with
              | context [match _ with _ => _ end] => fail
              | _ => destruct x eqn:?
              end
          end; try discriminate; vm_fields).

(** Turn boolean comparisons in the context into propositions. *)
Ltac zbool :=
  repeat match goal with
         | H : (_ <? _) = true |- _ => apply Z.ltb_lt in H
         | H : (_ <? _) = false |- _ => apply Z.ltb_ge in H
         | H : (_ <=? _) = true |- _ => apply Z.leb_le in H
         | H : (_ <=? _) = false |- _ => apply Z.leb_gt in H
         | H : (_ =? _) = true |- _ => apply Z.eqb_eq in H
         | H : (_ =? _) = false |- _ => apply Z.eqb_neq in H
         end.

End MonadFacts.

(** ** The re-entrant functions unfolded *)

Module EngineFacts.
Import Cell Mem VM Prims Interp.
Local Open Scope vm_scope.

Lemma vm_execute_S fuel xt :
  vm_execute (S fuel) xt
  = (modify (set_w xt) ;;
     e <- dict_at xt ;;
     if is_threaded (code e)
     then
       call (vm_execute fuel) (code e) ;;
       base_rsp <- gets rsp ;;
       run_loop (vm_execute fuel) fuel base_rsp
     else call (vm_execute fuel) (code e)).
Proof. reflexivity. Qed.

Lemma vm_interpret_tib_O s :
  vm_interpret_tib 0 s = if running s then None else Some (tt, s).
Proof. reflexivity. Qed.

Lemma vm_interpret_tib_S fuel s :
  vm_interpret_tib (S fuel) s
  = if running s then
      (nm <- vm_word ;;
       if strlen nm =? 0 then ret tt
       else
         fl <- interpret_token fuel nm ;;
         match fl with
         | Continue => vm_interpret_tib fuel
         | Return => ret tt
         end) s
    else Some (tt, s).
Proof. reflexivity. Qed.

Lemma vm_load_file_S fuel path :
  vm_load_file (S fuel) path = load_file (vm_interpret_tib fuel) fuel path.
Proof. reflexivity. Qed.

End EngineFacts.

(** ** Division by zero *)

Module AbortFacts.
Import Cell Mem VM Prims Interp Spec MonadFacts.

Lemma vm_abort_effect msg s :
  exists s', vm_abort msg s = Some (tt, s') /\ abort_effect msg s s'.
Proof.
  eexists. split; [reflexivity|].
  unfold abort_effect; cbn. repeat split; try reflexivity.
  intros h Hh. apply close_inputs_spec. auto.
Qed.

(** C7. Every execution of [/], [mod] or [/mod] whose divisor (the top
    of the data stack) is zero takes the abort path of [vm_abort]: the
    diagnostic goes to stderr, both stacks are emptied, compile state is
    cleared, every nested source handle is closed, and neither quotient
    nor remainder is pushed. *)
Theorem C7_division_by_zero_aborts :
  forall (ve : reentry) (fn : prim_fn) (s : vm) (rest : list Z),
    In fn [P_div; P_mod; P_divmod] ->
    dstack s = 0 :: rest ->
    (fn = P_divmod -> rest <> []) ->
    exists s', exec (call ve fn) s = Some s'
               /\ abort_effect "division by zero" s s'.
Proof.
  intros ve fn s rest Hfn Hds Hrest.
  destruct s; cbn in Hds; subst.
  destruct Hfn as [<-|[<-|[<-|[]]]].
  - eexists; split; [reflexivity|].
    unfold abort_effect; cbn. repeat split; try reflexivity.
    intros h Hh. apply close_inputs_spec. auto.
  - eexists; split; [reflexivity|].
    unfold abort_effect; cbn. repeat split; try reflexivity.
    intros h Hh. apply close_inputs_spec. auto.
  - destruct rest as [|a rest]; [exfalso; apply Hrest; reflexivity|].
    eexists; split; [reflexivity|].
    unfold abort_effect; cbn. repeat split; try reflexivity.
    intros h Hh. apply close_inputs_spec. auto.
Qed.

Lemma C7_division_by_zero_aborts_witness :
  exists s', exec (call (vm_execute 8) P_divmod) c7_state = Some s'
             /\ abort_effect "division by zero" c7_state s'.
Proof.
  apply (C7_division_by_zero_aborts (vm_execute 8) P_divmod c7_state [7]).
  - simpl. auto.
  - reflexivity.
  - intros _ H. discriminate H.
Defined.

End AbortFacts.


(** ** The [(+loop)] runtime *)

Module LoopFacts.
Import Cell Mem VM Prims Interp Spec CellFacts MemFacts MonadFacts.

Lemma lxor_neg a b : (Z.lxor a b <? 0) = xorb (a <? 0) (b <? 0).
Proof.
  pose proof (Z.lxor_nonneg a b) as H.
  destruct (Z.ltb_spec (Z.lxor a b) 0), (Z.ltb_spec a 0), (Z.ltb_spec b 0);
    simpl; try reflexivity; exfalso; lia.
Qed.

Lemma sub_eq_0 x y : is_cell x -> is_cell y -> (sub x y =? 0) = (x =? y).
Proof.
  unfold is_cell, sub, wrap, modulus, half. intros Hx Hy.
  destruct (Z.eqb_spec x y) as [->|N].
  - replace (y - y + 2 ^ 63) with (2 ^ 63) by lia.
    rewrite Z.mod_small by lia. apply Z.eqb_eq. lia.
  - apply Z.eqb_neq. intros E.
    pose proof (Z.div_mod (x - y + 2 ^ 63) (2 ^ 64) ltac:(lia)) as D.
    pose proof (Z.mod_pos_bound (x - y + 2 ^ 63) (2 ^ 64) ltac:(lia)) as B.
    assert (Q : (x - y + 2 ^ 63) / 2 ^ 64 = 0 \/ (x - y + 2 ^ 63) / 2 ^ 64 <> 0) by lia.
    destruct Q as [Q|Q]; [rewrite Q in D; lia|].
    assert (- 2 ^ 64 < x - y < 2 ^ 64) by lia.
    assert ((x - y + 2 ^ 63) / 2 ^ 64 = -1 \/ (x - y + 2 ^ 63) / 2 ^ 64 = 1) as [Q1|Q1].
    { assert (-1 <= (x - y + 2 ^ 63) / 2 ^ 64).
      { apply Z.div_le_lower_bound; lia. }
      assert ((x - y + 2 ^ 63) / 2 ^ 64 < 2).
      { apply Z.div_lt_upper_bound; lia. }
      lia. }
    + rewrite Q1 in D. lia.
    + rewrite Q1 in D. lia.
Qed.

(** C4. [(+loop)] with step [step] on the data stack and index [i],
    limit [lim] on the return stack: the loop terminates (the limit is
    popped and IP moves past the inline back-reference) exactly when the
    new index equals the limit or the addition crossed the limit in the
    sense of [ploop_terminates]; otherwise the new index is pushed back
    and IP becomes the back-reference. *)
Theorem C4_plus_loop_termination :
  forall (s : vm) (step i lim dest : Z) (ds rs : list Z),
    is_cell lim ->
    rdepth s <= RSTACK_SIZE ->
    dstack s = step :: ds ->
    rstack s = i :: lim :: rs ->
    in_bounds (ip s) CELL = true ->
    load_cell (mem s) (ip s) = dest ->
    exists s',
      exec p_ploop_rt s = Some s'
      /\ dstack s' = ds
      /\ (ploop_terminates i step lim = true ->
          rstack s' = rs /\ ip s' = add (ip s) CELL)
      /\ (ploop_terminates i step lim = false ->
          rstack s' = add i step :: lim :: rs /\ ip s' = dest).
Proof.
  intros s step i lim dest ds rs Hlim Hdepth Hds Hrs Hb Hd.
  unfold rdepth in Hdepth.
  destruct s; cbn in Hdepth, Hds, Hrs, Hb, Hd; subst.
  unfold ploop_terminates, sign_differs.
  rewrite <- !lxor_neg.
  rewrite <- (sub_eq_0 (add i step) lim) by (auto using add_is_cell).
  unfold exec, p_ploop_rt, bind, vm_fetch_ip, mem_fetch, gets, modify, ret, pop,
    rpop, rtos, rpush, rdepth. cbn -[add sub Z.lxor in_bounds load_cell].
  rewrite Hb. cbn -[add sub Z.lxor in_bounds load_cell].
  set (crossed := (Z.lxor (sub i lim) (sub (add i step) lim) <? 0)
                    && (Z.lxor (sub i lim) step <? 0)).
  set (hit := sub (add i step) lim =? 0).
  destruct crossed, hit; cbn -[add sub Z.lxor in_bounds load_cell].
  1-3: eexists; split; [reflexivity|]; cbn; repeat split; try reflexivity; discriminate.
  destruct (Z.of_nat (S (length rs)) <? RSTACK_SIZE) eqn:E.
  - eexists; split; [reflexivity|]; cbn; repeat split; try reflexivity; discriminate.
  - exfalso. apply Z.ltb_ge in E. cbn [length] in Hdepth. unfold RSTACK_SIZE in *. lia.
Qed.

Lemma C4_plus_loop_termination_witness :
  exists s',
    exec p_ploop_rt c4_state = Some s'
    /\ dstack s' = []
    /\ (ploop_terminates 9 3 10 = true ->
        rstack s' = [0] /\ ip s' = add (ip c4_state) CELL)
    /\ (ploop_terminates 9 3 10 = false ->
        rstack s' = add 9 3 :: 10 :: [0] /\ ip s' = 104).
Proof.
  apply (C4_plus_loop_termination c4_state 3 9 10 104 [] [0]).
  - unfold is_cell, half. lia.
  - vm_compute. discriminate.
  - reflexivity.
  - reflexivity.
  - vm_compute. reflexivity.
  - vm_compute. reflexivity.
Defined.

End LoopFacts.

(** ** Dictionary search *)

Module DictFacts.
Import Cell Mem VM Prims Interp Spec CellFacts MemFacts MonadFacts.
Local Open Scope vm_scope.

Lemma string_length_of_list (l : list ascii) :
  String.length (string_of_list_ascii l) = length l.
Proof. induction l; simpl; auto. Qed.

Lemma scan_word_length cs room : (length (scan_word cs room) <= room)%nat.
Proof.
  revert cs; induction room as [|room IH]; intros [|c cs]; simpl; try lia.
  destruct (32 <? schar c); simpl; [|lia]. specialize (IH cs). lia.
Qed.

Lemma vm_word_inv s nm s1 :
  vm_word s = Some (nm, s1) ->
  s1 = set_tib_pos (tib_pos s1) s /\ (String.length nm <= NAME_MAX_LEN)%nat.
Proof.
  unfold vm_word. intros H. inversion H; subst; clear H. split.
  - destruct s; reflexivity.
  - rewrite string_length_of_list. apply scan_word_length.
Qed.

(** Flag arithmetic on a name length that fits the length mask. *)
Lemma small_len_cases (P : Z -> Prop) :
  (forall n, (n <= 31)%nat -> P (Z.of_nat n)) -> forall len, 0 <= len <= 31 -> P len.
Proof.
  intros H len Hl. rewrite <- (Z2Nat.id len) by lia. apply H. lia.
Qed.

Lemma hidden_len_flags len :
  0 <= len <= 31 ->
  Z.land (Z.lor len F_HIDDEN) F_HIDDEN <> 0
  /\ Z.land (Z.lor len F_HIDDEN) F_LENMASK = len
  /\ Z.land (Z.lor len F_HIDDEN) F_IMMEDIATE = 0
  /\ Z.land len F_HIDDEN = 0
  /\ Z.land len F_LENMASK = len.
Proof.
  revert len. apply small_len_cases. intros n Hn.
  do 32 (destruct n as [|n]; [vm_compute; repeat split; discriminate|]). lia.
Qed.

Lemma unhide_flags f :
  Z.land (Z.land f (Z.lnot F_HIDDEN)) F_HIDDEN = 0
  /\ Z.land (Z.land f (Z.lnot F_HIDDEN)) F_LENMASK = Z.land f F_LENMASK
  /\ Z.land (Z.land f (Z.lnot F_HIDDEN)) F_IMMEDIATE = Z.land f F_IMMEDIATE.
Proof.
  rewrite <- !Z.land_assoc. unfold F_HIDDEN, F_LENMASK, F_IMMEDIATE.
  change (Z.land (Z.lnot 64) 64) with 0.
  change (Z.land (Z.lnot 64) 63) with 63.
  change (Z.land (Z.lnot 64) 128) with 128.
  rewrite Z.land_0_r. auto.
Qed.

Lemma strncasecmp_refl a n : strncasecmp_eq a a n = true.
Proof.
  revert a; induction n as [|n IH]; intros [|c a]; simpl; auto.
  rewrite Ascii.eqb_refl, IH. reflexivity.
Qed.

(** What [vm_find] returns is [-1] or the index of a matching entry. *)
Lemma vm_find_from_sound fuel d nm i j :
  vm_find_from fuel d nm i = Some j ->
  j = -1 \/ exists e, 0 <= j /\ d !! Z.to_nat j = Some e /\ entry_matches e nm = true.
Proof.
  revert i; induction fuel as [|fuel IH]; intros i; simpl.
  - destruct (Z.ltb_spec i 0); [|discriminate]. intros R; inversion R; auto.
  - destruct (Z.ltb_spec i 0); [intros R; inversion R; auto|].
    destruct (d !! Z.to_nat i) as [e|] eqn:E; [|discriminate].
    destruct (entry_matches e nm) eqn:Em.
    + intros R; inversion R; subst. right. exists e. auto.
    + apply IH.
Qed.

(** The search starts at [latest]: a matching latest entry is found. *)
Lemma vm_find_latest s e nm :
  0 <= latest s ->
  dict s !! Z.to_nat (latest s) = Some e ->
  entry_matches e nm = true ->
  vm_find nm s = Some (latest s, s).
Proof.
  intros H0 He Hm. unfold vm_find. cbn [vm_find_from].
  destruct (Z.ltb_spec (latest s) 0); [lia|].
  rewrite He, Hm. reflexivity.
Qed.


Lemma strlen_nonempty nm : nm <> EmptyString -> (strlen nm =? 0) = false.
Proof.
  intros H. apply Z.eqb_neq. unfold strlen. destruct nm; [congruence|]. simpl. lia.
Qed.

Lemma vm_find_result nm s i s' :
  vm_find nm s = Some (i, s') ->
  s' = s /\ (i = -1 \/ exists e, 0 <= i /\ dict s !! Z.to_nat i = Some e
                                 /\ entry_matches e nm = true).
Proof.
  unfold vm_find.
  destruct (vm_find_from _ _ _ _) as [j|] eqn:E; [|discriminate].
  intros H; inversion H; subst. split; [reflexivity|].
  eapply vm_find_from_sound; eauto.
Qed.

Lemma dict_at_Some s i e :
  0 <= i -> dict s !! Z.to_nat i = Some e -> dict_at i s = Some (e, s).
Proof.
  intros H0 H. unfold dict_at. destruct (Z.ltb_spec i 0); [lia|]. rewrite H. reflexivity.
Qed.

End DictFacts.

(** ** The inner interpreter *)

Module InnerFacts.
Import Cell Mem VM Prims Interp Spec CellFacts MemFacts MonadFacts DictFacts.
Local Open Scope vm_scope.

(** A round of the loop: one cell is read at IP, IP advances by one
    cell, [w] is set, and only then the handler runs. *)
Lemma vm_step_unfold ve s :
  exec (vm_step ve) s
  = match next_handler s with
    | Some fn =>
        exec (call ve fn)
             (set_w (load_cell (mem s) (ip s)) (set_ip (add (ip s) CELL) s))
    | None => None
    end.
Proof.
  unfold exec, vm_step, next_handler, vm_fetch_ip, bind, gets, mem_fetch, modify,
    ret, dict_at.
  destruct (in_bounds (ip s) CELL); [|reflexivity].
  destruct_vm s.
  destruct (load_cell mem0 ip0 <? 0); [reflexivity|].
  destruct (dict0 !! Z.to_nat (load_cell mem0 ip0)); reflexivity.
Qed.

Lemma run_continues_false base s :
  run_continues base s = false <-> running s = false \/ base < rsp s.
Proof.
  unfold run_continues. rewrite andb_false_iff, Z.leb_gt. tauto.
Qed.

Lemma run_loop_unfold ve fuel base s :
  run_loop ve fuel base s
  = if run_continues base s then
      match fuel with
      | O => None
      | S fuel' =>
          match vm_step ve s with
          | Some (_, s') => run_loop ve fuel' base s'
          | None => None
          end
      end
    else Some (tt, s).
Proof. destruct fuel; reflexivity. Qed.

Lemma run_loop_stops ve fuel base s s' :
  exec (run_loop ve fuel base) s = Some s' ->
  exists n, (n <= fuel)%nat /\ stops_after ve base n s s'.
Proof.
  revert s. induction fuel as [|fuel IH]; intros s; unfold exec;
    rewrite run_loop_unfold; destruct (run_continues base s) eqn:C.
  - discriminate.
  - intros H; inversion H; subst. exists 0%nat. split; [lia|].
    repeat split; auto. intros m sm Hm; lia.
  - destruct (vm_step ve s) as [[[] s1]|] eqn:E; [|discriminate].
    intros H. destruct (IH s1 H) as (n & Hn & St & Cf & Cm).
    exists (S n). split; [lia|]. repeat split.
    + cbn [steps]. unfold exec. rewrite E. exact St.
    + exact Cf.
    + intros [|m] sm Hm Hs.
      * inversion Hs; subst. exact C.
      * cbn [steps] in Hs. unfold exec in Hs. rewrite E in Hs.
        apply (Cm m sm); [lia|exact Hs].
  - intros H; inversion H; subst. exists 0%nat. split; [lia|].
    repeat split; auto. intros m sm Hm; lia.
Qed.

Lemma stops_run_loop ve base n s s' fuel :
  stops_after ve base n s s' -> (n <= fuel)%nat ->
  exec (run_loop ve fuel base) s = Some s'.
Proof.
  revert s fuel. induction n as [|n IH]; intros s fuel (St & Cf & Cm) Hf.
  - inversion St; subst. unfold exec. rewrite run_loop_unfold, Cf. reflexivity.
  - destruct fuel as [|fuel]; [lia|].
    unfold exec. rewrite run_loop_unfold.
    rewrite (Cm 0%nat s) by (reflexivity || lia).
    cbn [steps] in St. unfold exec in St.
    destruct (vm_step ve s) as [[[] s1]|] eqn:E; [|discriminate].
    apply IH; [|lia]. repeat split; auto.
    intros m sm Hm Hs. apply (Cm (S m) sm); [lia|].
    cbn [steps]. unfold exec. rewrite E. exact Hs.
Qed.


(** C1 (as stated, refuted). The loop of [vm_run] also stops when [bye]
    clears the running flag: in [: q bye ;] the run of [q] returns with
    the saved IP still on the return stack. *)
Lemma C1_counterexample : ~ run_ends_only_above_base.
Proof.
  intros H. specialize (H 8%nat c1_state c1_final).
  assert (E : exec (vm_run 8) c1_state = Some c1_final) by (vm_compute; reflexivity).
  specialize (H E). vm_compute in H. discriminate H.
Qed.

(** C1 (amended). Every round of the inner interpreter reads the one
    cell at IP, advances IP by one cell and sets [w] before it calls the
    handler of that XT; and when [vm_run] returns, it returns in the
    first state in which the running flag is clear or the return-stack
    pointer is above the value it had when [vm_run] was entered; any
    larger number of permitted rounds returns in the same state. *)
Theorem C1_inner_interpreter_loop :
  forall (fuel : nat) (s s' : vm),
    exec (vm_run fuel) s = Some s' ->
    (forall t,
        exec (vm_step (vm_execute fuel)) t
        = match next_handler t with
          | Some fn =>
              exec (call (vm_execute fuel) fn)
                   (set_w (load_cell (mem t) (ip t)) (set_ip (add (ip t) CELL) t))
          | None => None
          end)
    /\ exists n,
        (n <= fuel)%nat
        /\ stops_after (vm_execute fuel) (rsp s) n s s'
        /\ (running s' = false \/ rsp s < rsp s')
        /\ forall k, (n <= k)%nat ->
                     exec (run_loop (vm_execute fuel) k (rsp s)) s = Some s'.
Proof.
  intros fuel s s' H. split; [intros t; apply vm_step_unfold|].
  unfold vm_run, exec, bind, gets in H. fold (exec (run_loop (vm_execute fuel) fuel (rsp s)) s) in H.
  destruct (run_loop_stops _ _ _ _ _ H) as (n & Hn & St).
  exists n. split; [exact Hn|]. split; [exact St|]. split.
  - apply run_continues_false. apply St.
  - intros k Hk. eapply stops_run_loop; eauto.
Qed.

Lemma C1_inner_interpreter_loop_witness :
  exists n, (n <= 8)%nat
            /\ stops_after (vm_execute 8) (rsp c1_sq_state) n c1_sq_state c1_sq_final
            /\ (running c1_sq_final = false \/ rsp c1_sq_state < rsp c1_sq_final).
Proof.
  destruct (C1_inner_interpreter_loop 8 c1_sq_state c1_sq_final)
    as (_ & n & Hn & St & R & _).
  - vm_compute. reflexivity.
  - exists n. split; [exact Hn|]. split; [exact St|exact R].
Defined.


Lemma steps_last ve n s s' :
  steps ve (S n) s = Some s' ->
  exists sl, steps ve n s = Some sl /\ exec (vm_step ve) sl = Some s'.
Proof.
  revert s. induction n as [|n IH]; intros s H.
  - cbn [steps] in H. destruct (exec (vm_step ve) s) as [s1|] eqn:E; [|discriminate].
    inversion H; subst. exists s. auto.
  - remember (S n) as k. cbn [steps] in H.
    destruct (exec (vm_step ve) s) as [s1|] eqn:E; [|discriminate].
    subst k. destruct (IH s1 H) as (sl & Hs & Hl).
    exists sl. split; [|exact Hl]. cbn [steps]. rewrite E. exact Hs.
Qed.

(** The round that dispatches [(exit)] pops exactly one cell. *)
Lemma exit_step_pops ve sl s' :
  next_handler sl = Some P_exit ->
  exec (vm_step ve) sl = Some s' ->
  rdepth sl = rdepth s' + 1.
Proof.
  intros Hn. rewrite vm_step_unfold, Hn. cbn [call].
  unfold exec, p_exit, bind, rpop, modify, rdepth.
  destruct_vm sl. destruct rstack0 as [|r rs]; [discriminate|].
  intros H; inversion H; subst. vm_fields. cbn [length]. lia.
Qed.

(** The state in which the colon or does handler leaves the VM. *)
Lemma threaded_entry ve fn s s1 :
  is_threaded fn = true ->
  call ve fn s = Some (tt, s1) ->
  rdepth s1 = rdepth s + 1 /\ running s1 = running s.
Proof.
  destruct fn; try discriminate; intros _; cbn [call]; intros H.
  - unfold docol, bind, gets, rpush, dict_at, modify, rdepth in *.
    destruct_vm s. break_in H.
    inversion H; subst. vm_fields. cbn [length]. split; [lia|reflexivity].
  - unfold dodoes, bind, gets, rpush, push, dict_at, modify, rdepth, depth in *.
    destruct_vm s. break_in H.
    inversion H; subst. vm_fields. cbn [length]. split; [lia|reflexivity].
Qed.

(** C8 (as stated, refuted). [>r] is an executable XT, and executing it
    returns with one more cell on the return stack. *)
Lemma C8_counterexample : ~ execute_preserves_rdepth.
Proof.
  intros H. specialize (H 8%nat 23 c8_state c8_final).
  assert (E : exec (vm_execute 8 23) c8_state = Some c8_final) by (vm_compute; reflexivity).
  specialize (H E). vm_compute in H. discriminate H.
Qed.

(** C8 (amended). When the XT of a colon or does-derived entry has been
    executed and the VM is still running, the return stack is no deeper
    than at the call site, and exactly as deep when the last handler the
    inner interpreter dispatched was [(exit)]; an XT with the variable or
    the constant handler leaves the return stack as it was. *)
Theorem C8_execute_return_depth :
  forall (fuel : nat) (xt : Z) (s s' : vm) (e : dict_entry),
    0 <= xt ->
    dict s !! Z.to_nat xt = Some e ->
    exec (vm_execute fuel xt) s = Some s' ->
    (is_threaded (code e) = true -> running s' = true ->
     rdepth s' <= rdepth s
     /\ exists sl,
         rdepth s < rdepth sl
         /\ exec (vm_step (vm_execute (pred fuel))) sl = Some s'
         /\ (next_handler sl = Some P_exit -> rdepth s' = rdepth s))
    /\ (code e = Dovar \/ code e = Docon -> rstack s' = rstack s).
Proof.
  intros fuel xt s s' e Hxt He H.
  destruct fuel as [|fuel]; [discriminate|].
  unfold exec in H. cbn [vm_execute re_execute] in H. unfold bind at 1 2 in H. unfold modify in H.
  rewrite (dict_at_Some (set_w xt s) xt e Hxt) in H by (destruct s; exact He).
  split.
  - intros Ht Hr. rewrite Ht in H. cbn [pred].
    unfold bind at 1 in H.
    destruct (call (vm_execute fuel) (code e) (set_w xt s)) as [[[] s1]|] eqn:Ec;
      [|discriminate].
    destruct (threaded_entry _ _ _ _ Ht Ec) as [Hd1 _].
    replace (rdepth (set_w xt s)) with (rdepth s) in Hd1 by (destruct s; reflexivity).
    unfold bind, gets in H.
    fold (exec (run_loop (vm_execute fuel) fuel (rsp s1)) s1) in H.
    destruct (run_loop_stops _ _ _ _ _ H) as (n & Hn & St & Cf & Cm).
    apply run_continues_false in Cf. destruct Cf as [Cf|Cf]; [congruence|].
    assert (Hle : rdepth s' <= rdepth s) by (unfold rsp in Cf; lia).
    split; [exact Hle|].
    destruct n as [|n].
    + inversion St; subst. lia.
    + destruct (steps_last _ _ _ _ St) as (sl & Hsl & Hl).
      assert (Cl : run_continues (rsp s1) sl = true) by (apply (Cm n sl); [lia|exact Hsl]).
      unfold run_continues in Cl. apply andb_true_iff in Cl. destruct Cl as [_ Cl].
      apply Z.leb_le in Cl. unfold rsp in Cl.
      exists sl. split; [lia|]. split; [exact Hl|].
      intros Hx. pose proof (exit_step_pops _ _ _ Hx Hl). lia.
  - intros Hc.
    assert (Hn : is_threaded (code e) = false) by (destruct Hc as [-> | ->]; reflexivity).
    rewrite Hn in H.
    assert (Hv : call (vm_execute fuel) (code e) = dovar)
      by (destruct Hc as [-> | ->]; reflexivity).
    rewrite Hv in H. unfold dovar, bind, gets, dict_at, push, depth in H.
    destruct_vm s. break_in H.
    inversion H; subst. reflexivity.
Qed.

Lemma C8_execute_return_depth_witness :
  rdepth c8_sq_final <= rdepth c8_sq_state
  /\ exists sl, rdepth c8_sq_state < rdepth sl
                /\ exec (vm_step (vm_execute 7)) sl = Some c8_sq_final
                /\ (next_handler sl = Some P_exit -> rdepth c8_sq_final = rdepth c8_sq_state).
Proof.
  apply (C8_execute_return_depth 8 166 c8_sq_state c8_sq_final
           (mkEntry 165 2 "sq" Docol 64 (-1))).
  - lia.
  - vm_compute. reflexivity.
  - vm_compute. reflexivity.
  - reflexivity.
  - vm_compute. reflexivity.
Defined.

End InnerFacts.

(** ** Counted loops *)

Module DoLoopFacts.
Import Cell Mem VM Prims Interp Spec CellFacts MemFacts MonadFacts DictFacts InnerFacts.
Local Open Scope vm_scope.

Lemma steps_app ve a b s s1 :
  steps ve a s = Some s1 -> steps ve (a + b) s = steps ve b s1.
Proof.
  revert s. induction a as [|a IH]; intros s H.
  - inversion H; subst. reflexivity.
  - cbn [steps Nat.add] in *. destruct (exec (vm_step ve) s); [|discriminate]. auto.
Qed.

Lemma rounds_at_app ve la a b s s1 ka kb :
  steps ve a s = Some s1 ->
  rounds_at ve la a s = Some ka ->
  rounds_at ve la b s1 = Some kb ->
  rounds_at ve la (a + b) s = Some (ka + kb)%nat.
Proof.
  revert s ka. induction a as [|a IH]; intros s ka Hs Ha Hb.
  - inversion Hs; subst. inversion Ha; subst. exact Hb.
  - cbn [steps rounds_at Nat.add] in *.
    destruct (exec (vm_step ve) s) as [s2|]; [|discriminate].
    destruct (rounds_at ve la a s2) as [k2|] eqn:E2; [|discriminate].
    rewrite (IH s2 k2 Hs E2 Hb). cbn [option_map] in *.
    inversion Ha; subst. f_equal. lia.
Qed.

Lemma next_handler_at_ip s : next_handler (set_ip (ip s) s) = next_handler s.
Proof. destruct s; reflexivity. Qed.

(** The round that dispatches [(loop)]. *)
Lemma loop_round ve s la back i lim rs :
  loop_cell_ok s la back ->
  ip s = la ->
  rstack s = i :: lim :: rs ->
  rdepth s <= RSTACK_SIZE ->
  exec (vm_step ve) s
  = Some (if add i 1 =? lim
          then set_w (load_cell (mem s) la) (set_ip (la + 2 * CELL) (set_rstack rs s))
          else set_w (load_cell (mem s) la)
                     (set_ip back (set_rstack (add i 1 :: lim :: rs) s))).
Proof.
  intros (H0 & H1 & Hn & Hb) Hip Hrs Hd.
  rewrite vm_step_unfold. subst la. rewrite next_handler_at_ip in Hn. rewrite Hn.
  cbn [call].
  unfold exec, p_loop_rt, vm_fetch_ip, bind, gets, mem_fetch, modify, ret, rpop, rtos,
    rpush, rdepth in *.
  destruct_vm s. subst.
  assert (Ha : add ip0 CELL = ip0 + CELL).
  { apply wrap_id. unfold is_cell, half, CELL, MEM_SIZE in *. lia. }
  assert (Ha2 : add (ip0 + CELL) CELL = ip0 + 2 * CELL).
  { unfold add. replace (ip0 + CELL + CELL) with (ip0 + 2 * CELL) by lia.
    apply wrap_id. unfold is_cell, half, CELL, MEM_SIZE in *. lia. }
  rewrite Ha.
  replace (in_bounds (ip0 + CELL) CELL) with true
    by (symmetry; unfold in_bounds, CELL, MEM_SIZE in *;
        apply andb_true_intro; split; [apply Z.leb_le|apply Z.leb_le]; lia).
  vm_fields. rewrite Ha2.
  destruct (add i 1 =? lim); vm_fields; [reflexivity|].
  cbn [length] in *.
  destruct (Z.ltb_spec (Z.of_nat (S (length rs))) RSTACK_SIZE); [reflexivity|].
  exfalso. unfold RSTACK_SIZE in *. lia.
Qed.


(** From the start of the body with index [i] below the limit, the
    [(loop)] cell is dispatched once per remaining index value. *)
Lemma loop_runs ve I back la lim rs :
  loop_body ve I back la lim rs ->
  is_cell lim ->
  Z.of_nat (length rs) + 2 <= RSTACK_SIZE ->
  forall k s i,
    I s -> ip s = back -> rstack s = i :: lim :: rs ->
    is_cell i -> i < lim -> Z.to_nat (lim - i) = S k ->
    exists n sf,
      steps ve n s = Some sf
      /\ rounds_at ve la n s = Some (S k)
      /\ ip sf = la + 2 * CELL
      /\ rstack sf = rs
      /\ I sf.
Proof.
  intros (HI & Hst & Hbody) Hlim Hroom.
  induction k as [|k IH]; intros s i Is Hip Hrs Hi Hlt Hk.
  - destruct (Hbody s i Is Hip Hrs) as (m & s' & Hm & Hc & Hip' & Hrs' & Is').
    destruct (HI s' Is') as [_ Hcell].
    assert (Hd : rdepth s' <= RSTACK_SIZE).
    { unfold rdepth. rewrite Hrs'. cbn [length]. lia. }
    pose proof (loop_round ve s' la back i lim rs Hcell Hip' Hrs' Hd) as Hr.
    assert (Ha : add i 1 = lim).
    { unfold add. rewrite wrap_id; [lia|]. unfold is_cell in *. lia. }
    rewrite Ha, Z.eqb_refl in Hr.
    eexists (m + 1)%nat, _. split; [|split; [|split; [|split]]].
    + rewrite (steps_app ve m 1 s s' Hm). cbn [steps]. rewrite Hr. reflexivity.
    + replace 1%nat with (0 + 1)%nat at 2 by reflexivity.
      apply (rounds_at_app ve la m 1 s s' 0 1 Hm Hc).
      cbn [rounds_at]. rewrite Hr. rewrite Hip', Z.eqb_refl. reflexivity.
    + destruct s'; reflexivity.
    + destruct s'; reflexivity.
    + apply Hst. exact Is'.
  - destruct (Hbody s i Is Hip Hrs) as (m & s' & Hm & Hc & Hip' & Hrs' & Is').
    destruct (HI s' Is') as [_ Hcell].
    assert (Hd : rdepth s' <= RSTACK_SIZE).
    { unfold rdepth. rewrite Hrs'. cbn [length]. lia. }
    pose proof (loop_round ve s' la back i lim rs Hcell Hip' Hrs' Hd) as Hr.
    assert (Ha : add i 1 = i + 1).
    { unfold add. rewrite wrap_id; [lia|]. unfold is_cell in *. lia. }
    rewrite Ha in Hr.
    destruct (Z.eqb_spec (i + 1) lim) as [E|E]; [lia|].
    set (s2 := set_w (load_cell (mem s') la)
                 (set_ip back (set_rstack (i + 1 :: lim :: rs) s'))) in Hr.
    assert (Is2 : I s2) by (apply Hst; exact Is').
    destruct (IH s2 (i + 1) Is2) as (n & sf & Hn & Hcn & Hipf & Hrsf & Isf).
    { destruct s'; reflexivity. }
    { destruct s'; reflexivity. }
    { unfold is_cell in *. lia. }
    { lia. }
    { lia. }
    exists (m + (1 + n))%nat, sf. split; [|split; [|split; [|split]]]; auto.
    + rewrite (steps_app ve m (1 + n) s s' Hm). cbn [steps Nat.add]. rewrite Hr. exact Hn.
    + replace (S (S k)) with (0 + (1 + S k))%nat by lia.
      apply (rounds_at_app ve la m (1 + n) s s' 0 (1 + S k) Hm Hc).
      cbn [rounds_at Nat.add]. rewrite Hr, Hcn. rewrite Hip', Z.eqb_refl. reflexivity.
Qed.

(** The round that dispatches [(do)]. *)
Lemma do_round ve s idx lim ds :
  next_handler s = Some P_do_rt ->
  dstack s = idx :: lim :: ds ->
  rdepth s + 2 <= RSTACK_SIZE ->
  exec (vm_step ve) s
  = Some (set_rstack (idx :: lim :: rstack s)
            (set_dstack ds (set_w (load_cell (mem s) (ip s)) (set_ip (add (ip s) CELL) s)))).
Proof.
  intros Hn Hds Hd. rewrite vm_step_unfold, Hn. cbn [call].
  unfold exec, p_do_rt, bind, pop, rpush, rdepth in *.
  destruct_vm s. subst.
  break_goal; zbool; cbn [length] in *; try reflexivity; exfalso; lia.
Qed.


(** The round that dispatches [(?do)] with equal operands. *)
Lemma qdo_round_equal ve s x ds :
  next_handler s = Some P_qdo_rt ->
  in_bounds (add (ip s) CELL) CELL = true ->
  dstack s = x :: x :: ds ->
  exists s',
    exec (vm_step ve) s = Some s'
    /\ ip s' = load_cell (mem s) (add (ip s) CELL)
    /\ rstack s' = rstack s
    /\ dstack s' = ds.
Proof.
  intros Hn Hb Hds. rewrite vm_step_unfold, Hn. cbn [call].
  unfold exec, p_qdo_rt, vm_fetch_ip, bind, gets, mem_fetch, modify, ret, pop in *.
  destruct_vm s. subst. rewrite Hb. vm_fields. rewrite Z.eqb_refl.
  eexists. split; [reflexivity|]. vm_fields. auto.
Qed.

(** What [loop] compiles: the [(loop)] XT, the back-reference, and the
    patch of a pending [?do] placeholder to the offset past the loop. *)
Lemma loop_compile_layout s back orig ds :
  dstack s = back :: orig :: ds ->
  orig <> 0 -> 0 <= orig -> orig + CELL <= here s ->
  here s + 2 * CELL <= MEM_SIZE ->
  is_cell (xt_loop s) -> is_cell back ->
  exists s',
    exec p_loop_compile s = Some s'
    /\ load_cell (mem s') (here s) = xt_loop s
    /\ load_cell (mem s') (here s + CELL) = back
    /\ load_cell (mem s') orig = here s + 2 * CELL
    /\ here s' = here s + 2 * CELL
    /\ dstack s' = ds.
Proof.
  intros Hds Ho H0 H1 H2 Hx Hb.
  assert (A1 : add (here s) CELL = here s + CELL).
  { apply wrap_id. unfold is_cell, half, CELL, MEM_SIZE in *. lia. }
  assert (A2 : add (here s + CELL) CELL = here s + 2 * CELL).
  { unfold add. replace (here s + CELL + CELL) with (here s + 2 * CELL) by lia.
    apply wrap_id. unfold is_cell, half, CELL, MEM_SIZE in *. lia. }
  assert (B1 : in_bounds (here s) CELL = true).
  { unfold in_bounds, CELL, MEM_SIZE in *. apply andb_true_intro.
    split; apply Z.leb_le; lia. }
  assert (B2 : in_bounds (here s + CELL) CELL = true).
  { unfold in_bounds, CELL, MEM_SIZE in *. apply andb_true_intro.
    split; apply Z.leb_le; lia. }
  assert (B3 : in_bounds orig CELL = true).
  { unfold in_bounds, CELL, MEM_SIZE in *. apply andb_true_intro.
    split; apply Z.leb_le; lia. }
  destruct (Z.eqb_spec orig 0) as [E|_]; [contradiction|].
  unfold exec, p_loop_compile, vm_compile_cell, when, bind, pop, gets, mem_store, modify.
  destruct_vm s. subst. vm_fields.
  rewrite B1. vm_fields. rewrite A1, B2. vm_fields. rewrite A2.
  destruct (Z.eqb_spec orig 0) as [E|_]; [contradiction|]. cbn [negb].
  rewrite B3. vm_fields.
  eexists. split; [reflexivity|]. vm_fields. unfold CELL in *.
  split; [|split; [|split; [|split]]]; try reflexivity.
  - rewrite load_store_other by lia. rewrite load_store_other by lia.
    apply load_store_same. assumption.
  - rewrite load_store_other by lia. apply load_store_same. assumption.
  - apply load_store_same. unfold is_cell, half, MEM_SIZE in *. lia.
Qed.



Lemma c5_body_ok : loop_body (vm_execute 4) c5_inv 72 88 10 [0].
Proof.
  split; [|split].
  - intros s (Hm & Hd & Hs & Hr). split; [exact Hr|].
    unfold loop_cell_ok. destruct_vm s. subst.
    vm_compute. repeat split; congruence.
  - intros s x p r (Hm & Hd & Hs & Hr). unfold c5_inv. destruct_vm s. auto.
  - intros s i (Hm & Hd & Hs & Hr) Hip Hrs.
    exists 2%nat, (set_w 11 (set_ip 88 s)).
    destruct_vm s. subst. unfold c5_inv. vm_fields.
    vm_compute. repeat split; reflexivity.
Qed.


End DoLoopFacts.

(** ** What execution does to the dictionary and the base ([vm.c], [prims.c], [io.c]) *)

Module FrameFacts.
Import Cell Mem VM Prims Interp Boot Spec Notions.
Import CellFacts MemFacts MonadFacts EngineFacts DictFacts InnerFacts.
Local Open Scope vm_scope.

Section Frame.

Variable R : vm -> vm -> Prop.

(** [R] is a preorder that allows every change outside the dictionary
    and the base; the five words that write the dictionary respect it,
    and so do [decimal] and [hex] when an entry has them as handler. *)
Hypothesis R_refl : forall s, R s s.
Hypothesis R_trans : forall a b c, R a b -> R b c -> R a c.
Hypothesis R_frame :
  forall s s', dict s' = dict s -> latest s' = latest s -> base s' = base s -> R s s'.
Hypothesis R_colon : respects R p_colon.
Hypothesis R_semicolon : respects R p_semicolon.
Hypothesis R_immediate : respects R p_immediate.
Hypothesis R_create : respects R p_create.
Hypothesis R_does : respects R p_does_runtime.
Hypothesis R_setter :
  forall s i e, dict s !! i = Some e ->
    (code e = P_decimal -> R s (set_base 10 s))
    /\ (code e = P_hex -> R s (set_base 16 s)).

Lemma fr_ret {A} (a : A) : respects R (ret a).
Proof using R_refl. intros s x s' E. inversion E; subst. apply R_refl. Qed.

Lemma fr_undefined {A} : respects R (@undefined A).
Proof using Type. intros s x s' E. discriminate. Qed.

Lemma fr_gets {A} (f : vm -> A) : respects R (gets f).
Proof using R_refl. intros s x s' E. inversion E; subst. apply R_refl. Qed.

Lemma fr_bind {A B} (m : M A) (k : A -> M B) :
  respects R m -> (forall a, respects R (k a)) -> respects R (bind m k).
Proof using R_trans.
  intros Hm Hk s b s' E. apply bind_Some in E. destruct E as (a & s1 & E1 & E2).
  exact (R_trans _ _ _ (Hm s a s1 E1) (Hk a s1 b s' E2)).
Qed.

Lemma fr_modify (f : vm -> vm) :
  (forall s, dict (f s) = dict s) -> (forall s, latest (f s) = latest s) ->
  (forall s, base (f s) = base s) ->
  respects R (modify f).
Proof using R_frame.
  intros Hd Hl Hb s x s' E. inversion E; subst. apply R_frame; auto.
Qed.

Lemma fr_update {A} (m : M A) :
  (forall s a s', m s = Some (a, s') ->
     dict s' = dict s /\ latest s' = latest s /\ base s' = base s) ->
  respects R m.
Proof using R_frame.
  intros Hm s a s' E. destruct (Hm s a s' E) as (H1 & H2 & H3). apply R_frame; auto.
Qed.

Ltac fr_op f :=
  apply fr_update;
  let s := fresh "s" in let a := fresh "a" in let s' := fresh "s'" in
  let E := fresh "E" in
  intros s a s' E; unfold f, os_next, depth, rdepth in E;
  destruct_vm s; break_in E; inversion E; subst; repeat split; reflexivity.

Lemma fr_push v : respects R (push v).
Proof using R_frame. fr_op push. Qed.
Lemma fr_pop : respects R pop.
Proof using R_frame. fr_op pop. Qed.
Lemma fr_tos : respects R tos.
Proof using R_frame. fr_op tos. Qed.
Lemma fr_rpush v : respects R (rpush v).
Proof using R_frame. fr_op rpush. Qed.
Lemma fr_rpop : respects R rpop.
Proof using R_frame. fr_op rpop. Qed.
Lemma fr_rtos : respects R rtos.
Proof using R_frame. fr_op rtos. Qed.
Lemma fr_sp_at n : respects R (sp_at n).
Proof using R_frame. fr_op sp_at. Qed.
Lemma fr_rsp_at n : respects R (rsp_at n).
Proof using R_frame. fr_op rsp_at. Qed.
Lemma fr_set_tos f : respects R (set_tos f).
Proof using R_frame. fr_op set_tos. Qed.
Lemma fr_mem_fetch a : respects R (mem_fetch a).
Proof using R_frame. fr_op mem_fetch. Qed.
Lemma fr_mem_store a v : respects R (mem_store a v).
Proof using R_frame. fr_op mem_store. Qed.
Lemma fr_mem_c_fetch a : respects R (mem_c_fetch a).
Proof using R_frame. fr_op mem_c_fetch. Qed.
Lemma fr_mem_c_store a v : respects R (mem_c_store a v).
Proof using R_frame. fr_op mem_c_store. Qed.
Lemma fr_mem_write a bs : respects R (mem_write a bs).
Proof using R_frame. fr_op mem_write. Qed.
Lemma fr_mem_read a n : respects R (mem_read a n).
Proof using R_frame. fr_op mem_read. Qed.
Lemma fr_pno_put c : respects R (pno_put c).
Proof using R_frame. fr_op pno_put. Qed.
Lemma fr_vm_word : respects R vm_word.
Proof using R_frame. fr_op vm_word. Qed.
Lemma fr_vm_parse d : respects R (vm_parse d).
Proof using R_frame. fr_op vm_parse. Qed.
Lemma fr_os_next : respects R os_next.
Proof using R_frame. fr_op os_next. Qed.
Lemma fr_vm_find nm : respects R (vm_find nm).
Proof using R_frame.
  apply fr_update; intros s x s' E; unfold vm_find in E; break_in E;
    inversion E; subst; repeat split; reflexivity.
Qed.
Lemma fr_dict_at i : respects R (dict_at i).
Proof using R_frame.
  apply fr_update; intros s x s' E; unfold dict_at in E; break_in E;
    inversion E; subst; repeat split; reflexivity.
Qed.
Lemma fr_lift {A} (o : option A) : respects R (lift o).
Proof using R_refl. destruct o; [apply fr_ret|apply fr_undefined]. Qed.

Ltac fr_field_eq :=
  let s := fresh "s" in
  intros s; destruct s; cbn; break_goal; reflexivity.

Ltac fr_step :=
  lazymatch goal with
  | |- respects _ (bind _ _) => apply fr_bind; [|intros]
  | |- respects _ (ret _) => apply fr_ret
  | |- respects _ undefined => apply fr_undefined
  | |- respects _ (gets _) => apply fr_gets
  | |- respects _ (lift _) => apply fr_lift
  | |- respects _ (push _) => apply fr_push
  | |- respects _ pop => apply fr_pop
  | |- respects _ tos => apply fr_tos
  | |- respects _ (rpush _) => apply fr_rpush
  | |- respects _ rpop => apply fr_rpop
  | |- respects _ rtos => apply fr_rtos
  | |- respects _ (sp_at _) => apply fr_sp_at
  | |- respects _ (rsp_at _) => apply fr_rsp_at
  | |- respects _ (set_tos _) => apply fr_set_tos
  | |- respects _ (mem_fetch _) => apply fr_mem_fetch
  | |- respects _ (mem_store _ _) => apply fr_mem_store
  | |- respects _ (mem_c_fetch _) => apply fr_mem_c_fetch
  | |- respects _ (mem_c_store _ _) => apply fr_mem_c_store
  | |- respects _ (mem_write _ _) => apply fr_mem_write
  | |- respects _ (mem_read _ _) => apply fr_mem_read
  | |- respects _ (pno_put _) => apply fr_pno_put
  | |- respects _ vm_word => apply fr_vm_word
  | |- respects _ (vm_parse _) => apply fr_vm_parse
  | |- respects _ os_next => apply fr_os_next
  | |- respects _ (vm_find _) => apply fr_vm_find
  | |- respects _ (dict_at _) => apply fr_dict_at
  | |- respects _ (modify _) => apply fr_modify; fr_field_eq
  | |- respects _ (when ?b _) => destruct b; cbn [when]
  | |- respects _ (if ?b then _ else _) => destruct b
  | |- respects _ (match ?x with _ => _ end) => destruct x
  | |- respects _ (let _ := _ in _) => cbv zeta
  end.

Lemma fr_vm_compile_cell v : respects R (vm_compile_cell v).
Proof using R_refl R_trans R_frame. unfold vm_compile_cell. repeat fr_step. Qed.
Lemma fr_vm_fetch_ip : respects R vm_fetch_ip.
Proof using R_refl R_trans R_frame. unfold vm_fetch_ip. repeat fr_step. Qed.
Lemma fr_print_out t : respects R (print_out t).
Proof using R_frame. unfold print_out. repeat fr_step. Qed.
Lemma fr_print_err t : respects R (print_err t).
Proof using R_frame. unfold print_err. repeat fr_step. Qed.
Lemma fr_vm_abort msg : respects R (vm_abort msg).
Proof using R_refl R_trans R_frame.
  unfold vm_abort. repeat (apply fr_print_err || fr_step).
Qed.
Lemma fr_compile_string buf : respects R (compile_string buf).
Proof using R_refl R_trans R_frame.
  unfold compile_string. repeat (apply fr_vm_compile_cell || fr_step).
Qed.
Lemma fr_resolve_endofs ds : respects R (resolve_endofs ds).
Proof using R_refl R_trans R_frame.
  induction ds; cbn [resolve_endofs]; repeat (assumption || fr_step).
Qed.
Lemma fr_pno_digit : respects R p_pno_digit.
Proof using R_refl R_trans R_frame. unfold p_pno_digit. repeat fr_step. Qed.
Lemma fr_pno_digits_loop n : respects R (pno_digits_loop n).
Proof using R_refl R_trans R_frame.
  induction n; cbn [pno_digits_loop]; repeat (assumption || apply fr_pno_digit || fr_step).
Qed.
Lemma fr_to_number_loop u b dlo addr : respects R (to_number_loop u b dlo addr).
Proof using R_refl R_trans R_frame.
  revert dlo addr; induction u as [|u IH]; intros; cbn [to_number_loop];
    repeat (apply IH || fr_step).
Qed.

(** The libc calls and the helpers of [io.c]. *)
Lemma fr_c_fgetc : respects R c_fgetc.
Proof using R_refl R_trans R_frame. unfold c_fgetc. repeat fr_step. Qed.
Lemma fr_c_fgets n : respects R (c_fgets n).
Proof using R_refl R_trans R_frame. unfold c_fgets. repeat fr_step. Qed.
Lemma fr_c_fopen p m : respects R (c_fopen p m).
Proof using R_refl R_trans R_frame. unfold c_fopen. repeat fr_step. Qed.
Lemma fr_c_fclose f : respects R (c_fclose f).
Proof using R_frame. unfold c_fclose. repeat fr_step. Qed.
Lemma fr_c_fwrite n : respects R (c_fwrite n).
Proof using R_refl R_trans R_frame. unfold c_fwrite. repeat fr_step. Qed.
Lemma fr_c_ftell : respects R c_ftell.
Proof using R_refl R_trans R_frame. unfold c_ftell. repeat fr_step. Qed.
Lemma fr_c_fread n : respects R (c_fread n).
Proof using R_refl R_trans R_frame. unfold c_fread. repeat fr_step. Qed.
Lemma fr_c_getenv n : respects R (c_getenv n).
Proof using R_refl R_trans R_frame. unfold c_getenv. repeat fr_step. Qed.
Lemma fr_c_realpath p : respects R (c_realpath p).
Proof using R_refl R_trans R_frame. unfold c_realpath. repeat fr_step. Qed.
Lemma fr_fgets_into a n : respects R (fgets_into a n).
Proof using R_refl R_trans R_frame.
  unfold fgets_into. repeat (apply fr_c_fgets || fr_step).
Qed.
Lemma fr_forth_to_cstr a l m : respects R (forth_to_cstr a l m).
Proof using R_refl R_trans R_frame. unfold forth_to_cstr. repeat fr_step. Qed.
Lemma fr_expand_path p m : respects R (expand_path p m).
Proof using R_refl R_trans R_frame.
  unfold expand_path. repeat (apply fr_c_getenv || fr_step).
Qed.
Lemma fr_open_in_slot p m : respects R (open_in_slot p m).
Proof using R_refl R_trans R_frame.
  unfold open_in_slot. repeat (apply fr_c_fopen || fr_step).
Qed.

Ltac fr :=
  repeat lazymatch goal with
    | |- respects _ (vm_compile_cell _) => apply fr_vm_compile_cell
    | |- respects _ vm_fetch_ip => apply fr_vm_fetch_ip
    | |- respects _ (print_out _) => apply fr_print_out
    | |- respects _ (print_err _) => apply fr_print_err
    | |- respects _ (vm_abort _) => apply fr_vm_abort
    | |- respects _ (compile_string _) => apply fr_compile_string
    | |- respects _ (resolve_endofs _) => apply fr_resolve_endofs
    | |- respects _ p_pno_digit => apply fr_pno_digit
    | |- respects _ (pno_digits_loop _) => apply fr_pno_digits_loop
    | |- respects _ (to_number_loop _ _ _ _) => apply fr_to_number_loop
    | |- respects _ c_fgetc => apply fr_c_fgetc
    | |- respects _ (c_fgets _) => apply fr_c_fgets
    | |- respects _ (c_fopen _ _) => apply fr_c_fopen
    | |- respects _ (c_fclose _) => apply fr_c_fclose
    | |- respects _ (c_fwrite _) => apply fr_c_fwrite
    | |- respects _ c_ftell => apply fr_c_ftell
    | |- respects _ (c_fread _) => apply fr_c_fread
    | |- respects _ (c_getenv _) => apply fr_c_getenv
    | |- respects _ (c_realpath _) => apply fr_c_realpath
    | |- respects _ (fgets_into _ _) => apply fr_fgets_into
    | |- respects _ (forth_to_cstr _ _ _) => apply fr_forth_to_cstr
    | |- respects _ (expand_path _ _) => apply fr_expand_path
    | |- respects _ (open_in_slot _ _) => apply fr_open_in_slot
    | _ => fr_step
    end.

(** Every handler except [decimal] and [hex] respects [R], provided what
    it re-enters does. *)
Lemma fr_call re fn :
  re_respects R re -> fn <> P_decimal -> fn <> P_hex -> respects R (call re fn).
Proof using R_refl R_trans R_frame R_colon R_semicolon R_immediate R_create R_does.
  intros (Hve & _ & Hload) N1 N2.
  destruct fn; try congruence; cbn [call];
    first [ exact R_colon | exact R_semicolon | exact R_immediate
          | exact R_create | exact R_does
          | lazymatch goal with
            | |- respects _ ?m => let m' := eval red in m in change (respects R m')
            end;
            fr; try apply Hve; try apply Hload ].
Qed.

(** The indirect call through an entry of the dictionary. *)
Lemma fr_call_entry re s i e a s' :
  re_respects R re -> dict s !! i = Some e ->
  call re (code e) s = Some (a, s') -> R s s'.
Proof using R_refl R_trans R_frame R_colon R_semicolon R_immediate R_create R_does R_setter.
  intros Hre L E.
  destruct (R_setter s i e L) as [S1 S2].
  assert (D : code e = P_decimal \/ code e = P_hex
              \/ (code e <> P_decimal /\ code e <> P_hex)).
  { destruct (code e); auto; right; right; split; discriminate. }
  destruct D as [D|[D|[D1 D2]]].
  - rewrite D in E. cbn [call] in E. inversion E; subst. auto.
  - rewrite D in E. cbn [call] in E. inversion E; subst. auto.
  - exact (fr_call re (code e) Hre D1 D2 s a s' E).
Qed.

Lemma fr_dispatch re xt :
  re_respects R re -> respects R (bind (dict_at xt) (fun e => call re (code e))).
Proof using R_refl R_trans R_frame R_colon R_semicolon R_immediate R_create R_does R_setter.
  intros Hre s a s' E. apply bind_Some in E. destruct E as (e & s1 & E1 & E2).
  assert (s1 = s /\ exists i, dict s !! i = Some e) as [-> [i L]].
  { unfold dict_at in E1. break_in E1. inversion E1; subst. eauto. }
  exact (fr_call_entry re s i e a s' Hre L E2).
Qed.

Lemma fr_vm_step re : re_respects R re -> respects R (vm_step re).
Proof using R_refl R_trans R_frame R_colon R_semicolon R_immediate R_create R_does R_setter.
  intros Hre. unfold vm_step.
  apply fr_bind; [apply fr_vm_fetch_ip|intros xt].
  apply fr_bind; [fr_step|intros _].
  apply fr_dispatch. exact Hre.
Qed.

Lemma fr_run_loop re fuel rsp_base :
  re_respects R re -> respects R (run_loop re fuel rsp_base).
Proof using R_refl R_trans R_frame R_colon R_semicolon R_immediate R_create R_does R_setter.
  intros Hre. induction fuel as [|fuel IH]; intros s a s' E;
    rewrite run_loop_unfold in E; destruct (run_continues rsp_base s).
  - discriminate.
  - inversion E; subst. apply R_refl.
  - destruct (vm_step re s) as [[[] s1]|] eqn:E1; [|discriminate].
    exact (R_trans _ _ _ (fr_vm_step re Hre s tt s1 E1) (IH s1 a s' E)).
  - inversion E; subst. apply R_refl.
Qed.

Lemma fr_interpret_word (ve : Z -> M unit) nm :
  (forall xt, respects R (ve xt)) -> respects R (interpret_word ve nm).
Proof using R_refl R_trans R_frame.
  intros Hve. unfold interpret_word.
  repeat (apply Hve || apply fr_vm_compile_cell || apply fr_print_err
          || apply fr_vm_abort || fr_step).
Qed.

Lemma fr_load_lines vi rounds f rest :
  respects R vi -> respects R (load_lines vi rounds f rest).
Proof using R_refl R_trans R_frame.
  intros Hvi. induction rounds as [|rounds IH]; intros s a s' E;
    cbn [load_lines] in E; destruct (running s);
    try (inversion E; subst; apply R_refl);
    destruct (same_handles (input s) (f :: rest)); try discriminate.
  revert s a s' E.
  change (respects R (l <- c_fgets (Z.of_nat TIB_SIZE) ;;
                      match l with
                      | None => ret tt
                      | Some line =>
                          modify (set_tib (chomp (cstring line))) ;;
                          modify (set_tib_pos 0%nat) ;;
                          vi ;;
                          load_lines vi rounds f rest
                      end)).
  repeat (assumption || apply fr_c_fgets || fr_step).
Qed.

Lemma fr_load_file vi rounds path :
  respects R vi -> respects R (load_file vi rounds path).
Proof using R_refl R_trans R_frame.
  intros Hvi. unfold load_file.
  repeat (apply fr_load_lines || apply fr_c_fopen || apply fr_c_fclose
          || apply fr_print_err || assumption || fr_step).
Qed.

(** [vm_execute], [vm_interpret_tib] and [vm_load_file] respect [R]. *)
Lemma fr_engine fuel : re_respects R (vm_execute fuel).
Proof using R_refl R_trans R_frame R_colon R_semicolon R_immediate R_create R_does R_setter.
  induction fuel as [|fuel IH].
  - split; [|split].
    + intros xt. apply fr_undefined.
    + intros s a s' E. cbn in E. destruct (running s); [discriminate|].
      inversion E; subst. apply R_refl.
    + intros p. apply fr_undefined.
  - pose proof IH as (Hve & Hvi & Hvl).
    split; [|split].
    + intros xt. rewrite vm_execute_S.
      apply fr_bind; [fr_step|intros _].
      intros s a s' E.
      pose proof (fr_dispatch (vm_execute fuel) xt IH) as Hd.
      apply bind_Some in E. destruct E as (e & s1 & E1 & E2).
      assert (s1 = s) as ->.
      { unfold dict_at in E1. break_in E1. inversion E1; subst. reflexivity. }
      destruct (is_threaded (code e)) eqn:T.
      * assert (N : code e <> P_decimal /\ code e <> P_hex)
          by (destruct (code e); try discriminate; split; discriminate).
        destruct N as [N1 N2].
        pose proof (fr_call (vm_execute fuel) (code e) IH N1 N2) as Hc.
        clear E1. revert s a s' E2.
        change (respects R (call (vm_execute fuel) (code e) ;;
                            base_rsp <- gets rsp ;;
                            run_loop (vm_execute fuel) fuel base_rsp)).
        apply fr_bind; [exact Hc|intros _].
        apply fr_bind; [fr_step|intros b]. apply fr_run_loop. exact IH.
      * apply (Hd s a s'). unfold bind. rewrite E1. exact E2.
    + intros s a s' E. change (vm_interpret_tib (S fuel) s = Some (a, s')) in E.
      rewrite vm_interpret_tib_S in E. destruct (running s).
      * revert s a s' E.
        change (respects R (nm <- vm_word ;;
                            if strlen nm =? 0 then ret tt
                            else fl <- interpret_token fuel nm ;;
                                 match fl with
                                 | Continue => vm_interpret_tib fuel
                                 | Return => ret tt
                                 end)).
        repeat (exact Hvi || apply (fr_interpret_word (vm_execute fuel)) || exact Hve || fr_step).
      * inversion E; subst. apply R_refl.
    + intros p. change (respects R (vm_load_file (S fuel) p)).
      rewrite vm_load_file_S. apply fr_load_file. exact Hvi.
Qed.

Lemma fr_vm_interpret_line fuel line : respects R (vm_interpret_line fuel line).
Proof using R_refl R_trans R_frame R_colon R_semicolon R_immediate R_create R_does R_setter.
  unfold vm_interpret_line.
  repeat (apply (proj1 (proj2 (fr_engine fuel))) || fr_step).
Qed.

End Frame.


Lemma evolves_trans a b c : evolves a b -> evolves b c -> evolves a c.
Proof. induction 1; [auto|]. intros. eapply evolves_step; eauto. Qed.

Lemma evolves_once a b : dict_step a b -> evolves a b.
Proof. intros H. eapply evolves_step; [exact H|constructor]. Qed.

Lemma evolves_frame s s' :
  dict s' = dict s -> latest s' = latest s -> base s' = base s -> evolves s s'.
Proof. intros. apply evolves_once. left. auto. Qed.

Lemma immediate_len f : Z.land (Z.lor f F_IMMEDIATE) F_LENMASK = Z.land f F_LENMASK.
Proof.
  rewrite Z.land_lor_distr_l. unfold F_IMMEDIATE, F_LENMASK.
  change (Z.land 128 63) with 0. apply Z.lor_0_r.
Qed.

Lemma dict_update_step i f s s' :
  (forall e, name (f e) = name e /\ link (f e) = link e /\ entry_len (f e) = entry_len e
             /\ param (f e) = param e /\ (code (f e) = code e \/ code (f e) = Dodoes)) ->
  dict_update i f s = Some (tt, s') -> dict_step s s'.
Proof.
  intros Hf E. unfold dict_update in E. break_in E. inversion E; subst.
  right. right. exists (Z.to_nat i), d, (f d).
  destruct (Hf d) as (F1 & F2 & F3 & F4 & F5).
  split; [assumption|]. split; [destruct s; reflexivity|].
  split; [destruct s; reflexivity|]. auto.
Qed.

Lemma colon_evolves : respects evolves p_colon.
Proof.
  intros s a s' E. unfold p_colon in E.
  apply bind_Some in E. destruct E as (nm & s1 & W & E).
  destruct (vm_word_inv _ _ _ W) as [S1 L1].
  destruct (strlen nm =? 0) eqn:Z0.
  - apply (fr_vm_abort evolves evolves_refl evolves_trans evolves_frame) in E.
    apply evolves_trans with s1; [|exact E].
    apply evolves_frame; rewrite S1; destruct s; reflexivity.
  - unfold bind, gets, dict_append, modify in E. break_in E. inversion E; subst s'. clear E.
    apply evolves_once. right. left. eexists.
    assert (Ds : dict s1 = dict s) by (rewrite S1; destruct s; reflexivity).
    assert (Ls : latest s1 = latest s) by (rewrite S1; destruct s; reflexivity).
    split; [rewrite <- Ds; destruct s1; reflexivity|].
    split; [rewrite <- Ds; destruct s1; reflexivity|].
    split; [rewrite <- Ls; reflexivity|].
    split; [|left; reflexivity].
    unfold entry_len. cbn [flags name].
    apply hidden_len_flags. unfold strlen, NAME_MAX_LEN in *. lia.
Qed.

Lemma create_evolves : respects evolves p_create.
Proof.
  intros s a s' E. unfold p_create in E.
  apply bind_Some in E. destruct E as (nm & s1 & W & E).
  destruct (vm_word_inv _ _ _ W) as [S1 L1].
  destruct (strlen nm =? 0) eqn:Z0.
  - apply (fr_vm_abort evolves evolves_refl evolves_trans evolves_frame) in E.
    apply evolves_trans with s1; [|exact E].
    apply evolves_frame; rewrite S1; destruct s; reflexivity.
  - unfold bind, gets, dict_append, modify in E. break_in E. inversion E; subst s'. clear E.
    apply evolves_once. right. left. eexists.
    assert (Ds : dict s1 = dict s) by (rewrite S1; destruct s; reflexivity).
    assert (Ls : latest s1 = latest s) by (rewrite S1; destruct s; reflexivity).
    split; [rewrite <- Ds; destruct s1; reflexivity|].
    split; [rewrite <- Ds; destruct s1; reflexivity|].
    split; [rewrite <- Ls; reflexivity|].
    split; [|right; reflexivity].
    unfold entry_len. cbn [flags name].
    apply hidden_len_flags. unfold strlen, NAME_MAX_LEN in *. lia.
Qed.

Lemma semicolon_evolves : respects evolves p_semicolon.
Proof.
  intros s a s' E. unfold p_semicolon in E.
  apply bind_Some in E. destruct E as (x & s1 & E1 & E).
  inversion E1; subst x s1. clear E1.
  apply bind_Some in E. destruct E as ([] & s1 & E1 & E).
  apply (fr_vm_compile_cell evolves evolves_refl evolves_trans evolves_frame) in E1.
  apply bind_Some in E. destruct E as (l & s2 & E2 & E).
  inversion E2; subst l s2. clear E2.
  apply bind_Some in E. destruct E as ([] & s2 & E2 & E).
  inversion E; subst s'. clear E.
  apply evolves_trans with s1; [exact E1|].
  apply evolves_trans with s2; [|apply evolves_frame; destruct s2; reflexivity].
  apply evolves_once. eapply dict_update_step; [|exact E2].
  intros e. unfold entry_len. cbn [name link param code flags set_flags].
  destruct (unhide_flags (flags e)) as (_ & U & _). repeat split; auto.
Qed.

Lemma immediate_evolves : respects evolves p_immediate.
Proof.
  intros s a s' E. unfold p_immediate in E.
  apply bind_Some in E. destruct E as (l & s1 & E1 & E).
  inversion E1; subst l s1. clear E1. destruct a.
  apply evolves_once. eapply dict_update_step; [|exact E].
  intros e. unfold entry_len. cbn [name link param code flags set_flags].
  rewrite immediate_len. repeat split; auto.
Qed.

Lemma does_evolves : respects evolves p_does_runtime.
Proof.
  intros s a s' E. unfold p_does_runtime in E.
  apply bind_Some in E. destruct E as (l & s1 & E1 & E).
  inversion E1; subst l s1. clear E1.
  apply bind_Some in E. destruct E as ([] & s1 & E1 & E).
  apply bind_Some in E. destruct E as (i & s2 & E2 & E).
  inversion E2; subst i s2. clear E2.
  apply bind_Some in E. destruct E as ([] & s2 & E2 & E).
  apply bind_Some in E. destruct E as (r & s3 & E3 & E).
  inversion E; subst s'. clear E.
  eapply evolves_step; [eapply dict_update_step; [|exact E1]; intros e; cbn; repeat split; auto|].
  eapply evolves_step; [eapply dict_update_step; [|exact E2]; intros e; cbn; repeat split; auto|].
  apply evolves_frame;
    unfold rpop in E3; break_in E3; inversion E3; subst; destruct s2; reflexivity.
Qed.

(** The five words that write the dictionary leave the base alone. *)
Lemma base_kept_refl s : base_kept s s.
Proof. reflexivity. Qed.

Lemma base_kept_trans a b c : base_kept a b -> base_kept b c -> base_kept a c.
Proof. unfold base_kept. congruence. Qed.

Lemma base_kept_frame s s' :
  dict s' = dict s -> latest s' = latest s -> base s' = base s -> base_kept s s'.
Proof. auto. Qed.

Lemma base_kept_append e : respects base_kept (dict_append e).
Proof.
  intros s a s' E. unfold dict_append, bind, gets, modify in E. break_in E.
  inversion E; subst. destruct s; reflexivity.
Qed.

Lemma base_kept_update i f : respects base_kept (dict_update i f).
Proof.
  intros s a s' E. unfold dict_update in E. break_in E.
  inversion E; subst. destruct s; reflexivity.
Qed.

Lemma base_kept_modify (f : vm -> vm) :
  (forall s, base (f s) = base s) -> respects base_kept (modify f).
Proof. intros H s a s' E. inversion E; subst. apply H. Qed.

Ltac base_kept_step :=
  lazymatch goal with
  | |- respects _ (bind _ _) => apply (fr_bind base_kept base_kept_trans); [|intros]
  | |- respects _ (ret _) => apply (fr_ret base_kept base_kept_refl)
  | |- respects _ (gets _) => apply (fr_gets base_kept base_kept_refl)
  | |- respects _ vm_word => apply (fr_vm_word base_kept base_kept_frame)
  | |- respects _ rpop => apply (fr_rpop base_kept base_kept_frame)
  | |- respects _ (vm_abort _) =>
      apply (fr_vm_abort base_kept base_kept_refl base_kept_trans base_kept_frame)
  | |- respects _ (vm_compile_cell _) =>
      apply (fr_vm_compile_cell base_kept base_kept_refl base_kept_trans base_kept_frame)
  | |- respects _ (dict_append _) => apply base_kept_append
  | |- respects _ (dict_update _ _) => apply base_kept_update
  | |- respects _ (modify _) =>
      apply base_kept_modify; let s := fresh "s" in intros s; destruct s; reflexivity
  | |- respects _ (if ?b then _ else _) => destruct b
  end.

Lemma colon_base : respects base_kept p_colon.
Proof. unfold p_colon. repeat base_kept_step. Qed.
Lemma create_base : respects base_kept p_create.
Proof. unfold p_create. repeat base_kept_step. Qed.
Lemma semicolon_base : respects base_kept p_semicolon.
Proof. unfold p_semicolon. repeat base_kept_step. Qed.
Lemma immediate_base : respects base_kept p_immediate.
Proof. unfold p_immediate. repeat base_kept_step. Qed.
Lemma does_base : respects base_kept p_does_runtime.
Proof. unfold p_does_runtime. repeat base_kept_step. Qed.

(** The changes to the dictionary never add an entry whose handler is
    [decimal] or [hex]. *)
Lemma dict_step_no_setter s s' :
  dict_step s s' -> no_base_setter (dict s) -> no_base_setter (dict s').
Proof.
  unfold no_base_setter.
  intros [[D L]|[(e & D & L & Hk & Hl & Hc)|(i & e & e' & Hi & D & L & Hn & Hk & Hl & Hp & Hc)]] N;
    rewrite D.
  - exact N.
  - apply Forall_app. split; [exact N|]. constructor; [|constructor].
    destruct Hc as [-> | ->]; split; discriminate.
  - apply Forall_insert; [exact N|].
    pose proof (proj1 (Forall_lookup _ _) N i e Hi) as [A B].
    destruct Hc as [-> | ->]; split; (assumption || discriminate).
Qed.

Lemma evolves_no_setter s s' :
  evolves s s' -> no_base_setter (dict s) -> no_base_setter (dict s').
Proof. induction 1; [auto|]. intros N. apply IHevolves. eapply dict_step_no_setter; eauto. Qed.

Lemma engine_step_refl s : engine_step s s.
Proof. split; [apply evolves_refl|]. auto. Qed.

Lemma engine_step_trans a b c : engine_step a b -> engine_step b c -> engine_step a c.
Proof.
  intros (E1 & B1 & N1) (E2 & B2 & N2). split; [eapply evolves_trans; eauto|]. split.
  - destruct B2 as [B2|B2]; [rewrite B2; exact B1|auto].
  - intros N. rewrite N2 by (eapply evolves_no_setter; eauto). auto.
Qed.

Lemma engine_step_frame s s' :
  dict s' = dict s -> latest s' = latest s -> base s' = base s -> engine_step s s'.
Proof. intros D L B. split; [apply evolves_frame; assumption|]. auto. Qed.

Lemma engine_step_writer {A} (m : M A) :
  respects evolves m -> respects base_kept m -> respects engine_step m.
Proof.
  intros H1 H2 s a s' E. split; [exact (H1 s a s' E)|].
  pose proof (H2 s a s' E) as B. unfold base_kept in B. auto.
Qed.

Lemma engine_step_setter s i e :
  dict s !! i = Some e ->
  (code e = P_decimal -> engine_step s (set_base 10 s))
  /\ (code e = P_hex -> engine_step s (set_base 16 s)).
Proof.
  intros L.
  assert (N : no_base_setter (dict s) -> code e <> P_decimal /\ code e <> P_hex).
  { intros N. exact (proj1 (Forall_lookup _ _) N i e L). }
  split; intros C; (split; [apply evolves_once; left; destruct s; split; reflexivity|]);
    (split; [destruct s; cbn; auto|]); intros N0; destruct (N N0); congruence.
Qed.

(** Every execution, every interpreted line and every loaded file
    changes the dictionary and the base in those ways only. *)
Lemma engine_steps fuel : re_respects engine_step (vm_execute fuel).
Proof.
  exact (fr_engine engine_step engine_step_refl engine_step_trans engine_step_frame
           (engine_step_writer _ colon_evolves colon_base)
           (engine_step_writer _ semicolon_evolves semicolon_base)
           (engine_step_writer _ immediate_evolves immediate_base)
           (engine_step_writer _ create_evolves create_base)
           (engine_step_writer _ does_evolves does_base)
           engine_step_setter fuel).
Qed.

Lemma execute_engine_step fuel xt : respects engine_step (vm_execute fuel xt).
Proof. exact (proj1 (engine_steps fuel) xt). Qed.

Lemma interpret_tib_engine_step fuel : respects engine_step (vm_interpret_tib fuel).
Proof. exact (proj1 (proj2 (engine_steps fuel))). Qed.

Lemma load_file_engine_step fuel path : respects engine_step (vm_load_file fuel path).
Proof. exact (proj2 (proj2 (engine_steps fuel)) path). Qed.

Lemma interpret_line_engine_step fuel line :
  respects engine_step (vm_interpret_line fuel line).
Proof.
  exact (fr_vm_interpret_line engine_step engine_step_refl engine_step_trans engine_step_frame
           (engine_step_writer _ colon_evolves colon_base)
           (engine_step_writer _ semicolon_evolves semicolon_base)
           (engine_step_writer _ immediate_evolves immediate_base)
           (engine_step_writer _ create_evolves create_base)
           (engine_step_writer _ does_evolves does_base)
           engine_step_setter fuel line).
Qed.

Lemma dict_step_wf s s' : dict_step s s' -> dict_wf s -> dict_wf s'.
Proof.
  intros [[D L]|[(e & D & L & Hk & Hl & _)|(i & e & e' & Hi & D & L & Hn & Hk & Hl & _)]]
         [W1 W2]; unfold dict_wf; rewrite D, L.
  - split; assumption.
  - rewrite length_app. cbn [length]. split; [lia|].
    intros k x Hx. apply lookup_app_Some in Hx. destruct Hx as [Hx|[Hge Hx]].
    + apply W2. exact Hx.
    + destruct (k - length (dict s))%nat eqn:Ek; [|discriminate].
      inversion Hx; subst x. rewrite Hk. split; [lia|exact Hl].
  - rewrite length_insert. split; [assumption|].
    intros k x Hx. destruct (Nat.eq_dec i k) as [->|Ne].
    + rewrite list_lookup_insert_eq in Hx by (eapply lookup_lt_Some; eassumption).
      inversion Hx; subst x. destruct (W2 _ _ Hi) as [A B].
      rewrite Hk. split; [exact A|]. rewrite Hl. unfold strlen in *. rewrite Hn. exact B.
    + rewrite list_lookup_insert_ne in Hx by exact Ne. apply W2. exact Hx.
Qed.

Lemma entries_kept_refl s : entries_kept s s.
Proof. split; [lia|]. intros i e H. exists e. repeat split; auto. Qed.

Lemma entries_kept_trans a b c : entries_kept a b -> entries_kept b c -> entries_kept a c.
Proof.
  intros [L1 K1] [L2 K2]. split; [lia|]. intros i e H.
  destruct (K1 i e H) as (e1 & H1 & N1 & k1 & l1 & p1 & c1).
  destruct (K2 i e1 H1) as (e2 & H2 & N2 & k2 & l2 & p2 & c2).
  exists e2. repeat split; try congruence.
  destruct c2 as [c2|c2]; [rewrite c2; exact c1|right; exact c2].
Qed.

Lemma dict_step_kept s s' : dict_step s s' -> entries_kept s s'.
Proof.
  intros [[D L]|[(e & D & L & Hk & Hl & _)|(i & e & e' & Hi & D & L & Hn & Hk & Hl & Hp & Hc)]];
    unfold entries_kept; rewrite D.
  - split; [lia|]. intros k x Hx. exists x. repeat split; auto.
  - rewrite length_app. split; [lia|]. intros k x Hx. exists x.
    split; [apply lookup_app_l_Some; exact Hx|]. repeat split; auto.
  - rewrite length_insert. split; [lia|]. intros k x Hx.
    destruct (Nat.eq_dec i k) as [->|Ne].
    + exists e'. rewrite list_lookup_insert_eq by (eapply lookup_lt_Some; eassumption).
      assert (x = e) by congruence. subst x. repeat split; auto.
    + exists x. rewrite list_lookup_insert_ne by exact Ne. repeat split; auto.
Qed.

Lemma evolves_wf s s' : evolves s s' -> dict_wf s -> dict_wf s'.
Proof. induction 1; [auto|]. intros W. apply IHevolves. eapply dict_step_wf; eauto. Qed.

Lemma evolves_kept s s' : evolves s s' -> entries_kept s s'.
Proof.
  induction 1; [apply entries_kept_refl|].
  eapply entries_kept_trans; [apply dict_step_kept; eassumption|assumption].
Qed.

End FrameFacts.

(** ** The number base ([io.c], [vm.c], [prims.c]) *)

Module BaseFacts.
Import Cell Mem VM Prims Interp Boot Spec Notions.
Import CellFacts MemFacts MonadFacts EngineFacts FrameFacts.
Local Open Scope vm_scope.

(** [vm_try_number] reads the base field of the VM and nothing else. *)
Lemma vm_try_number_base s t tok :
  base s = base t -> vm_try_number s tok = vm_try_number t tok.
Proof. intros E. unfold vm_try_number. rewrite E. reflexivity. Qed.

Lemma vm_find_frame nm s t :
  dict t = dict s -> latest t = latest s ->
  vm_find nm s = Some (-1, s) -> vm_find nm t = Some (-1, t).
Proof.
  intros D L. unfold vm_find. rewrite D, L.
  destruct (vm_find_from _ _ _ _); [|discriminate].
  intros E. inversion E. reflexivity.
Qed.

Lemma interpret_number f nm num t :
  vm_find nm t = Some (-1, t) -> state t = 0 ->
  vm_try_number t (list_ascii_of_string nm) = Some num ->
  depth t < DSTACK_SIZE ->
  interpret_token f nm t = Some (Continue, set_dstack (num :: dstack t) t).
Proof.
  intros F St N Hd. unfold interpret_token, interpret_word.
  unfold bind at 1. rewrite F. change (0 <=? -1) with false. cbv iota beta.
  unfold bind, gets, ret, push. rewrite N, St. change (negb (0 =? 0)) with false.
  cbv beta iota. apply Z.ltb_lt in Hd. rewrite Hd. reflexivity.
Qed.

Lemma interpret_unknown f nm t :
  vm_find nm t = Some (-1, t) ->
  vm_try_number t (list_ascii_of_string nm) = None ->
  exists t', interpret_token f nm t = Some (Return, t')
             /\ dstack t' = [] /\ base t' = base t.
Proof.
  intros F N. unfold interpret_token, interpret_word.
  unfold bind at 1. rewrite F. change (0 <=? -1) with false. cbv iota beta.
  unfold bind at 1. unfold gets at 1. rewrite N.
  eexists. split; [reflexivity|]. destruct t; split; reflexivity.
Qed.

Lemma s_to_number_reads t addr len bs rest :
  mem_read addr (if 63 <=? len then 63 else to_int len) t = Some (bs, t) ->
  Z.of_nat (length rest) + 2 < DSTACK_SIZE ->
  exec p_s_to_number (set_dstack (len :: addr :: rest) t)
  = Some (set_dstack
            (match vm_try_number t (chars_of (until_nul (strip_trailing bs))) with
             | Some r => [-1; 0; r]
             | None => [0; 0; 0]
             end ++ rest) t).
Proof.
  intros R Hl.
  unfold mem_read in R. destruct (_ && _) eqn:C; [|discriminate].
  inversion R; subst bs. clear R.
  remember (vm_try_number t _) as r eqn:Er.
  unfold exec, p_s_to_number, bind, pop, gets, push, depth, mem_read in *.
  destruct_vm t. rewrite C. vm_fields.
  match type of Er with
  | _ = vm_try_number ?c _ =>
      match goal with
      | |- context [vm_try_number ?a ?b] =>
          rewrite (vm_try_number_base a c b eq_refl)
      end
  end.
  rewrite <- Er.
  destruct r; vm_fields; cbn [length app];
    repeat (match goal with
            | |- context [Z.of_nat ?n <? DSTACK_SIZE] =>
                destruct (Z.ltb_spec (Z.of_nat n) DSTACK_SIZE); [|cbn [length] in *; lia]
            end; vm_fields; cbn [length]);
    reflexivity.
Qed.



End BaseFacts.

(** ** Defining words ([prims.c]) *)

Module DefiningFacts.
Import Cell Mem VM Prims Interp Boot Spec Notions.
Import CellFacts MemFacts MonadFacts EngineFacts DictFacts FrameFacts.
Local Open Scope vm_scope.

(** [vm_align] returns a multiple of the cell size, whatever it is given. *)
Lemma vm_align_mod n : vm_align n mod CELL = 0.
Proof.
  unfold vm_align, CELL. replace (8 - 1) with 7 by lia. rewrite land_lnot7.
  unfold wrap, modulus, half.
  pose proof (Z.div_mod (8 * ((n + 8 - 1) / 8) + 2 ^ 63) (2 ^ 64) ltac:(lia)) as D.
  set (q := (8 * ((n + 8 - 1) / 8) + 2 ^ 63) / 2 ^ 64) in *.
  replace ((8 * ((n + 8 - 1) / 8) + 2 ^ 63) mod 2 ^ 64 - 2 ^ 63)
    with (((n + 8 - 1) / 8 - 2 ^ 61 * q) * 8) by lia.
  apply Z.mod_mul. lia.
Qed.

Lemma vm_align_above n : 0 <= n < half - CELL -> n <= vm_align n < n + CELL.
Proof. intros H. exact (proj1 (vm_align_spec n H)). Qed.

(** What [;] does to the latest entry. *)
Lemma semicolon_effect s2 e :
  0 <= latest s2 ->
  dict s2 !! Z.to_nat (latest s2) = Some e ->
  in_bounds (here s2) CELL = true ->
  exec p_semicolon s2
  = Some (set_state 0
            (set_dict (<[Z.to_nat (latest s2) :=
                           set_flags (Z.land (flags e) (Z.lnot F_HIDDEN)) e]> (dict s2))
               (set_here (add (here s2) CELL)
                  (set_mem (store_cell (mem s2) (here s2) (xt_exit s2)) s2)))).
Proof.
  intros Hl He Hb.
  unfold exec, p_semicolon, vm_compile_cell, bind, gets, mem_store, modify, dict_update.
  rewrite Hb. cbn [latest dict set_mem set_here set_state].
  replace (latest (set_here (add (here s2) CELL) (set_mem (store_cell (mem s2) (here s2) (xt_exit s2)) s2)))
    with (latest s2) by (destruct s2; reflexivity).
  replace (dict (set_here (add (here s2) CELL) (set_mem (store_cell (mem s2) (here s2) (xt_exit s2)) s2)))
    with (dict s2) by (destruct s2; reflexivity).
  destruct (Z.ltb_spec (latest s2) 0); [lia|]. rewrite He. reflexivity.
Qed.

(** The entry [;] has rewritten is the one the lookup of its name finds. *)
Lemma semicolon_visible s2 e s'' :
  0 <= latest s2 ->
  dict s2 !! Z.to_nat (latest s2) = Some e ->
  entry_len e = strlen (name e) ->
  in_bounds (here s2) CELL = true ->
  exec p_semicolon s2 = Some s'' ->
  vm_find (name e) s'' = Some (latest s2, s'').
Proof.
  intros Hl He Hlen Hb E. rewrite (semicolon_effect s2 e Hl He Hb) in E.
  inversion E; subst s''. clear E.
  destruct (unhide_flags (flags e)) as (U1 & U2 & U3).
  set (e' := set_flags (Z.land (flags e) (Z.lnot F_HIDDEN)) e).
  assert (Hv : is_hidden e' = false).
  { unfold is_hidden, e'; cbn [flags set_flags]. rewrite U1. reflexivity. }
  assert (Hlt : (Z.to_nat (latest s2) < length (dict s2))%nat).
  { apply lookup_lt_Some in He. exact He. }
  match goal with |- vm_find _ ?x = _ => set (sf := x) end.
  replace (latest s2) with (latest sf) by (destruct s2; reflexivity).
  apply vm_find_latest with (e := e'); subst sf.
  - destruct_vm s2. assumption.
  - destruct_vm s2. apply list_lookup_insert_eq. assumption.
  - unfold entry_matches. rewrite Hv. cbn [negb andb].
    replace (entry_len e') with (entry_len e)
      by (unfold entry_len, e'; cbn [flags set_flags]; symmetry; exact U2).
    rewrite Hlen. unfold strlen. rewrite Z.eqb_refl. cbn [andb].
    unfold e'. destruct e; cbn. apply strncasecmp_refl.
Qed.

(** Executing an entry with the variable handler pushes its param. *)
Lemma execute_dovar fuel sx xt ex :
  0 <= xt -> dict sx !! Z.to_nat xt = Some ex -> code ex = Dovar ->
  depth sx < DSTACK_SIZE ->
  exec (vm_execute (S fuel) xt) sx
  = Some (set_dstack (param ex :: dstack sx) (set_w xt sx)).
Proof.
  intros Hxt Hex Hcx Hdx.
  unfold exec. cbn [vm_execute re_execute]. unfold bind, modify.
  rewrite (dict_at_Some (set_w xt sx) xt ex Hxt) by (destruct sx; exact Hex).
  rewrite Hcx. cbn [is_threaded call].
  unfold dovar, bind, gets.
  replace (w (set_w xt sx)) with xt by (destruct sx; reflexivity).
  rewrite (dict_at_Some (set_w xt sx) xt ex Hxt) by (destruct sx; exact Hex).
  unfold push.
  replace (depth (set_w xt sx)) with (depth sx) by (destruct sx; reflexivity).
  destruct (Z.ltb_spec (depth sx) DSTACK_SIZE); [|lia].
  destruct sx; reflexivity.
Qed.




(** C6. [CREATE] appends a visible entry whose param is HERE rounded up
    to a multiple of the cell size (the least one at or above HERE) and
    moves HERE there; the lookup finds the entry, and executing it
    pushes that param.  Executing any entry with the variable handler
    pushes its param; the [(does>)] runtime turns the latest entry into
    a does-derived one whose [does] field is the current IP and returns
    from the defining word; executing a does-derived entry pushes its
    param, saves IP, and runs the inner interpreter from the does
    code. *)
Theorem C6_create_and_does :
  forall (s s1 : vm) (nm : string)
         (sx : vm) (xt : Z) (ex : dict_entry)
         (sd : vm) (ed : dict_entry) (r : Z) (rs : list Z)
         (sr : vm) (xr : Z) (er : dict_entry) (fuel : nat),
    vm_word s = Some (nm, s1) ->
    nm <> EmptyString ->
    Z.of_nat (length (dict s)) < MAX_DICT ->
    0 <= xt -> dict sx !! Z.to_nat xt = Some ex -> code ex = Dovar ->
    depth sx < DSTACK_SIZE ->
    0 <= latest sd -> dict sd !! Z.to_nat (latest sd) = Some ed ->
    rstack sd = r :: rs ->
    0 <= xr -> dict sr !! Z.to_nat xr = Some er -> code er = Dodoes ->
    depth sr < DSTACK_SIZE -> rdepth sr < RSTACK_SIZE ->
    let idx := Z.of_nat (length (dict s)) in
    let e0 := mkEntry (latest s) (strlen nm) nm Dovar (vm_align (here s)) (-1) in
    (exists s',
        exec p_create s = Some s'
        /\ dict s' = dict s ++ [e0]
        /\ latest s' = idx
        /\ is_hidden e0 = false
        /\ param e0 mod CELL = 0
        /\ (0 <= here s < half - CELL -> here s <= param e0 < here s + CELL)
        /\ here s' = param e0
        /\ vm_find nm s' = Some (idx, s')
        /\ (depth s < DSTACK_SIZE ->
            exec (vm_execute (S fuel) idx) s'
            = Some (set_dstack (param e0 :: dstack s') (set_w idx s'))))
    /\ exec (vm_execute (S fuel) xt) sx
       = Some (set_dstack (param ex :: dstack sx) (set_w xt sx))
    /\ (exists sd',
        exec p_does_runtime sd = Some sd'
        /\ dict sd' = <[Z.to_nat (latest sd) := set_does (ip sd) (set_code Dodoes ed)]> (dict sd)
        /\ ip sd' = r
        /\ rstack sd' = rs
        /\ dstack sd' = dstack sd)
    /\ exec (vm_execute (S fuel) xr) sr
       = exec (run_loop (vm_execute fuel) fuel (rsp sr - 1))
              (set_ip (does er)
                 (set_rstack (ip sr :: rstack sr)
                    (set_dstack (param er :: dstack sr) (set_w xr sr)))).
Proof.
  intros s s1 nm sx xt ex sd ed r rs sr xr er fuel
         Hw Hnm Hroom Hxt Hex Hcx Hdx Hld Hed Hrd Hxr Her Hcr Hdr Hrr idx e0.
  destruct (vm_word_inv _ _ _ Hw) as [Hs1 Hn].
  assert (Hr : 0 <= strlen nm <= 31) by (unfold strlen, NAME_MAX_LEN in *; lia).
  destruct (hidden_len_flags _ Hr) as (F1 & F2 & F3 & F4 & F5).
  assert (Hv : is_hidden e0 = false).
  { unfold is_hidden, e0; cbn [flags]. rewrite F4. reflexivity. }
  split; [|split; [|split]].
  - unfold exec, p_create. unfold bind at 1. rewrite Hw.
    rewrite (strlen_nonempty _ Hnm).
    rewrite Hs1. unfold bind, gets, dict_append, modify.
    replace (dict (set_tib_pos (tib_pos s1) s)) with (dict s) by (destruct s; reflexivity).
    fold idx. destruct (Z.ltb_spec idx MAX_DICT); [|lia].
    eexists. split; [reflexivity|].
    match goal with |- context [vm_find nm ?x] => set (sf := x) end.
    assert (Dc : dict sf = dict s ++ [e0]) by (destruct s; reflexivity).
    assert (Lk : dict sf !! Z.to_nat idx = Some e0).
    { rewrite Dc. unfold idx. rewrite Nat2Z.id. apply list_lookup_middle. reflexivity. }
    split; [exact Dc|].
    split; [destruct s; reflexivity|].
    split; [exact Hv|].
    split; [apply vm_align_mod|].
    split; [apply vm_align_above|].
    split; [destruct s; reflexivity|].
    split.
    + replace idx with (latest sf) by (destruct s; reflexivity).
      apply vm_find_latest with (e := e0).
      * subst sf. destruct_vm s. unfold idx. lia.
      * replace (latest sf) with idx by (destruct s; reflexivity). exact Lk.
      * unfold entry_matches. rewrite Hv. cbn [negb andb].
        unfold entry_len, e0; cbn [flags name]. rewrite F5.
        unfold strlen. rewrite Z.eqb_refl. cbn [andb]. apply strncasecmp_refl.
    + intros Hds. apply execute_dovar.
      * unfold idx. lia.
      * exact Lk.
      * reflexivity.
      * replace (depth sf) with (depth s) by (destruct s; reflexivity). exact Hds.
  - apply execute_dovar; assumption.
  - assert (Hlt : (Z.to_nat (latest sd) < length (dict sd))%nat).
    { apply lookup_lt_Some in Hed. exact Hed. }
    unfold exec, p_does_runtime, bind, gets, dict_update, rpop, modify.
    destruct (Z.ltb_spec (latest sd) 0); [lia|]. rewrite Hed.
    destruct_vm sd. subst.
    rewrite list_lookup_insert_eq by assumption.
    rewrite list_insert_insert_eq.
    eexists. split; [reflexivity|]. vm_fields. repeat split.
  - unfold exec. cbn [vm_execute re_execute]. unfold bind, modify.
    rewrite (dict_at_Some (set_w xr sr) xr er Hxr) by (destruct sr; exact Her).
    rewrite Hcr. cbn [is_threaded call].
    unfold dodoes, bind, gets.
    replace (w (set_w xr sr)) with xr by (destruct sr; reflexivity).
    rewrite (dict_at_Some (set_w xr sr) xr er Hxr) by (destruct sr; exact Her).
    unfold push, rpush, modify, rsp, rdepth, depth in *.
    destruct_vm sr.
    destruct (Z.ltb_spec (Z.of_nat (length dstack0)) DSTACK_SIZE); [|lia].
    vm_fields.
    destruct (Z.ltb_spec (Z.of_nat (length rstack0)) RSTACK_SIZE); [|lia].
    vm_fields. cbn [length].
    replace (RSTACK_SIZE - Z.of_nat (S (length rstack0)))
      with (RSTACK_SIZE - Z.of_nat (length rstack0) - 1) by lia.
    reflexivity.
Qed.

Lemma C6_create_and_does_witness :
  (exists s', exec p_create c6_odd_state = Some s'
              /\ here c6_odd_state = 65 /\ here s' = 72
              /\ dict s' = dict c6_odd_state ++ [mkEntry 165 3 "buf" Dovar 72 (-1)]
              /\ vm_find "buf" s' = Some (166, s'))
  /\ exec (vm_execute 1 166) c6_var_state
     = Some (set_dstack [64] (set_w 166 c6_var_state))
  /\ (exists sd', exec p_does_runtime c6_does_state = Some sd'
                  /\ ip sd' = 0 /\ rstack sd' = [])
  /\ exec (vm_execute 9 167) c6_life_state
     = exec (run_loop (vm_execute 8) 8 255)
            (set_ip 88 (set_rstack [ip c6_life_state]
                          (set_dstack [104] (set_w 167 c6_life_state)))).
Proof.
  destruct (C6_create_and_does
              c6_odd_state (set_tib_pos 10%nat c6_odd_state) "buf"
              c6_var_state 166 (mkEntry 165 3 "buf" Dovar 64 (-1))
              c6_does_state (mkEntry 166 4 "life" Dovar 104 (-1)) 0 []
              c6_life_state 167 (mkEntry 166 4 "life" Dodoes 104 88) 8%nat)
    as ((s' & E1 & D1 & _ & _ & _ & _ & H1 & F1 & _) & E2
        & (sd' & E3 & _ & I3 & R3 & _) & E4).
  - vm_compute. reflexivity.
  - discriminate.
  - vm_compute. reflexivity.
  - lia.
  - vm_compute. reflexivity.
  - reflexivity.
  - vm_compute. reflexivity.
  - vm_compute. discriminate.
  - vm_compute. reflexivity.
  - reflexivity.
  - lia.
  - vm_compute. reflexivity.
  - reflexivity.
  - vm_compute. reflexivity.
  - vm_compute. reflexivity.
  - split; [|split; [|split]].
    + exists s'. split; [exact E1|]. split; [reflexivity|]. split; [exact H1|].
      split; [exact D1|exact F1].
    + exact E2.
    + exists sd'. split; [exact E3|]. split; [exact I3|exact R3].
    + exact E4.
Defined.

End DefiningFacts.

(** ** Number syntax and the dictionary chain *)

Module OuterFacts.
Import Cell Mem VM Prims Interp Spec CellFacts MemFacts MonadFacts DictFacts InnerFacts.
Local Open Scope vm_scope.

(** *** Number syntax *)

Lemma vm_try_number_lists v s : vm_try_number v s = try_number_lists (base v) s.
Proof.
  unfold vm_try_number, try_number_lists, split_sign, split_prefix, char_at.
  destruct s as [|c0 [|c1 [|c2 [|c3 s]]]]; cbn -[Ascii.eqb accumulate neg];
    repeat (match goal with
            | |- context [Ascii.eqb ?c ?k] => destruct (Ascii.eqb c k)
            end; cbn -[Ascii.eqb accumulate neg]);
    reflexivity.
Qed.

Lemma split_sign_spec s negative r :
  split_sign s = (negative, r) ->
  exists sign,
    s = sign ++ r
    /\ ((negative = true /\ sign = ["-"%char])
        \/ (negative = false /\ (sign = [] \/ sign = ["+"%char]))).
Proof.
  unfold split_sign. destruct s as [|c [|c1 s]].
  - intros H; inversion H; subst. exists []. auto.
  - intros H; inversion H; subst. exists []. auto.
  - destruct (Ascii.eqb_spec c "-"); [|destruct (Ascii.eqb_spec c "+")];
      intros H; inversion H; subst.
    + exists ["-"%char]. auto.
    + exists ["+"%char]. auto.
    + exists []. auto.
Qed.

Lemma split_prefix_spec vbase r b d :
  split_prefix vbase r = (b, d) ->
  exists pfx, r = pfx ++ d /\ prefix_base vbase pfx b.
Proof.
  unfold split_prefix, prefix_base. destruct r as [|c r].
  { intros H; inversion H; subst. exists []. auto. }
  destruct (Ascii.eqb_spec c "$").
  { intros H; inversion H; subst. exists ["$"%char]. split; [reflexivity|tauto]. }
  destruct (Ascii.eqb_spec c "#").
  { intros H; inversion H; subst. exists ["#"%char]. split; [reflexivity|tauto]. }
  destruct (Ascii.eqb_spec c "%").
  { intros H; inversion H; subst. exists ["%"%char]. split; [reflexivity|tauto]. }
  destruct r as [|x [|y r]].
  { intros H; inversion H; subst. exists []. auto. }
  { intros H; inversion H; subst. exists []. auto. }
  destruct (Ascii.eqb_spec c "0"); cbn [andb].
  - destruct (Ascii.eqb_spec x "x"); cbn [orb].
    + intros H; inversion H; subst. exists ["0"%char; "x"%char].
      split; [reflexivity|tauto].
    + destruct (Ascii.eqb_spec x "X").
      * intros H; inversion H; subst. exists ["0"%char; "X"%char].
        split; [reflexivity|tauto].
      * intros H; inversion H; subst. exists []. auto.
  - intros H; inversion H; subst. exists []. auto.
Qed.

(** Every value [vm_try_number] returns is the value of a number in the
    syntax of the specification. *)
Lemma try_number_lists_sound vbase s v :
  try_number_lists vbase s = Some v -> number_syntax vbase s v.
Proof.
  unfold try_number_lists.
  destruct s as [|c s]; [discriminate|].
  destruct (split_sign (c :: s)) as [negative r] eqn:Es.
  destruct (split_prefix vbase r) as [b d] eqn:Ep.
  destruct d as [|d0 d]; [discriminate|].
  destruct (accumulate b (d0 :: d) 0) as [val|] eqn:Ea; [|discriminate].
  intros H; inversion H; subst.
  destruct (split_sign_spec _ _ _ Es) as (sign & -> & Hs).
  destruct (split_prefix_spec _ _ _ _ Ep) as (pfx & -> & Hp).
  apply number_intro with (b := b); auto; discriminate.
Qed.


Lemma eqb_false c k : c <> k -> Ascii.eqb c k = false.
Proof. intros H. destruct (Ascii.eqb_spec c k); congruence. Qed.

Lemma digit_not_special c d :
  digit_of c = Some d ->
  c <> "-"%char /\ c <> "+"%char /\ c <> "$"%char /\ c <> "#"%char /\ c <> "%"%char.
Proof.
  intros H. repeat split; intros ->; vm_compute in H; discriminate.
Qed.

Lemma accumulate_first b c ds acc v :
  accumulate b (c :: ds) acc = Some v -> exists d, digit_of c = Some d /\ d < b.
Proof.
  cbn [accumulate]. destruct (digit_of c) as [d|]; [|discriminate].
  destruct (Z.leb_spec b d); [discriminate|]. eauto.
Qed.

Lemma split_sign_signed c r :
  r <> [] -> c = "-"%char \/ c = "+"%char ->
  split_sign (c :: r) = (Ascii.eqb c "-", r).
Proof.
  intros Hr Hc. destruct r as [|x r]; [contradiction|].
  destruct Hc as [-> | ->]; reflexivity.
Qed.

Lemma split_sign_unsigned c r :
  c <> "-"%char -> c <> "+"%char -> split_sign (c :: r) = (false, c :: r).
Proof.
  intros H1 H2. unfold split_sign. destruct r; [reflexivity|].
  rewrite (eqb_false _ _ H1), (eqb_false _ _ H2). reflexivity.
Qed.

Lemma split_prefix_0x vbase x d :
  d <> [] -> x = "x"%char \/ x = "X"%char ->
  split_prefix vbase ("0"%char :: x :: d) = (16, d).
Proof.
  intros Hd Hx. destruct d as [|y d]; [contradiction|].
  destruct Hx as [-> | ->]; reflexivity.
Qed.

Lemma split_prefix_digits vbase c ds v :
  vbase <= 33 ->
  accumulate vbase (c :: ds) 0 = Some v ->
  split_prefix vbase (c :: ds) = (vbase, c :: ds).
Proof.
  intros Hb Ha.
  destruct (accumulate_first _ _ _ _ _ Ha) as (d & Hd & _).
  destruct (digit_not_special _ _ Hd) as (_ & _ & N1 & N2 & N3).
  unfold split_prefix.
  rewrite (eqb_false _ _ N1), (eqb_false _ _ N2), (eqb_false _ _ N3).
  destruct ds as [|x [|y ds]]; try reflexivity.
  destruct (Ascii.eqb_spec c "0") as [->|]; [|reflexivity]. cbn [andb].
  assert (Hx : forall k, x = k -> digit_of k = Some 33 -> False).
  { intros k -> Hk. revert Ha. cbn [accumulate].
    change (digit_of "0") with (Some 0). cbv iota beta.
    destruct (vbase <=? 0); [discriminate|].
    rewrite Hk.
    destruct (Z.leb_spec vbase 33); [discriminate|lia]. }
  destruct (Ascii.eqb_spec x "x") as [E|_]; [exfalso; apply (Hx _ E); reflexivity|].
  destruct (Ascii.eqb_spec x "X") as [E|_]; [exfalso; apply (Hx _ E); reflexivity|].
  reflexivity.
Qed.

(** With a base of at most 33 (the engine only ever has 10 or 16) every
    number of the specification's syntax is parsed, to that value. *)
Lemma try_number_lists_complete vbase s v :
  vbase <= 33 -> number_syntax vbase s v -> try_number_lists vbase s = Some v.
Proof.
  intros Hb H.
  destruct H as [negative sign pfx digits b v Hs Hp Hd Ha].
  destruct digits as [|c ds]; [contradiction|].
  destruct (accumulate_first _ _ _ _ _ Ha) as (d0 & Hd0 & _).
  destruct (digit_not_special _ _ Hd0) as (M1 & M2 & _).
  assert (Hpre : split_prefix vbase (pfx ++ c :: ds) = (b, c :: ds)
                 /\ exists p r, pfx ++ c :: ds = p :: r
                                /\ p <> "-"%char /\ p <> "+"%char).
  { destruct Hp as [[-> ->]|[[-> ->]|[[-> ->]|[[-> ->]|[[-> ->]|[-> ->]]]]]];
      cbn [app].
    - split; [eapply split_prefix_digits; eauto|]. exists c, ds. auto.
    - split; [reflexivity|]. eexists _, _. split; [reflexivity|]. split; discriminate.
    - split; [reflexivity|]. eexists _, _. split; [reflexivity|]. split; discriminate.
    - split; [reflexivity|]. eexists _, _. split; [reflexivity|]. split; discriminate.
    - split; [apply split_prefix_0x; [discriminate|auto]|].
      eexists _, _. split; [reflexivity|]. split; discriminate.
    - split; [apply split_prefix_0x; [discriminate|auto]|].
      eexists _, _. split; [reflexivity|]. split; discriminate. }
  destruct Hpre as (Hpx & p & r & Hr & P1 & P2).
  unfold try_number_lists.
  destruct Hs as [[-> ->]|[-> [-> | ->]]]; cbn [app].
  - rewrite split_sign_signed by (auto; rewrite Hr; discriminate).
    cbn [Ascii.eqb Bool.eqb]. rewrite Hpx, Ha. reflexivity.
  - rewrite Hr. rewrite (split_sign_unsigned p r P1 P2). rewrite <- Hr.
    rewrite Hpx, Ha. reflexivity.
  - rewrite split_sign_signed by (auto; rewrite Hr; discriminate).
    cbn [Ascii.eqb Bool.eqb]. rewrite Hpx, Ha. reflexivity.
Qed.


Lemma try_number_sound t s v :
  vm_try_number t s = Some v -> number_syntax (base t) s v.
Proof. rewrite vm_try_number_lists. apply try_number_lists_sound. Qed.

Lemma try_number_complete t s v :
  base t <= 33 -> number_syntax (base t) s v -> vm_try_number t s = Some v.
Proof. rewrite vm_try_number_lists. apply try_number_lists_complete. Qed.

(** *** Dictionary lookup *)

Lemma vm_find_from_wf fuel d nm i :
  (forall k e, d !! k = Some e -> -1 <= link e < Z.of_nat k) ->
  -1 <= i < Z.of_nat (length d) ->
  (Z.to_nat (i + 1) <= fuel)%nat ->
  exists j,
    vm_find_from fuel d nm i = Some j
    /\ skipped d nm i j
    /\ (j = -1 \/ (0 <= j /\ exists e, d !! Z.to_nat j = Some e
                                       /\ entry_matches e nm = true)).
Proof.
  intros Hwf. revert i; induction fuel as [|fuel IH]; intros i Hi Hf;
    cbn [vm_find_from]; destruct (Z.ltb_spec i 0).
  - assert (i = -1) as -> by lia. exists (-1). split; [reflexivity|].
    split; [constructor|auto].
  - lia.
  - assert (i = -1) as -> by lia. exists (-1). split; [reflexivity|].
    split; [constructor|auto].
  - destruct (lookup_lt_is_Some_2 d (Z.to_nat i) ltac:(lia)) as [e E].
    rewrite E. destruct (entry_matches e nm) eqn:Em.
    + exists i. split; [reflexivity|]. split; [constructor|]. right. eauto.
    + pose proof (Hwf _ _ E) as Hl.
      destruct (IH (link e) ltac:(lia) ltac:(lia)) as (j & F & S1 & S2).
      exists j. split; [exact F|]. split; [|exact S2].
      eapply skipped_next; eauto.
Qed.

Lemma string_length_lower a : String.length (lower a) = String.length a.
Proof. induction a; simpl; auto. Qed.

Lemma strncasecmp_lower a b :
  String.length a = String.length b ->
  strncasecmp_eq a b (String.length b) = true ->
  lower a = lower b.
Proof.
  revert b; induction a as [|x a IH]; intros [|y b] Hl; try discriminate; cbn.
  - reflexivity.
  - intros H. apply andb_true_iff in H. destruct H as [H1 H2].
    apply Ascii.eqb_eq in H1. rewrite H1. f_equal. apply IH; [|exact H2].
    simpl in Hl. lia.
Qed.

Lemma entry_matches_inv e nm :
  entry_len e = strlen (name e) ->
  entry_matches e nm = true ->
  is_hidden e = false /\ lower (name e) = lower nm.
Proof.
  unfold entry_matches. intros Hl H.
  apply andb_true_iff in H. destruct H as [H H3].
  apply andb_true_iff in H. destruct H as [H1 H2].
  apply negb_true_iff in H1. split; [exact H1|].
  apply Z.eqb_eq in H2. rewrite Hl in H2. unfold strlen in H2.
  apply strncasecmp_lower; [lia|exact H3].
Qed.

Lemma check_entries_sound k l :
  check_entries k l = true ->
  forall i e, l !! i = Some e ->
              -1 <= link e < Z.of_nat (k + i) /\ entry_len e = strlen (name e).
Proof.
  revert k; induction l as [|x l IH]; intros k H i e L; [discriminate|].
  cbn [check_entries] in H.
  apply andb_true_iff in H. destruct H as [H H4].
  apply andb_true_iff in H. destruct H as [H H3].
  apply andb_true_iff in H. destruct H as [H1 H2].
  destruct i as [|i]; cbn in L.
  - inversion L; subst. apply Z.leb_le in H1. apply Z.ltb_lt in H2.
    apply Z.eqb_eq in H3. split; [lia|exact H3].
  - destruct (IH (S k) H4 i e L) as [A B]. split; [lia|exact B].
Qed.

Lemma dict_wf_check s :
  (-1 <=? latest s) && (latest s <? Z.of_nat (length (dict s)))
  && check_entries 0 (dict s) = true ->
  dict_wf s.
Proof.
  intros H. apply andb_true_iff in H. destruct H as [H H3].
  apply andb_true_iff in H. destruct H as [H1 H2].
  apply Z.leb_le in H1. apply Z.ltb_lt in H2.
  split; [lia|]. intros i e L. exact (check_entries_sound 0 _ H3 i e L).
Qed.

End OuterFacts.

(** ** The C code generator *)

Module CodegenFacts.
Import Cell Mem VM Prims Interp Spec Codegen.
Local Open Scope string_scope.

(** C9 (the generator at work). For [: t if 1 then ;] the inline target
    of [(0branch)] is the absolute offset 96, the token translates to a
    [goto] whose label number is that target plus the offset of the cell
    after it (80 + 96), and nothing the generator emits defines a
    label. *)
Example C9_codegen_goto_without_label :
  load_cell (mem c9_state) 64 = xt_0branch c9_state
  /\ load_cell (mem c9_state) 72 = 96
  /\ codegen_word 16 c9_state 166
     = Some ("static void word_t(void) {" ++ newline
             ++ "    if (POP() == 0) goto L176;" ++ newline
             ++ "    PUSH(1);" ++ newline
             ++ "}" ++ newline ++ newline).
Proof. vm_compute. repeat split. Qed.

End CodegenFacts.

(** * Further properties of the engine *)

(** ** Shared lemmas *)

Module MoreFacts.
Import Cell Mem VM Prims Interp Spec CellFacts MemFacts MonadFacts.
Local Open Scope vm_scope.

Lemma in_bounds_spec a n : in_bounds a n = true <-> 0 <= a /\ a + n <= MEM_SIZE.
Proof.
  unfold in_bounds. rewrite andb_true_iff, Z.leb_le, Z.leb_le. tauto.
Qed.

Lemma add_small a b : is_cell (a + b) -> add a b = a + b.
Proof. apply wrap_id. Qed.

Lemma mem_cell a : 0 <= a <= MEM_SIZE -> is_cell a.
Proof. unfold is_cell, half, MEM_SIZE. lia. Qed.

Lemma wrap_step x b d : add (mul (wrap x) b) d = wrap (b * x + d).
Proof.
  unfold add, mul. apply wrap_eq_mod.
  rewrite Zplus_mod, wrap_mod, Zmult_mod, wrap_mod, <- Zmult_mod, <- Zplus_mod.
  f_equal. lia.
Qed.

Lemma neg_wrap x : neg (wrap x) = wrap (- x).
Proof.
  unfold neg. apply wrap_eq_mod.
  rewrite <- (Z.sub_0_l (wrap x)), <- (Z.sub_0_l x).
  rewrite Zminus_mod, wrap_mod, <- Zminus_mod. reflexivity.
Qed.

Lemma ucell_small d : 0 <= d < modulus -> ucell (wrap d) = d.
Proof.
  intros H. unfold ucell. rewrite wrap_mod. apply Z.mod_small. exact H.
Qed.

Lemma nth_le_bytes n v k :
  (k < n)%nat -> nth k (le_bytes n v) 0 = (v / 256 ^ Z.of_nat k) mod 256.
Proof.
  revert v k; induction n as [|n IH]; intros v k Hk; [lia|].
  destruct k as [|k]; cbn [le_bytes nth].
  - change (256 ^ Z.of_nat 0) with 1. rewrite Z.div_1_r. reflexivity.
  - rewrite IH by lia. rewrite Nat2Z.inj_succ, Z.pow_succ_r by lia.
    rewrite Z.div_div by lia. reflexivity.
Qed.

Lemma nth_read_bytes m a n k :
  (k < n)%nat -> nth k (read_bytes m a n) 0 = m (a + Z.of_nat k).
Proof.
  revert a k; induction n as [|n IH]; intros a k Hk; [lia|].
  destruct k as [|k]; cbn [read_bytes nth].
  - f_equal. lia.
  - rewrite IH by lia. f_equal. lia.
Qed.

Lemma read_bytes_length m a n : length (read_bytes m a n) = n.
Proof. revert a; induction n; intros; simpl; auto. Qed.

Lemma write_bytes_in m a bs x :
  a <= x < a + Z.of_nat (length bs) ->
  write_bytes m a bs x = nth (Z.to_nat (x - a)) bs 0.
Proof.
  intros H. unfold write_bytes.
  destruct (Z.leb_spec a x), (Z.ltb_spec x (a + Z.of_nat (length bs))); try lia. reflexivity.
Qed.

Lemma write_bytes_out m a bs x :
  x < a \/ a + Z.of_nat (length bs) <= x ->
  write_bytes m a bs x = m x.
Proof.
  intros H. unfold write_bytes.
  destruct (Z.leb_spec a x), (Z.ltb_spec x (a + Z.of_nat (length bs))); try lia; reflexivity.
Qed.

Lemma load_write_other m a bs b :
  b + 8 <= a \/ a + Z.of_nat (length bs) <= b ->
  load_cell (write_bytes m a bs) b = load_cell m b.
Proof.
  intros H. unfold load_cell. rewrite read_write_other; [reflexivity|]. lia.
Qed.

Lemma char_byte_char c : char_of_byte (byte_of_char c) = c.
Proof.
  unfold char_of_byte, byte_of_char.
  pose proof (nat_ascii_bounded c) as B.
  rewrite Z.mod_small by lia. rewrite Nat2Z.id. apply ascii_nat_embedding.
Qed.

Lemma chars_bytes_chars l : chars_of (bytes_of l) = l.
Proof.
  unfold chars_of, bytes_of. induction l as [|c l IH]; cbn [map]; [reflexivity|].
  rewrite char_byte_char. f_equal. exact IH.
Qed.

Lemma bytes_of_length l : length (bytes_of l) = length l.
Proof. unfold bytes_of. apply length_map. Qed.

Lemma list_of_string_of_list l : list_ascii_of_string (string_of_list_ascii l) = l.
Proof. induction l; simpl; congruence. Qed.

Lemma string_of_list_empty l : string_of_list_ascii l = EmptyString <-> l = [].
Proof. destruct l; simpl; split; intros H; congruence. Qed.

(** Sequencing after a step whose result is known. *)
Lemma bind_gets {A B} (f : vm -> A) (k : A -> M B) s : bind (gets f) k s = k (f s) s.
Proof. reflexivity. Qed.

Lemma bind_modify {B} (f : vm -> vm) (k : unit -> M B) s : bind (modify f) k s = k tt (f s).
Proof. reflexivity. Qed.

Lemma bind_eq {A B} (m : M A) (k : A -> M B) s a s' :
  m s = Some (a, s') -> bind m k s = k a s'.
Proof. intros E. unfold bind. rewrite E. reflexivity. Qed.

(** [vm_execute] on an entry that is neither a colon definition nor a
    DOES> child calls its handler and returns. *)
Lemma vm_execute_plain fuel xt s e :
  0 <= xt -> dict s !! Z.to_nat xt = Some e -> is_threaded (code e) = false ->
  vm_execute (S fuel) xt s = call (vm_execute fuel) (code e) (set_w xt s).
Proof.
  intros H0 L T. cbn [vm_execute re_execute]. unfold bind, modify, dict_at.
  destruct (Z.ltb_spec xt 0); [lia|].
  replace (dict (set_w xt s)) with (dict s) by (destruct s; reflexivity).
  rewrite L, T. reflexivity.
Qed.

(** Run a straight-line primitive on a state whose stacks are known up
    to their length. *)
Ltac prim_run :=
  unfold exec, bind, pop, push, tos, sp_at, rpush, rpop, rtos, rsp_at, ret, depth, rdepth,
    set_tos, gets, modify in *;
  repeat (vm_fields;
          change (Z.to_nat 0) with 0%nat in *; change (Z.to_nat 1) with 1%nat in *;
          change (Z.to_nat 2) with 2%nat in *; change (Z.to_nat 3) with 3%nat in *;
          cbn [nth_error Z.to_nat Pos.to_nat Pos.iter_op Nat.add Z.ltb Z.compare length] in *;
          match goal with
          | |- context [match ?l with [] => _ | _ :: _ => _ end] => is_var l; destruct l
          | |- context [Z.of_nat ?n <? ?k] => destruct (Z.ltb_spec (Z.of_nat n) k)
          end);
  vm_fields; cbn [length] in *;
  try reflexivity; unfold DSTACK_SIZE, RSTACK_SIZE in *; try lia.

End MoreFacts.

(** ** Stack words ([prims.c]) *)

Module StackFacts.
Import Cell Mem VM Prims Interp Spec Notions CellFacts MemFacts MonadFacts MoreFacts.
Local Open Scope vm_scope.

(** X1. On a data stack within its 256 cells, the derived stack words
    behave as their definitions by simpler words, also where they fail:
    [nip] as [swap drop], [tuck] as [swap over], [-rot] as [rot rot],
    [dup] as [0 pick] and [over] as [1 pick]. *)
Theorem stack_words_compose :
  forall s, depth s <= DSTACK_SIZE ->
    exec p_nip s = exec (p_swap ;; p_drop) s
    /\ exec p_tuck s = exec (p_swap ;; p_over) s
    /\ exec p_mrot s = exec (p_rot ;; p_rot) s
    /\ exec p_dup s = exec (push 0 ;; p_pick) s
    /\ exec p_over s = exec (push 1 ;; p_pick) s.
Proof.
  intros s H. destruct_vm s.
  unfold p_nip, p_swap, p_drop, p_tuck, p_over, p_mrot, p_rot, p_dup, p_pick.
  repeat split.
  all: prim_run.
Qed.

Lemma stack_words_compose_witness :
  exec p_mrot x_stack_state = exec (p_rot ;; p_rot) x_stack_state.
Proof.
  destruct (stack_words_compose x_stack_state) as (_ & _ & H & _).
  - vm_compute. discriminate.
  - exact H.
Defined.

(** X2. With two free cells on the return stack, moving the top of the
    data stack to the return stack and back ([>r r>], [2>r 2r>]) restores
    the state; [2>r] keeps the order of the pair, so the former top of
    the data stack is the top of the return stack; and [2swap] is
    [rot >r rot r>]. *)
Theorem return_stack_round_trip :
  forall s a b ds,
    dstack s = b :: a :: ds -> rdepth s + 2 <= RSTACK_SIZE ->
    depth s <= DSTACK_SIZE ->
    exec (p_to_r ;; p_r_from) s = Some s
    /\ exec (p_2to_r ;; p_2r_from) s = Some s
    /\ exec p_2swap s = exec (p_rot ;; p_to_r ;; p_rot ;; p_r_from) s
    /\ (exists s1, exec p_2to_r s = Some s1 /\ rstack s1 = b :: a :: rstack s
                   /\ dstack s1 = ds).
Proof.
  intros s a b ds Hd Hr Hdp. destruct_vm s. subst.
  unfold p_to_r, p_r_from, p_2to_r, p_2r_from, p_2swap, p_rot.
  repeat split.
  all: try (eexists; split; [|split]).
  all: prim_run.
Qed.

Lemma return_stack_round_trip_witness :
  exec (p_2to_r ;; p_2r_from) x_stack_state = Some x_stack_state.
Proof.
  destruct (return_stack_round_trip x_stack_state 2 3 [1]) as (_ & H & _).
  - reflexivity.
  - vm_compute. discriminate.
  - vm_compute. discriminate.
  - exact H.
Defined.

End StackFacts.

(** ** Arithmetic ([prims.c]) *)

Module ArithFacts.
Import Cell Mem VM Prims Interp Spec Notions CellFacts MemFacts MonadFacts MoreFacts.
Local Open Scope vm_scope.

Lemma quot_is_cell a b :
  is_cell a -> b <> 0 -> ~ (a = - half /\ b = -1) -> is_cell (Z.quot a b).
Proof.
  unfold is_cell, half. intros Ha Hb Hx.
  assert (A : Z.abs (Z.quot a b) <= Z.abs a).
  { rewrite <- Z.quot_abs by lia.
    destruct (Z.eq_dec (Z.abs a) 0) as [E|E]; [rewrite E; rewrite Z.quot_0_l; lia|].
    apply Z.quot_le_upper_bound; [lia|]. nia. }
  destruct (Z.eq_dec (Z.quot a b) (2 ^ 63)) as [E|E]; [|lia].
  exfalso. assert (a = - 2 ^ 63) by lia. subst a.
  pose proof (Z.quot_rem' (- 2 ^ 63) b) as Q.
  pose proof (Z.rem_bound_abs (- 2 ^ 63) b Hb) as R.
  rewrite E in Q.
  assert (b = -1) by nia. auto.
Qed.

(** X3. For a divisor other than zero, and except the one quotient that
    does not fit a cell (the least cell divided by -1), [/mod] leaves the
    quotient on top of the remainder, [/] leaves that quotient and [mod]
    that remainder; the division truncates toward zero: dividend =
    divisor * quotient + remainder, the remainder is smaller in magnitude
    than the divisor and has the sign of the dividend. *)
Theorem divmod_law :
  forall s a b ds,
    dstack s = b :: a :: ds -> depth s <= DSTACK_SIZE ->
    is_cell a -> is_cell b -> b <> 0 -> ~ (a = - half /\ b = -1) ->
    exists q r,
      exec p_divmod s = Some (set_dstack (q :: r :: ds) s)
      /\ exec p_div s = Some (set_dstack (q :: ds) s)
      /\ exec p_mod s = Some (set_dstack (r :: ds) s)
      /\ a = b * q + r /\ Z.abs r < Z.abs b /\ 0 <= r * a
      /\ is_cell q /\ is_cell r.
Proof.
  intros s a b ds Hd Hdp Ha Hcb Hb Hx. exists (Z.quot a b), (Z.rem a b).
  assert (G : (b =? 0) || ((a =? - half) && (b =? -1)) = false).
  { destruct (Z.eqb_spec b 0); [contradiction|]. cbn [orb].
    destruct (Z.eqb_spec a (- half)), (Z.eqb_spec b (-1)); cbn; auto. exfalso; auto. }
  pose proof (Z.rem_bound_abs a b Hb) as R.
  pose proof (Z.rem_sign_mul a b Hb) as Sg.
  assert (Cd : c_div a b = Some (Z.quot a b)) by (unfold c_div; rewrite G; reflexivity).
  assert (Cr : c_rem a b = Some (Z.rem a b)) by (unfold c_rem; rewrite G; reflexivity).
  assert (Nz : negb (b =? 0) = true) by (destruct (Z.eqb_spec b 0); [contradiction|reflexivity]).
  destruct_vm s. subst.
  unfold p_divmod, p_div, p_mod.
  repeat split.
  1-3: unfold exec, bind, pop, tos, set_tos; vm_fields; rewrite Nz; unfold lift; prim_run;
    rewrite ?Cd, ?Cr; prim_run; rewrite ?Cd, ?Cr; prim_run.
  - apply Z.quot_rem'.
  - exact R.
  - exact Sg.
  - apply quot_is_cell; assumption.
  - apply quot_is_cell; assumption.
  - unfold is_cell, half in *. lia.
  - unfold is_cell, half in *. lia.
Qed.

Lemma divmod_law_witness :
  exists q r, exec p_divmod x_div_state = Some (set_dstack [q; r] x_div_state)
              /\ -7 = 3 * q + r.
Proof.
  destruct (divmod_law x_div_state (-7) 3 []) as (q & r & H & _ & _ & E & _).
  - reflexivity.
  - vm_compute. discriminate.
  - unfold is_cell, half. lia.
  - unfold is_cell, half. lia.
  - discriminate.
  - intros [H _]. vm_compute in H. discriminate.
  - exists q, r. split; [exact H|exact E].
Defined.

Lemma sub_as_add a b : sub a b = add a (neg b).
Proof.
  unfold sub, add, neg. apply wrap_eq_mod.
  rewrite (Zplus_mod a (wrap (- b))), wrap_mod, <- Zplus_mod. f_equal.
Qed.

Lemma neg_as_invert a : neg a = add (Z.lnot a) 1.
Proof. unfold neg, add, Z.lnot. f_equal. unfold Z.pred. lia. Qed.

Lemma flag_invert b : Z.lnot (flag b) = flag (negb b).
Proof. destruct b; reflexivity. Qed.

(** X4. In two's-complement cell arithmetic [-] is [negate +], [negate]
    is [invert 1+], [<>] is [= invert] and [>] is [swap <], also where
    the words fail. *)
Theorem arithmetic_words_compose :
  forall s, depth s <= DSTACK_SIZE ->
    exec p_sub s = exec (p_negate ;; p_add) s
    /\ exec p_negate s = exec (p_invert ;; p_1add) s
    /\ exec p_neq s = exec (p_eq ;; p_invert) s
    /\ exec p_gt s = exec (p_swap ;; p_lt) s.
Proof.
  intros s H. destruct_vm s.
  unfold p_sub, p_negate, p_add, p_invert, p_1add, p_neq, p_eq, p_gt, p_swap, p_lt.
  repeat split; prim_run.
  - rewrite sub_as_add. reflexivity.
  - rewrite neg_as_invert. reflexivity.
  - rewrite flag_invert. reflexivity.
Qed.

Lemma arithmetic_words_compose_witness :
  exec p_sub x_div_state = exec (p_negate ;; p_add) x_div_state.
Proof.
  destruct (arithmetic_words_compose x_div_state) as (H & _).
  - vm_compute. discriminate.
  - exact H.
Defined.

(** X5. With a shift count from 0 to 63, [lshift] multiplies by the
    power of two in cell arithmetic, and [rshift] is the logical shift
    of the cell read as an unsigned number: for a count above zero its
    result is never negative, and for a non-negative cell it is the
    quotient by the power of two. *)
Theorem shift_words :
  forall s n a ds,
    dstack s = n :: a :: ds -> 0 <= n < 64 -> is_cell a ->
    exec p_lshift s = Some (set_dstack (mul a (2 ^ n) :: ds) s)
    /\ exists r,
         exec p_rshift s = Some (set_dstack (r :: ds) s)
         /\ r = wrap (ucell a / 2 ^ n)
         /\ (0 < n -> 0 <= r < 2 ^ (64 - n))
         /\ (0 <= a -> r = a / 2 ^ n).
Proof.
  intros s n a ds Hd Hn Ha.
  assert (U : 0 <= ucell a < modulus) by (apply Z.mod_pos_bound; unfold modulus; lia).
  assert (P : 0 < 2 ^ n) by (apply Z.pow_pos_nonneg; lia).
  assert (C : (0 <=? n) && (n <? 64) = true).
  { apply andb_true_iff. split; [apply Z.leb_le|apply Z.ltb_lt]; lia. }
  split.
  - assert (E : wrap (Z.shiftl (ucell a) n) = mul a (2 ^ n)).
    { rewrite Z.shiftl_mul_pow2 by lia. unfold mul. apply wrap_eq_mod.
      unfold ucell. rewrite Zmult_mod, Z.mod_mod, <- Zmult_mod by (unfold modulus; lia).
      reflexivity. }
    destruct_vm s. subst. unfold p_lshift, exec, bind, pop, set_tos. vm_fields.
    rewrite C. vm_fields. rewrite E. reflexivity.
  - exists (wrap (ucell a / 2 ^ n)). split; [|split; [reflexivity|split]].
    + destruct_vm s. subst. unfold p_rshift, exec, bind, pop, set_tos. vm_fields.
      rewrite C. vm_fields. rewrite Z.shiftr_div_pow2 by lia. reflexivity.
    + intros Hp.
      assert (Q : 0 <= ucell a / 2 ^ n < 2 ^ (64 - n)).
      { split; [apply Z.div_pos; lia|]. apply Z.div_lt_upper_bound; [lia|].
        rewrite <- Z.pow_add_r by lia. replace (n + (64 - n)) with 64 by lia.
        unfold modulus in U. lia. }
      assert (2 ^ (64 - n) <= 2 ^ 63) by (apply Z.pow_le_mono_r; lia).
      rewrite wrap_id by (unfold is_cell, half; lia). exact Q.
    + intros H0. unfold is_cell, half in Ha.
      assert (ucell a = a) by (unfold ucell, modulus; apply Z.mod_small; lia).
      rewrite H. apply wrap_id. unfold is_cell, half.
      assert (0 <= a / 2 ^ n <= a); [|lia].
      split; [apply Z.div_pos; lia|]. apply Z.div_le_upper_bound; [lia|]. nia.
Qed.

Lemma shift_words_witness :
  exec p_lshift x_shift_state = Some (set_dstack [mul 5 (2 ^ 3)] x_shift_state).
Proof.
  destruct (shift_words x_shift_state 3 5 []) as (H & _).
  - reflexivity.
  - lia.
  - unfold is_cell, half. lia.
  - exact H.
Defined.

End ArithFacts.

(** ** The arena through the memory words ([prims.c]) *)

Module ArenaFacts.
Import Cell Mem VM Prims Interp Spec Notions CellFacts MemFacts MonadFacts MoreFacts.
Local Open Scope vm_scope.

(** X6. A cell stored with [!] inside the arena is the cell [@] fetches
    from the same offset; cells that do not overlap it are untouched; and
    the eight bytes [c@] reads there are the cell's bytes, least
    significant first. *)
Theorem store_then_fetch :
  forall s addr v ds,
    dstack s = addr :: v :: ds ->
    in_bounds addr CELL = true -> is_cell v ->
    exists s1,
      exec p_store s = Some s1
      /\ dstack s1 = ds
      /\ exec p_fetch (set_dstack (addr :: ds) s1) = Some (set_dstack (v :: ds) s1)
      /\ (forall b, in_bounds b CELL = true -> b + CELL <= addr \/ addr + CELL <= b ->
            exec p_fetch (set_dstack (b :: ds) s1)
            = Some (set_dstack (load_cell (mem s) b :: ds) s1))
      /\ (forall k, 0 <= k < CELL ->
            exec p_cfetch (set_dstack (addr + k :: ds) s1)
            = Some (set_dstack ((v / 256 ^ k) mod 256 :: ds) s1)).
Proof.
  intros s addr v ds Hd Hb Hv. destruct_vm s. subst.
  unfold p_store, p_fetch, p_cfetch, exec, bind, pop, tos, set_tos, mem_store, mem_fetch,
    mem_c_fetch. vm_fields. rewrite Hb. vm_fields.
  eexists. split; [reflexivity|]. vm_fields.
  split; [reflexivity|]. split; [|split].
  - vm_fields. rewrite load_store_same by assumption. reflexivity.
  - intros b Hbb Hdis. vm_fields. rewrite Hbb. vm_fields.
    rewrite load_store_other by (unfold CELL in *; lia). reflexivity.
  - intros k Hk. apply in_bounds_spec in Hb. unfold CELL in *.
    assert (Hk' : in_bounds (addr + k) 1 = true) by (apply in_bounds_spec; lia).
    vm_fields. rewrite Hk'. vm_fields. unfold load_byte, store_cell.
    rewrite write_bytes_in by (rewrite le_bytes_length; lia).
    replace (addr + k - addr) with k by lia.
    rewrite nth_le_bytes by lia. rewrite Z2Nat.id by lia. reflexivity.
Qed.

Lemma store_then_fetch_witness :
  exists s1, exec p_store x_store_state = Some s1
             /\ exec p_fetch (set_dstack [64] s1) = Some (set_dstack [42] s1).
Proof.
  destruct (store_then_fetch x_store_state 64 42 []) as (s1 & H1 & _ & H2 & _).
  - reflexivity.
  - reflexivity.
  - unfold is_cell, half. lia.
  - exists s1. split; [exact H1|exact H2].
Defined.

(** X7. [c!] stores the low eight bits of the cell, which is what [c@]
    reads back, and changes no other byte of the arena. *)
Theorem cstore_then_cfetch :
  forall s addr v ds,
    dstack s = addr :: v :: ds ->
    in_bounds addr 1 = true ->
    exists s1,
      exec p_cstore s = Some s1
      /\ dstack s1 = ds
      /\ exec p_cfetch (set_dstack (addr :: ds) s1) = Some (set_dstack (v mod 256 :: ds) s1)
      /\ (forall b, b <> addr -> mem s1 b = mem s b).
Proof.
  intros s addr v ds Hd Hb. destruct_vm s. subst.
  unfold p_cstore, p_cfetch, exec, bind, pop, tos, set_tos, mem_c_store, mem_c_fetch.
  vm_fields. rewrite Hb. vm_fields.
  eexists. split; [reflexivity|]. vm_fields.
  split; [reflexivity|]. split.
  - vm_fields. rewrite ?Hb. vm_fields. unfold load_byte, store_byte.
    rewrite write_bytes_in by (cbn [length]; lia).
    replace (addr - addr) with 0 by lia. reflexivity.
  - intros b Hne. unfold store_byte. apply write_bytes_out. cbn [length]. lia.
Qed.

Lemma cstore_then_cfetch_witness :
  exists s1, exec p_cstore x_store_state = Some s1
             /\ exec p_cfetch (set_dstack [64] s1) = Some (set_dstack [42 mod 256] s1).
Proof.
  destruct (cstore_then_cfetch x_store_state 64 42 []) as (s1 & H1 & _ & H2 & _).
  - reflexivity.
  - reflexivity.
  - exists s1. split; [exact H1|exact H2].
Defined.

(** X8. [+!] replaces the cell at the address by its sum with the
    operand, in cell arithmetic, and leaves the cells that do not overlap
    it as they were. *)
Theorem plus_store_adds :
  forall s addr n ds,
    dstack s = addr :: n :: ds ->
    in_bounds addr CELL = true ->
    exists s1,
      exec p_pstore s = Some s1
      /\ dstack s1 = ds
      /\ load_cell (mem s1) addr = add (load_cell (mem s) addr) n
      /\ (forall b, b + CELL <= addr \/ addr + CELL <= b ->
                    load_cell (mem s1) b = load_cell (mem s) b).
Proof.
  intros s addr n ds Hd Hb. destruct_vm s. subst.
  unfold p_pstore, exec, bind, pop, mem_store, mem_fetch. vm_fields. rewrite Hb. vm_fields.
  rewrite ?Hb.
  eexists. split; [reflexivity|]. vm_fields.
  split; [reflexivity|]. split.
  - apply load_store_same, add_is_cell.
  - intros b Hdis. apply load_store_other. unfold CELL in *. lia.
Qed.

Lemma plus_store_adds_witness :
  exists s1, exec p_pstore x_store_state = Some s1
             /\ load_cell (mem s1) 64 = add (load_cell (mem x_store_state) 64) 42.
Proof.
  destruct (plus_store_adds x_store_state 64 42 []) as (s1 & H1 & _ & H2 & _).
  - reflexivity.
  - reflexivity.
  - exists s1. split; [exact H1|exact H2].
Defined.

(** X9. [fill] with a count that is not negative and a range inside the
    arena sets every byte of the range to the low eight bits of the
    character and no byte outside it. *)
Theorem fill_sets_range :
  forall s c n addr ds,
    dstack s = c :: n :: addr :: ds ->
    0 <= n -> in_bounds addr n = true ->
    exists s1,
      exec p_fill s = Some s1
      /\ dstack s1 = ds
      /\ (forall x, addr <= x < addr + n -> mem s1 x = c mod 256)
      /\ (forall x, x < addr \/ addr + n <= x -> mem s1 x = mem s x).
Proof.
  intros s c n addr ds Hd Hn Hb. destruct_vm s. subst.
  unfold p_fill, exec, bind, pop, mem_write. vm_fields.
  destruct (Z.ltb_spec n 0); [lia|].
  rewrite repeat_length, Z2Nat.id by lia. rewrite Hb.
  eexists. split; [reflexivity|]. vm_fields.
  split; [reflexivity|]. split.
  - intros x Hx. rewrite write_bytes_in by (rewrite repeat_length; lia).
    apply nth_repeat_lt. lia.
  - intros x Hx. apply write_bytes_out. rewrite repeat_length. lia.
Qed.

Lemma fill_sets_range_witness :
  exists s1, exec p_fill x_fill_state = Some s1
             /\ forall x, 64 <= x < 64 + 4 -> mem s1 x = 65 mod 256.
Proof.
  destruct (fill_sets_range x_fill_state 65 4 64 []) as (s1 & H1 & _ & H2 & _).
  - reflexivity.
  - lia.
  - reflexivity.
  - exists s1. split; [exact H1|exact H2].
Defined.

(** X10. [move] with a count that is not negative and both ranges
    inside the arena leaves at the destination the bytes the source held
    before the call, also when the two ranges overlap, and changes no
    byte outside the destination. *)
Theorem move_copies :
  forall s n dst src ds,
    dstack s = n :: dst :: src :: ds ->
    0 <= n -> in_bounds src n = true -> in_bounds dst n = true ->
    exists s1,
      exec p_move s = Some s1
      /\ dstack s1 = ds
      /\ (forall k, 0 <= k < n -> mem s1 (dst + k) = mem s (src + k))
      /\ (forall x, x < dst \/ dst + n <= x -> mem s1 x = mem s x).
Proof.
  intros s n dst src ds Hd Hn Hs Hdst. destruct_vm s. subst.
  unfold p_move, exec, bind, pop, mem_write, mem_read. vm_fields.
  destruct (Z.leb_spec 0 n); [|lia]. rewrite Hs. cbn [andb]. vm_fields.
  rewrite read_bytes_length, Z2Nat.id by lia. rewrite Hdst.
  eexists. split; [reflexivity|]. vm_fields.
  split; [reflexivity|]. split.
  - intros k Hk. rewrite write_bytes_in by (rewrite read_bytes_length; lia).
    replace (dst + k - dst) with k by lia.
    rewrite nth_read_bytes by lia. rewrite Z2Nat.id by lia. reflexivity.
  - intros x Hx. apply write_bytes_out. rewrite read_bytes_length. lia.
Qed.

Lemma move_copies_witness :
  exists s1, exec p_move x_move_state = Some s1
             /\ forall k, 0 <= k < 4 -> mem s1 (72 + k) = mem x_move_state (64 + k).
Proof.
  destruct (move_copies x_move_state 4 72 64 []) as (s1 & H1 & _ & H2 & _).
  - reflexivity.
  - lia.
  - reflexivity.
  - reflexivity.
  - exists s1. split; [exact H1|exact H2].
Defined.

End ArenaFacts.

(** ** Dictionary lookup and registration ([vm.c]) *)

Module LookupFacts.
Import Cell Mem VM Prims Interp Boot Lifecycle Spec Notions.
Import CellFacts MemFacts MonadFacts DictFacts OuterFacts MoreFacts.
Local Open Scope vm_scope.

Lemma lower_cons_inv c1 r1 c2 r2 :
  lower (String c1 r1) = lower (String c2 r2) -> tolower c1 = tolower c2 /\ lower r1 = lower r2.
Proof. cbn [lower]. intros H. inversion H. auto. Qed.

Lemma strncasecmp_same_lower a n1 n2 k :
  lower n1 = lower n2 -> strncasecmp_eq a n1 k = strncasecmp_eq a n2 k.
Proof.
  revert a n1 n2; induction k as [|k IH]; intros a n1 n2 H; [destruct a; reflexivity|].
  destruct n1 as [|c1 r1], n2 as [|c2 r2]; try discriminate; [reflexivity|].
  apply lower_cons_inv in H. destruct H as [H1 H2].
  destruct a as [|x a]; [reflexivity|]. cbn [strncasecmp_eq].
  rewrite H1, (IH a r1 r2 H2). reflexivity.
Qed.

Lemma entry_matches_same_lower e n1 n2 :
  lower n1 = lower n2 -> entry_matches e n1 = entry_matches e n2.
Proof.
  intros H. unfold entry_matches.
  assert (L : String.length n1 = String.length n2).
  { rewrite <- (string_length_lower n1), H. apply string_length_lower. }
  rewrite L. rewrite (strncasecmp_same_lower (name e) n1 n2 _ H). reflexivity.
Qed.

(** X11. Lookup does not see the case of ASCII letters: two names that
    are equal after case folding give the same result in every
    dictionary, found or not. *)
Theorem find_ignores_case :
  forall s n1 n2, lower n1 = lower n2 -> vm_find n1 s = vm_find n2 s.
Proof.
  intros s n1 n2 H. unfold vm_find.
  assert (G : forall fuel i, vm_find_from fuel (dict s) n1 i = vm_find_from fuel (dict s) n2 i).
  { induction fuel as [|fuel IH]; intros i; cbn [vm_find_from]; [reflexivity|].
    destruct (i <? 0); [reflexivity|].
    destruct (dict s !! Z.to_nat i) as [e|]; [|reflexivity].
    rewrite (entry_matches_same_lower e n1 n2 H), IH. reflexivity. }
  rewrite G. reflexivity.
Qed.

Lemma find_ignores_case_witness : vm_find "DUP" boot = vm_find "dup" boot.
Proof. apply (find_ignores_case boot "DUP" "dup"). reflexivity. Defined.

Lemma substring_all n s : (String.length s <= n)%nat -> substring 0 n s = s.
Proof.
  revert n; induction s as [|c s IH]; intros n H; destruct n; simpl in *; try reflexivity; try lia.
  rewrite IH by lia. reflexivity.
Qed.

Lemma plain_flags len (imm : bool) :
  0 <= len <= 31 ->
  let f := Z.lor len (if imm then F_IMMEDIATE else 0) in
  Z.land f F_LENMASK = len /\ Z.land f F_HIDDEN = 0
  /\ (Z.land f F_IMMEDIATE =? 0) = negb imm.
Proof.
  revert len. apply small_len_cases. intros n Hn.
  do 32 (destruct n as [|n]; [destruct imm; vm_compute; repeat split; discriminate|]). lia.
Qed.

Lemma vm_find_from_S fuel d nm i :
  vm_find_from (S fuel) d nm i
  = if i <? 0 then Some (-1)
    else match d !! Z.to_nat i with
         | None => None
         | Some e => if entry_matches e nm then Some i else vm_find_from fuel d nm (link e)
         end.
Proof. reflexivity. Qed.

Lemma vm_find_from_app fuel d x nm i j :
  vm_find_from fuel d nm i = Some j -> vm_find_from fuel (d ++ x) nm i = Some j.
Proof.
  revert i; induction fuel as [|fuel IH]; intros i; cbn [vm_find_from];
    destruct (i <? 0); auto.
  destruct (d !! Z.to_nat i) as [e|] eqn:E; [|discriminate].
  rewrite (lookup_app_l_Some _ _ _ _ E).
  destruct (entry_matches e nm); auto.
Qed.

(** What [vm_add_prim] appends. *)
Lemma vm_add_prim_spec nm fn (imm : bool) s :
  Z.of_nat (length (dict s)) < MAX_DICT ->
  let e := mkEntry (latest s)
             (Z.lor (Z.of_nat (Nat.min (String.length nm) NAME_MAX_LEN))
                    (if imm then F_IMMEDIATE else 0))
             (substring 0 NAME_MAX_LEN nm) fn 0 (-1) in
  let idx := Z.of_nat (length (dict s)) in
  vm_add_prim nm fn imm s = Some (idx, set_latest idx (set_dict (dict s ++ [e]) s)).
Proof.
  intros H. unfold vm_add_prim, bind, gets, dict_append, modify, ret.
  destruct (Z.ltb_spec (Z.of_nat (length (dict s))) MAX_DICT); [|lia].
  destruct s; reflexivity.
Qed.

(** The entry [vm_add_prim] appends for a name that fits. *)
Lemma add_prim_entry s nm fn (imm : bool) :
  (String.length nm <= NAME_MAX_LEN)%nat ->
  Z.of_nat (length (dict s)) < MAX_DICT ->
  exists e,
    vm_add_prim nm fn imm s
    = Some (Z.of_nat (length (dict s)),
            set_latest (Z.of_nat (length (dict s))) (set_dict (dict s ++ [e]) s))
    /\ name e = nm /\ code e = fn /\ link e = latest s /\ param e = 0 /\ does e = -1
    /\ is_immediate e = imm /\ is_hidden e = false
    /\ entry_len e = strlen nm
    /\ entry_matches e nm = true.
Proof.
  intros Hl Hd.
  pose proof (vm_add_prim_spec nm fn imm s Hd) as A. cbv zeta in A.
  rewrite Nat.min_l in A by exact Hl.
  rewrite (substring_all _ _ Hl) in A.
  destruct (plain_flags (Z.of_nat (String.length nm)) imm) as (F1 & F2 & F3).
  { unfold NAME_MAX_LEN in Hl. lia. }
  eexists. split; [exact A|].
  unfold is_immediate, is_hidden, entry_len, entry_matches, is_hidden, entry_len, strlen.
  cbn [flags name code link param does].
  rewrite F1, F2, F3, strncasecmp_refl, negb_involutive, !Z.eqb_refl. repeat split.
Qed.

(** X12. Registering a primitive under a name of at most 31 characters
    in a dictionary with a free slot appends a visible entry linked to
    the previous latest one; lookup of that name now finds the new
    entry, shadowing any older one, and lookup of every name that
    differs from it after case folding gives what it gave before. *)
Theorem add_prim_then_find :
  forall s nm fn imm,
    (String.length nm <= NAME_MAX_LEN)%nat ->
    Z.of_nat (length (dict s)) < MAX_DICT ->
    exists s1 idx e,
      vm_add_prim nm fn imm s = Some (idx, s1)
      /\ idx = Z.of_nat (length (dict s))
      /\ dict s1 = dict s ++ [e] /\ latest s1 = idx
      /\ name e = nm /\ code e = fn /\ link e = latest s
      /\ is_immediate e = imm /\ is_hidden e = false
      /\ vm_find nm s1 = Some (idx, s1)
      /\ (forall nm' j, lower nm' <> lower nm ->
                        vm_find nm' s = Some (j, s) -> vm_find nm' s1 = Some (j, s1)).
Proof.
  intros s nm fn imm Hl Hd.
  destruct (add_prim_entry s nm fn imm Hl Hd)
    as (e & A & Hn & Hc & Hk & _ & _ & Him & Hh & Hlen & Hm).
  set (idx := Z.of_nat (length (dict s))) in *.
  set (s1 := set_latest idx _) in A.
  assert (D1 : dict s1 = dict s ++ [e]) by (destruct s; reflexivity).
  assert (L1 : latest s1 = idx) by (destruct s; reflexivity).
  assert (Le : dict s1 !! Z.to_nat idx = Some e).
  { rewrite D1. subst idx. rewrite Nat2Z.id. apply list_lookup_middle. reflexivity. }
  exists s1, idx, e. repeat split; auto.
  - rewrite <- L1. apply vm_find_latest with (e := e); rewrite ?L1; auto. subst idx; lia.
  - intros nm' j Hne Hf. unfold vm_find in *.
    destruct (vm_find_from (S (length (dict s))) (dict s) nm' (latest s)) as [j'|] eqn:E;
      [|discriminate].
    inversion Hf; subst j'. clear Hf.
    rewrite D1, L1, length_app. cbn [length].
    replace (length (dict s) + 1)%nat with (S (length (dict s))) by lia.
    rewrite vm_find_from_S. destruct (Z.ltb_spec idx 0); [subst idx; lia|].
    rewrite <- D1, Le.
    destruct (entry_matches e nm') eqn:Em.
    + exfalso. apply Hne. symmetry. rewrite <- Hn.
      apply (entry_matches_inv e nm'); [|exact Em]. rewrite Hn. exact Hlen.
    + rewrite Hk, D1.
      rewrite (vm_find_from_app _ _ [e] _ _ _ E). reflexivity.
Qed.

Lemma add_prim_then_find_witness :
  exists s1 idx, vm_add_prim "dup" P_noop false boot = Some (idx, s1)
                 /\ vm_find "dup" s1 = Some (idx, s1).
Proof.
  destruct (add_prim_then_find boot "dup" P_noop false)
    as (s1 & idx & e & H1 & _ & _ & _ & _ & _ & _ & _ & _ & H2 & _).
  - vm_compute. lia.
  - vm_compute. reflexivity.
  - exists s1, idx. split; [exact H1|exact H2].
Defined.

(** X13. A constant registered with [vm_add_constant] under a name of at
    most 31 characters is found by lookup, and executing the XT found
    pushes the constant's value. *)
Theorem constant_round_trip :
  forall s nm v fuel,
    (String.length nm <= NAME_MAX_LEN)%nat ->
    Z.of_nat (length (dict s)) < MAX_DICT ->
    depth s < DSTACK_SIZE ->
    exists s1 xt,
      exec (vm_add_constant nm v) s = Some s1
      /\ vm_find nm s1 = Some (xt, s1)
      /\ exec (vm_execute (S fuel) xt) s1 = Some (set_dstack (v :: dstack s) (set_w xt s1)).
Proof.
  intros s nm v fuel Hl Hd Hdp.
  destruct (add_prim_entry s nm Docon false Hl Hd)
    as (e & A & Hn & Hc & Hk & _ & _ & Him & Hh & Hlen & Hm).
  set (idx := Z.of_nat (length (dict s))) in *.
  set (s0 := set_latest idx _) in A.
  assert (I0 : 0 <= idx) by lia.
  assert (D0 : dict s0 = dict s ++ [e]) by (destruct s; reflexivity).
  assert (Le : dict s0 !! Z.to_nat idx = Some e).
  { rewrite D0. subst idx. rewrite Nat2Z.id. apply list_lookup_middle. reflexivity. }
  set (e1 := set_param v e).
  set (s1 := set_dict (<[Z.to_nat idx := e1]> (dict s0)) s0).
  assert (U : exec (vm_add_constant nm v) s = Some s1).
  { unfold exec, vm_add_constant, bind. rewrite A. unfold dict_update.
    destruct (Z.ltb_spec idx 0); [lia|]. rewrite Le. reflexivity. }
  assert (D1 : dict s1 !! Z.to_nat idx = Some e1).
  { replace (dict s1) with (<[Z.to_nat idx := e1]> (dict s0)) by (destruct s0; reflexivity).
    apply list_lookup_insert_eq. apply lookup_lt_Some in Le. exact Le. }
  assert (L1 : latest s1 = idx) by (destruct s; reflexivity).
  exists s1, idx. split; [exact U|]. split.
  - rewrite <- L1. apply vm_find_latest with (e := e1); rewrite ?L1; auto.
  - unfold exec.
    rewrite (vm_execute_plain fuel idx s1 e1 I0 D1) by (cbn; rewrite Hc; reflexivity).
    change (code e1) with (code e). rewrite Hc. cbn [call].
    unfold docon, bind, gets, dict_at, push.
    replace (w (set_w idx s1)) with idx by (destruct s1; reflexivity).
    destruct (Z.ltb_spec idx 0); [lia|].
    replace (dict (set_w idx s1)) with (dict s1) by (destruct s1; reflexivity).
    rewrite D1.
    replace (depth (set_w idx s1)) with (depth s) by (destruct s; reflexivity).
    destruct (Z.ltb_spec (depth s) DSTACK_SIZE); [|lia].
    replace (dstack (set_w idx s1)) with (dstack s) by (destruct s; reflexivity).
    reflexivity.
Qed.

Lemma constant_round_trip_witness :
  exists s1 xt,
    exec (vm_add_constant "answer" 42) boot = Some s1
    /\ exec (vm_execute 1 xt) s1 = Some (set_dstack (42 :: dstack boot) (set_w xt s1)).
Proof.
  destruct (constant_round_trip boot "answer" 42 0) as (s1 & xt & H1 & _ & H2).
  - vm_compute. lia.
  - vm_compute. reflexivity.
  - vm_compute. reflexivity.
  - exists s1, xt. split; [exact H1|exact H2].
Defined.

(** X14. A variable registered with [vm_add_variable] gets a fresh cell
    at the aligned HERE, which then moves past it; lookup finds the
    variable, executing the XT found pushes the address of that cell,
    and fetching from it gives the initial value. *)
Theorem variable_round_trip :
  forall s nm v fuel,
    (String.length nm <= NAME_MAX_LEN)%nat ->
    Z.of_nat (length (dict s)) < MAX_DICT ->
    depth s < DSTACK_SIZE ->
    0 <= here s -> here s + 2 * CELL <= MEM_SIZE ->
    is_cell v ->
    exists s1 xt,
      exec (vm_add_variable nm v) s = Some s1
      /\ here s1 = vm_align (here s) + CELL
      /\ vm_find nm s1 = Some (xt, s1)
      /\ exec (vm_execute (S fuel) xt) s1
         = Some (set_dstack (vm_align (here s) :: dstack s) (set_w xt s1))
      /\ exec (vm_execute (S fuel) xt ;; p_fetch) s1
         = Some (set_dstack (v :: dstack s) (set_w xt s1)).
Proof.
  intros s nm v fuel Hl Hd Hdp Hh0 Hh1 Hv.
  destruct (add_prim_entry s nm Dovar false Hl Hd)
    as (e & A & Hn & Hc & Hk & _ & _ & Him & Hh & Hlen & Hm).
  set (idx := Z.of_nat (length (dict s))) in *.
  set (s0 := set_latest idx _) in A.
  assert (I0 : 0 <= idx) by lia.
  assert (D0 : dict s0 = dict s ++ [e]) by (destruct s; reflexivity).
  assert (Le : dict s0 !! Z.to_nat idx = Some e).
  { rewrite D0. subst idx. rewrite Nat2Z.id. apply list_lookup_middle. reflexivity. }
  set (a := vm_align (here s)).
  assert (Ha : here s <= a < here s + 8 /\ a mod 8 = 0).
  { apply vm_align_spec. unfold MEM_SIZE, CELL, half in *. lia. }
  assert (Hb : in_bounds a CELL = true).
  { apply andb_true_iff. unfold MEM_SIZE, CELL in *. split; apply Z.leb_le; lia. }
  set (e1 := set_param a e).
  set (s1 := set_here (add a CELL)
               (set_mem (store_cell (mem s) a v)
                  (set_dict (<[Z.to_nat idx := e1]> (dict s0)) (set_here a s0)))).
  assert (U : exec (vm_add_variable nm v) s = Some s1).
  { unfold exec, vm_add_variable, bind. rewrite A. unfold dict_update, modify, gets, mem_store.
    replace (here (set_here (vm_align (here s0)) s0)) with a by (destruct s; reflexivity).
    destruct (Z.ltb_spec idx 0); [lia|].
    replace (dict (set_here (vm_align (here s0)) s0)) with (dict s0) by (destruct s; reflexivity).
    rewrite Le, Hb. destruct s; reflexivity. }
  assert (D1 : dict s1 !! Z.to_nat idx = Some e1).
  { replace (dict s1) with (<[Z.to_nat idx := e1]> (dict s0)) by (destruct s; reflexivity).
    apply list_lookup_insert_eq. apply lookup_lt_Some in Le. exact Le. }
  assert (L1 : latest s1 = idx) by (destruct s; reflexivity).
  assert (X : exec (vm_execute (S fuel) idx) s1
              = Some (set_dstack (a :: dstack s) (set_w idx s1))).
  { unfold exec.
    rewrite (vm_execute_plain fuel idx s1 e1 I0 D1) by (cbn; rewrite Hc; reflexivity).
    change (code e1) with (code e). rewrite Hc. cbn [call].
    unfold dovar, bind, gets, dict_at, push.
    replace (w (set_w idx s1)) with idx by (destruct s1; reflexivity).
    destruct (Z.ltb_spec idx 0); [lia|].
    replace (dict (set_w idx s1)) with (dict s1) by (destruct s1; reflexivity).
    rewrite D1.
    replace (depth (set_w idx s1)) with (depth s) by (destruct s; reflexivity).
    destruct (Z.ltb_spec (depth s) DSTACK_SIZE); [|lia].
    replace (dstack (set_w idx s1)) with (dstack s) by (destruct s; reflexivity).
    reflexivity. }
  exists s1, idx. split; [exact U|]. split.
  { replace (here s1) with (add a CELL) by (destruct s; reflexivity).
    unfold add. apply wrap_id. unfold is_cell, half, MEM_SIZE, CELL in *. lia. }
  split.
  { rewrite <- L1. apply vm_find_latest with (e := e1); rewrite ?L1; auto. }
  split; [exact X|].
  unfold exec in *. unfold bind at 1.
  destruct (vm_execute (S fuel) idx s1) as [[[] s2]|]; [|discriminate].
  inversion X; subst s2.
  unfold p_fetch, bind, tos, mem_fetch, set_tos.
  replace (dstack (set_dstack (a :: dstack s) (set_w idx s1))) with (a :: dstack s)
    by (destruct s; reflexivity).
  rewrite Hb.
  replace (mem (set_dstack (a :: dstack s) (set_w idx s1))) with (store_cell (mem s) a v)
    by (destruct s; reflexivity).
  rewrite load_store_same by exact Hv.
  replace (dstack (set_dstack (a :: dstack s) (set_w idx s1))) with (a :: dstack s)
    by (destruct s; reflexivity).
  destruct s; reflexivity.
Qed.

Lemma variable_round_trip_witness :
  exists s1 xt,
    exec (vm_add_variable "count" 5) boot = Some s1
    /\ exec (vm_execute 1 xt ;; p_fetch) s1 = Some (set_dstack (5 :: dstack boot) (set_w xt s1)).
Proof.
  destruct (variable_round_trip boot "count" 5 0) as (s1 & xt & H1 & _ & _ & _ & H2).
  - vm_compute. lia.
  - vm_compute. reflexivity.
  - vm_compute. reflexivity.
  - vm_compute. discriminate.
  - vm_compute. discriminate.
  - unfold is_cell, half. lia.
  - exists s1, xt. split; [exact H1|exact H2].
Defined.

End LookupFacts.

(** ** The tokenizer and the outer interpreter on blank input ([vm.c], [io.c]) *)

Module TokenFacts.
Import Cell Mem VM Prims Interp Spec Notions.
Import CellFacts MemFacts MonadFacts EngineFacts DictFacts OuterFacts MoreFacts.
Local Open Scope vm_scope.

Lemma scan_word_chars cs room : Forall (fun c => 32 < schar c) (scan_word cs room).
Proof.
  revert cs; induction room as [|room IH]; intros [|c cs]; simpl; try constructor.
  destruct (Z.ltb_spec 32 (schar c)); constructor; auto.
Qed.

Lemma scan_word_prefix cs room :
  firstn (length (scan_word cs room)) cs = scan_word cs room.
Proof.
  revert cs; induction room as [|room IH]; intros [|c cs]; simpl; try reflexivity.
  destruct (32 <? schar c); simpl; [|reflexivity]. rewrite IH. reflexivity.
Qed.

Lemma skip_blanks_le cs : (skip_blanks cs <= length cs)%nat.
Proof. induction cs as [|c cs IH]; simpl; [lia|]. destruct (schar c <=? 32); simpl; lia. Qed.

Lemma skip_blanks_blank cs :
  Forall (fun c => schar c <= 32) (firstn (skip_blanks cs) cs).
Proof.
  induction cs as [|c cs IH]; simpl; [constructor|].
  destruct (Z.leb_spec (schar c) 32); simpl; constructor; auto.
Qed.

Lemma scan_word_empty cs :
  scan_word (skipn (skip_blanks cs) cs) NAME_MAX_LEN = []
  <-> Forall (fun c => schar c <= 32) cs.
Proof.
  induction cs as [|c cs IH]; simpl.
  - split; constructor.
  - destruct (Z.leb_spec (schar c) 32) as [L|L]; simpl.
    + rewrite IH. split; [constructor; auto|]. intros F; inversion F; auto.
    + destruct (Z.ltb_spec 32 (schar c)); [|lia]. split; [discriminate|].
      intros F; inversion F; lia.
Qed.

Lemma scan_word_stop cs room :
  (length (scan_word cs room) < room)%nat ->
  skipn (length (scan_word cs room)) cs = []
  \/ exists c r, skipn (length (scan_word cs room)) cs = c :: r /\ schar c <= 32.
Proof.
  revert cs; induction room as [|room IH]; intros [|c cs]; cbn [scan_word length skipn];
    try lia; auto.
  destruct (Z.ltb_spec 32 (schar c)) as [L|L]; cbn [length skipn].
  - intros Hl. apply IH. lia.
  - intros _. right. exists c, cs. split; [reflexivity|lia].
Qed.

(** The input from the parse position on, cut where [vm_word] cuts it. *)
Lemma vm_word_cut s :
  let rest := skipn (tib_pos s) (tib s) in
  let k := skip_blanks rest in
  let wd := scan_word (skipn k rest) NAME_MAX_LEN in
  rest = firstn k rest ++ wd ++ skipn (length wd) (skipn k rest).
Proof.
  intros rest k wd.
  assert (E : firstn (length wd) (skipn k rest) = wd) by apply scan_word_prefix.
  rewrite <- E at 1. rewrite firstn_skipn. rewrite firstn_skipn. reflexivity.
Qed.

(** X15. The tokenizer cuts the input at the parse position into the
    blanks it passes over (as signed characters, so bytes from 128 up
    count as blanks too), the token, and what is left: the token holds
    no blank and at most 31 characters, and when it has fewer than 31 it
    ends at the end of the buffer or in front of a blank; the parse
    position moves to the end of the token, never back nor past the end
    of the buffer, and nothing else changes; the token is empty exactly
    when only blanks were left. *)
Theorem word_token_shape :
  forall s, exists nm s1,
    vm_word s = Some (nm, s1)
    /\ s1 = set_tib_pos (tib_pos s1) s
    /\ (String.length nm <= NAME_MAX_LEN)%nat
    /\ Forall (fun c => 32 < schar c) (list_ascii_of_string nm)
    /\ (tib_pos s + String.length nm <= tib_pos s1)%nat
    /\ ((tib_pos s <= length (tib s))%nat -> (tib_pos s1 <= length (tib s))%nat)
    /\ firstn (String.length nm) (skipn (tib_pos s1 - String.length nm) (tib s))
       = list_ascii_of_string nm
    /\ Forall (fun c => schar c <= 32)
              (firstn (tib_pos s1 - String.length nm - tib_pos s) (skipn (tib_pos s) (tib s)))
    /\ (nm = EmptyString
        <-> Forall (fun c => schar c <= 32) (skipn (tib_pos s) (tib s)))
    /\ exists blanks tail,
         skipn (tib_pos s) (tib s) = blanks ++ list_ascii_of_string nm ++ tail
         /\ Forall (fun c => schar c <= 32) blanks
         /\ tib_pos s1 = (tib_pos s + length blanks + String.length nm)%nat
         /\ ((String.length nm < NAME_MAX_LEN)%nat ->
             tail = [] \/ exists c r, tail = c :: r /\ schar c <= 32).
Proof.
  intros s. pose proof (vm_word_cut s) as Cut. cbv zeta in Cut. unfold vm_word.
  set (rest := skipn (tib_pos s) (tib s)) in *.
  set (k := skip_blanks rest) in *.
  set (wd := scan_word (skipn k rest) NAME_MAX_LEN) in *.
  eexists _, _. split; [reflexivity|].
  replace (tib_pos (set_tib_pos (tib_pos s + k + length wd) s))
    with (tib_pos s + k + length wd)%nat by (destruct s; reflexivity).
  rewrite string_length_of_list, list_of_string_of_list.
  pose proof (skip_blanks_le rest) as Hk. fold k in Hk.
  pose proof (scan_word_prefix (skipn k rest) NAME_MAX_LEN) as Hp. fold wd in Hp.
  assert (Hw : (length wd <= length (skipn k rest))%nat).
  { rewrite <- Hp. rewrite length_take. lia. }
  rewrite length_skipn in Hw.
  assert (Hr : length rest = (length (tib s) - tib_pos s)%nat)
    by (unfold rest; apply length_skipn).
  split; [destruct s; reflexivity|].
  split; [apply scan_word_length|].
  split; [apply scan_word_chars|].
  split; [lia|].
  split; [intros; lia|].
  split.
  { replace (tib_pos s + k + length wd - length wd)%nat with (tib_pos s + k)%nat by lia.
    rewrite <- Hp at 2. f_equal. unfold rest. rewrite skipn_skipn. f_equal. lia. }
  split.
  { replace (tib_pos s + k + length wd - length wd - tib_pos s)%nat with k by lia.
    apply skip_blanks_blank. }
  split; [rewrite string_of_list_empty; apply scan_word_empty|].
  exists (firstn k rest), (skipn (length wd) (skipn k rest)).
  split; [exact Cut|].
  split; [apply skip_blanks_blank|].
  split; [rewrite length_take; lia|].
  intros Hl. apply scan_word_stop. exact Hl.
Qed.

Lemma scan_until_spec delim cs room :
  let buf := scan_until delim cs room in
  ~ In delim buf /\ (length buf <= room)%nat /\ firstn (length buf) cs = buf
  /\ ((length buf < room)%nat -> (length buf < length cs)%nat ->
      nth (length buf) cs Ascii.zero = delim).
Proof.
  revert cs; induction room as [|room IH]; intros [|c cs]; cbn [scan_until];
    try (cbn; repeat split; auto; lia).
  destruct (Ascii.eqb_spec c delim) as [->|N].
  - cbn. repeat split; auto; lia.
  - destruct (IH cs) as (I1 & I2 & I3 & I4). cbn [length firstn nth In].
    repeat split.
    + intros [E|E]; [congruence|auto].
    + lia.
    + rewrite I3. reflexivity.
    + intros A B. apply I4; lia.
Qed.

Lemma scan_until_stop delim cs room :
  (length (scan_until delim cs room) < room)%nat ->
  skipn (length (scan_until delim cs room)) cs = []
  \/ exists r, skipn (length (scan_until delim cs room)) cs = delim :: r.
Proof.
  revert cs; induction room as [|room IH]; intros [|c cs]; cbn [scan_until length skipn];
    try lia; auto.
  destruct (Ascii.eqb_spec c delim) as [->|N]; cbn [length skipn].
  - intros _. right. exists cs. reflexivity.
  - intros Hl. apply IH. lia.
Qed.

(** X16. [vm_parse] cuts the input at the parse position into one
    leading space (taken exactly when the input starts with one), the
    text returned, and what is left: the text holds no delimiter and at
    most 4095 characters, and when it has fewer than 4095 it ends at
    the end of the buffer or in front of the delimiter; the parse
    position moves past the text and over the one character the scan
    stopped at, if there is one, never past the end of the buffer, and
    nothing else changes. *)
Theorem parse_stops_at_delimiter :
  forall s delim, exists buf s1,
    vm_parse delim s = Some (buf, s1)
    /\ s1 = set_tib_pos (tib_pos s1) s
    /\ ~ In delim buf
    /\ (length buf <= PAD_SIZE - 1)%nat
    /\ (tib_pos s + length buf <= tib_pos s1 <= tib_pos s + length buf + 2)%nat
    /\ ((tib_pos s <= length (tib s))%nat -> (tib_pos s1 <= length (tib s))%nat)
    /\ (exists k, (k <= 1)%nat
         /\ firstn (length buf) (skipn (tib_pos s + k) (tib s)) = buf
         /\ (k = 1%nat -> nth (tib_pos s) (tib s) Ascii.zero = " "%char))
    /\ exists space tail,
         skipn (tib_pos s) (tib s) = space ++ buf ++ tail
         /\ (space = [" "%char]
             \/ (space = [] /\ forall r, skipn (tib_pos s) (tib s) <> " "%char :: r))
         /\ ((length buf < PAD_SIZE - 1)%nat -> tail = [] \/ exists r, tail = delim :: r)
         /\ tib_pos s1
            = (tib_pos s + length space + length buf
               + match tail with [] => 0 | _ :: _ => 1 end)%nat.
Proof.
  intros s delim. unfold vm_parse.
  set (k0 := match skipn (tib_pos s) (tib s) with
             | c :: _ => if Ascii.eqb c " " then 1%nat else 0%nat
             | [] => 0%nat
             end).
  set (buf := scan_until delim (skipn (tib_pos s + k0) (tib s)) (PAD_SIZE - 1)).
  set (pos := (tib_pos s + k0 + length buf)%nat).
  destruct (scan_until_spec delim (skipn (tib_pos s + k0) (tib s)) (PAD_SIZE - 1))
    as (S1 & S2 & S3 & _). fold buf in S1, S2, S3.
  assert (K : (k0 <= 1)%nat /\ (k0 = 1%nat -> nth (tib_pos s) (tib s) Ascii.zero = " "%char
                                              /\ (tib_pos s < length (tib s))%nat)).
  { subst k0. destruct (skipn (tib_pos s) (tib s)) as [|c r] eqn:E; [split; [lia|discriminate]|].
    assert (Hlt : (tib_pos s < length (tib s))%nat).
    { destruct (Nat.lt_ge_cases (tib_pos s) (length (tib s))); [assumption|].
      rewrite skipn_all2 in E by lia. discriminate. }
    destruct (Ascii.eqb_spec c " ") as [->|]; split; try lia; try discriminate.
    intros _. split; [|exact Hlt].
    rewrite <- (firstn_skipn (tib_pos s) (tib s)) at 1. rewrite E.
    rewrite app_nth2 by (rewrite length_take; lia).
    rewrite length_take. replace (tib_pos s - tib_pos s `min` length (tib s))%nat with 0%nat by lia.
    reflexivity. }
  destruct K as [K1 K2].
  assert (Hb : (length buf <= length (skipn (tib_pos s + k0) (tib s)))%nat).
  { rewrite <- S3. rewrite length_take. lia. }
  rewrite length_skipn in Hb.
  eexists _, _. split; [reflexivity|].
  set (pos' := if (pos <? length (tib s))%nat then S pos else pos).
  replace (tib_pos (set_tib_pos pos' s)) with pos' by (destruct s; reflexivity).
  assert (P : (pos <= pos' <= S pos)%nat /\ ((tib_pos s <= length (tib s))%nat ->
                                              (pos' <= length (tib s))%nat)).
  { subst pos'. destruct (Nat.ltb_spec pos (length (tib s))); split; lia. }
  split; [destruct s; reflexivity|].
  split; [exact S1|]. split; [exact S2|].
  split; [subst pos; lia|]. split; [tauto|].
  split.
  { exists k0. split; [exact K1|]. split; [exact S3|]. intros E; apply K2; exact E. }
  exists (firstn k0 (skipn (tib_pos s) (tib s))),
         (skipn (length buf) (skipn (tib_pos s + k0) (tib s))).
  assert (Sk : skipn (tib_pos s + k0) (tib s) = skipn k0 (skipn (tib_pos s) (tib s))).
  { rewrite skipn_skipn. f_equal. lia. }
  split.
  { rewrite <- S3 at 1. rewrite firstn_skipn. rewrite Sk. rewrite firstn_skipn. reflexivity. }
  split.
  { subst k0. destruct (skipn (tib_pos s) (tib s)) as [|c r] eqn:E.
    - right. split; [reflexivity|discriminate].
    - destruct (Ascii.eqb_spec c " ") as [->|N].
      + left. reflexivity.
      + right. split; [reflexivity|]. intros r' H. inversion H. congruence. }
  split; [intros Hl; apply scan_until_stop; exact Hl|].
  assert (Lt : length (skipn (length buf) (skipn (tib_pos s + k0) (tib s)))
               = (length (tib s) - pos)%nat).
  { rewrite !length_skipn. subst pos. lia. }
  assert (Lf : length (firstn k0 (skipn (tib_pos s) (tib s))) = k0).
  { rewrite length_take, length_skipn.
    destruct (Nat.eq_dec k0 1%nat) as [E|E]; [destruct (K2 E); lia|lia]. }
  rewrite Lf. subst pos'.
  destruct (skipn (length buf) (skipn (tib_pos s + k0) (tib s))) as [|c r];
    cbn [length] in Lt; destruct (Nat.ltb_spec pos (length (tib s))); subst pos; lia.
Qed.

Lemma skip_blanks_all cs :
  Forall (fun c => schar c <= 32) cs -> skip_blanks cs = length cs.
Proof.
  induction 1 as [|c cs Hc _ IH]; simpl; [reflexivity|].
  destruct (Z.leb_spec (schar c) 32); [|lia]. rewrite IH. reflexivity.
Qed.

Lemma vm_word_blank s :
  (tib_pos s <= length (tib s))%nat ->
  Forall (fun c => schar c <= 32) (skipn (tib_pos s) (tib s)) ->
  vm_word s = Some (EmptyString, set_tib_pos (length (tib s)) s).
Proof.
  intros Hp Hb. unfold vm_word.
  rewrite (skip_blanks_all _ Hb). rewrite skipn_all. rewrite length_skipn.
  cbn [scan_word NAME_MAX_LEN string_of_list_ascii length].
  do 2 f_equal. f_equal. lia.
Qed.

(** X17. Interpreting input of which only blanks are left changes
    nothing but the parse position, which goes to the end of the buffer
    (and nothing at all when the VM has stopped running); and after the
    line-comment word the interpreter takes no further token from the
    line. *)
Theorem blank_input_is_skipped :
  forall fuel s,
    (tib_pos s <= length (tib s))%nat ->
    (Forall (fun c => schar c <= 32) (skipn (tib_pos s) (tib s)) ->
     exec (vm_interpret_tib (S fuel)) s
     = Some (if running s then set_tib_pos (length (tib s)) s else s))
    /\ exec (p_backslash ;; vm_interpret_tib (S fuel)) s
       = Some (set_tib_pos (length (tib s)) s).
Proof.
  intros fuel s Hp. split.
  - intros Hb. unfold exec. rewrite vm_interpret_tib_S. destruct (running s); [|reflexivity].
    unfold bind. rewrite (vm_word_blank s Hp Hb). reflexivity.
  - unfold exec, bind, p_backslash, modify. rewrite vm_interpret_tib_S.
    set (s1 := set_tib_pos (length (tib s)) s).
    assert (T : tib s1 = tib s) by (destruct s; reflexivity).
    assert (P : tib_pos s1 = length (tib s)) by (destruct s; reflexivity).
    destruct (running s1); [|reflexivity].
    unfold bind. rewrite (vm_word_blank s1).
    + rewrite T. cbn. destruct s; reflexivity.
    + rewrite T, P. lia.
    + rewrite T, P, skipn_all. constructor.
Qed.

Lemma blank_input_is_skipped_witness :
  exec (p_backslash ;; vm_interpret_tib 1) x_blank_state
  = Some (set_tib_pos (length (tib x_blank_state)) x_blank_state).
Proof.
  destruct (blank_input_is_skipped 0 x_blank_state) as [_ H].
  - vm_compute. lia.
  - exact H.
Defined.

End TokenFacts.

(** ** Numbers in and out ([vm.c], [prims.c]) *)

Module NumberFacts.
Import Cell Mem VM Prims Interp Spec Notions.
Import CellFacts MemFacts MonadFacts DictFacts OuterFacts MoreFacts.
Local Open Scope vm_scope.

Lemma accumulate_decimal d x :
  accumulate 10 (list_ascii_of_string (NilEmpty.string_of_uint d)) (wrap x)
  = Some (wrap (horner x d)).
Proof.
  revert x; induction d; intros x; cbn [NilEmpty.string_of_uint list_ascii_of_string horner];
    [reflexivity|..];
    cbn [accumulate];
    match goal with
    | |- context [digit_of ?c] =>
        let v := eval vm_compute in (digit_of c) in change (digit_of c) with v
    end;
    cbv iota beta;
    match goal with
    | |- context [10 <=? ?k] => change (10 <=? k) with false
    end;
    cbv iota; rewrite wrap_step, IHd; repeat f_equal; lia.
Qed.

Lemma horner_of_lu d acc :
  horner acc d
  = acc * 10 ^ Z.of_N (DecimalPos.Unsigned.usize d)
    + Z.of_N (DecimalPos.Unsigned.of_lu (Decimal.rev d)).
Proof.
  revert acc; induction d; intros acc; cbn [horner DecimalPos.Unsigned.usize];
    [cbn; lia|..];
    rewrite IHd;
    unfold Decimal.rev; cbn [Decimal.revapp];
    match goal with
    | |- context [DecimalPos.Unsigned.of_lu (Decimal.revapp d (?f Decimal.Nil))] =>
        rewrite (DecimalPos.Unsigned.of_lu_revapp d (f Decimal.Nil))
    end;
    unfold Decimal.rev;
    rewrite N2Z.inj_succ, Z.pow_succ_r by lia;
    rewrite !N2Z.inj_add, !N2Z.inj_mul, N2Z.inj_pow;
    cbn [DecimalPos.Unsigned.of_lu]; rewrite ?N.mul_0_r, ?N.add_0_r; cbn [Z.of_N]; ring.
Qed.

Lemma horner_to_uint p : horner 0 (Pos.to_uint p) = Z.pos p.
Proof.
  rewrite horner_of_lu.
  rewrite <- DecimalPos.Unsigned.of_uint_alt, DecimalPos.Unsigned.of_to. cbn. lia.
Qed.

Lemma string_of_uint_nonempty p :
  list_ascii_of_string (NilEmpty.string_of_uint (Pos.to_uint p)) <> [].
Proof.
  pose proof (DecimalPos.Unsigned.to_uint_nonnil p) as H.
  destruct (Pos.to_uint p); [congruence|..]; discriminate.
Qed.

Lemma string_of_uint_pos p :
  NilZero.string_of_uint (Pos.to_uint p) = NilEmpty.string_of_uint (Pos.to_uint p).
Proof.
  pose proof (DecimalPos.Unsigned.to_uint_nonnil p).
  destruct (Pos.to_uint p); [congruence|..]; reflexivity.
Qed.

(** What the signed decimal format prints is a number of the syntax. *)
Lemma fmt_ld_syntax n : is_cell n -> number_syntax 10 (list_ascii_of_string (fmt_ld n)) n.
Proof.
  intros Hn. unfold fmt_ld, Z.to_int.
  destruct n as [|p|p].
  - apply (number_intro 10 false [] [] ["0"%char] 10 0); auto;
      try (left; split; reflexivity); try discriminate.
  - cbn [NilZero.string_of_int]. rewrite string_of_uint_pos.
    pose proof (accumulate_decimal (Pos.to_uint p) 0) as A.
    rewrite horner_to_uint in A. rewrite (wrap_id (Z.pos p) Hn) in A.
    apply (number_intro 10 false [] [] _ 10 (Z.pos p)); auto;
      try (left; split; reflexivity); try apply string_of_uint_nonempty.
  - cbn [NilZero.string_of_int list_ascii_of_string]. rewrite string_of_uint_pos.
    pose proof (accumulate_decimal (Pos.to_uint p) 0) as A.
    rewrite horner_to_uint in A.
    assert (V : Z.neg p = neg (wrap (Z.pos p)))
      by (rewrite neg_wrap; symmetry; apply wrap_id; exact Hn).
    rewrite V.
    apply (number_intro 10 true ["-"%char] [] _ 10 (wrap (Z.pos p))); auto;
      try (left; split; reflexivity); try apply string_of_uint_nonempty.
Qed.

(** X18. What the signed decimal format of [.] prints for a cell, the
    number parser reads back in base 10 as that cell, the least cell
    included. *)
Theorem print_then_parse :
  forall s n,
    is_cell n ->
    vm_try_number (set_base 10 s) (list_ascii_of_string (fmt_ld n)) = Some n.
Proof.
  intros s n Hn. rewrite vm_try_number_lists.
  replace (base (set_base 10 s)) with 10 by (destruct s; reflexivity).
  apply try_number_lists_complete; [lia|]. apply fmt_ld_syntax. exact Hn.
Qed.

Lemma print_then_parse_witness :
  vm_try_number (set_base 10 boot) (list_ascii_of_string (fmt_ld (-42))) = Some (-42).
Proof. apply (print_then_parse boot (-42)). unfold is_cell, half. lia. Defined.

Lemma pno_char_digit r :
  0 <= r < 36 ->
  digit_of (char_of_byte (if r <? 10 then 48 + r else 97 + r - 10)) = Some r.
Proof.
  intros H. rewrite <- (Z2Nat.id r) by lia.
  assert (Hn : (Z.to_nat r < 36)%nat) by lia.
  revert Hn. generalize (Z.to_nat r). clear H. intros n Hn.
  do 36 (destruct n as [|n]; [reflexivity|]). lia.
Qed.

Lemma accumulate_app b l1 l2 a :
  accumulate b (l1 ++ l2) a
  = match accumulate b l1 a with Some v => accumulate b l2 v | None => None end.
Proof.
  revert a; induction l1 as [|c l1 IH]; intros a; cbn [app accumulate]; [reflexivity|].
  destruct (digit_of c); [|reflexivity]. destruct (b <=? z); [reflexivity|]. apply IH.
Qed.

Lemma wrap_zero d : 0 <= d < modulus -> wrap d = 0 -> d = 0.
Proof.
  intros H E. rewrite <- (ucell_small d H), E. reflexivity.
Qed.

(** One round of [#]. *)
Lemma pno_digit_step s d ds :
  dstack s = wrap d :: ds -> 0 <= d < modulus ->
  2 <= base s <= 36 -> depth s <= DSTACK_SIZE ->
  Z.of_nat (length (pno s)) < PNO_SIZE ->
  exists c,
    p_pno_digit s = Some (tt, set_pno (c :: pno s) (set_dstack (wrap (d / base s) :: ds) s))
    /\ digit_of c = Some (d mod base s).
Proof.
  intros Hd Hr Hb Hdp Hp.
  pose proof (Z.mod_pos_bound d (base s) ltac:(lia)) as R.
  eexists. split.
  - unfold p_pno_digit, bind, pop, gets, push, pno_put, depth in *.
    rewrite Hd. vm_fields.
    replace (base (set_dstack ds s)) with (base s) by (destruct s; reflexivity).
    rewrite (ucell_small d Hr).
    assert (Ub : ucell (base s) = base s).
    { unfold ucell, modulus. apply Z.mod_small. lia. }
    rewrite Ub. destruct (Z.eqb_spec (base s) 0); [lia|].
    replace (dstack (set_dstack ds s)) with ds by (destruct s; reflexivity).
    rewrite Hd in Hdp. cbn [length] in Hdp.
    destruct (Z.ltb_spec (Z.of_nat (length ds)) DSTACK_SIZE); [|lia].
    replace (pno (set_dstack (wrap (d / base s) :: ds) (set_dstack ds s))) with (pno s)
      by (destruct s; reflexivity).
    destruct (Z.ltb_spec (Z.of_nat (length (pno s))) PNO_SIZE); [|lia].
    destruct s; reflexivity.
  - apply pno_char_digit. lia.
Qed.

(** The loop of [#s] on a value below [2 ^ k]. *)
Lemma pno_digits_loop_spec k :
  forall rounds s d ds,
    (k < rounds)%nat ->
    dstack s = wrap d :: ds -> 0 <= d < 2 ^ Z.of_nat k -> (k <= 64)%nat ->
    2 <= base s <= 36 -> depth s <= DSTACK_SIZE ->
    Z.of_nat (length (pno s)) + Z.of_nat (Nat.max k 1) <= PNO_SIZE ->
    exists digits,
      pno_digits_loop rounds s
      = Some (tt, set_pno (digits ++ pno s) (set_dstack (0 :: ds) s))
      /\ digits <> []
      /\ (length digits <= Nat.max k 1)%nat
      /\ forall acc, accumulate (base s) digits (wrap acc)
                     = Some (wrap (acc * base s ^ Z.of_nat (length digits) + d)).
Proof.
  induction k as [|k IH]; intros rounds s d ds Hr Hd Hrange Hk Hb Hdp Hp.
  - assert (d = 0) by (change (2 ^ Z.of_nat 0) with 1 in Hrange; lia). subst d.
    destruct rounds as [|rounds]; [lia|]. cbn [pno_digits_loop].
    destruct (pno_digit_step s 0 ds Hd) as (c & E & Dc);
      try assumption; try (unfold modulus; lia).
    rewrite Z.div_0_l in E by lia. rewrite Z.mod_0_l in Dc by lia.
    unfold bind. rewrite E. unfold tos.
    replace (dstack (set_pno (c :: pno s) (set_dstack (wrap 0 :: ds) s))) with (wrap 0 :: ds)
      by (destruct s; reflexivity).
    change (wrap 0) with 0. cbn [Z.eqb negb].
    exists [c]. split; [reflexivity|]. split; [discriminate|]. split; [cbn; lia|].
    intros acc. cbn [accumulate length]. rewrite Dc.
    destruct (Z.leb_spec (base s) 0); [lia|].
    rewrite wrap_step. f_equal. f_equal. change (Z.of_nat 1) with 1. lia.
  - destruct rounds as [|rounds]; [lia|]. cbn [pno_digits_loop].
    assert (Hm : 0 <= d < modulus).
    { split; [lia|]. apply Z.lt_le_trans with (2 ^ Z.of_nat (S k)); [lia|].
      unfold modulus. apply Z.pow_le_mono_r; lia. }
    destruct (pno_digit_step s d ds Hd) as (c & E & Dc); try assumption; try lia.
    unfold bind. rewrite E. unfold tos.
    set (s1 := set_pno (c :: pno s) (set_dstack (wrap (d / base s) :: ds) s)).
    assert (D1 : dstack s1 = wrap (d / base s) :: ds) by (destruct s; reflexivity).
    rewrite D1.
    assert (Hq : 0 <= d / base s < 2 ^ Z.of_nat k).
    { split; [apply Z.div_pos; lia|].
      apply Z.div_lt_upper_bound; [lia|].
      rewrite Nat2Z.inj_succ, Z.pow_succ_r in Hrange by lia. nia. }
    pose proof (Z.div_mod d (base s) ltac:(lia)) as DM.
    destruct (Z.eqb_spec (wrap (d / base s)) 0) as [Z0|NZ]; cbn [negb].
    + apply wrap_zero in Z0.
      2:{ split; [lia|]. apply Z.lt_le_trans with (2 ^ Z.of_nat k); [lia|].
          unfold modulus. apply Z.pow_le_mono_r; lia. }
      exists [c]. split.
      { unfold ret. subst s1. rewrite Z0. change (wrap 0) with 0. destruct s; reflexivity. }
      split; [discriminate|]. split; [cbn; lia|].
      intros acc. cbn [accumulate length]. rewrite Dc.
      destruct (Z.leb_spec (base s) (d mod base s));
        [pose proof (Z.mod_pos_bound d (base s) ltac:(lia)); lia|].
      rewrite wrap_step. f_equal. f_equal. change (Z.of_nat 1) with 1. lia.
    + assert (K1 : (1 <= k)%nat).
      { destruct k; [|lia]. exfalso. apply NZ.
        change (2 ^ Z.of_nat 0) with 1 in Hq.
        replace (d / base s) with 0 by lia. reflexivity. }
      assert (B1 : base s1 = base s) by (destruct s; reflexivity).
      assert (P1 : pno s1 = c :: pno s) by (destruct s; reflexivity).
      destruct (IH rounds s1 (d / base s) ds) as (digits & L & Hne & Hlen & Hacc);
        try (rewrite ?B1; assumption); try lia.
      { unfold depth in *. rewrite D1. rewrite Hd in Hdp. exact Hdp. }
      { rewrite P1. cbn [length]. lia. }
      exists (digits ++ [c]). split.
      { rewrite L. subst s1. rewrite <- app_assoc. destruct s; reflexivity. }
      split; [destruct digits; discriminate|].
      split; [rewrite length_app; cbn [length]; lia|].
      intros acc. rewrite accumulate_app. rewrite <- B1, Hacc, B1.
      cbn [accumulate]. rewrite Dc.
      destruct (Z.leb_spec (base s) (d mod base s));
        [pose proof (Z.mod_pos_bound d (base s) ltac:(lia)); lia|].
      rewrite wrap_step. f_equal. f_equal.
      rewrite length_app. cbn [length]. rewrite Nat2Z.inj_add. change (Z.of_nat 1) with 1.
      rewrite Z.pow_add_r by lia. rewrite Z.pow_1_r. lia.
Qed.

(** X19. In a base from 2 to 36 and with 64 free characters in the
    pictured-output buffer, [#s] leaves zero on the stack and puts in
    front of the buffer a non-empty run of digits, most significant
    first, which the digit loop of the number parser reads back in the
    same base as the cell that was converted. *)
Theorem pictured_digits_read_back :
  forall s x ds,
    dstack s = x :: ds -> is_cell x ->
    2 <= base s <= 36 -> depth s <= DSTACK_SIZE ->
    Z.of_nat (length (pno s)) + 64 <= PNO_SIZE ->
    exists digits,
      exec p_pno_digits s = Some (set_pno (digits ++ pno s) (set_dstack (0 :: ds) s))
      /\ digits <> []
      /\ accumulate (base s) digits 0 = Some x.
Proof.
  intros s x ds Hd Hx Hb Hdp Hp.
  assert (U : 0 <= ucell x < 2 ^ Z.of_nat 64).
  { unfold ucell, modulus. apply Z.mod_pos_bound. lia. }
  assert (W : wrap (ucell x) = x) by (rewrite wrap_ucell; apply wrap_id; exact Hx).
  assert (Hd' : dstack s = wrap (ucell x) :: ds) by (rewrite W; exact Hd).
  assert (Hr : (64 < S (Z.to_nat PNO_SIZE))%nat) by (unfold PNO_SIZE; lia).
  assert (Hp' : Z.of_nat (length (pno s)) + Z.of_nat (Nat.max 64 1) <= PNO_SIZE) by lia.
  destruct (pno_digits_loop_spec 64 (S (Z.to_nat PNO_SIZE)) s (ucell x) ds
              Hr Hd' U ltac:(lia) Hb Hdp Hp')
    as (digits & L & Hne & _ & Hacc).
  exists digits. split; [|split; [exact Hne|]].
  - unfold exec, p_pno_digits. rewrite L. reflexivity.
  - specialize (Hacc 0). change (wrap 0) with 0 in Hacc. rewrite Hacc.
    rewrite Z.mul_0_l, Z.add_0_l. rewrite W. reflexivity.
Qed.

Lemma pictured_digits_read_back_witness :
  exists digits,
    exec p_pno_digits x_pno_state
    = Some (set_pno (digits ++ pno x_pno_state) (set_dstack [0] x_pno_state))
    /\ accumulate 16 digits 0 = Some 255.
Proof.
  destruct (pictured_digits_read_back x_pno_state 255 []) as (digits & H1 & _ & H2).
  - reflexivity.
  - unfold is_cell, half. lia.
  - vm_compute. split; discriminate.
  - vm_compute. discriminate.
  - vm_compute. discriminate.
  - exists digits. split; [exact H1|exact H2].
Defined.

(** The conversion loop of [>number] takes the longest run of digits of
    the base. *)
Lemma to_number_loop_spec s b n :
  forall addr dlo,
    0 <= addr -> addr + Z.of_nat n <= MEM_SIZE ->
    exists k v,
      (k <= n)%nat
      /\ to_number_loop n b dlo addr s
         = Some ((v, addr + Z.of_nat k, Z.of_nat (n - k)), s)
      /\ accumulate b (firstn k (chars_of (read_bytes (mem s) addr n))) dlo = Some v
      /\ ((k < n)%nat ->
          accumulate b (firstn (S k) (chars_of (read_bytes (mem s) addr n))) dlo = None).
Proof.
  induction n as [|n IH]; intros addr dlo H0 H1.
  - exists 0%nat, dlo. split; [lia|]. split; [|split; [reflexivity|lia]].
    cbn [to_number_loop]. unfold ret. replace (addr + Z.of_nat 0) with addr by lia. reflexivity.
  - cbn [to_number_loop]. unfold bind, mem_c_fetch.
    rewrite (proj2 (in_bounds_spec addr 1)) by lia.
    cbn [read_bytes chars_of map]. fold (chars_of (read_bytes (mem s) (addr + 1) n)).
    unfold load_byte.
    destruct (digit_of (char_of_byte (mem s addr))) as [d|] eqn:Ed.
    + destruct (Z.leb_spec b d) as [Hbd|Hbd].
      * exists 0%nat, dlo. split; [lia|]. split.
        { unfold ret. replace (addr + Z.of_nat 0) with addr by lia.
          replace (S n - 0)%nat with (S n) by lia. reflexivity. }
        split; [reflexivity|]. intros _. cbn [firstn accumulate]. rewrite Ed.
        destruct (Z.leb_spec b d); [reflexivity|lia].
      * assert (A1 : add addr 1 = addr + 1).
        { apply wrap_id. unfold is_cell, half, MEM_SIZE in *. lia. }
        rewrite A1.
        destruct (IH (addr + 1) (add (mul dlo b) d)) as (k & v & Hk & L & Acc & Stop); try lia.
        exists (S k), v. split; [lia|]. split.
        { rewrite L. replace (addr + Z.of_nat (S k)) with (addr + 1 + Z.of_nat k) by lia.
          replace (S n - S k)%nat with (n - k)%nat by lia. reflexivity. }
        split.
        { cbn [firstn accumulate]. rewrite Ed.
          destruct (Z.leb_spec b d); [lia|]. exact Acc. }
        intros Hlt. cbn [firstn accumulate]. rewrite Ed.
        destruct (Z.leb_spec b d); [lia|]. apply Stop. lia.
    + exists 0%nat, dlo. split; [lia|]. split.
      { unfold ret. replace (addr + Z.of_nat 0) with addr by lia.
        replace (S n - 0)%nat with (S n) by lia. reflexivity. }
      split; [reflexivity|]. intros _. cbn [firstn accumulate]. rewrite Ed. reflexivity.
Qed.

(** X20. [>number] on a string inside the arena converts the longest
    run of leading characters that are digits of the base, accumulating
    onto the low cell as the number parser does; it returns the
    accumulated value, a zero high cell, the address of the first
    character not converted and the count of characters left. *)
Theorem to_number_takes_digits :
  forall s u addr dhi dlo ds,
    dstack s = u :: addr :: dhi :: dlo :: ds ->
    depth s <= DSTACK_SIZE ->
    0 <= u -> 0 <= addr -> addr + u <= MEM_SIZE ->
    let cs := chars_of (read_bytes (mem s) addr (Z.to_nat u)) in
    exists k v,
      0 <= k <= u
      /\ exec p_to_number s = Some (set_dstack (u - k :: addr + k :: 0 :: v :: ds) s)
      /\ accumulate (base s) (firstn (Z.to_nat k) cs) dlo = Some v
      /\ (k < u -> accumulate (base s) (firstn (S (Z.to_nat k)) cs) dlo = None).
Proof.
  intros s u addr dhi dlo ds Hd Hdp Hu Ha Hb cs.
  set (s0 := set_dstack ds s).
  destruct (to_number_loop_spec s0 (base s) (Z.to_nat u) addr dlo Ha ltac:(lia))
    as (k & v & Hk & L & Acc & Stop).
  replace (mem s0) with (mem s) in Acc, Stop by (destruct s; reflexivity).
  exists (Z.of_nat k), v. rewrite Nat2Z.id.
  split; [lia|]. split; [|split; [exact Acc|intros; apply Stop; lia]].
  unfold p_to_number, exec, bind, pop, gets. rewrite Hd. vm_fields.
  replace (dstack (set_dstack (addr :: dhi :: dlo :: ds) s)) with (addr :: dhi :: dlo :: ds)
    by (destruct s; reflexivity). vm_fields.
  replace (dstack (set_dstack (dhi :: dlo :: ds) (set_dstack (addr :: dhi :: dlo :: ds) s)))
    with (dhi :: dlo :: ds) by (destruct s; reflexivity). vm_fields.
  replace (dstack (set_dstack (dlo :: ds) (set_dstack (dhi :: dlo :: ds)
             (set_dstack (addr :: dhi :: dlo :: ds) s))))
    with (dlo :: ds) by (destruct s; reflexivity). vm_fields.
  replace (set_dstack ds (set_dstack (dlo :: ds) (set_dstack (dhi :: dlo :: ds)
             (set_dstack (addr :: dhi :: dlo :: ds) s))))
    with s0 by (destruct s; reflexivity).
  replace (base s0) with (base s) by (destruct s; reflexivity).
  rewrite L. unfold depth in Hdp. rewrite Hd in Hdp. cbn [length] in Hdp.
  unfold push, depth, s0. destruct_vm s. subst.
  repeat (vm_fields; cbn [length];
          match goal with
          | |- context [Z.of_nat ?n <? DSTACK_SIZE] =>
              destruct (Z.ltb_spec (Z.of_nat n) DSTACK_SIZE); [|unfold DSTACK_SIZE in *; lia]
          end).
  vm_fields. destruct (Z.leb_spec u 0).
  - assert (u = 0) by lia. subst u. assert (k = 0%nat) by lia. subst k.
    replace (0 - Z.of_nat 0) with 0 by lia. reflexivity.
  - replace (Z.of_nat (Z.to_nat u - k)) with (u - Z.of_nat k) by lia. reflexivity.
Qed.

Lemma to_number_takes_digits_witness :
  exists k v,
    exec p_to_number x_num_state = Some (set_dstack [3 - k; 64 + k; 0; v] x_num_state)
    /\ (k < 3 ->
        accumulate 10 (firstn (S (Z.to_nat k))
                         (chars_of (read_bytes (mem x_num_state) 64 3))) 0 = None).
Proof.
  destruct (to_number_takes_digits x_num_state 3 64 0 0 []) as (k & v & _ & H1 & _ & H2).
  - reflexivity.
  - vm_compute. discriminate.
  - lia.
  - lia.
  - vm_compute. discriminate.
  - exists k, v. split; [exact H1|exact H2].
Defined.

End NumberFacts.

(** ** Compiling words ([prims.c]) *)

Module CompileFacts.
Import Cell Mem VM Prims Interp Boot Spec Notions.
Import CellFacts MemFacts MonadFacts DictFacts OuterFacts MoreFacts.
Local Open Scope vm_scope.

(** X21. [literal] with room for two cells at HERE pops the top of the
    stack and compiles the token of [lit] followed by the value; [lit]
    run with the instruction pointer on the second cell then pushes that
    value back and steps the instruction pointer to the new HERE. *)
Theorem literal_round_trip :
  forall s x ds,
    dstack s = x :: ds -> depth s <= DSTACK_SIZE ->
    is_cell x -> is_cell (xt_lit s) ->
    0 <= here s -> here s + 2 * CELL <= MEM_SIZE ->
    exists s1,
      exec p_literal s = Some s1
      /\ here s1 = here s + 2 * CELL
      /\ dstack s1 = ds
      /\ load_cell (mem s1) (here s) = xt_lit s
      /\ exec p_lit (set_ip (here s + CELL) s1)
         = Some (set_dstack (x :: ds) (set_ip (here s1) s1)).
Proof.
  intros s x ds Hd Hdp Hx Hl H0 H1. unfold CELL, depth in *.
  destruct_vm s. subst. cbn [length] in Hdp.
  assert (B1 : in_bounds here0 CELL = true) by (apply in_bounds_spec; unfold CELL; lia).
  assert (A1 : add here0 CELL = here0 + 8)
    by (apply add_small, mem_cell; unfold CELL; lia).
  assert (B2 : in_bounds (here0 + 8) CELL = true) by (apply in_bounds_spec; unfold CELL; lia).
  assert (A2 : add (here0 + 8) CELL = here0 + 2 * 8)
    by (rewrite add_small; [unfold CELL; lia|apply mem_cell; unfold CELL; lia]).
  unfold p_literal, p_lit, exec, vm_compile_cell, vm_fetch_ip, bind, gets, mem_store,
    mem_fetch, modify, pop, push, ret, depth.
  vm_fields. rewrite B1. vm_fields. rewrite A1, B2. vm_fields. rewrite A2.
  eexists. split; [reflexivity|]. vm_fields.
  split; [reflexivity|]. split; [reflexivity|]. split.
  - rewrite load_store_other by lia. apply load_store_same. exact Hl.
  - rewrite ?B2. vm_fields. rewrite load_store_same by exact Hx. rewrite ?A2.
    destruct (Z.ltb_spec (Z.of_nat (length ds)) DSTACK_SIZE); [reflexivity|].
    unfold DSTACK_SIZE in *. lia.
Qed.

Lemma literal_round_trip_witness :
  exists s1,
    exec p_literal x_lit_state = Some s1
    /\ exec p_lit (set_ip (here x_lit_state + CELL) s1)
       = Some (set_dstack [7] (set_ip (here s1) s1)).
Proof.
  destruct (literal_round_trip x_lit_state 7 []) as (s1 & H1 & _ & _ & _ & H2).
  - reflexivity.
  - vm_compute. discriminate.
  - unfold is_cell, half. lia.
  - vm_compute. split; [discriminate|reflexivity].
  - vm_compute. discriminate.
  - vm_compute. discriminate.
  - exists s1. split; [exact H1|exact H2].
Defined.

(** X22. Compiling a string literal with room in the arena lays down
    the token of the string-literal word, the length and the characters,
    and advances HERE by two cells and the aligned length; running that
    word and then [type] with the instruction pointer on the length cell
    prints exactly the compiled characters and leaves the instruction
    pointer at the new HERE. *)
Theorem string_literal_round_trip :
  forall s buf,
    let len := Z.of_nat (length buf) in
    0 <= here s -> here s + 2 * CELL + len + CELL <= MEM_SIZE ->
    depth s + 2 <= DSTACK_SIZE ->
    is_cell (xt_slit s) ->
    exists s1,
      exec (compile_string buf) s = Some s1
      /\ here s1 = here s + 2 * CELL + vm_align len
      /\ load_cell (mem s1) (here s) = xt_slit s
      /\ load_cell (mem s1) (here s + CELL) = len
      /\ exec (p_slit ;; p_type) (set_ip (here s + CELL) s1)
         = Some (set_out (out s ++ string_of_list_ascii buf) (set_ip (here s1) s1)).
Proof.
  intros s buf len H0 H1 Hdp Hx. unfold CELL, depth in *.
  assert (Hl : 0 <= len) by (subst len; lia).
  assert (Al : len <= vm_align len < len + 8 /\ vm_align len mod 8 = 0).
  { apply vm_align_spec. unfold MEM_SIZE, half in *. lia. }
  destruct_vm s.
  set (h := here0) in *.
  assert (B1 : in_bounds h CELL = true) by (apply in_bounds_spec; unfold CELL; lia).
  assert (A1 : add h CELL = h + 8) by (apply add_small, mem_cell; unfold CELL; lia).
  assert (B2 : in_bounds (h + 8) CELL = true) by (apply in_bounds_spec; unfold CELL; lia).
  assert (A2 : add (h + 8) CELL = h + 16)
    by (rewrite add_small; [unfold CELL; lia|apply mem_cell; unfold CELL; lia]).
  assert (B3 : in_bounds (h + 16) len = true) by (apply in_bounds_spec; lia).
  assert (A3 : add (h + 16) (vm_align len) = h + 2 * 8 + vm_align len).
  { rewrite add_small; [lia|]. apply mem_cell. lia. }
  assert (Cl : is_cell len) by (apply mem_cell; unfold MEM_SIZE in *; lia).
  unfold compile_string, p_slit, p_type, exec, vm_compile_cell, vm_fetch_ip, print_out, bind,
    gets, mem_store, mem_fetch, mem_write, mem_read, modify, pop, push, ret, depth.
  vm_fields. rewrite B1. vm_fields. rewrite A1, B2. vm_fields. rewrite A2.
  rewrite bytes_of_length. fold len. rewrite B3. vm_fields. rewrite A3.
  eexists. split; [reflexivity|]. vm_fields.
  split; [reflexivity|]. split; [|split].
  - rewrite load_write_other by lia. rewrite load_store_other by lia.
    apply load_store_same. exact Hx.
  - rewrite load_write_other by lia. apply load_store_same. exact Cl.
  - rewrite ?B2. vm_fields. rewrite load_write_other by lia.
    rewrite load_store_same by exact Cl. rewrite ?A2.
    destruct (Z.ltb_spec (Z.of_nat (length dstack0)) DSTACK_SIZE);
      [|unfold DSTACK_SIZE in *; lia].
    vm_fields. cbn [length].
    destruct (Z.ltb_spec (Z.of_nat (S (length dstack0))) DSTACK_SIZE);
      [|unfold DSTACK_SIZE in *; lia].
    vm_fields. destruct (Z.leb_spec 0 len); [|lia]. rewrite ?B3. cbn [andb]. vm_fields.
    subst len. rewrite Nat2Z.id.
    rewrite <- (bytes_of_length buf) at 2. rewrite read_write_same.
    rewrite chars_bytes_chars. rewrite ?A3. reflexivity.
Qed.

Lemma string_literal_round_trip_witness :
  exists s1,
    exec (compile_string ["h"; "i"]%char) boot = Some s1
    /\ exec (p_slit ;; p_type) (set_ip (here boot + CELL) s1)
       = Some (set_out (out boot ++ "hi") (set_ip (here s1) s1)).
Proof.
  destruct (string_literal_round_trip boot ["h"; "i"]%char) as (s1 & H1 & _ & _ & _ & H2).
  - vm_compute. discriminate.
  - vm_compute. discriminate.
  - vm_compute. discriminate.
  - vm_compute. split; [discriminate|reflexivity].
  - exists s1. split; [exact H1|exact H2].
Defined.

(** X23. [if] compiles a conditional branch with an empty target and
    leaves the address of the target cell on the stack; [then], run
    later with that address on top, stores the HERE of that moment in
    the target cell and keeps the branch token; the compiled branch pops
    a flag and continues at the [then] address when the flag is zero and
    just after the target cell otherwise. *)
Theorem if_then_branches :
  forall s,
    0 <= here s -> here s + 2 * CELL <= MEM_SIZE ->
    depth s < DSTACK_SIZE -> is_cell (xt_0branch s) ->
    exists s1,
      exec p_if s = Some s1
      /\ here s1 = here s + 2 * CELL
      /\ dstack s1 = here s + CELL :: dstack s
      /\ load_cell (mem s1) (here s) = xt_0branch s
      /\ forall s2,
           dstack s2 = here s + CELL :: dstack s ->
           here s + 2 * CELL <= here s2 <= MEM_SIZE ->
           load_cell (mem s2) (here s) = xt_0branch s ->
           exists s3,
             exec p_then s2 = Some s3
             /\ dstack s3 = dstack s /\ here s3 = here s2
             /\ load_cell (mem s3) (here s) = xt_0branch s
             /\ load_cell (mem s3) (here s + CELL) = here s2
             /\ forall r flag rest,
                  mem r = mem s3 -> ip r = here s + CELL -> dstack r = flag :: rest ->
                  exists r',
                    exec p_0branch r = Some r'
                    /\ dstack r' = rest
                    /\ ip r' = if flag =? 0 then here s2 else here s + 2 * CELL.
Proof.
  intros s H0 H1 Hdp Hx. unfold CELL, depth in *.
  set (h := here s) in *.
  assert (B1 : in_bounds h CELL = true) by (apply in_bounds_spec; unfold CELL; lia).
  assert (A1 : add h CELL = h + 8) by (apply add_small, mem_cell; unfold CELL; lia).
  assert (B2 : in_bounds (h + 8) CELL = true) by (apply in_bounds_spec; unfold CELL; lia).
  assert (A2 : add (h + 8) CELL = h + 2 * 8)
    by (rewrite add_small; [unfold CELL; lia|apply mem_cell; unfold CELL; lia]).
  exists (set_here (h + 2 * 8)
            (set_mem (store_cell (store_cell (mem s) h (xt_0branch s)) (h + 8) 0)
               (set_dstack (h + 8 :: dstack s) s))).
  split.
  { subst h. destruct_vm s.
    unfold p_if, exec, vm_compile_cell, bind, gets, mem_store, modify, push, depth.
    vm_fields. rewrite B1. vm_fields. rewrite A1.
    destruct (Z.ltb_spec (Z.of_nat (length dstack0)) DSTACK_SIZE); [|lia].
    vm_fields. rewrite B2. vm_fields. rewrite A2. reflexivity. }
  split; [destruct s; reflexivity|]. split; [destruct s; reflexivity|]. split.
  { replace (mem _) with (store_cell (store_cell (mem s) h (xt_0branch s)) (h + 8) 0)
      by (destruct s; reflexivity).
    rewrite load_store_other by lia. apply load_store_same. exact Hx. }
  intros s2 D2 Hh2 M2.
  exists (set_mem (store_cell (mem s2) (h + 8) (here s2)) (set_dstack (dstack s) s2)).
  split.
  { unfold p_then, exec, bind, pop, gets, mem_store. rewrite D2.
    replace (here (set_dstack (dstack s) s2)) with (here s2) by (destruct s2; reflexivity).
    rewrite B2. reflexivity. }
  split; [destruct s2; reflexivity|]. split; [destruct s2; reflexivity|].
  replace (mem (set_mem (store_cell (mem s2) (h + 8) (here s2)) (set_dstack (dstack s) s2)))
    with (store_cell (mem s2) (h + 8) (here s2)) by (destruct s2; reflexivity).
  split; [rewrite load_store_other by lia; exact M2|].
  assert (L2 : load_cell (store_cell (mem s2) (h + 8) (here s2)) (h + 8) = here s2).
  { apply load_store_same, mem_cell. lia. }
  split; [exact L2|].
  intros r flag rest Mr Ir Dr.
  unfold p_0branch, exec, vm_fetch_ip, bind, gets, mem_fetch, modify, ret, pop, when.
  rewrite Ir, B2, Mr, L2, A2.
  replace (dstack (set_ip (h + 2 * 8) r)) with (flag :: rest) by (destruct r; cbn in *; congruence).
  destruct (flag =? 0); eexists; (split; [reflexivity|]); split; destruct r; reflexivity.
Qed.

Lemma if_then_branches_witness :
  exists s1,
    exec p_if boot = Some s1
    /\ here s1 = here boot + 2 * CELL
    /\ dstack s1 = here boot + CELL :: dstack boot.
Proof.
  destruct (if_then_branches boot) as (s1 & H1 & H2 & H3 & _).
  - vm_compute. discriminate.
  - vm_compute. discriminate.
  - vm_compute. reflexivity.
  - vm_compute. split; [discriminate|reflexivity].
  - exists s1. split; [exact H1|split; [exact H2|exact H3]].
Defined.

(** X24. [begin] pushes HERE and compiles nothing; [until], run later
    with that address on top, compiles a conditional branch whose target
    is the [begin] address, so that the compiled branch pops a flag and
    goes back to [begin] when the flag is zero and falls through
    otherwise. *)
Theorem begin_until_loops :
  forall s,
    0 <= here s <= MEM_SIZE -> depth s < DSTACK_SIZE ->
    exists s1,
      exec p_begin s = Some s1
      /\ dstack s1 = here s :: dstack s /\ here s1 = here s /\ mem s1 = mem s
      /\ forall s2,
           dstack s2 = here s :: dstack s ->
           0 <= here s2 -> here s2 + 2 * CELL <= MEM_SIZE ->
           is_cell (xt_0branch s2) ->
           exists s3,
             exec p_until s2 = Some s3
             /\ dstack s3 = dstack s /\ here s3 = here s2 + 2 * CELL
             /\ load_cell (mem s3) (here s2) = xt_0branch s2
             /\ forall r flag rest,
                  mem r = mem s3 -> ip r = here s2 + CELL -> dstack r = flag :: rest ->
                  exists r',
                    exec p_0branch r = Some r'
                    /\ dstack r' = rest
                    /\ ip r' = if flag =? 0 then here s else here s3.
Proof.
  intros s H0 Hdp. unfold CELL, depth in *.
  exists (set_dstack (here s :: dstack s) s). split.
  { unfold p_begin, exec, bind, gets, push, depth.
    destruct (Z.ltb_spec (Z.of_nat (length (dstack s))) DSTACK_SIZE); [reflexivity|lia]. }
  split; [destruct s; reflexivity|]. split; [destruct s; reflexivity|].
  split; [destruct s; reflexivity|].
  intros s2 D2 G0 G1 Hx.
  set (h := here s2) in *.
  assert (B1 : in_bounds h CELL = true) by (apply in_bounds_spec; unfold CELL; lia).
  assert (A1 : add h CELL = h + 8) by (apply add_small, mem_cell; unfold CELL; lia).
  assert (B2 : in_bounds (h + 8) CELL = true) by (apply in_bounds_spec; unfold CELL; lia).
  assert (A2 : add (h + 8) CELL = h + 2 * 8)
    by (rewrite add_small; [unfold CELL; lia|apply mem_cell; unfold CELL; lia]).
  set (s3 := set_here (h + 2 * 8)
               (set_mem (store_cell (store_cell (mem s2) h (xt_0branch s2)) (h + 8) (here s))
                  (set_dstack (dstack s) s2))).
  assert (M3 : mem s3 = store_cell (store_cell (mem s2) h (xt_0branch s2)) (h + 8) (here s))
    by (destruct s2; reflexivity).
  assert (H3 : here s3 = h + 2 * 8) by (destruct s2; reflexivity).
  exists s3. split.
  { subst s3 h. destruct_vm s2. subst.
    unfold p_until, exec, vm_compile_cell, bind, gets, mem_store, modify, pop.
    vm_fields. rewrite B1. vm_fields. rewrite A1, B2. vm_fields. rewrite A2. reflexivity. }
  split; [destruct s2; reflexivity|]. split; [exact H3|]. rewrite M3, H3.
  split; [rewrite load_store_other by lia; apply load_store_same; exact Hx|].
  assert (L2 : load_cell (store_cell (store_cell (mem s2) h (xt_0branch s2)) (h + 8) (here s))
                 (h + 8) = here s).
  { apply load_store_same, mem_cell. lia. }
  intros r flag rest Mr Ir Dr.
  unfold p_0branch, exec, vm_fetch_ip, bind, gets, mem_fetch, modify, ret, pop, when.
  rewrite Ir, B2, Mr, L2, A2.
  replace (dstack (set_ip (h + 2 * 8) r)) with (flag :: rest) by (destruct r; cbn in *; congruence).
  destruct (flag =? 0); eexists; (split; [reflexivity|]); split; destruct r; reflexivity.
Qed.

Lemma begin_until_loops_witness :
  exists s1,
    exec p_begin boot = Some s1
    /\ dstack s1 = here boot :: dstack boot /\ mem s1 = mem boot.
Proof.
  destruct (begin_until_loops boot) as (s1 & H1 & H2 & _ & H3 & _).
  - vm_compute. split; discriminate.
  - vm_compute. reflexivity.
  - exists s1. split; [exact H1|split; [exact H2|exact H3]].
Defined.

End CompileFacts.

(** ** The policy of the outer interpreter ([vm.c]) *)

Module PolicyFacts.
Import Cell Mem VM Prims Interp Boot Spec Notions.
Import CellFacts MemFacts MonadFacts EngineFacts DictFacts InnerFacts OuterFacts MoreFacts
       TokenFacts.
Local Open Scope vm_scope.

(** *** The C tests against the specification's notions *)

Lemma fold_case_tolower c : fold_case c = tolower c.
Proof. destruct c as [[] [] [] [] [] [] [] []]; reflexivity. Qed.

Lemma digit_value_digit_of c : digit_value c = digit_of c.
Proof. destruct c as [[] [] [] [] [] [] [] []]; reflexivity. Qed.

Lemma land_bit f n : 0 <= n -> (Z.land f (2 ^ n) =? 0) = negb (Z.testbit f n).
Proof.
  intros Hn. destruct (Z.testbit f n) eqn:T; cbn [negb].
  - apply Z.eqb_neq. intros E.
    assert (X : Z.testbit (Z.land f (2 ^ n)) n = true).
    { rewrite Z.land_spec, T, Z.pow2_bits_true by lia. reflexivity. }
    rewrite E, Z.bits_0 in X. discriminate.
  - apply Z.eqb_eq. apply Z.bits_inj'. intros m Hm.
    rewrite Z.land_spec, Z.bits_0, Z.pow2_bits_eqb by lia.
    destruct (Z.eqb_spec n m) as [->|]; [rewrite T; reflexivity|apply andb_false_r].
Qed.

Lemma visible_hidden e : visible e <-> is_hidden e = false.
Proof.
  unfold visible, is_hidden, F_HIDDEN. change 64 with (2 ^ 6).
  rewrite land_bit by lia. rewrite negb_involutive. reflexivity.
Qed.

Lemma immediate_flag e : immediate e <-> is_immediate e = true.
Proof.
  unfold immediate, is_immediate, F_IMMEDIATE. change 128 with (2 ^ 7).
  rewrite land_bit by lia. rewrite negb_involutive. reflexivity.
Qed.

Lemma same_name_length a b : same_name a b -> String.length a = String.length b.
Proof.
  unfold same_name. intros H. apply (f_equal (@length ascii)) in H.
  rewrite !length_map in H. rewrite <- !string_length_of_list in H.
  rewrite !string_of_list_ascii_of_string in H. exact H.
Qed.

Lemma strncasecmp_same_name a b :
  String.length a = String.length b ->
  strncasecmp_eq a b (String.length b) = true <-> same_name a b.
Proof.
  unfold same_name. revert b; induction a as [|x a IH]; intros [|y b] Hl;
    try discriminate; cbn.
  - tauto.
  - rewrite andb_true_iff, Ascii.eqb_eq, !fold_case_tolower.
    injection Hl as Hl. rewrite (IH b Hl). split.
    + intros [-> ->]. reflexivity.
    + intros H. inversion H. auto.
Qed.

Lemma entry_matches_spec e nm :
  entry_len e = strlen (name e) ->
  entry_matches e nm = true <-> visible e /\ same_name (name e) nm.
Proof.
  intros Hl. unfold entry_matches. rewrite !andb_true_iff, negb_true_iff.
  rewrite <- visible_hidden, Z.eqb_eq, Hl. unfold strlen. split.
  - intros [[V L] C]. split; [exact V|].
    apply strncasecmp_same_name; [lia|exact C].
  - intros [V S]. pose proof (same_name_length _ _ S) as L.
    split; [split; [exact V|lia]|]. apply strncasecmp_same_name; assumption.
Qed.

(** The search of [vm_find] finds what the latest-first lookup of the
    specification finds. *)
Lemma find_first_match d nm fuel i j :
  (forall k e, d !! k = Some e -> -1 <= link e < Z.of_nat k /\ entry_len e = strlen (name e)) ->
  -1 <= i < Z.of_nat (length d) ->
  (Z.to_nat (i + 1) <= fuel)%nat ->
  first_match d nm i j <-> vm_find_from fuel d nm i = Some j.
Proof.
  intros Hwf. revert i. induction fuel as [|fuel IH]; intros i Hi Hf.
  - assert (i = -1) as -> by lia. cbn. split.
    + intros H. inversion H; subst; [reflexivity|lia|lia].
    + intros H. inversion H; subst. constructor. lia.
  - cbn [vm_find_from]. destruct (Z.ltb_spec i 0) as [L|L].
    + split.
      * intros H. inversion H; subst; [reflexivity|lia|lia].
      * intros H. inversion H; subst. constructor. exact L.
    + destruct (lookup_lt_is_Some_2 d (Z.to_nat i) ltac:(lia)) as [e E].
      rewrite E. destruct (Hwf _ _ E) as [Hk Hl].
      pose proof (entry_matches_spec e nm Hl) as M.
      destruct (entry_matches e nm) eqn:Em.
      * destruct (proj1 M eq_refl) as [V S]. split.
        -- intros H. inversion H; subst; [lia|reflexivity|].
           assert (e0 = e) by congruence. subst e0. tauto.
        -- intros H. inversion H; subst. eapply first_match_here; eauto.
      * assert (N : ~ (visible e /\ same_name (name e) nm)).
        { intros X. apply M in X. discriminate. }
        rewrite <- (IH (link e)) by lia. split.
        -- intros H. inversion H; subst; [lia| |].
           ++ assert (e0 = e) by congruence. subst e0. tauto.
           ++ assert (e0 = e) by congruence. subst e0. assumption.
        -- intros H. eapply first_match_next; eauto.
Qed.

Lemma vm_find_first_match s nm xt :
  dict_wf s ->
  first_match (dict s) nm (latest s) xt <-> vm_find nm s = Some (xt, s).
Proof.
  intros [W1 W2]. unfold vm_find.
  rewrite (find_first_match (dict s) nm (S (length (dict s))) (latest s) xt W2 W1)
    by lia.
  destruct (vm_find_from _ _ _ _); split; intros H; inversion H; reflexivity.
Qed.

(** *** Numbers *)

Lemma accumulate_value b ds a :
  accumulate b ds (wrap a) = option_map wrap (numeral_value b ds a).
Proof.
  revert a; induction ds as [|c ds IH]; intros a; cbn [accumulate numeral_value].
  - reflexivity.
  - rewrite digit_value_digit_of. destruct (digit_of c) as [d|]; [|reflexivity].
    destruct (Z.leb_spec b d); destruct (Z.ltb_spec d b); try lia; [reflexivity|].
    rewrite wrap_step. replace (b * a + d) with (a * b + d) by lia. apply IH.
Qed.

Lemma accumulate_value0 b ds :
  accumulate b ds 0 = option_map wrap (numeral_value b ds 0).
Proof. exact (accumulate_value b ds 0). Qed.

Lemma digit_value_not_special c d :
  digit_value c = Some d ->
  c <> "-"%char /\ c <> "+"%char /\ c <> "$"%char /\ c <> "#"%char /\ c <> "%"%char.
Proof. rewrite digit_value_digit_of. apply digit_not_special. Qed.

Lemma numeral_value_first b c ds acc v :
  numeral_value b (c :: ds) acc = Some v -> exists d, digit_value c = Some d.
Proof. cbn [numeral_value]. destruct (digit_value c); [eauto|discriminate]. Qed.

Lemma split_prefix_selects vbase r b d :
  split_prefix vbase r = (b, d) ->
  exists pfx, r = pfx ++ d /\ prefix_selects vbase pfx d b.
Proof.
  unfold split_prefix, prefix_selects, hex_marked. destruct r as [|c r].
  { intros H; inversion H; subst. exists []. split; [reflexivity|]. left.
    repeat split. intros (x & t & E & _). discriminate. }
  destruct (Ascii.eqb_spec c "$").
  { intros H; inversion H; subst. exists ["$"%char]. split; [reflexivity|tauto]. }
  destruct (Ascii.eqb_spec c "#").
  { intros H; inversion H; subst. exists ["#"%char]. split; [reflexivity|tauto]. }
  destruct (Ascii.eqb_spec c "%").
  { intros H; inversion H; subst. exists ["%"%char]. split; [reflexivity|tauto]. }
  destruct r as [|x [|y r]].
  { intros H; inversion H; subst. exists []. split; [reflexivity|]. left.
    repeat split. intros (x & t & E & _). discriminate. }
  { intros H; inversion H; subst. exists []. split; [reflexivity|]. left.
    repeat split. intros (x' & t & E & _ & T). inversion E; subst. contradiction. }
  destruct (Ascii.eqb_spec c "0"); cbn [andb].
  - destruct (Ascii.eqb_spec x "x"); cbn [orb].
    + intros H; inversion H; subst. exists ["0"%char; "x"%char].
      split; [reflexivity|tauto].
    + destruct (Ascii.eqb_spec x "X").
      * intros H; inversion H; subst. exists ["0"%char; "X"%char].
        split; [reflexivity|tauto].
      * intros H; inversion H; subst. exists []. split; [reflexivity|]. left.
        repeat split. intros (x' & t & E & [X|X] & _); inversion E; subst; contradiction.
  - intros H; inversion H; subst. exists []. split; [reflexivity|]. left.
    repeat split. intros (x' & t & E & _); inversion E; subst; contradiction.
Qed.

Lemma split_prefix_plain vbase c ds d :
  digit_value c = Some d -> ~ hex_marked (c :: ds) ->
  split_prefix vbase (c :: ds) = (vbase, c :: ds).
Proof.
  intros Hd Hx.
  destruct (digit_value_not_special _ _ Hd) as (_ & _ & N1 & N2 & N3).
  unfold split_prefix.
  rewrite (eqb_false _ _ N1), (eqb_false _ _ N2), (eqb_false _ _ N3).
  destruct ds as [|x [|y ds]]; try reflexivity.
  destruct (Ascii.eqb_spec c "0") as [->|]; [|reflexivity]. cbn [andb].
  destruct (Ascii.eqb_spec x "x") as [->|_].
  { exfalso. apply Hx. eexists _, _. split; [reflexivity|]. split; [auto|discriminate]. }
  destruct (Ascii.eqb_spec x "X") as [->|_].
  { exfalso. apply Hx. eexists _, _. split; [reflexivity|]. split; [auto|discriminate]. }
  reflexivity.
Qed.

(** [vm_try_number] accepts the numbers of the specification, all of
    them and nothing else, with their values. *)
Lemma try_number_numeral vbase tok num :
  try_number_lists vbase tok = Some num <-> numeral vbase tok num.
Proof.
  split.
  - unfold try_number_lists.
    destruct tok as [|c s]; [discriminate|].
    destruct (split_sign (c :: s)) as [negative r] eqn:Es.
    destruct (split_prefix vbase r) as [b d] eqn:Ep.
    destruct d as [|d0 d]; [discriminate|].
    rewrite accumulate_value0.
    destruct (numeral_value b (d0 :: d) 0) as [v|] eqn:Ea; [|discriminate].
    cbn [option_map]. intros H; inversion H; subst num.
    destruct (split_sign_spec _ _ _ Es) as (sign & -> & Hs).
    destruct (split_prefix_selects _ _ _ _ Ep) as (pfx & -> & Hp).
    replace (if negative then neg (wrap v) else wrap v)
      with (wrap (if negative then - v else v))
      by (destruct negative; [rewrite neg_wrap|]; reflexivity).
    apply numeral_intro with (b := b); auto; discriminate.
  - intros H.
    destruct H as [negative sign pfx digits b v Hs Hp Hd Ha].
    destruct digits as [|c ds]; [contradiction|].
    destruct (numeral_value_first _ _ _ _ _ Ha) as (d0 & Hd0).
    destruct (digit_value_not_special _ _ Hd0) as (M1 & M2 & _).
    assert (Hpre : split_prefix vbase (pfx ++ c :: ds) = (b, c :: ds)
                   /\ exists p r, pfx ++ c :: ds = p :: r
                                  /\ p <> "-"%char /\ p <> "+"%char).
    { destruct Hp as [(-> & -> & Hx)|[[-> ->]|[[-> ->]|[[-> ->]|[[-> ->]|[-> ->]]]]]];
        cbn [app].
      - split; [eapply split_prefix_plain; eauto|]. exists c, ds. auto.
      - split; [reflexivity|]. eexists _, _. split; [reflexivity|]. split; discriminate.
      - split; [reflexivity|]. eexists _, _. split; [reflexivity|]. split; discriminate.
      - split; [reflexivity|]. eexists _, _. split; [reflexivity|]. split; discriminate.
      - split; [apply split_prefix_0x; [discriminate|auto]|].
        eexists _, _. split; [reflexivity|]. split; discriminate.
      - split; [apply split_prefix_0x; [discriminate|auto]|].
        eexists _, _. split; [reflexivity|]. split; discriminate. }
    destruct Hpre as (Hpx & p & r & Hr & P1 & P2).
    assert (Acc : accumulate b (c :: ds) 0 = Some (wrap v))
      by (rewrite accumulate_value0, Ha; reflexivity).
    unfold try_number_lists.
    destruct Hs as [[-> ->]|[-> [-> | ->]]]; cbn [app].
    + rewrite split_sign_signed by (auto; rewrite Hr; discriminate).
      cbn [Ascii.eqb Bool.eqb]. rewrite Hpx, Acc, neg_wrap. reflexivity.
    + rewrite Hr. rewrite (split_sign_unsigned p r P1 P2). rewrite <- Hr.
      rewrite Hpx, Acc. reflexivity.
    + rewrite split_sign_signed by (auto; rewrite Hr; discriminate).
      cbn [Ascii.eqb Bool.eqb]. rewrite Hpx, Acc. reflexivity.
Qed.

Lemma vm_try_number_numeral s tok num :
  vm_try_number s tok = Some num <-> numeral (base s) tok num.
Proof. rewrite vm_try_number_lists. apply try_number_numeral. Qed.

Lemma vm_try_number_none s tok :
  vm_try_number s tok = None <-> forall num, ~ numeral (base s) tok num.
Proof.
  split.
  - intros H num N. apply vm_try_number_numeral in N. congruence.
  - intros H. destruct (vm_try_number s tok) as [num|] eqn:E; [|reflexivity].
    exfalso. apply (H num). apply vm_try_number_numeral. exact E.
Qed.

(** *** Tokens *)

Lemma space_char_schar c : space_char c -> schar c <= 32.
Proof.
  unfold space_char, schar, byte_of_char. intros H.
  destruct (Z.ltb_spec (Z.of_nat (nat_of_ascii c)) 128); lia.
Qed.

Lemma graphic_schar c : graphic c -> 32 < schar c.
Proof.
  unfold graphic, schar, byte_of_char. intros H.
  destruct (Z.ltb_spec (Z.of_nat (nat_of_ascii c)) 128); lia.
Qed.

Lemma skip_blanks_app blanks rest :
  Forall space_char blanks ->
  match rest with [] => True | c :: _ => 32 < schar c end ->
  skip_blanks (blanks ++ rest) = length blanks.
Proof.
  intros Hb Hr. induction Hb as [|c l Hc _ IH]; cbn [app length].
  - destruct rest as [|c r]; [reflexivity|]. cbn [skip_blanks].
    destruct (Z.leb_spec (schar c) 32); [lia|reflexivity].
  - cbn [skip_blanks]. pose proof (space_char_schar c Hc).
    destruct (Z.leb_spec (schar c) 32); [|lia]. rewrite IH. reflexivity.
Qed.

Lemma scan_word_app tok tail room :
  Forall graphic tok -> (length tok <= room)%nat ->
  tail = [] \/ (exists c r, tail = c :: r /\ space_char c) ->
  scan_word (tok ++ tail) room = tok.
Proof.
  intros Ht. revert room. induction Ht as [|c l Hc _ IH]; intros room Hl Hs; cbn [app].
  - destruct room; [destruct tail; reflexivity|].
    destruct Hs as [->|(c & r & -> & Hc)]; [reflexivity|]. cbn [scan_word].
    pose proof (space_char_schar c Hc). destruct (Z.ltb_spec 32 (schar c)); [lia|reflexivity].
  - cbn [length] in Hl. destruct room as [|room]; [lia|]. cbn [scan_word].
    pose proof (graphic_schar c Hc). destruct (Z.ltb_spec 32 (schar c)); [|lia].
    rewrite IH by (lia || assumption). reflexivity.
Qed.

(** A token of at most 31 graphic characters between white space is the
    token [vm_word] returns. *)
Lemma vm_word_next_token s blanks tok tail :
  next_token s blanks tok tail ->
  Forall graphic tok -> (length tok <= NAME_MAX_LEN)%nat ->
  vm_word s
  = Some (string_of_list_ascii tok,
          set_tib_pos (tib_pos s + length blanks + length tok) s).
Proof.
  intros (Hcut & Hb & Hne & _ & Ht) Hg Hl. unfold vm_word. rewrite Hcut.
  assert (K : skip_blanks (blanks ++ tok ++ tail) = length blanks).
  { apply skip_blanks_app; [exact Hb|].
    destruct tok as [|c r]; [contradiction|]. cbn [app].
    inversion Hg; subst. apply graphic_schar. assumption. }
  rewrite K.
  assert (D : skipn (length blanks) (blanks ++ tok ++ tail) = tok ++ tail).
  { rewrite skipn_app, skipn_all, Nat.sub_diag. reflexivity. }
  rewrite D, (scan_word_app tok tail NAME_MAX_LEN Hg Hl Ht). reflexivity.
Qed.

(** C2 (as stated, refuted). A token of more than 31 characters is cut
    after the 31st: of the one token [0000000000000000000000000000000dup],
    which is no name in the dictionary and no number, the outer
    interpreter pushes the thirty-one zeros as the number 0 and then
    executes [dup]; nothing is reported and nothing aborts. *)
Lemma C2_counterexample : ~ unknown_tokens_abort.
Proof.
  intros H.
  assert (W : dict_wf c2_long_state) by (apply dict_wf_check; vm_compute; reflexivity).
  destruct (H 8%nat c2_long_state c2_long_final [] c2_long_token []) as [D _].
  - reflexivity.
  - split; [reflexivity|]. split; [constructor|]. split; [discriminate|].
    split; [|left; reflexivity].
    unfold c2_long_token, space_char. cbn [list_ascii_of_string].
    repeat (constructor; [vm_compute; lia|]). constructor.
  - apply (vm_find_first_match c2_long_state _ (-1) W). vm_compute. reflexivity.
  - apply vm_try_number_none. vm_compute. reflexivity.
  - vm_compute. reflexivity.
  - vm_compute in D. discriminate D.
Qed.

Lemma string_of_list_nonempty (l : list ascii) :
  l <> [] -> (strlen (string_of_list_ascii l) =? 0) = false.
Proof.
  intros H. apply Z.eqb_neq. unfold strlen. rewrite string_length_of_list.
  destruct l; [contradiction|]. cbn [length]. lia.
Qed.

(** One round of the loop of [vm_interpret_tib] on a token. *)
Lemma interpret_round fuel s0 nm s :
  running s0 = true -> vm_word s0 = Some (nm, s) -> (strlen nm =? 0) = false ->
  vm_interpret_tib (S fuel) s0
  = (fl <- interpret_token fuel nm ;;
     match fl with
     | Continue => vm_interpret_tib fuel
     | Return => ret tt
     end) s.
Proof.
  intros R W N. rewrite vm_interpret_tib_S, R. unfold bind at 1. rewrite W, N.
  reflexivity.
Qed.

(** C2 (amended). For every token of at most 31 graphic ASCII
    characters that stands in the input line between white space (or
    the ends of the line), in a dictionary whose links run backwards and
    whose length fields match the names: the token is what [vm_word]
    cuts, and the lookup (latest first, passing over hidden entries and
    entries named otherwise, upper and lower case alike) has exactly
    one result.  If that is an entry, it is executed when the VM is
    interpreting or the entry is IMMEDIATE, and its XT is compiled at
    HERE otherwise.  If there is none and the token is a number (an
    optional sign, an optional prefix [$], [#], [%], [0x] or [0X], then
    digits of the selected base), its value, as a 64-bit cell, is
    pushed when interpreting and compiled as [(lit)] and the value when
    compiling.  Otherwise the token and a question mark go to stderr,
    the VM aborts and the rest of the line is not interpreted.  In the
    first two cases the interpreter goes on with the rest of the
    line. *)
Theorem C2_outer_interpreter_policy :
  forall (fuel : nat) (s0 : vm) (blanks tok tail : list ascii),
    running s0 = true ->
    dict_wf s0 ->
    next_token s0 blanks tok tail ->
    Forall graphic tok ->
    (length tok <= NAME_MAX_LEN)%nat ->
    let nm := string_of_list_ascii tok in
    let s := set_tib_pos (tib_pos s0 + length blanks + length tok) s0 in
    vm_word s0 = Some (nm, s)
    /\ (exists xt,
          first_match (dict s0) nm (latest s0) xt
          /\ forall xt', first_match (dict s0) nm (latest s0) xt' -> xt' = xt)
    /\ (forall xt e,
          first_match (dict s0) nm (latest s0) xt ->
          0 <= xt -> dict s0 !! Z.to_nat xt = Some e ->
          (visible e /\ same_name (name e) nm)
          /\ (state s0 = 0 \/ immediate e ->
              vm_interpret_tib (S fuel) s0
              = (vm_execute fuel xt ;; vm_interpret_tib fuel) s)
          /\ (state s0 <> 0 -> ~ immediate e ->
              vm_interpret_tib (S fuel) s0
              = (vm_compile_cell xt ;; vm_interpret_tib fuel) s))
    /\ (first_match (dict s0) nm (latest s0) (-1) ->
        (forall num,
            numeral (base s0) tok num ->
            (state s0 = 0 ->
             vm_interpret_tib (S fuel) s0 = (push num ;; vm_interpret_tib fuel) s)
            /\ (state s0 <> 0 ->
                vm_interpret_tib (S fuel) s0
                = (vm_compile_cell (xt_lit s0) ;; vm_compile_cell num ;;
                   vm_interpret_tib fuel) s))
        /\ ((forall num, ~ numeral (base s0) tok num) ->
            exists s',
              vm_interpret_tib (S fuel) s0 = Some (tt, s')
              /\ abort_effect "undefined word"
                   (set_err (err s0 ++ nm ++ " ?" ++ newline) s) s'
              /\ tib s' = tib s0 /\ tib_pos s' = tib_pos s /\ base s' = base s0))
    /\ ((exists num, numeral (base s0) tok num)
        \/ (forall num, ~ numeral (base s0) tok num)).
Proof.
  intros fuel s0 blanks tok tail R Wf Nt Hg Hl nm s.
  pose proof (vm_word_next_token s0 blanks tok tail Nt Hg Hl) as W.
  fold nm in W. fold s in W.
  assert (Ne : (strlen nm =? 0) = false).
  { apply string_of_list_nonempty. destruct Nt as (_ & _ & N & _). exact N. }
  pose proof (interpret_round fuel s0 nm s R W Ne) as Round.
  assert (Ds : dict s = dict s0) by (destruct s0; reflexivity).
  assert (Ls : latest s = latest s0) by (destruct s0; reflexivity).
  assert (Ss : state s = state s0) by (destruct s0; reflexivity).
  assert (Bs : base s = base s0) by (destruct s0; reflexivity).
  assert (Xs : xt_lit s = xt_lit s0) by (destruct s0; reflexivity).
  assert (Wfs : dict_wf s) by (unfold dict_wf; rewrite Ds, Ls; exact Wf).
  assert (Fm : forall xt, first_match (dict s0) nm (latest s0) xt
                          <-> vm_find nm s = Some (xt, s)).
  { intros xt. rewrite <- Ds, <- Ls. apply vm_find_first_match. exact Wfs. }
  assert (Tn : forall num, numeral (base s0) tok num
                           <-> vm_try_number s (list_ascii_of_string nm) = Some num).
  { intros num. unfold nm. rewrite list_ascii_of_string_of_list_ascii.
    rewrite vm_try_number_numeral, Bs. reflexivity. }
  split; [exact W|]. split; [|split; [|split]].
  - destruct Wfs as [W1 W2].
    destruct (vm_find_from_wf (S (length (dict s))) (dict s) nm (latest s)) as (j & F & _).
    + intros k e E. exact (proj1 (W2 k e E)).
    + exact W1.
    + lia.
    + exists j. split.
      * apply Fm. unfold vm_find. rewrite F. reflexivity.
      * intros xt' H. apply Fm in H. unfold vm_find in H. rewrite F in H.
        inversion H. reflexivity.
  - intros xt e F Hx He.
    assert (F' := proj1 (Fm xt) F).
    assert (Da : dict_at xt s = Some (e, s)).
    { apply dict_at_Some; [exact Hx|]. rewrite Ds. exact He. }
    split.
    { destruct Wf as [_ W2]. destruct (W2 _ _ He) as [_ Hlen].
      apply (entry_matches_spec e nm Hlen).
      apply vm_find_result in F'. destruct F' as [_ [F'|(e1 & _ & L1 & M1)]]; [lia|].
      rewrite Ds, He in L1. inversion L1; subst e1. exact M1. }
    assert (Tok : forall b,
               negb (state s0 =? 0) && negb (is_immediate e) = b ->
               interpret_token fuel nm s
               = ((if b then vm_compile_cell xt else vm_execute fuel xt) ;; ret Continue) s).
    { intros b Hb. unfold interpret_token, interpret_word.
      rewrite (bind_eq _ _ _ _ _ F'). destruct (Z.leb_spec 0 xt); [|lia].
      rewrite (bind_eq _ _ _ _ _ Da). rewrite bind_gets, Ss, Hb.
      destruct b; reflexivity. }
    split.
    + intros C. rewrite Round.
      assert (Hb : negb (state s0 =? 0) && negb (is_immediate e) = false).
      { destruct C as [C|C].
        - rewrite C. reflexivity.
        - apply immediate_flag in C. rewrite C. apply andb_false_r. }
      unfold bind at 1. rewrite (Tok false Hb). unfold bind, ret.
      destruct (vm_execute fuel xt s) as [[[] t]|]; reflexivity.
    + intros C1 C2. rewrite Round.
      assert (Hb : negb (state s0 =? 0) && negb (is_immediate e) = true).
      { apply andb_true_iff. split; apply negb_true_iff.
        - apply Z.eqb_neq. exact C1.
        - destruct (is_immediate e) eqn:I; [|reflexivity].
          exfalso. apply C2. apply immediate_flag. exact I. }
      unfold bind at 1. rewrite (Tok true Hb). unfold bind, ret.
      destruct (vm_compile_cell xt s) as [[[] t]|]; reflexivity.
  - intros F. assert (F' := proj1 (Fm (-1)) F). split.
    + intros num N. apply Tn in N.
      assert (Tok : interpret_token fuel nm s
                    = ((if negb (state s0 =? 0)
                        then vm_compile_cell (xt_lit s0) ;; vm_compile_cell num
                        else push num) ;; ret Continue) s).
      { unfold interpret_token, interpret_word.
        rewrite (bind_eq _ _ _ _ _ F'). change (0 <=? -1) with false. cbv iota.
        rewrite bind_gets, N. cbv iota. rewrite bind_gets, Ss.
        destruct (negb (state s0 =? 0)); [|reflexivity].
        unfold bind, gets. rewrite Xs. reflexivity. }
      split.
      * intros C. rewrite Round. unfold bind at 1. rewrite Tok, C.
        cbn [Z.eqb negb]. unfold bind, ret.
        destruct (push num s) as [[[] t]|]; reflexivity.
      * intros C. rewrite Round. unfold bind at 1. rewrite Tok.
        apply Z.eqb_neq in C. rewrite C. cbn [negb]. unfold bind, ret.
        destruct (vm_compile_cell (xt_lit s0) s) as [[[] t]|]; [|reflexivity].
        destruct (vm_compile_cell num t) as [[[] t']|]; reflexivity.
    + intros N.
      assert (N' : vm_try_number s (list_ascii_of_string nm) = None).
      { apply vm_try_number_none. intros num X. apply (N num).
        rewrite <- Bs. unfold nm in X. rewrite list_ascii_of_string_of_list_ascii in X.
        exact X. }
      destruct (AbortFacts.vm_abort_effect "undefined word"
                  (set_err (err s0 ++ nm ++ " ?" ++ newline) s)) as (s' & A & Ef).
      exists s'. split; [|split; [exact Ef|]].
      * rewrite Round. unfold bind at 1. unfold interpret_token, interpret_word.
        rewrite (bind_eq _ _ _ _ _ F'). change (0 <=? -1) with false. cbv iota.
        rewrite bind_gets, N'. cbv iota. unfold print_err. rewrite bind_modify.
        replace (set_err (err s ++ nm ++ " ?" ++ newline) s)
          with (set_err (err s0 ++ nm ++ " ?" ++ newline) s)
          by (destruct s0; reflexivity).
        rewrite (bind_eq _ _ _ _ _ A). reflexivity.
      * unfold vm_abort, print_err, bind, modify in A. inversion A; subst s'.
        destruct s0; repeat split; reflexivity.
  - destruct (vm_try_number s (list_ascii_of_string nm)) as [num|] eqn:E.
    + left. exists num. apply Tn. reflexivity.
    + right. intros num X. apply Tn in X. discriminate X.
Qed.

Lemma C2_outer_interpreter_policy_witness :
  vm_word c2_dup_state = Some ("DUP"%string, set_tib_pos 5%nat c2_dup_state)
  /\ vm_interpret_tib 9 c2_dup_state
     = (vm_execute 8 10 ;; vm_interpret_tib 8) (set_tib_pos 5%nat c2_dup_state).
Proof.
  destruct (C2_outer_interpreter_policy 8 c2_dup_state
              (list_ascii_of_string "  ") (list_ascii_of_string "DUP")
              (list_ascii_of_string " 1"))
    as (W & _ & F & _).
  - reflexivity.
  - apply dict_wf_check. vm_compute. reflexivity.
  - split; [reflexivity|].
    split; [repeat (constructor; [vm_compute; lia|]); constructor|].
    split; [discriminate|].
    split; [repeat (constructor; [vm_compute; lia|]); constructor|].
    right. eexists _, _. split; [reflexivity|]. vm_compute. lia.
  - repeat (constructor; [vm_compute; lia|]). constructor.
  - vm_compute. lia.
  - split; [exact W|].
    destruct (F 10 (mkEntry 9 3 "dup" P_dup 0 (-1))) as (_ & X & _).
    + apply vm_find_first_match; [apply dict_wf_check|]; vm_compute; reflexivity.
    + lia.
    + vm_compute. reflexivity.
    + apply X. left. reflexivity.
Defined.

End PolicyFacts.

(** ** The dictionary across executions ([vm.c], [prims.c], [io.c]) *)

Module DictionaryFacts.
Import Cell Mem VM Prims Interp Boot Spec Notions.
Import CellFacts MemFacts MonadFacts EngineFacts DictFacts InnerFacts FrameFacts OuterFacts.
Local Open Scope vm_scope.





End DictionaryFacts.


(** ** Names in the generated C ([tcc.c]) *)

Module IdentFacts.
Import Cell Mem VM Prims Interp Codegen Spec Notions.
Import CellFacts MemFacts MonadFacts DictFacts OuterFacts MoreFacts.

Lemma sanitize_char_ident c : is_ident_char (sanitize_char c) = true.
Proof. destruct c as [[] [] [] [] [] [] [] []]; reflexivity. Qed.

Lemma sanitize_char_fixed c : is_ident_char c = true -> sanitize_char c = c.
Proof. destruct c as [[] [] [] [] [] [] [] []]; intros H; try reflexivity; discriminate H. Qed.

(** X27. The name that the code generator puts after [word_] in the C
    it writes consists of letters, digits and underscores only, for any
    dictionary name whatever its characters; it has the length of the
    name cut at 60 characters, and a name that is already such an
    identifier of at most 60 characters is kept as it is (sanitizing
    twice changes nothing). *)
Theorem sanitize_gives_identifier :
  forall nm,
    Forall (fun c => is_ident_char c = true) (list_ascii_of_string (sanitize nm))
    /\ String.length (sanitize nm) = Nat.min 60 (String.length nm)
    /\ sanitize (sanitize nm) = sanitize nm
    /\ ((String.length nm <= 60)%nat ->
        Forall (fun c => is_ident_char c = true) (list_ascii_of_string nm) ->
        sanitize nm = nm).
Proof.
  intros nm. unfold sanitize.
  rewrite !list_of_string_of_list, string_length_of_list, length_map, length_take.
  split; [|split; [|split]].
  - induction (take 60 (list_ascii_of_string nm)) as [|c l IH]; cbn [map];
      constructor; [apply sanitize_char_ident|exact IH].
  - rewrite <- (string_length_of_list (list_ascii_of_string nm)).
    rewrite string_of_list_ascii_of_string. reflexivity.
  - f_equal. rewrite firstn_all2 by (rewrite length_map, length_take; lia).
    rewrite map_map. apply map_ext. intros c.
    apply sanitize_char_fixed, sanitize_char_ident.
  - intros Hl Hf.
    rewrite <- (string_of_list_ascii_of_string nm) at 2.
    rewrite <- (string_of_list_ascii_of_string nm) in Hl.
    rewrite string_length_of_list in Hl.
    f_equal. rewrite firstn_all2 by lia.
    induction Hf as [|c l Hc Hf IH]; cbn [map]; [reflexivity|].
    rewrite (sanitize_char_fixed c Hc). f_equal. apply IH.
    cbn [length] in Hl. lia.
Qed.

End IdentFacts.

(** ** The read-eval-print loop ([vm.c]) *)

Module ReplFacts.
Import Cell Mem VM Prims Interp Boot Lifecycle Spec Notions.
Import CellFacts MemFacts MonadFacts EngineFacts DictFacts OuterFacts MoreFacts.
Local Open Scope vm_scope.

(** X28. The read-eval-print loop reads nothing and prints nothing once
    the VM has stopped running; at the end of its input it prints one
    prompt on the error stream, [ok] and a newline when interpreting
    and [compiled] while a definition is open, and returns.  In
    interpret state, with [bye] in the dictionary, a line [bye] stops
    the loop: the rest of the input is left unread and no further
    prompt is printed. *)
Theorem repl_prompts_and_stops_at_bye :
  forall fuel s rest xt e,
    running s = true -> state s = 0 ->
    vm_find "bye" s = Some (xt, s) -> 0 <= xt ->
    dict s !! Z.to_nat xt = Some e -> code e = P_bye ->
    (forall s0 input, running s0 = false -> vm_repl fuel input s0 = Some (input, s0))
    /\ (forall s0, running s0 = true ->
        vm_repl (S fuel) [] s0
        = Some ([], set_err (err s0 ++ (if state s0 =? 0 then "  ok" ++ newline
                                          else "  compiled ")) s0))
    /\ vm_repl (S (S (S fuel))) (list_ascii_of_string ("bye" ++ newline) ++ rest) s
       = Some (rest,
               set_running false
                 (set_w xt
                    (set_tib_pos 3%nat
                       (set_tib (list_ascii_of_string "bye")
                          (set_err (err s ++ "  ok" ++ newline) s))))).
Proof.
  intros fuel s rest xt e Hr Hs Hf H0 He Hc. split; [|split].
  - intros s0 input R0. destruct fuel; cbn [vm_repl]; rewrite R0; reflexivity.
  - intros s0 R0. cbn [vm_repl]. rewrite R0. rewrite bind_gets.
    unfold print_err. rewrite bind_modify.
    destruct (state s0 =? 0); reflexivity.
  - cbn [vm_repl]. rewrite Hr. rewrite bind_gets, Hs. cbn [Z.eqb negb].
    unfold print_err. rewrite bind_modify.
    change (fgets TIB_SIZE (list_ascii_of_string ("bye" ++ newline) ++ rest))
      with (Some (list_ascii_of_string ("bye" ++ newline), rest)).
    cbv iota beta.
    change (chomp (cstring (list_ascii_of_string ("bye" ++ newline))))
      with (list_ascii_of_string "bye").
    rewrite !bind_modify.
    set (s1 := set_tib_pos 0 (set_tib (list_ascii_of_string "bye") (set_err _ s))).
    assert (R1 : running s1 = true) by (rewrite <- Hr; destruct s; reflexivity).
    assert (F1 : vm_find "bye" s1 = Some (xt, s1)).
    { unfold vm_find in *.
      replace (dict s1) with (dict s) by (destruct s; reflexivity).
      replace (latest s1) with (latest s) by (destruct s; reflexivity).
      destruct (vm_find_from _ _ _ _); [|discriminate]. inversion Hf; subst. reflexivity. }
    set (s2 := set_tib_pos 3 s1).
    assert (W : vm_word s1 = Some ("bye"%string, s2)) by (destruct s; reflexivity).
    assert (F2 : vm_find "bye" s2 = Some (xt, s2)).
    { unfold vm_find in *.
      replace (dict s2) with (dict s1) by (destruct s; reflexivity).
      replace (latest s2) with (latest s1) by (destruct s; reflexivity).
      destruct (vm_find_from _ _ _ _); [|discriminate]. inversion F1; subst. reflexivity. }
    assert (D2 : dict s2 !! Z.to_nat xt = Some e) by (rewrite <- He; destruct s; reflexivity).
    assert (S2 : state s2 = 0) by (rewrite <- Hs; destruct s; reflexivity).
    set (s3 := set_running false (set_w xt s2)).
    assert (R3 : running s3 = false) by (destruct s; reflexivity).
    assert (T : interpret_token (S fuel) "bye" s2 = Some (Continue, s3)).
    { unfold interpret_token, interpret_word. rewrite (bind_eq _ _ _ _ _ F2).
      destruct (Z.leb_spec 0 xt); [|lia].
      assert (Da : dict_at xt s2 = Some (e, s2)).
      { unfold dict_at. destruct (Z.ltb_spec xt 0); [lia|]. rewrite D2. reflexivity. }
      rewrite (bind_eq _ _ _ _ _ Da). rewrite bind_gets, S2. cbn [Z.eqb negb andb].
      assert (X : vm_execute (S fuel) xt s2 = Some (tt, s3)).
      { rewrite (vm_execute_plain fuel xt s2 e H0 D2) by (rewrite Hc; reflexivity).
        rewrite Hc. reflexivity. }
      rewrite (bind_eq _ _ _ _ _ X). reflexivity. }
    assert (I : vm_interpret_tib (S (S fuel)) s1 = Some (tt, s3)).
    { rewrite vm_interpret_tib_S. rewrite R1. rewrite (bind_eq _ _ _ _ _ W).
      change (strlen "bye" =? 0) with false. cbv iota.
      rewrite (bind_eq _ _ _ _ _ T). cbv iota.
      rewrite vm_interpret_tib_S, R3. reflexivity. }
    rewrite (bind_eq _ _ _ _ _ I).
    cbn [vm_repl]. rewrite R3. destruct s; reflexivity.
Qed.

Lemma repl_prompts_and_stops_at_bye_witness :
  exists s',
    vm_repl 3 (list_ascii_of_string ("bye" ++ newline ++ "1 2 + .")) boot
    = Some (list_ascii_of_string "1 2 + .", s')
    /\ running s' = false.
Proof.
  destruct (repl_prompts_and_stops_at_bye 0 boot (list_ascii_of_string "1 2 + .") 156
              {| link := 155; flags := 3; name := "bye"; code := P_bye; param := 0;
                 does := -1 |})
    as (_ & _ & H).
  - reflexivity.
  - reflexivity.
  - vm_compute. reflexivity.
  - lia.
  - vm_compute. reflexivity.
  - reflexivity.
  - eexists. split; [exact H|reflexivity].
Defined.

End ReplFacts.
